(* ===== verification/_CoqProject ===== *)
-Q . S2P
Prelude.v
Bytes.v
Network.v
Platform.v
Async.v
Resume.v
TxProbe.v
TxTrace.v
Ring.v
HandshakeProbe.v
TxBuffers.v
TxQueue.v
TxQueueSpec.v
TxQueueRefine.v
TxQueueProps.v
TxSystem.v
Lmac.v
LmacProps.v
Locks.v
KeySlots.v
RxPath.v
Stack.v
StackProps.v
RxRouter.v
Foa.v
Eapol.v
Rsn.v
Bss.v
Sta.v
Scan.v
StaRouter.v
Connect.v
ConnectBuilt.v
ConnectFacts.v
ConnectTrace.v
ConnectProps.v
StaKeys.v
StaRunner.v
StaRunnerFacts.v
StaRunnerProps.v
OffChannelProps.v
StaSystem.v
StaSystemFacts.v
StaSystemProps.v
StaScan.v
StaScanProps.v
Compose.v
StaTask.v
StaTaskFacts.v
StaTaskProps.v
AwdlSync.v
Awdl.v
PeerCache.v
AwdlSession.v
AwdlProps.v
AwdlTypes.v
Interfaces.v
