(* ===== verification/Prelude.v ===== *)
(** * A verification development of FoA (Ferris on Air)

    FoA is an asynchronous 802.11 stack for the ESP32.  The crate [foa] divides
    the radio between virtual interfaces: it owns the pool of transmit buffers and
    the four EDCA queues, the lock on the channel, the hardware key slots, and the
    distribution of received frames.  [foa_sta] is a station interface with
    WPA2, and [foa_awdl] an interface for Apple's peer-to-peer protocol.
    This development models the parts of the three crates that keep state, up to
    each crate as a whole, and proves what their users rely on.

    ** How the code is modelled

    Everything is a pure function on explicit state.  A Rust computation that can
    panic returns an [outcome] ([Done] or [Panic]), a [Result] is a [result]; the
    monads and their notation are stdpp's.  Machine integers are [Z] with their
    width written out ([wrapping], [checked_add], [saturating_add]); a [usize]
    used as an index or a length is a [nat] with checked subtraction.  All
    executors of the stack are single-threaded, so code between two awaits runs as
    one step.  An async function is modelled in one of three ways:
    - split at its awaits: the component is a machine
      [step : state -> action -> option (outcome (state * output))] whose actions
      are the calls, polls and drops of its users in any interleaving ([None]: the
      action makes no sense in that state).  [run] is a sequence of steps,
      [run_invariant] the rule induction over it, [simulation_trace] the comparison
      of two machines;
    - as a function of type [fut] (Async.v): it takes the list of events to come,
      and every await consumes the events up to its own, applying what other tasks
      do in the meantime, so that a function with many awaits reads like the code.
      [triple], [partial] and [foresees] are its program logics;
    - as a poll with fuel (StaRunner.v): a task that loops until all it waits for
      is pending.

    Code outside the repository is a class that states what the code uses of it and,
    in a second class, its documented laws: [FoaConfig] (build configuration),
    [Hal], [Radio], [KeyHal] and [TxDriver] (the driver), [Channel], [Signal],
    [Watch], [PacketQueue] ([embassy_sync], [embassy_net]), [Ethernet],
    [AwdlWire], [StaWire], [ScanWire], [Ieee80211], [RsnCrypto] and [ConnectCrypto]
    (parsing, key derivation), [PeerMap]
    (library maps).  Each has a concrete instance on which the witnesses run.
    The frame parser and the decoder of EAPOL-Key frames are partial: reading the payload
    of a protected frame panics on a CCMP header that is cut off or broken, and decoding
    panics on key data that is short or too long for the scratch buffer.  The laws
    ([Ieee80211Laws]) say that neither does on what the code may rely on
    ([ccmp_header_ok], [key_data_in_bounds]).

    ** The files

    Shared:
    - Prelude.v: this file.  Monads, integers, lists, machines, automation.
    - Bytes.v, Network.v: bytes and their slices; Ethernet frames, addresses, and
      the packet queues of the network stack.
    - Platform.v: the classes of outside code and their instances.
    - Async.v: async functions and triples about them.  Resume.v: which step an async
      function takes at each event, when it is built from awaits.
    - Ring.v: rings of cells addressed by a generation counter.
    The crate [foa]:
    - TxBuffers.v: tx_buffer_management.rs, the slab of buffers and the channel of
      free pointers ([TxBufferManager], [alloc], [drop_buffer]).
    - TxQueue.v: tx_queue.rs, the ring of [TX_BUFFER_COUNT] slots with its 64-bit
      generation counter ([enqueue_frame], [try_receive], [finish],
      [wait_for_completion], the drops of the handles).  TxQueueSpec.v: the queue
      as a machine over interleaved callers and radio, and its specification, a list
      of frames each with its own life, without ring, generations or slots.
      TxQueueRefine.v, TxQueueProps.v: the machine refines the specification, and
      what follows.
    - TxSystem.v: the pool and the four queues together.
    - TxProbe.v, TxTrace.v: tx_probe.rs and [tx_trace_header], the instrumentation
      of the transmit path.
    - Lmac.v, LmacProps.v: lmac/mod.rs and off_channel.rs, the channel lock,
      bring-up, off-channel requests and operations ([lmac_step]).  Locks.v: what an
      interface may do to the lower MAC it shares with others ([mac_action], [mac_step]).
    - KeySlots.v: lmac/crypto.rs, the mask of free key slots.
    - RxPath.v: bg_task.rs and rx_arc_pool.rs, the distribution of received frames
      with and without counted buffers ([rx_step]).
    - Stack.v, StackProps.v: lib.rs, [init], transmission, reception and the channel as
      one machine ([stack_step]): the wiring of interfaces, queues, runners and driver
      endpoints, and beacons.
    - RxRouter.v: util/rx_router.rs, two endpoints that start, change and end
      operations while frames are routed to them ([router_step]).
    - Foa.v: the crate as one machine ([foa_step]), [stack_step] with the key slots, the
      factory addresses and the receive routers.
    - Scan.v: util/operations/scan.rs, with foa_sta/src/operations/scan.rs.
    The crate [foa_sta]:
    - Eapol.v: rsn_retransmit.rs, rsn_initial.rs, rsn_group.rs, the decoding of
      EAPOL-Key frames from raw bytes, their replay counters, and the CCMP framing.
    - Rsn.v: rsn.rs and the parts of runner.rs that use the keys: replay
      protection, group rekeying, packet numbers ([rsn_step]).
    - Bss.v: bss.rs and connection_state.rs, the security configuration of a network
      and the tracker of the connection state with its waits.
    - HandshakeProbe.v: handshake_probe.rs, the flight recorder of an attempt.
    - Sta.v: the decision of the routing task, the data path, and the keys over
      connections ([sta_step]), from runner.rs and control.rs.
    - StaRouter.v: rx_router.rs, the station's instance of the router interface.
    - Connect.v: operations/connect.rs and control.rs, [ConnectionOperation] and the
      calls of the control as async functions.  ConnectBuilt.v: they are built from
      awaits.  ConnectFacts.v, ConnectTrace.v, ConnectProps.v: their triples, what they
      send, and their contracts.
    - StaKeys.v: several stations and the key slots they share ([key_stations_step]).
    - StaRunner.v: runner.rs, the connection task and the routing task.
      StaRunnerFacts.v, StaRunnerProps.v: measures and invariants of a poll, and
      what the task sends, delivers and ends.
    - OffChannelProps.v: requests of other interfaces, answered by a station.
    - StaSystem.v, StaSystemFacts.v, StaSystemProps.v: lib.rs, a station interface as
      [new_sta_interface] makes it, and everything that happens to it.
    - StaScan.v, StaScanProps.v: scans and [connect_by_ssid] as async functions over
      that interface, and the machine with them ([scan_system_step]), where a call is
      one action.
    - StaTask.v, StaTaskFacts.v, StaTaskProps.v: the same interface with calls that wait
      ([station_step]): a call is a task that begins, goes on with each event, and ends.
    The crate [foa_awdl]:
    - AwdlSync.v, Awdl.v: peer.rs, peer_cache.rs, state.rs and the handling of action
      frames in runner/rx.rs.
    - PeerCache.v: the provided methods and the implementations of the peer cache.
    - AwdlSession.v: control.rs, runner/ and lib.rs, the interface as a machine
      ([awdl_step]).  AwdlProps.v: its invariant, sessions, and transmission.
      AwdlTypes.v: the widths of its integers.
    Interfaces on one lower MAC:
    - Compose.v: the interface [MacClient] of a machine that shares the lower MAC, the
      laws it keeps, and the system of such machines ([system_step], [compose_safe]).
    - Interfaces.v: AWDL as such a client, and a station among AWDL interfaces.

    ** How they interact

    TxQueue takes its buffers from TxBuffers, and TxSystem closes the loop: the
    buffers dropped by the queue's steps go back to the pool.  Stack composes
    TxSystem, the channel lock of Lmac, the receive queues of RxPath and the driver's
    endpoints.  Rsn uses the key slots of KeySlots and the decoder of Eapol; Sta
    and Connect drive Rsn, the router of RxRouter through StaRouter, and the tracker
    of Bss; Connect and Scan use the channel lock and the off-channel operations of
    Lmac.  StaSystem puts Connect (the control) and StaRunner (the tasks)
    around one [Station].  Awdl uses AwdlSync, and AwdlSession puts the
    control, the session loop and the three session runners around Awdl's shared resources.
    The machines of a station and of an AWDL interface have what other interfaces do to
    the lower MAC as actions ([mac_step]).  Compose.v closes this: [MacClientLaws] asks of a
    machine that its own steps are, to the others, such actions (its guarantee), and that
    it bears the actions of others (what it relies on), and the interfaces then run side by
    side on one lower MAC.  The station's instance is in StaTaskProps.v, AWDL's in
    Interfaces.v.

    ** What the theorems show

    The crates as a whole: [foa_panics_only_on_carry] (of all calls of the crate foa only
    that of the factory address can panic), [frames_sent_as_written] (what the radio gets is
    what the interfaces enqueued, in order, as it was then),
    [interface_stays_in_order] and [station_stays_in_order] (a station, without and with
    scans, neither panics nor hangs on frames whose CCMP header the parser reads and packets
    that can be sent; [network_stack_input] and [malformed_msdu_blocks] show
    that it does otherwise), [awdl_never_panics] (unless a peer claims the largest
    distance), and [action_frames_typed] (every integer of AWDL stays in its Rust type).
    Interfaces together: [interfaces_stay_in_order] (a station and AWDL interfaces on one
    lower MAC, their steps interleaved also inside the station's calls),
    [interfaces_run_alone] (each lives through a run of its own machine, to which the
    theorems about that machine apply), [awdl_rejects_off_channel] (no scan while AWDL runs).
    Transmit path: [machine_trace_equiv] (refinement), [machine_fifo],
    [own_completion], [completion_retained], [stale_handle_inert], [wake_ups],
    [machine_panics_only], [buffers_conserved], [transmit_never_panics].
    Connecting: [connect_refines] (the whole set-up against its contract),
    [connect_all_or_nothing], [setup_frames], [retries_reach_the_network],
    [connection_taken_over].
    The running connection: [runner_poll_returns], [msdus_sent_in_order],
    [network_stack_input], [connection_end], [off_channel_granted].
    Keys: [packet_numbers_increase] and [keys_never_reinstalled] (no replay, no key
    reinstallation), [sent_packet_numbers] (no nonce reuse), [rsn_keys_sound],
    [initial_counters_increase], [eapol_decoding_total] (the checks before the
    decoder keep it from panicking), [protect_strip_roundtrip], [key_slots_exclusive],
    [stations_never_share_keys] (several stations on one radio).
    Station: [data_frame_delivery] (what is handed over under which key),
    [tracker_no_lost_state], [search_for_bss_spec].  Scans among everything else:
    [station_scan_refines] (what a scan gives back, and that it is the scan of Scan.v),
    [find_ess_sound].
    Lower MAC: [lock_channel_spec], [off_channel_needs_grants],
    [home_channel_tuned].  Receive path: [arc_counts_handles], [live_frame_stable],
    [arc_packet_delivered], [process_packet_spec]; router: [router_exclusive],
    [router_no_lost_completion], [route_frame_spec], [transition_spec].
    AWDL: [slot_start_earliest], [epoch_roundtrip], [elect_master_spec],
    [process_action_frame_cache], [process_action_frame_composed],
    [modify_or_add_peer_spec], [sessions_follow_control], [msdu_transmission],
    [neighbor_discovery_answered], [phy_tx_time_hook_spec], [hw_ipv6_roundtrip].
    Instrumentation: [classifier_recognises_echo], [probe_evidence_kept],
    [flight_recorder], [tx_trace_header_spec].
    Some theorems show how the code departs from its intention:
    [stale_deauthentication], [stale_beacon_found], [malformed_msdu_blocks],
    [off_channel_request_orphaned], [reconnect_races_teardown],
    [keys_outlive_connection], [invalid_channel_keeps_lock],
    [completion_wait_stale], [concurrent_operations],
    [concurrent_start_incompatible], [continuous_scan_never_returns],
    [eligibility_ignores_counters], [mif_time_spec].

    ** Bounds

    Loops that wait are split into steps or consume events, the others are structural,
    except for these.  A poll of the tracker's waits runs with fuel 2, which is
    enough because a poll consumes at most one signal ([wait_for_connection_spec]);
    a poll for a response needs one round per queued frame
    ([receive_connection_response_first]); one pass ends a scan that is not
    continuous, and no fuel ends one that is ([continuous_scan_never_returns]); a
    poll of a stay on a channel takes one round more than the router's queue holds; a
    poll of the connection task needs fuel linear in the queues it may drain and
    at most three rounds of its select ([runner_poll_returns]).
    The generation counters of the transmit queues are checked 64-bit additions, so a
    run of 2^64 frames panics in the model as in the code; [machine_panics_only]
    states it, and the theorems about runs bound the frames.  Likewise the packet
    numbers of a station (2^48; an action uses at most
    [packet_numbers_per_action]) and the data sequence number of an AWDL session
    (2^16 MSDUs).  Clock readings are below 2^62 microseconds.  Arithmetic that a
    theorem shows to stay in range is proved from the ranges of its inputs, never assumed.

    ** What is not modelled

    The bytes of frames that library crates serialise and parse (a frame is what
    the code reads of it or fills in), PHY rates, timers (a timeout is an action
    that may happen at any time), transmutes of lifetimes, log output (the features
    connection-trace and defmt; tx-trace up to its header), and driver set-up.  A
    continuous scan, which never returns, is modelled in Scan.v only.  The system of
    Interfaces.v shares the channel lock and the off-channel requests; the transmit queues
    and received frames of the interfaces are composed in Stack.v, with key slots and
    routers in Foa.v, the key slots of stations in StaKeys.v, and the counts of received
    frames in RxPath.v; scans and deauthentications are not calls of Foa.v but sequences of
    them, in StaScan.v and Connect.v; the system has one station, since the machine of a station has the key
    slots as part of its state.  The station's tasks that
    run while one of its calls waits appear there as the events of that call ([TRunner], [TMac] in
    Connect.v).  The calls that put tx_probe.rs and
    handshake_probe.rs into the transmit path and the connection code only record,
    so the machines of those paths leave them out.  Examples, tests and build
    scripts have no logic of the stack. *)
From stdpp Require Export base gmap list option numbers relations sorting.

(** ** Scope and hint database *)

Declare Scope foa_scope.
Delimit Scope foa_scope with foa.
Create HintDb foa.
Create Rewrite HintDb foa.

(** ** Panics

    Rust code aborts by panicking: [assert!], [expect], [unreachable!], an
    index out of range or, in debug builds, an arithmetic overflow.  A
    computation that can panic returns an [outcome]. *)

Inductive outcome (A : Type) : Type :=
| Done (a : A)
| Panic.
Arguments Done {A} a.
Arguments Panic {A}.

#[export] Instance outcome_ret : MRet outcome := @Done.
#[export] Instance outcome_bind : MBind outcome :=
  fun A B f m => match m with Done a => f a | Panic => Panic end.

(** [assert!(b)]. *)
Definition assert_that (b : bool) : outcome unit :=
  if b then Done tt else Panic.

(** [o.expect(..)], [o.unwrap()], or the indexing [l[i]] once [o] is [l !! i]. *)
Definition expect {A} (o : option A) : outcome A :=
  match o with Some a => Done a | None => Panic end.

(** Unsigned subtraction on [usize]: an underflow panics in debug builds.  The
    theorems show that it never happens, so the wrapping of release builds is
    never observed either. *)
Definition usize_sub (a b : nat) : outcome nat :=
  if decide (b <= a) then Done (a - b) else Panic.

(** The same on [u64]. *)
Definition u64_sub (a b : Z) : outcome Z :=
  if decide (b <= a)%Z then Done (a - b)%Z else Panic.

(** ** [Result] *)

Inductive result (E A : Type) : Type :=
| Ok (a : A)
| Err (e : E).
Arguments Ok {E A} a.
Arguments Err {E A} e.

#[export] Instance result_ret {E} : MRet (result E) := fun A => @Ok E A.
#[export] Instance result_bind {E} : MBind (result E) :=
  fun A B f m => match m with Ok a => f a | Err e => Err e end.

Definition is_ok {E A} (r : result E A) : bool :=
  match r with Ok _ => true | Err _ => false end.

(** [o.ok_or(e)]. *)
Definition ok_or {E A} (o : option A) (e : E) : result E A :=
  match o with Some a => Ok a | None => Err e end.

#[export] Instance result_eq_dec {E A} `{EqDecision E, EqDecision A} :
  EqDecision (result E A).
Proof. solve_decision. Defined.

(** ** [Poll] of a future *)

Inductive poll (A : Type) : Type :=
| PollReady (a : A)
| PollPending.
Arguments PollReady {A} a.
Arguments PollPending {A}.

(** ** Machine integers: a [w]-bit unsigned integer is a [Z] in [0, 2^w) *)

Definition u_max (w : Z) : Z := (2 ^ w - 1)%Z.
Definition in_width (w z : Z) : Prop := (0 <= z < 2 ^ w)%Z.
Definition wrapping (w z : Z) : Z := (z mod 2 ^ w)%Z.
Definition checked_add (w a b : Z) : option Z :=
  if decide (a + b <= u_max w)%Z then Some (a + b)%Z else None.
Definition saturating_add (w a b : Z) : Z := Z.min (a + b) (u_max w).

Lemma checked_add_Some w a b c :
  checked_add w a b = Some c <-> c = (a + b)%Z /\ (a + b <= u_max w)%Z.
Proof. unfold checked_add. case_decide; naive_solver. Qed.

Lemma checked_add_None w a b :
  checked_add w a b = None <-> (u_max w < a + b)%Z.
Proof. unfold checked_add. case_decide; naive_solver lia. Qed.

Lemma saturating_add_bounds w a b :
  (0 <= a)%Z -> (0 <= b)%Z -> (0 <= w)%Z -> in_width w (saturating_add w a b).
Proof.
  intros. unfold in_width, saturating_add, u_max.
  assert (0 < 2 ^ w)%Z by (apply Z.pow_pos_nonneg; lia). lia.
Qed.

Lemma saturating_add_mono w a b :
  (a <= u_max w)%Z -> (0 <= b)%Z -> (a <= saturating_add w a b)%Z.
Proof. unfold saturating_add. lia. Qed.

Lemma wrapping_in_width w z : (0 <= w)%Z -> in_width w (wrapping w z).
Proof. intros. apply Z.mod_pos_bound, Z.pow_pos_nonneg; lia. Qed.

Lemma wrapping_small w z : in_width w z -> wrapping w z = z.
Proof. apply Z.mod_small. Qed.

(** ** Inverting binds *)

Lemma outcome_bind_Done {A B} (f : A -> outcome B) (m : outcome A) b :
  m ≫= f = Done b <-> exists a, m = Done a /\ f a = Done b.
Proof. destruct m; naive_solver. Qed.

Lemma assert_that_Done b u : assert_that b = Done u <-> b = true.
Proof. destruct b, u; naive_solver. Qed.

Lemma expect_Done {A} (o : option A) a : expect o = Done a <-> o = Some a.
Proof. destruct o; naive_solver. Qed.

Lemma usize_sub_Done a b c : usize_sub a b = Done c <-> b <= a /\ c = a - b.
Proof. unfold usize_sub. case_decide; naive_solver. Qed.

Lemma usize_sub_le a b : b <= a -> usize_sub a b = Done (a - b).
Proof. unfold usize_sub. intros. by rewrite decide_True. Qed.

Lemma u64_sub_Done a b c : u64_sub a b = Done c <-> (b <= a)%Z /\ c = (a - b)%Z.
Proof. unfold u64_sub. case_decide; naive_solver. Qed.

Lemma u64_sub_le a b : (b <= a)%Z -> u64_sub a b = Done (a - b)%Z.
Proof. unfold u64_sub. intros. by rewrite decide_True. Qed.

Lemma result_bind_Ok {E A B} (f : A -> result E B) (m : result E A) b :
  m ≫= f = Ok b <-> exists a, m = Ok a /\ f a = Ok b.
Proof. destruct m; naive_solver. Qed.

#[export] Hint Rewrite @outcome_bind_Done @assert_that_Done @expect_Done
  @usize_sub_Done @u64_sub_Done @result_bind_Ok @checked_add_Some @checked_add_None : foa.

(** [iter().map(f)] with a panicking [f]. *)
Lemma mapM_outcome_Done {A B} (f : A -> outcome B) l k :
  mapM f l = Done k <-> Forall2 (fun x y => f x = Done y) l k.
Proof.
  revert k. induction l as [|x l IH]; intros k; simpl.
  - split; [by intros [= <-]|by intros ->%Forall2_nil_inv_l].
  - rewrite outcome_bind_Done. setoid_rewrite outcome_bind_Done. setoid_rewrite IH. split.
    + intros (y & Hy & k' & Hk & [= <-]). by constructor.
    + intros (y & k' & Hy & Hk & ->)%Forall2_cons_inv_l. by exists y; split; [|exists k'].
Qed.

(** ** Tactics of the development *)

(** Open existentials and conjunctions among the hypotheses. *)
Ltac open_hyps :=
  repeat match goal with
  | H : ex _ |- _ => destruct H
  | H : _ /\ _ |- _ => destruct H
  end.

(** Run through the binds of a successful computation. *)
Ltac inv_outcome :=
  repeat (autorewrite with foa in *; open_hyps; simplify_eq/=).

(** Discharge index arithmetic, closing goals on [length] of updated lists. *)
Ltac list_lia :=
  rewrite ?length_insert, ?length_app, ?length_replicate in *; simpl in *; lia.

(** ** Lists *)

Section Lists.
Context {A B : Type}.
Implicit Types (l : list A) (f : A -> list B).

(** Everything an element of [l] owns, in list order. *)
Definition owned f (l : list A) : list B := l ≫= f.

Lemma owned_app f l1 l2 : owned f (l1 ++ l2) = owned f l1 ++ owned f l2.
Proof. apply bind_app. Qed.

(** Replacing one element exchanges what the two elements own. *)
Lemma owned_insert f l i x y :
  l !! i = Some x -> owned f (<[i:=y]> l) ++ f x ≡ₚ owned f l ++ f y.
Proof.
  intros Hi. rewrite <- (take_drop_middle l i x Hi) at 2.
  rewrite insert_take_drop by (by apply lookup_lt_Some in Hi).
  rewrite !owned_app. unfold owned. simpl. solve_Permutation.
Qed.

Lemma owned_nil f l : (forall i x, l !! i = Some x -> f x = []) -> owned f l = [].
Proof.
  induction l as [|x l IH]; intros Hf; [done|].
  unfold owned. simpl. rewrite (Hf 0 x eq_refl). simpl.
  apply IH. intros i. apply (Hf (S i)).
Qed.

Lemma owned_delete f l i x : l !! i = Some x -> owned f l ≡ₚ f x ++ owned f (delete i l).
Proof.
  intros Hi. unfold owned. rewrite (delete_Permutation _ _ _ Hi) at 1. done.
Qed.

Lemma owned_elem_of f l i x b : l !! i = Some x -> b ∈ f x -> b ∈ owned f l.
Proof.
  intros Hi Hb. apply list_elem_of_bind. exists x. split; [done|].
  by eapply list_elem_of_lookup_2.
Qed.

(** Nothing is owned twice. *)
Lemma owned_NoDup f l i x : NoDup (owned f l) -> l !! i = Some x -> NoDup (f x).
Proof. intros Hnd Hi. rewrite (owned_delete f l i x Hi) in Hnd. by apply NoDup_app in Hnd as [? _]. Qed.

Lemma owned_disjoint f l i j x y b :
  NoDup (owned f l) -> l !! i = Some x -> l !! j = Some y -> i <> j ->
  b ∈ f x -> b ∉ f y.
Proof.
  intros Hnd Hi Hj Hne Hx Hy. rewrite (owned_delete f l i x Hi) in Hnd.
  apply NoDup_app in Hnd as (_ & Hd & _). apply (Hd b Hx).
  destruct (decide (j < i)).
  - apply (owned_elem_of f _ j y); [|done]. by rewrite list_lookup_delete_lt.
  - apply (owned_elem_of f _ (j - 1) y); [|done].
    rewrite list_lookup_delete_ge by lia. by replace (S (j - 1)) with j by lia.
Qed.

Lemma owned_cons f x l : owned f (x :: l) = f x ++ owned f l.
Proof. done. Qed.

Lemma owned_length_le f g l :
  (forall x, length (f x) <= length (g x)) -> length (owned f l) <= length (owned g l).
Proof.
  intros Hle. induction l as [|x l IH]; [done|].
  rewrite !owned_cons, !length_app. specialize (Hle x). lia.
Qed.

Lemma lookup_replicate_eq (x : A) n i y :
  replicate n x !! i = Some y -> y = x.
Proof. rewrite lookup_replicate. naive_solver. Qed.
End Lists.

(** Taking one occurrence of an element out of a list. *)
Section RemoveOne.
Context {A : Type} `{EqDecision A}.
Implicit Types (x : A) (l : list A).

Fixpoint remove_one x l : option (list A) :=
  match l with
  | [] => None
  | y :: l => if decide (x = y) then Some l else cons y <$> remove_one x l
  end.

Lemma remove_one_Permutation x l l' : remove_one x l = Some l' -> l ≡ₚ x :: l'.
Proof.
  revert l'. induction l as [|y l IH]; intros l' Hr; simpl in Hr; [done|].
  case_decide as Hx; [by simplify_eq|].
  destruct (remove_one x l) as [l1|]; simplify_eq/=.
  rewrite (IH _ eq_refl). apply Permutation_swap.
Qed.

Lemma remove_one_elem_of x l : x ∈ l -> is_Some (remove_one x l).
Proof.
  induction l as [|y l IH]; intros Hx; [by apply not_elem_of_nil in Hx|].
  simpl. case_decide; [done|]. apply elem_of_cons in Hx as [?|Hx]; [done|].
  destruct (IH Hx) as [l' ->]. done.
Qed.
End RemoveOne.

(** Two generations less than [n] apart that share a residue are equal. *)
Lemma mod_window (n a b : nat) :
  a mod n = b mod n -> a <= b -> b < a + n -> a = b.
Proof.
  intros Hm Hle Hlt.
  assert (n <> 0) by lia.
  pose proof (Nat.div_mod_eq a n). pose proof (Nat.div_mod_eq b n).
  assert (b / n = a / n) by nia. nia.
Qed.

(** ** Runs: actions through a step function that may refuse or panic

    [step s a = None]: the action is impossible in [s]. *)

Section Run.
Context {St Act Out : Type}.
Context (step : St -> Act -> option (outcome (St * Out))).

Fixpoint run (s : St) (acts : list Act) : option (outcome (St * list Out)) :=
  match acts with
  | [] => Some (Done (s, []))
  | a :: acts =>
      match step s a with
      | Some (Done (s', o)) =>
          match run s' acts with
          | Some (Done (s'', os)) => Some (Done (s'', o :: os))
          | r => r
          end
      | Some Panic => Some Panic
      | None => None
      end
  end.

Lemma run_nil s s' os : run s [] = Some (Done (s', os)) <-> s' = s /\ os = [].
Proof. simpl. naive_solver. Qed.

Lemma run_cons s a acts s' os :
  run s (a :: acts) = Some (Done (s', os)) <->
  exists s1 o os', step s a = Some (Done (s1, o)) /\
    run s1 acts = Some (Done (s', os')) /\ os = o :: os'.
Proof.
  simpl. split.
  - destruct (step s a) as [[[s1 o]|]|]; [|done..].
    destruct (run s1 acts) as [[[s2 os2]|]|] eqn:Hr; [|done..].
    intros [= <- <-]. eauto 6.
  - intros (s1 & o & os' & -> & -> & ->). done.
Qed.

Lemma run_app s l1 l2 s' os :
  run s (l1 ++ l2) = Some (Done (s', os)) <->
  exists s1 os1 os2, run s l1 = Some (Done (s1, os1)) /\
    run s1 l2 = Some (Done (s', os2)) /\ os = os1 ++ os2.
Proof.
  revert s os. induction l1 as [|a l1 IH]; intros s os; simpl app.
  - setoid_rewrite run_nil. split.
    + intros Hr. by exists s, [], os.
    + intros (s1 & os1 & os2 & [-> ->] & Hr & ->). done.
  - setoid_rewrite run_cons. setoid_rewrite IH. split.
    + intros (s1 & o & os' & Hs & (s2 & os1 & os2 & Hr & Hr2 & ->) & ->).
      exists s2, (o :: os1), os2. eauto 10.
    + intros (s2 & ? & os2 & (s1 & o & os1 & Hs & Hr & ->) & Hr2 & ->).
      exists s1, o, (os1 ++ os2). eauto 10.
Qed.

Lemma run_snoc s acts a s' os :
  run s (acts ++ [a]) = Some (Done (s', os)) <->
  exists s1 os1 o, run s acts = Some (Done (s1, os1)) /\
    step s1 a = Some (Done (s', o)) /\ os = os1 ++ [o].
Proof.
  rewrite run_app. setoid_rewrite run_cons. setoid_rewrite run_nil. split.
  - intros (s1 & os1 & os2 & Hr & (s2 & o & os' & Hs & [-> ->] & ->) & ->). eauto 6.
  - intros (s1 & os1 & o & Hr & Hs & ->). exists s1, os1, [o]. eauto 10.
Qed.

(** An invariant of the state, the actions so far and the outputs so far. *)
Lemma run_invariant (P : St -> list Act -> list Out -> Prop) s :
  P s [] [] ->
  (forall s1 acts os a s2 o, P s1 acts os -> step s1 a = Some (Done (s2, o)) ->
     P s2 (acts ++ [a]) (os ++ [o])) ->
  forall acts s' os, run s acts = Some (Done (s', os)) -> P s' acts os.
Proof.
  intros H0 Hstep acts. induction acts as [|a acts IH] using rev_ind;
    intros s' os Hr.
  - apply run_nil in Hr as [-> ->]. done.
  - apply run_snoc in Hr as (s1 & os1 & o & Hr & Hs & ->). eauto.
Qed.

(** A machine whose invariant excludes panics never panics. *)
Lemma run_no_panic (P : St -> Prop) s acts :
  P s ->
  (forall s1 a, P s1 -> step s1 a <> Some Panic) ->
  (forall s1 a s2 o, P s1 -> step s1 a = Some (Done (s2, o)) -> P s2) ->
  run s acts <> Some Panic.
Proof.
  intros Hs Hsafe Hpres. revert s Hs. induction acts as [|a acts IH]; intros s Hs; [done|].
  simpl. specialize (Hsafe s a Hs).
  destruct (step s a) as [[[s1 o]|]|] eqn:Ha; [|done..].
  specialize (IH s1 (Hpres _ _ _ _ Hs Ha)).
  by destruct (run s1 acts) as [[[]|]|].
Qed.

Definition trace_of (r : option (outcome (St * list Out)))
  : option (outcome (list Out)) :=
  match r with
  | Some (Done (_, os)) => Some (Done os)
  | Some Panic => Some Panic
  | None => None
  end.
End Run.

(** Step-wise agreement of two machines gives equal traces. *)
Section Simulation.
Context {St Tt Act Out : Type}.
Context (step_s : St -> Act -> option (outcome (St * Out))).
Context (step_t : Tt -> Act -> option (outcome (Tt * Out))).
Context (R : St -> Tt -> Prop).

Definition steps_agree (r : option (outcome (St * Out))) (r' : option (outcome (Tt * Out)))
  : Prop :=
  match r, r' with
  | None, None => True
  | Some Panic, Some Panic => True
  | Some (Done (s, o)), Some (Done (t, o')) => o = o' /\ R s t
  | _, _ => False
  end.

Hypothesis simulation : forall s t a, R s t -> steps_agree (step_s s a) (step_t t a).

Lemma simulation_run s t acts s' os :
  R s t -> run step_s s acts = Some (Done (s', os)) ->
  exists t', run step_t t acts = Some (Done (t', os)) /\ R s' t'.
Proof.
  revert s t os. induction acts as [|a acts IH]; intros s t os HR.
  - rewrite run_nil. intros [-> ->]. eauto.
  - rewrite run_cons. intros (s1 & o & os' & Hs & Hr & ->).
    pose proof (simulation s t a HR) as Hsim. rewrite Hs in Hsim. simpl in Hsim.
    destruct (step_t t a) as [[[t1 o']|]|] eqn:Ht; try done.
    destruct Hsim as [-> HR1]. destruct (IH s1 t1 os' HR1 Hr) as (t' & Hr' & HR').
    exists t'. split; [|done]. apply run_cons. eauto 6.
Qed.

Lemma simulation_trace s t acts :
  R s t -> trace_of (run step_s s acts) = trace_of (run step_t t acts).
Proof.
  revert s t. induction acts as [|a acts IH]; intros s t HR; [done|]. simpl.
  pose proof (simulation s t a HR) as Hsim.
  destruct (step_s s a) as [[[s1 o]|]|], (step_t t a) as [[[t1 o']|]|];
    simpl in Hsim; try done.
  destruct Hsim as [-> HR1]. specialize (IH s1 t1 HR1).
  destruct (run step_s s1 acts) as [[[]|]|], (run step_t t1 acts) as [[[]|]|];
    naive_solver.
Qed.
End Simulation.
