(* ===== verification/Bytes.v ===== *)
(** * Bytes: Rust slices and byte order

    A [&[u8]] is a list of bytes, a byte a [Z] in [0, 256).  Indexing and slicing
    with brackets panic out of range; [get] returns [None].  The words are read in
    both byte orders. *)
From S2P Require Import Prelude.

(** ** Slices *)

(** [l[i]], [l[a..b]] and [l.get(a..b)]. *)
Definition byte_at (l : list Z) (i : nat) : outcome Z := expect (l !! i).
Definition slice (l : list Z) (a b : nat) : outcome (list Z) :=
  if decide (a <= b /\ b <= length l) then Done (take (b - a) (drop a l)) else Panic.
Definition get_range (l : list Z) (a b : nat) : option (list Z) :=
  if decide (a <= b /\ b <= length l) then Some (take (b - a) (drop a l)) else None.

(** [l.copy_within(a..b, d)]. *)
Definition copy_within (l : list Z) (a b d : nat) : outcome (list Z) :=
  src ← slice l a b;
  if decide (d + (b - a) <= length l)
  then mret (take d l ++ src ++ drop (d + (b - a)) l) else Panic.

(** [u16::from_be_bytes([x, y])]; a [u64] from bytes, either way round. *)
Definition u16_be (x y : Z) : Z := (x * 256 + y)%Z.
Definition u64_be (bytes : list Z) : Z := foldl (fun acc b => (acc * 256 + b)%Z) 0%Z bytes.
Definition u64_le (bytes : list Z) : Z := u64_be (rev bytes).

Lemma byte_at_Done (l : list Z) i : i < length l -> exists b, byte_at l i = Done b.
Proof. intros [b Hb]%lookup_lt_is_Some_2. exists b. unfold byte_at. by rewrite Hb. Qed.

Lemma slice_Done (l : list Z) a b :
  a <= b -> b <= length l -> slice l a b = Done (take (b - a) (drop a l)).
Proof. intros. unfold slice. by rewrite decide_True. Qed.

(** Read the bytes of a slice known to be long enough. *)
Ltac read_bytes :=
  repeat match goal with
  | |- context [byte_at ?l ?i] =>
      let b := fresh "b" in
      destruct (byte_at_Done l i) as [b ->]; [lia|]; simpl
  end.

(** ** Ranges and concatenations *)

Lemma get_range_Some (l : list Z) a b r :
  get_range l a b = Some r <->
  exists p s, l = p ++ r ++ s /\ length p = a /\ a + length r = b.
Proof.
  unfold get_range. split.
  - case_decide as Hd; [|done]. destruct Hd as [Hab Hb]. intros [= <-].
    exists (take a l), (drop b l). rewrite length_take, length_take, length_drop.
    split; [|lia]. rewrite <- (take_drop a l) at 1. f_equal.
    rewrite <- (take_drop (b - a) (drop a l)) at 1. f_equal.
    rewrite drop_drop. f_equal. lia.
  - intros (p & s & -> & <- & <-). rewrite decide_True by (rewrite !length_app; lia).
    rewrite drop_app_length. f_equal.
    replace (length p + length r - length p) with (length r) by lia. apply take_app_length.
Qed.

Lemma get_range_app (p r s : list Z) a b :
  length p = a -> a + length r = b -> get_range (p ++ r ++ s) a b = Some r.
Proof. intros. apply get_range_Some. eauto. Qed.

Lemma get_range_length (l : list Z) a b r :
  get_range l a b = Some r -> length r = b - a /\ a <= b <= length l.
Proof.
  intros (p & s & -> & <- & <-)%get_range_Some. rewrite !length_app. lia.
Qed.

Lemma get_range_None (l : list Z) a b :
  get_range l a b = None <-> ~ (a <= b <= length l).
Proof. unfold get_range. case_decide; naive_solver. Qed.

Lemma get_range_bytes (l : list Z) a b r P :
  Forall P l -> get_range l a b = Some r -> Forall P r.
Proof.
  intros HP (p & s & -> & _)%get_range_Some. by apply Forall_app in HP as [_ [? _]%Forall_app].
Qed.

(** A byte: an element of [0, 256). *)
Definition is_byte (b : Z) : Prop := (0 <= b < 256)%Z.
#[export] Instance is_byte_dec b : Decision (is_byte b).
Proof. unfold is_byte. apply _. Defined.

Lemma u16_be_bounds x y : is_byte x -> is_byte y -> (0 <= u16_be x y < 65536)%Z.
Proof. unfold is_byte, u16_be. lia. Qed.

Lemma get_range_app_l (l s : list Z) a b :
  b <= length l -> get_range (l ++ s) a b = get_range l a b.
Proof.
  intros Hb. unfold get_range. rewrite length_app.
  destruct (decide (a <= b)); [|by rewrite !decide_False by lia].
  rewrite !decide_True by lia. f_equal. rewrite drop_app_le by lia.
  rewrite take_app_le; [done|]. rewrite length_drop. lia.
Qed.

Lemma get_range_to_end (l : list Z) a r :
  get_range l a (length l) = Some r <-> exists p, l = p ++ r /\ length p = a.
Proof.
  rewrite get_range_Some. split.
  - intros (p & s & -> & <- & Hl). rewrite !length_app in Hl.
    assert (s = []) as -> by (apply nil_length_inv; lia). rewrite app_nil_r. eauto.
  - intros (p & -> & <-). exists p, []. rewrite app_nil_r, length_app. eauto.
Qed.

(** A list that is long enough has a prefix of any length. *)
Lemma split_at {A} n (l : list A) :
  n <= length l -> exists p s, l = p ++ s /\ length p = n.
Proof. exists (take n l), (drop n l). rewrite take_drop, length_take. split; [done|lia]. Qed.

(** Name the elements of a list of known length. *)
Ltac name_elements l H :=
  repeat (destruct l as [|? l]; [done|simpl in H; apply Nat.succ_inj in H]);
  apply nil_length_inv in H; subst l.

Lemma Forall_eq_replicate {A} (x : A) l : Forall (eq x) l <-> l = replicate (length l) x.
Proof.
  split.
  - induction 1 as [|y l <- _ IH]; [done|]. simpl. by rewrite <- IH.
  - intros ->. apply Forall_forall. intros y Hy. apply elem_of_replicate in Hy. naive_solver.
Qed.
