(* ===== verification/Network.v ===== *)
(** * The network stack's side: Ethernet frames and the queues of packets

    [embassy_net_driver_channel] gives each direction a ring of packet buffers: the
    driver looks at the oldest packet to transmit and takes it off when it is done
    ([tx_buf], [tx_done]), and fills a free buffer with a received packet
    ([try_rx_buf], [rx_done]).  [PacketQueue] is that interface and [list_packets] an
    instance; the parsing of Ethernet frames is a parameter. *)
From S2P Require Import Prelude Bytes.

(** ** Frames *)

Record EthernetFrame : Type := MkEthernetFrame {
  eth_dst : list Z;
  eth_src : list Z;
  ethertype : Z;
  eth_payload : list Z;
}.

#[export] Instance EthernetFrame_eq_dec : EqDecision EthernetFrame.
Proof. solve_decision. Defined.

Definition ETHERNET_HEADER_LEN : nat := 14.
Definition ethernet_frame_len (f : EthernetFrame) : nat :=
  ETHERNET_HEADER_LEN + length (eth_payload f).

Class Ethernet : Type := {
  is_multicast : list Z -> bool;
  parse_ethernet : list Z -> option EthernetFrame;
}.

(** Ethernet II as it is on the wire. *)
#[export] Instance plain_ethernet : Ethernet := {
  is_multicast := fun a => Z.odd (default 0%Z (a !! 0));
  parse_ethernet := fun b => if decide (14 <= length b)
    then Some (MkEthernetFrame (take 6 b) (take 6 (drop 6 b))
           (u16_be (default 0%Z (b !! 12)) (default 0%Z (b !! 13))) (drop 14 b)) else None;
}.

(** ** Addresses (foa/src/util/mod.rs) *)

(** [bytes]: what the random number generator gives. *)
Definition random_mac_address (bytes : list Z) : list Z :=
  alter (fun b => Z.lor (Z.land b (Z.lnot 1)) 2) 0 bytes.

(** The address of a station, not of a group, and not one of a manufacturer. *)
Lemma random_mac_address_bits bytes b :
  bytes !! 0 = Some b ->
  exists b', random_mac_address bytes !! 0 = Some b' /\ Z.testbit b' 0 = false /\ Z.testbit b' 1 = true /\
    forall n, (2 <= n)%Z -> Z.testbit b' n = Z.testbit b n.
Proof.
  intros Hb. unfold random_mac_address. rewrite list_lookup_alter_eq, Hb. eexists. split; [done|].
  assert (forall n, (0 <= n)%Z -> Z.testbit (Z.lor (Z.land b (Z.lnot 1)) 2) n =
    Z.testbit b n && negb (Z.eqb 0 n) || Z.eqb 1 n) as Hbit.
  { intros n Hn. rewrite Z.lor_spec, Z.land_spec, Z.lnot_spec by done.
    change 1%Z with (2 ^ 0)%Z at 1. change 2%Z with (2 ^ 1)%Z at 2.
    by rewrite !Z.pow2_bits_eqb by lia. }
  rewrite !Hbit by lia. split_and!; [by rewrite andb_false_r|by rewrite orb_true_r|].
  intros n Hn. rewrite Hbit by lia.
  destruct (Z.eqb_spec 0 n), (Z.eqb_spec 1 n); [lia..|]. by rewrite andb_true_r, orb_false_r.
Qed.

(** ** Packet queues *)

Class PacketQueue (Q : Type -> Type) : Type := {
  pq_new : forall {T}, nat -> Q T;
  (** The oldest packet, which stays in the queue. *)
  pq_front : forall {T}, Q T -> option T;
  pq_done : forall {T}, Q T -> Q T;
  pq_has_room : forall {T}, Q T -> bool;
  pq_push : forall {T}, Q T -> T -> Q T;
}.

Class PacketQueueLaws (Q : Type -> Type) `{PacketQueue Q} : Type := {
  pq_contents : forall {T}, Q T -> list T;
  pq_capacity : forall {T}, Q T -> nat;
  pq_new_contents : forall T n, pq_contents (pq_new (T := T) n) = [];
  pq_new_capacity : forall T n, pq_capacity (pq_new (T := T) n) = n;
  pq_front_contents : forall T (q : Q T), pq_front q = head (pq_contents q);
  pq_done_contents : forall T (q : Q T), pq_contents (pq_done q) = tail (pq_contents q);
  pq_done_capacity : forall T (q : Q T), pq_capacity (pq_done q) = pq_capacity q;
  pq_room_contents : forall T (q : Q T),
    pq_has_room q = bool_decide (length (pq_contents q) < pq_capacity q);
  pq_push_contents : forall T (q : Q T) x, pq_has_room q = true ->
    pq_contents (pq_push q x) = pq_contents q ++ [x];
  pq_push_capacity : forall T (q : Q T) x, pq_capacity (pq_push q x) = pq_capacity q;
}.

#[export] Hint Rewrite @pq_new_contents @pq_new_capacity @pq_front_contents @pq_done_contents
  @pq_done_capacity @pq_room_contents @pq_push_capacity : foa.

Record list_packets (T : Type) : Type := ListPackets { lp_items : list T; lp_capacity : nat }.
Arguments ListPackets {T} _ _.
Arguments lp_items {T} _.
Arguments lp_capacity {T} _.

#[export] Instance list_packet_queue : PacketQueue list_packets := {
  pq_new := fun T n => ListPackets [] n;
  pq_front := fun T q => head (lp_items q);
  pq_done := fun T q => ListPackets (tail (lp_items q)) (lp_capacity q);
  pq_has_room := fun T q => bool_decide (length (lp_items q) < lp_capacity q);
  pq_push := fun T q x => ListPackets (lp_items q ++ [x]) (lp_capacity q);
}.

#[export] Instance list_packet_laws : PacketQueueLaws list_packets.
Proof. by refine {| pq_contents := @lp_items; pq_capacity := @lp_capacity |}. Defined.

Lemma tail_drop {A} k (l : list A) : tail (drop k l) = drop (S k) l.
Proof. revert l. induction k as [|k IH]; intros [|x l]; simpl; [done|by rewrite drop_0|done|apply IH]. Qed.
