(* ===== verification/Platform.v ===== *)
(** * Platform: what the crates take from outside the repository

    - [FoaConfig]: the build-time configuration of [foa] (foa_config.yml, read
      through [esp_config_int!] in foa/src/lib.rs).
    - [Hal]: the opaque parameter and error types of [esp_wifi_hal].
    - [Channel], [ChannelLaws]: the bounded FIFO channel of [embassy_sync], by
      its documented contract; [Signal], [SignalLaws]: its one-value signal;
      [Watch], [WatchLaws]: its broadcast cell.

    The components are proved against the interfaces; [list_chan],
    [option_signal] and [option_watch] show that the laws can hold and let the
    examples compute. *)
From S2P Require Import Prelude.

(** ** Build configuration *)

(** Every option carries the [positive_integer] validator of foa_config.yml. *)
Class FoaConfig : Type := {
  RX_BUFFER_COUNT : nat;
  RX_QUEUE_LEN : nat;
  TX_BUFFER_COUNT : nat;
  RX_BUFFER_COUNT_pos : 0 < RX_BUFFER_COUNT;
  RX_QUEUE_LEN_pos : 0 < RX_QUEUE_LEN;
  TX_BUFFER_COUNT_pos : 0 < TX_BUFFER_COUNT;
}.

(** The size of a [TxBuffer]. *)
Definition TX_BUFFER_SIZE : nat := 1600.

(** The defaults of foa_config.yml. *)
Program Definition default_config : FoaConfig :=
  {| RX_BUFFER_COUNT := 8; RX_QUEUE_LEN := 2; TX_BUFFER_COUNT := 8 |}.
Solve All Obligations with (simpl; lia).

(** A configuration with three TX buffers, not a power of two. *)
Program Definition small_config : FoaConfig :=
  {| RX_BUFFER_COUNT := 2; RX_QUEUE_LEN := 2; TX_BUFFER_COUNT := 3 |}.
Solve All Obligations with (simpl; lia).

(** ** Types of the Wi-Fi driver *)

Class Hal : Type := {
  TxPlcpParameters : Type;
  TxMacParameters : Type;
  TxPhyRate : Type;
  TxError : Type;
}.

Definition unit_hal : Hal :=
  {| TxPlcpParameters := unit; TxMacParameters := unit; TxPhyRate := unit;
     TxError := unit |}.

(** ** [embassy_sync::channel::Channel] *)

Class Channel (Ch : Type -> Type) : Type := {
  ch_new : forall {T}, nat -> Ch T;
  (** [None] is [TrySendError::Full]. *)
  ch_try_send : forall {T}, Ch T -> T -> option (Ch T);
  (** [None] is [TryReceiveError::Empty], on which [receive] stays pending. *)
  ch_try_receive : forall {T}, Ch T -> option (T * Ch T);
  ch_clear : forall {T}, Ch T -> Ch T;
  ch_len : forall {T}, Ch T -> nat;
}.

Class ChannelLaws (Ch : Type -> Type) `{Channel Ch} : Type := {
  ch_contents : forall {T}, Ch T -> list T;
  ch_capacity : forall {T}, Ch T -> nat;
  ch_new_contents : forall T n, ch_contents (ch_new (T := T) n) = [];
  ch_new_capacity : forall T n, ch_capacity (ch_new (T := T) n) = n;
  ch_try_send_full : forall T (c : Ch T) x,
    ch_try_send c x = None <-> ch_capacity c <= length (ch_contents c);
  ch_try_send_contents : forall T (c : Ch T) x c',
    ch_try_send c x = Some c' -> ch_contents c' = ch_contents c ++ [x];
  ch_try_send_capacity : forall T (c : Ch T) x c',
    ch_try_send c x = Some c' -> ch_capacity c' = ch_capacity c;
  ch_try_receive_empty : forall T (c : Ch T),
    ch_try_receive c = None <-> ch_contents c = [];
  ch_try_receive_contents : forall T (c : Ch T) x c',
    ch_try_receive c = Some (x, c') -> ch_contents c = x :: ch_contents c';
  ch_try_receive_capacity : forall T (c : Ch T) x c',
    ch_try_receive c = Some (x, c') -> ch_capacity c' = ch_capacity c;
  ch_clear_contents : forall T (c : Ch T), ch_contents (ch_clear c) = [];
  ch_clear_capacity : forall T (c : Ch T),
    ch_capacity (ch_clear c) = ch_capacity c;
  ch_len_contents : forall T (c : Ch T), ch_len c = length (ch_contents c);
}.

#[export] Hint Rewrite @ch_new_contents @ch_new_capacity @ch_clear_contents
  @ch_clear_capacity @ch_len_contents : foa.

Section ChannelFacts.
Context {Ch : Type -> Type} `{ChannelLaws Ch} {T : Type}.
Implicit Types (c : Ch T) (x : T).

Lemma ch_try_send_room c x :
  length (ch_contents c) < ch_capacity c ->
  exists c', ch_try_send c x = Some c' /\
    ch_contents c' = ch_contents c ++ [x] /\ ch_capacity c' = ch_capacity c.
Proof.
  intros Hroom. destruct (ch_try_send c x) as [c'|] eqn:Hs.
  - exists c'. split; [done|].
    split; [by apply ch_try_send_contents | by eapply ch_try_send_capacity].
  - apply ch_try_send_full in Hs. lia.
Qed.

Lemma ch_try_receive_cons c x l :
  ch_contents c = x :: l ->
  exists c', ch_try_receive c = Some (x, c') /\
    ch_contents c' = l /\ ch_capacity c' = ch_capacity c.
Proof.
  intros Hc. destruct (ch_try_receive c) as [[y c']|] eqn:Hr.
  - pose proof (ch_try_receive_contents _ _ _ _ Hr).
    pose proof (ch_try_receive_capacity _ _ _ _ Hr).
    exists c'. split; [|split]; congruence.
  - apply ch_try_receive_empty in Hr. congruence.
Qed.
End ChannelFacts.

(** The channel as a list and its depth. *)
Record list_chan (T : Type) : Type :=
  ListChan { lc_items : list T; lc_depth : nat }.
Arguments ListChan {T} _ _.
Arguments lc_items {T} _.
Arguments lc_depth {T} _.

#[export] Instance list_chan_channel : Channel list_chan := {
  ch_new := fun T n => ListChan [] n;
  ch_try_send := fun T c x =>
    if decide (length (lc_items c) < lc_depth c)
    then Some (ListChan (lc_items c ++ [x]) (lc_depth c)) else None;
  ch_try_receive := fun T c =>
    match lc_items c with
    | [] => None
    | x :: l => Some (x, ListChan l (lc_depth c))
    end;
  ch_clear := fun T c => ListChan [] (lc_depth c);
  ch_len := fun T c => length (lc_items c);
}.

#[export] Program Instance list_chan_laws : ChannelLaws list_chan := {
  ch_contents := @lc_items;
  ch_capacity := @lc_depth;
}.
Solve All Obligations with
  (intros; simpl in *; repeat case_decide; repeat case_match; simplify_eq/=;
   (done || (split; (done || lia)) || naive_solver lia)).

(** ** [embassy_sync::signal::Signal]: at most one unconsumed value *)

Class Signal (Sg : Type -> Type) : Type := {
  sg_new : forall {T}, Sg T;
  sg_signal : forall {T}, T -> Sg T -> Sg T;
  sg_reset : forall {T}, Sg T -> Sg T;
  (** The poll of [wait]: ready with the value, which it consumes. *)
  sg_wait : forall {T}, Sg T -> option (T * Sg T);
}.

Class SignalLaws (Sg : Type -> Type) `{Signal Sg} : Type := {
  sg_value : forall {T}, Sg T -> option T;
  sg_new_value : forall T, sg_value (sg_new (T := T)) = None;
  sg_signal_value : forall T (x : T) s, sg_value (sg_signal x s) = Some x;
  sg_reset_value : forall T (s : Sg T), sg_value (sg_reset s) = None;
  sg_wait_None : forall T (s : Sg T), sg_wait s = None <-> sg_value s = None;
  sg_wait_Some : forall T (s : Sg T) x s',
    sg_wait s = Some (x, s') -> sg_value s = Some x /\ sg_value s' = None;
}.

#[export] Hint Rewrite @sg_new_value @sg_signal_value @sg_reset_value : foa.

Lemma sg_wait_ready {Sg} `{SignalLaws Sg} {T} (s : Sg T) x :
  sg_value s = Some x ->
  exists s', sg_wait s = Some (x, s') /\ sg_value s' = None.
Proof.
  intros Hv. destruct (sg_wait s) as [[y s']|] eqn:Hw.
  - destruct (sg_wait_Some _ _ _ _ Hw). exists s'. split; congruence.
  - apply sg_wait_None in Hw. congruence.
Qed.

#[export] Instance option_signal : Signal option := {
  sg_new := @None;
  sg_signal := fun T x _ => Some x;
  sg_reset := fun T _ => None;
  sg_wait := fun T s => match s with Some x => Some (x, None) | None => None end;
}.

#[export] Program Instance option_signal_laws : SignalLaws option := {
  sg_value := fun T s => s;
}.
Solve All Obligations with (intros; simpl in *; repeat case_match; naive_solver).

(** ** [embassy_sync::watch::Watch]: the last value sent, kept for ever

    A receiver's [get] is ready as soon as a value was ever sent and does not
    consume it. *)

Class Watch (W : Type -> Type) : Type := {
  wt_new : forall {T}, W T;
  wt_send : forall {T}, T -> W T -> W T;
  wt_get : forall {T}, W T -> option T;
}.

Class WatchLaws (W : Type -> Type) `{Watch W} : Prop := {
  wt_get_new : forall T, wt_get (wt_new (T := T)) = None;
  wt_get_send : forall T (x : T) w, wt_get (wt_send x w) = Some x;
}.

#[export] Hint Rewrite @wt_get_new @wt_get_send : foa.

#[export] Instance option_watch : Watch option := {
  wt_new := @None;
  wt_send := fun T x _ => Some x;
  wt_get := fun T w => w;
}.

#[export] Instance option_watch_laws : WatchLaws option.
Proof. split; done. Qed.

(** ** The radio: [esp_wifi_hal::ChannelController]

    [INTERFACE_COUNT] is the driver's number of virtual interfaces.
    [set_channel] fails on an invalid channel and otherwise tunes the radio. *)

Class Radio : Type := {
  INTERFACE_COUNT : nat;
  ChannelController : Type;
  set_channel : ChannelController -> Z -> option ChannelController;
}.

Class RadioLaws `{Radio} : Type := {
  valid_channel : Z -> bool;
  current_channel : ChannelController -> option Z;
  set_channel_valid : forall c ch,
    valid_channel ch = true ->
    exists c', set_channel c ch = Some c' /\ current_channel c' = Some ch;
  set_channel_invalid : forall c ch, valid_channel ch = false -> set_channel c ch = None;
}.

(** The 2.4 GHz radio with its fourteen channels and four interfaces. *)
#[export] Instance wifi_radio : Radio := {
  INTERFACE_COUNT := 4;
  ChannelController := option Z;
  set_channel := fun _ ch => if decide (1 <= ch <= 14)%Z then Some (Some ch) else None;
}.

#[export] Program Instance wifi_radio_laws : RadioLaws := {
  valid_channel := fun ch => bool_decide (1 <= ch <= 14)%Z;
  current_channel := fun c => c;
}.
Next Obligation.
  intros c ch Hv%bool_decide_eq_true. eexists. simpl. by rewrite decide_True.
Qed.
Next Obligation.
  intros c ch Hv%bool_decide_eq_false. simpl. by rewrite decide_False.
Qed.

Lemma wifi_interface : 0 < INTERFACE_COUNT (Radio := wifi_radio).
Proof. simpl. lia. Qed.

(** The radio before it is first tuned. *)
Definition radio_off : @ChannelController wifi_radio := @None Z.
