(* ===== verification/Async.v ===== *)
(** * Async functions

    An async function of the crates as a function of the shared state and of what
    will happen: the list of events from here on.  Between two events nothing else
    runs, so the code between two awaits is one step.  At an await the function
    takes the first event addressed to it; what other tasks do in the meantime is
    applied to the state, and the future may be dropped.  A function of type
    [fut A] ends with a [Result], is still waiting when the events are used up, or was
    dropped; [guard] is a value whose [Drop] runs unless the function succeeds. *)
From S2P Require Import Prelude.

Inductive event (Own Other : Type) : Type :=
| EvOwn (e : Own)
| EvOther (o : Other)
| EvDrop.
Arguments EvOwn {Own Other} e.
Arguments EvOther {Own Other} o.
Arguments EvDrop {Own Other}.

Section Async.
Context {W Own Other Error : Type}.
Context (other_step : W -> Other -> outcome W).
Notation env := (list (event Own Other)).

Inductive progress (A : Type) : Type :=
| Returned (r : result Error A) (rest : env)
| Suspended
| Dropped.
Arguments Returned {A} r rest.
Arguments Suspended {A}.
Arguments Dropped {A}.

Definition fut (A : Type) : Type := W -> env -> outcome (progress A * W).

Definition done {A} (a : A) : fut A := fun w env => Done (Returned (Ok a) env, w).
(** [return Err(e)], or the [?] of an error. *)
Definition fail {A} (e : Error) : fut A := fun w env => Done (Returned (Err e) env, w).

Definition bind_fut {A B} (m : fut A) (f : A -> fut B) : fut B := fun w env =>
  match m w env with
  | Done (Returned (Ok a) rest, w) => f a w rest
  | Done (Returned (Err e) rest, w) => Done (Returned (Err e) rest, w)
  | Done (Suspended, w) => Done (Suspended, w)
  | Done (Dropped, w) => Done (Dropped, w)
  | Panic => Panic
  end.

(** Synchronous code: it changes the state and may panic. *)
Definition sync {A} (f : W -> outcome (A * W)) : fut A := fun w env =>
  match f w with Done (a, w) => Done (Returned (Ok a) env, w) | Panic => Panic end.

Definition of_result {A} (r : result Error A) : fut A :=
  match r with Ok a => done a | Err e => fail e end.

(** An await: [f] says what an event completes it with, if anything. *)
Definition await {A} (f : Own -> option A) : fut A :=
  fix await (w : W) (evs : env) {struct evs} : outcome (progress A * W) :=
    match evs with
    | [] => Done (Suspended, w)
    | EvDrop :: _ => Done (Dropped, w)
    | EvOther o :: evs =>
        match other_step w o with Done w => await w evs | Panic => Panic end
    | EvOwn e :: evs =>
        match f e with Some a => Done (Returned (Ok a) evs, w) | None => await w evs end
    end.

(** A value with a [Drop] that the success of [m] disarms. *)
Definition guard {A} (cleanup : W -> outcome W) (m : fut A) : fut A := fun w env =>
  match m w env with
  | Done (Returned (Err e) rest, w) =>
      match cleanup w with Done w => Done (Returned (Err e) rest, w) | Panic => Panic end
  | Done (Dropped, w) =>
      match cleanup w with Done w => Done (Dropped, w) | Panic => Panic end
  | r => r
  end.

(** [loop { .. }]: [body] goes on with a new local state or breaks with a value.  Every
    round of the loops below takes an event, so their number bounds the rounds. *)
Fixpoint rounds {S A} (fuel : nat) (body : S -> fut (S + A)) (s : S) : fut A :=
  match fuel with
  | 0 => fun w _ => Done (Suspended, w)
  | Datatypes.S fuel =>
      bind_fut (body s) (fun r =>
        match r with inl s => rounds fuel body s | inr a => done a end)
  end.
Definition loop {S A} (body : S -> fut (S + A)) (s : S) : fut A :=
  fun w env => rounds (Datatypes.S (length env)) body s w env.

(** ** A program logic

    [triple P m Q E]: from a state in [P], [m] does not panic, establishes [Q] if it
    succeeds and [E] if it fails or is dropped. *)

Definition triple {A} (P : W -> Prop) (m : fut A) (Q : A -> W -> Prop) (E : W -> Prop) : Prop :=
  forall w env, P w ->
  match m w env with
  | Done (Returned (Ok a) _, w') => Q a w'
  | Done (Returned (Err _) _, w') | Done (Dropped, w') => E w'
  | Done (Suspended, _) => True
  | Panic => False
  end.

(** What the other tasks may not disturb. *)
Definition stable (P : W -> Prop) : Prop :=
  forall w o, P w -> match other_step w o with Done w' => P w' | Panic => False end.

Lemma triple_done {A} P (a : A) (Q : A -> W -> Prop) E :
  (forall w, P w -> Q a w) -> triple P (done a) Q E.
Proof. intros HQ w env Hw. by apply HQ. Qed.

Lemma triple_fail {A} P e (Q : A -> W -> Prop) (E : W -> Prop) :
  (forall w, P w -> E w) -> triple P (fail e) Q E.
Proof. intros HE w env Hw. by apply HE. Qed.

Lemma triple_bind {A B} P (m : fut A) (f : A -> fut B) (R : A -> W -> Prop) Q E :
  triple P m R E -> (forall a, triple (R a) (f a) Q E) -> triple P (bind_fut m f) Q E.
Proof.
  intros Hm Hf w env Hw. specialize (Hm w env Hw). unfold bind_fut.
  destruct (m w env) as [[[[a|e] rest| |] w']|]; try done. by apply Hf.
Qed.

Lemma triple_weaken {A} (P P' : W -> Prop) (m : fut A) (Q Q' : A -> W -> Prop) (E E' : W -> Prop) :
  triple P m Q E -> (forall w, P' w -> P w) -> (forall a w, Q a w -> Q' a w) ->
  (forall w, E w -> E' w) -> triple P' m Q' E'.
Proof.
  intros Hm HP HQ HE w env Hw. specialize (Hm w env (HP w Hw)).
  destruct (m w env) as [[[[a|e] rest| |] w']|]; eauto.
Qed.

Lemma triple_sync {A} P (f : W -> outcome (A * W)) (Q : A -> W -> Prop) E :
  (forall w, P w -> match f w with Done (a, w') => Q a w' | Panic => False end) ->
  triple P (sync f) Q E.
Proof.
  intros Hf w env Hw. specialize (Hf w Hw). unfold sync. by destruct (f w) as [[a w']|].
Qed.

Lemma triple_await {A} P (f : Own -> option A) (Q : A -> W -> Prop) (E : W -> Prop) :
  stable P -> (forall w, P w -> E w) -> (forall e a w, P w -> f e = Some a -> Q a w) ->
  triple P (await f) Q E.
Proof.
  intros Hst HE HQ w env. revert w. induction env as [|ev env IH]; intros w Hw; [done|].
  destruct ev as [e|o|]; simpl.
  - destruct (f e) as [a|] eqn:Ha; [by eapply HQ|by apply IH].
  - specialize (Hst w o Hw). destruct (other_step w o) as [w'|]; [by apply IH|done].
  - by apply HE.
Qed.

Lemma triple_guard {A} P (m : fut A) cleanup Q (E E' : W -> Prop) :
  triple P m Q E ->
  (forall w, E w -> match cleanup w with Done w' => E' w' | Panic => False end) ->
  triple P (guard cleanup m) Q E'.
Proof.
  intros Hm HE w env Hw. specialize (Hm w env Hw). unfold guard.
  destruct (m w env) as [[[[a|e] rest| |] w']|]; try done.
  - specialize (HE w' Hm). by destruct (cleanup w').
  - specialize (HE w' Hm). by destruct (cleanup w').
Qed.

Lemma triple_of_result {A} P (r : result Error A) (Q : A -> W -> Prop) (E : W -> Prop) :
  (forall a w, r = Ok a -> P w -> Q a w) -> (forall e w, r = Err e -> P w -> E w) ->
  triple P (of_result r) Q E.
Proof. intros HQ HE. destruct r; [apply triple_done|apply triple_fail]; eauto. Qed.

Lemma triple_pure {A} (P : W -> Prop) (phi : Prop) (m : fut A) Q E :
  (phi -> triple P m Q E) -> triple (fun w => phi /\ P w) m Q E.
Proof. intros Hm w env [Hphi Hw]. by apply Hm. Qed.

Lemma triple_exists {X A} (P : X -> W -> Prop) (m : fut A) Q E :
  (forall x, triple (P x) m Q E) -> triple (fun w => exists x, P x w) m Q E.
Proof. intros Hm w env [x Hw]. by apply (Hm x). Qed.

Lemma triple_rounds {S A} (I : S -> W -> Prop) (body : S -> fut (S + A)) Q E fuel s :
  (forall s, triple (I s) (body s) (fun r w => match r with inl s => I s w | inr a => Q a w end) E) ->
  triple (I s) (rounds fuel body s) Q E.
Proof.
  intros Hb. revert s. induction fuel as [|fuel IH]; intros s; [by intros w env Hw|].
  simpl. eapply triple_bind; [apply Hb|]. intros [s'|a]; [apply IH|by apply triple_done].
Qed.

Lemma triple_loop {S A} (I : S -> W -> Prop) (body : S -> fut (S + A)) Q E s :
  (forall s, triple (I s) (body s) (fun r w => match r with inl s => I s w | inr a => Q a w end) E) ->
  triple (I s) (loop body s) Q E.
Proof. intros Hb w env Hw. by apply (triple_rounds I body Q E). Qed.

(** ** Partial correctness

    [partial P m Q E]: if [m] does not panic, it establishes [Q] if it succeeds and [E]
    if it fails, is dropped, or still waits.  [triple] says nothing of a future that
    waits and all of panics; the two are proved separately and combined. *)

Definition partial {A} (P : W -> Prop) (m : fut A) (Q : A -> W -> Prop) (E : W -> Prop) : Prop :=
  forall w env, P w ->
  match m w env with
  | Done (Returned (Ok a) _, w') => Q a w'
  | Done (_, w') => E w'
  | Panic => True
  end.

Definition undisturbing (P : W -> Prop) : Prop :=
  forall w o w', P w -> other_step w o = Done w' -> P w'.

Lemma partial_done {A} P (a : A) (Q : A -> W -> Prop) E :
  (forall w, P w -> Q a w) -> partial P (done a) Q E.
Proof. intros HQ w env Hw. by apply HQ. Qed.

Lemma partial_fail {A} P e (Q : A -> W -> Prop) (E : W -> Prop) :
  (forall w, P w -> E w) -> partial P (fail e) Q E.
Proof. intros HE w env Hw. by apply HE. Qed.

Lemma partial_bind {A B} P (m : fut A) (f : A -> fut B) (R : A -> W -> Prop) Q E :
  partial P m R E -> (forall a, partial (R a) (f a) Q E) -> partial P (bind_fut m f) Q E.
Proof.
  intros Hm Hf w env Hw. specialize (Hm w env Hw). unfold bind_fut.
  destruct (m w env) as [[[[a|e] rest| |] w']|]; try done. by apply Hf.
Qed.

Lemma partial_weaken {A} (P P' : W -> Prop) (m : fut A) (Q Q' : A -> W -> Prop) (E E' : W -> Prop) :
  partial P m Q E -> (forall w, P' w -> P w) -> (forall a w, Q a w -> Q' a w) ->
  (forall w, E w -> E' w) -> partial P' m Q' E'.
Proof.
  intros Hm HP HQ HE w env Hw. specialize (Hm w env (HP w Hw)).
  destruct (m w env) as [[[[a|e] rest| |] w']|]; eauto.
Qed.

Lemma partial_sync {A} P (f : W -> outcome (A * W)) (Q : A -> W -> Prop) E :
  (forall w a w', P w -> f w = Done (a, w') -> Q a w') -> partial P (sync f) Q E.
Proof.
  intros Hf w env Hw. unfold sync. destruct (f w) as [[a w']|] eqn:Hs; [by eapply Hf|done].
Qed.

Lemma partial_await {A} P (f : Own -> option A) (Q : A -> W -> Prop) (E : W -> Prop) :
  undisturbing P -> (forall w, P w -> E w) -> (forall a w, P w -> Q a w) ->
  partial P (await f) Q E.
Proof.
  intros Hst HE HQ w env. revert w. induction env as [|ev env IH]; intros w Hw; [by apply HE|].
  destruct ev as [e|o|]; simpl.
  - destruct (f e) as [a|] eqn:Ha; [by apply HQ|by apply IH].
  - destruct (other_step w o) as [w'|] eqn:Ho; [|done]. apply IH. by eapply Hst.
  - by apply HE.
Qed.

Lemma partial_guard {A} P (m : fut A) cleanup Q (E : W -> Prop) :
  partial P m Q E -> (forall w w', E w -> cleanup w = Done w' -> E w') ->
  partial P (guard cleanup m) Q E.
Proof.
  intros Hm HE w env Hw. specialize (Hm w env Hw). unfold guard.
  destruct (m w env) as [[[[a|e] rest| |] w']|]; try done;
    destruct (cleanup w') as [w''|] eqn:Hc; eauto.
Qed.

Lemma partial_of_result {A} P (r : result Error A) (Q : A -> W -> Prop) (E : W -> Prop) :
  (forall a w, r = Ok a -> P w -> Q a w) -> (forall w, P w -> E w) -> partial P (of_result r) Q E.
Proof. intros HQ HE. destruct r; [apply partial_done|apply partial_fail]; eauto. Qed.

Lemma partial_pure {A} (P : W -> Prop) (phi : Prop) (m : fut A) Q E :
  (phi -> partial P m Q E) -> partial (fun w => phi /\ P w) m Q E.
Proof. intros Hm w env [Hphi Hw]. by apply Hm. Qed.

Lemma partial_exists {X A} (P : X -> W -> Prop) (m : fut A) Q E :
  (forall x, partial (P x) m Q E) -> partial (fun w => exists x, P x w) m Q E.
Proof. intros Hm w env [x Hw]. by apply (Hm x). Qed.

Lemma partial_loop {S A} (I : S -> W -> Prop) (body : S -> fut (S + A)) Q (E : W -> Prop) s :
  (forall s, partial (I s) (body s) (fun r w => match r with inl s => I s w | inr a => Q a w end) E) ->
  (forall s w, I s w -> E w) ->
  partial (I s) (loop body s) Q E.
Proof.
  intros Hb HE w env. unfold loop. generalize (Datatypes.S (length env)). intros fuel. revert env.
  enough (partial (I s) (rounds fuel body s) Q E) as Hr by apply Hr. clear w. revert s.
  induction fuel as [|fuel IH]; intros s; [intros w env; apply HE|].
  simpl. eapply partial_bind; [apply Hb|]. intros [s'|a]; [apply IH|by apply partial_done].
Qed.

(** ** Assertions about what is to come

    [foresees P m Q E] is [triple] with assertions that also speak of the events that
    are left, for what holds only as long as they keep to something (a budget, say). *)

Definition foresees {A} (P : env -> W -> Prop) (m : fut A) (Q : A -> env -> W -> Prop)
  (E : env -> W -> Prop) : Prop :=
  forall w env, P env w ->
  match m w env with
  | Done (Returned (Ok a) rest, w') => Q a rest w'
  | Done (Returned (Err _) rest, w') => E rest w'
  | Done (Dropped, w') => E [] w'
  | Done (Suspended, _) => True
  | Panic => False
  end.

(** Kept by every event that is not ours to act on. *)
Record foreseeing (P : env -> W -> Prop) : Prop := {
  fs_own : forall e rest w, P (EvOwn e :: rest) w -> P rest w;
  fs_other : forall o rest w, P (EvOther o :: rest) w ->
    match other_step w o with Done w' => P rest w' | Panic => False end;
  fs_drop : forall rest w, P (EvDrop :: rest) w -> P [] w;
}.

Lemma foresees_done {A} P (a : A) (Q : A -> env -> W -> Prop) E :
  (forall rest w, P rest w -> Q a rest w) -> foresees P (done a) Q E.
Proof. intros HQ w rest Hw. by apply HQ. Qed.

Lemma foresees_fail {A} P e (Q : A -> env -> W -> Prop) (E : env -> W -> Prop) :
  (forall rest w, P rest w -> E rest w) -> foresees P (fail e) Q E.
Proof. intros HE w rest Hw. by apply HE. Qed.

Lemma foresees_bind {A B} P (m : fut A) (f : A -> fut B) (R : A -> env -> W -> Prop) Q E :
  foresees P m R E -> (forall a, foresees (R a) (f a) Q E) -> foresees P (bind_fut m f) Q E.
Proof.
  intros Hm Hf w env Hw. specialize (Hm w env Hw). unfold bind_fut.
  destruct (m w env) as [[[[a|e] rest| |] w']|]; try done. by apply Hf.
Qed.

Lemma foresees_weaken {A} (P P' : env -> W -> Prop) (m : fut A) (Q Q' : A -> env -> W -> Prop)
  (E E' : env -> W -> Prop) :
  foresees P m Q E -> (forall rest w, P' rest w -> P rest w) ->
  (forall a rest w, Q a rest w -> Q' a rest w) -> (forall rest w, E rest w -> E' rest w) ->
  foresees P' m Q' E'.
Proof.
  intros Hm HP HQ HE w env Hw. specialize (Hm w env (HP _ w Hw)).
  destruct (m w env) as [[[[a|e] rest| |] w']|]; eauto.
Qed.

Lemma foresees_sync {A} P (f : W -> outcome (A * W)) (Q : A -> env -> W -> Prop) E :
  (forall rest w, P rest w -> match f w with Done (a, w') => Q a rest w' | Panic => False end) ->
  foresees P (sync f) Q E.
Proof.
  intros Hf w env Hw. specialize (Hf _ w Hw). unfold sync. by destruct (f w) as [[a w']|].
Qed.

Lemma foresees_await {A} P (f : Own -> option A) (Q : A -> env -> W -> Prop) (E : env -> W -> Prop) :
  foreseeing P -> (forall rest w, P rest w -> E rest w) ->
  (forall e a rest w, P rest w -> f e = Some a -> Q a rest w) ->
  foresees P (await f) Q E.
Proof.
  intros Hst HE HQ w env. revert w. induction env as [|ev env IH]; intros w Hw; [done|].
  destruct ev as [e|o|]; simpl.
  - apply (fs_own P Hst) in Hw. destruct (f e) as [a|] eqn:Ha; [by eapply HQ|by apply IH].
  - apply (fs_other P Hst) in Hw. destruct (other_step w o) as [w'|]; [by apply IH|done].
  - by apply HE, (fs_drop P Hst env).
Qed.

Lemma foresees_guard {A} P (m : fut A) cleanup Q (E E' : env -> W -> Prop) :
  foresees P m Q E ->
  (forall rest w, E rest w -> match cleanup w with Done w' => E' rest w' | Panic => False end) ->
  foresees P (guard cleanup m) Q E'.
Proof.
  intros Hm HE w env Hw. specialize (Hm w env Hw). unfold guard.
  destruct (m w env) as [[[[a|e] rest| |] w']|]; try done.
  - specialize (HE _ w' Hm). by destruct (cleanup w').
  - specialize (HE _ w' Hm). by destruct (cleanup w').
Qed.

Lemma foresees_loop {S A} (I : S -> env -> W -> Prop) (body : S -> fut (S + A)) Q E s :
  (forall s, foresees (I s) (body s)
     (fun r rest w => match r with inl s => I s rest w | inr a => Q a rest w end) E) ->
  foresees (I s) (loop body s) Q E.
Proof.
  intros Hb w env. unfold loop. generalize (Datatypes.S (length env)). intros fuel. revert s w env.
  enough (forall s, foresees (I s) (rounds fuel body s) Q E) as Hr by (intros s; apply Hr).
  induction fuel as [|fuel IH]; intros s; [by intros w env Hw|].
  simpl. eapply foresees_bind; [apply Hb|]. intros [s'|a]; [apply IH|by apply foresees_done].
Qed.

Lemma foresees_pure {A} (P : env -> W -> Prop) (phi : Prop) (m : fut A) Q E :
  (phi -> foresees P m Q E) -> foresees (fun rest w => phi /\ P rest w) m Q E.
Proof. intros Hm w rest [Hphi Hw]. by apply Hm. Qed.

(** Running to the end. *)
Lemma bind_returned {A B} (m : fut A) (f : A -> fut B) w env a rest w' :
  m w env = Done (Returned (Ok a) rest, w') -> bind_fut m f w env = f a w' rest.
Proof. unfold bind_fut. by intros ->. Qed.

Lemma guard_returned {A} cleanup (m : fut A) w env a rest w' :
  m w env = Done (Returned (Ok a) rest, w') ->
  guard cleanup m w env = Done (Returned (Ok a) rest, w').
Proof. unfold guard. by intros ->. Qed.

Lemma bind_then {A B} (m : fut A) (f : A -> fut B) w env a rest w' r :
  m w env = Done (Returned (Ok a) rest, w') -> f a w' rest = r -> bind_fut m f w env = r.
Proof. unfold bind_fut. by intros -> <-. Qed.

Lemma loop_returned {S A} (body : S -> fut (S + A)) s w env a rest w' :
  body s w env = Done (Returned (Ok (inr a)) rest, w') ->
  loop body s w env = Done (Returned (Ok a) rest, w').
Proof. intros Hb. unfold loop. simpl. unfold bind_fut. by rewrite Hb. Qed.

Lemma bind_failed {A B} (m : fut A) (f : A -> fut B) w env e rest w' :
  m w env = Done (Returned (Err e) rest, w') ->
  bind_fut m f w env = Done (Returned (Err e) rest, w').
Proof. unfold bind_fut. by intros ->. Qed.

Lemma guard_failed {A} cleanup (m : fut A) w env e rest w' w'' :
  m w env = Done (Returned (Err e) rest, w') -> cleanup w' = Done w'' ->
  guard cleanup m w env = Done (Returned (Err e) rest, w'').
Proof. unfold guard. by intros -> ->. Qed.

Lemma bind_from {A B} (m m' : fut A) (f : A -> fut B) w w' env env' :
  m w env = m' w' env' -> bind_fut m f w env = bind_fut m' f w' env'.
Proof. unfold bind_fut. by intros ->. Qed.

Lemma guard_from {A} cleanup (m m' : fut A) w w' env env' :
  m w env = m' w' env' -> guard cleanup m w env = guard cleanup m' w' env'.
Proof. unfold guard. by intros ->. Qed.

(** A body that takes an event whenever it goes on: more rounds change nothing. *)
Definition takes_event {S A} (body : S -> fut (S + A)) : Prop :=
  forall s w env s' rest w', body s w env = Done (Returned (Ok (inl s')) rest, w') ->
  length rest < length env.

Lemma rounds_enough {S A} (body : S -> fut (S + A)) s w env n m :
  takes_event body -> length env < n -> length env < m ->
  rounds n body s w env = rounds m body s w env.
Proof.
  intros Ht. revert s w env m. induction n as [|n IH]; intros s w env m Hn Hm; [lia|].
  destruct m as [|m]; [lia|]. simpl. unfold bind_fut.
  destruct (body s w env) as [[[[[s'|a]|e] rest| |] w']|] eqn:Hb; try done.
  apply Ht in Hb. apply IH; lia.
Qed.
End Async.

Arguments Returned {Own Other Error A} r rest.
Arguments Suspended {Own Other Error A}.
Arguments Dropped {Own Other Error A}.

Declare Scope fut_scope.
Delimit Scope fut_scope with fut.
Notation "x <- m ;; f" := (bind_fut m (fun x => f))
  (at level 100, m at next level, right associativity) : fut_scope.
Notation "m ;;; f" := (bind_fut m (fun _ => f))
  (at level 100, right associativity) : fut_scope.
