(* ===== verification/Resume.v ===== *)
(** * Async functions, one event at a time

    [built]: the futures that are put together by the combinators of Async.v from
    synchronous code that keeps to a relation.  Such a future that waits is resumed by one
    more event: another task's step only changes the state, any other event takes
    it to its next await or to its end, and until then only its own code has run. *)
From stdpp Require Import relations.
From S2P Require Import Prelude Async.

Section Resume.
Context {W Own Other Error : Type}.
Context (other_step : W -> Other -> outcome W) (own : W -> W -> Prop).
Notation fut := (fut (W := W) (Own := Own) (Other := Other) (Error := Error)).
Notation env := (list (event Own Other)).
Notation progress := (progress (Own := Own) (Other := Other) (Error := Error)).

(** [own] holds of what each piece of synchronous code does to the state. *)
Inductive built : forall A, fut A -> Prop :=
| built_done A (a : A) : built A (done a)
| built_fail A e : built A (fail e)
| built_sync A (f : W -> outcome (A * W)) :
    (forall w a w', f w = Done (a, w') -> own w w') -> built A (sync f)
| built_await A (f : Own -> option A) : built A (await other_step f)
| built_bind A B (m : fut A) (f : A -> fut B) :
    built A m -> (forall a, built B (f a)) -> built B (bind_fut m f)
| built_guard A cleanup (m : fut A) :
    built A m -> (forall w w', cleanup w = Done w' -> own w w') -> built A (guard cleanup m)
| built_loop S A (body : S -> fut (S + A)) s :
    takes_event body -> (forall s, built (S + A) (body s)) -> built A (loop body s).

Lemma built_of_result A (r : result Error A) : built A (of_result r).
Proof. destruct r; [apply built_done|apply built_fail]. Qed.

(** What the code keeps and other tasks do not disturb. *)
Lemma built_partial {A} (m : fut A) (P : W -> Prop) :
  built A m -> (forall w w', P w -> own w w' -> P w') -> undisturbing other_step P ->
  partial P m (fun _ => P) P.
Proof.
  intros Hm Hown Htasks. induction Hm as [A a|A e|A f Hf|A f|A B m f Hm IHm Hf IHf|A c m Hm IHm Hc|S A body s Ht Hb IHb].
  - by apply partial_done.
  - by apply partial_fail.
  - apply partial_sync. intros w a w' Hw Hs. by eapply Hown, Hf.
  - by apply partial_await.
  - by eapply partial_bind.
  - apply partial_guard; [done|]. intros w w' Hw Hs. by eapply Hown, Hc.
  - apply (partial_loop (fun _ => P)); [|done]. intros s'.
    eapply partial_weaken; [apply IHb|done| |done]. by intros [].
Qed.

(** ** One more event *)

(** From [w] our own code has run to an await or to the end, and no event is left. *)
Definition ran {A} (w : W) (r : outcome (progress A * W)) : Prop :=
  match r with
  | Done (Returned _ rest, w') => rest = [] /\ rtc own w w'
  | Done (_, w') => rtc own w w'
  | Panic => True
  end.

(** The outcome of a future, and its outcome with the event [e] after the others. *)
Definition next {A} (e : event Own Other) (before after : outcome (progress A * W)) : Prop :=
  match before with
  | Panic => after = Panic
  | Done (Returned r rest, w) => after = Done (Returned r (rest ++ [e]), w)
  | Done (Dropped, w) => after = Done (Dropped, w)
  | Done (Suspended, w) =>
      match e with
      | EvOther o => after = match other_step w o with Done w' => Done (Suspended, w') | Panic => Panic end
      | _ => ran w after
      end
  end.

Definition resumes {A} (m : fut A) : Prop :=
  (forall w, ran w (m w [])) /\ (forall w env e, next e (m w env) (m w (env ++ [e]))).

Lemma ran_trans {A} w w' (r : outcome (progress A * W)) : rtc own w w' -> ran w' r -> ran w r.
Proof.
  intros Hw Hr. destruct r as [[[res rest| |] w2]|]; simpl in *; [destruct Hr; split; [done|]|..|done];
    by etrans.
Qed.

Lemma resumes_await {A} (f : Own -> option A) : resumes (await other_step f).
Proof.
  split; [intros w; apply rtc_refl|]. intros w env e. revert w.
  induction env as [|ev env IH]; intros w; simpl.
  - destruct e as [e|o|]; simpl; [|by destruct (other_step w o)|apply rtc_refl].
    destruct (f e); simpl; [split; [done|]|]; apply rtc_refl.
  - destruct ev as [e'|o|]; [destruct (f e')|destruct (other_step w o)|]; done || apply IH.
Qed.

Lemma resumes_bind {A B} (m : fut A) (f : A -> fut B) :
  resumes m -> (forall a, resumes (f a)) -> resumes (bind_fut m f).
Proof.
  intros [Hm0 Hm] Hf.
  assert (forall w (r : outcome (progress A * W)), ran w r -> ran w (match r with
    | Done (Returned (Ok a) rest, w) => f a w rest
    | Done (Returned (Err e) rest, w) => Done (Returned (Err e) rest, w)
    | Done (Suspended, w) => Done (Suspended, w)
    | Done (Dropped, w) => Done (Dropped, w)
    | Panic => Panic end)) as Hran.
  { intros w [[[[a|e] rest| |] w']|] Hr; try done. destruct Hr as [-> Hr].
    eapply ran_trans; [exact Hr|apply (Hf a)]. }
  split; [intros w; by apply Hran|]. intros w env e. specialize (Hm w env e). unfold bind_fut.
  destruct (m w env) as [[[[a|err] rest| |] w']|]; simpl in Hm; try by rewrite Hm.
  - rewrite Hm. apply (Hf a).
  - destruct e as [e|o|]; simpl; [by apply Hran| |by apply Hran].
    rewrite Hm. by destruct (other_step w' o).
Qed.

Lemma resumes_guard {A} cleanup (m : fut A) :
  resumes m -> (forall w w', cleanup w = Done w' -> own w w') -> resumes (guard cleanup m).
Proof.
  intros [Hm0 Hm] Hc.
  assert (forall w0 w env, ran w0 (m w env) -> ran w0 (guard cleanup m w env)) as Hran.
  { intros w0 w env Hr. unfold guard. destruct (m w env) as [[[[a|e] rest| |] w']|]; try done.
    - destruct Hr as [-> Hr]. destruct (cleanup w') as [w2|] eqn:Hw; [|done].
      split; [done|]. eapply rtc_r; [done|by apply Hc].
    - destruct (cleanup w') as [w2|] eqn:Hw; [|done]. eapply rtc_r; [done|by apply Hc]. }
  split; [intros w; by apply Hran|]. intros w env e. specialize (Hm w env e).
  specialize (Hran (match m w env with Done (_, w') => w' | Panic => w end) w (env ++ [e])).
  unfold guard at 1. destruct (m w env) as [[[[a|err] rest| |] w']|]; simpl in *.
  1-2, 4-5: unfold guard; rewrite Hm; by try destruct (cleanup w').
  destruct e as [e|o|]; simpl; [by apply Hran| |by apply Hran].
  unfold guard. rewrite Hm. by destruct (other_step w' o).
Qed.

(** Any number of rounds that is larger than the number of events. *)
Lemma next_rounds {S A} (body : S -> fut (S + A)) n n' s w env e :
  takes_event body -> (forall s, resumes (body s)) -> length env < n -> Datatypes.S (length env) < n' ->
  next e (rounds n body s w env) (rounds n' body s w (env ++ [e])).
Proof.
  intros Ht Hb.
  assert (forall n s w, 0 < n -> ran w (rounds n body s w [])) as Hran.
  { clear -Ht Hb. intros [|n] s w Hn; [lia|]. simpl. unfold bind_fut.
    pose proof (proj1 (Hb s) w) as Hr. destruct (body s w []) as [[[[[s'|a]|e] rest| |] w']|] eqn:Hs; try done.
    apply Ht in Hs. simpl in Hs. lia. }
  revert n' s w env. induction n as [|n IH]; intros [|n'] s w env Hn Hn'; [lia..|].
  simpl. unfold bind_fut. pose proof (proj2 (Hb s) w env e) as He.
  destruct (body s w env) as [[[[[s'|a]|err] rest| |] w']|] eqn:Hs; simpl in He; try by rewrite He.
  - rewrite He. apply Ht in Hs. apply IH; lia.
  - destruct e as [e|o|].
    1, 3: destruct (body s w (env ++ _)) as [[[[[s'|a]|err] rest| |] w2]|]; try done; destruct He as [-> He];
      (eapply ran_trans; [exact He|apply Hran; lia]).
    rewrite He. simpl. by destruct (other_step w' o).
Qed.

Lemma resumes_loop {S A} (body : S -> fut (S + A)) s :
  takes_event body -> (forall s, resumes (body s)) -> resumes (loop body s).
Proof.
  intros Ht Hb. split.
  - intros w. unfold loop. simpl. unfold bind_fut. pose proof (proj1 (Hb s) w) as Hr.
    destruct (body s w []) as [[[[[s'|a]|e] rest| |] w']|] eqn:Hs; try done.
    apply Ht in Hs. simpl in Hs. lia.
  - intros w env e. unfold loop. apply next_rounds; [done|done|lia|].
    rewrite length_app. simpl. lia.
Qed.

Lemma built_resumes {A} (m : fut A) : built A m -> resumes m.
Proof.
  induction 1 as [A a|A e|A f Hf|A f|A B m f Hm IHm Hf IHf|A c m Hm IHm Hc|S A body s Ht Hb IHb].
  - split; [|done]. intros w. split; [done|apply rtc_refl].
  - split; [|done]. intros w. split; [done|apply rtc_refl].
  - unfold resumes, sync. split.
    + intros w. destruct (f w) as [[a w']|] eqn:Hs; [|done]. split; [done|]. by eapply rtc_once, Hf.
    + intros w env e. by destruct (f w) as [[a w']|].
  - apply resumes_await.
  - by apply resumes_bind.
  - by apply resumes_guard.
  - by apply resumes_loop.
Qed.

(** A future that waits, and one that begins. *)
Lemma resumes_other {A} (m : fut A) (w : W) (env : env) w1 o :
  resumes m -> m w env = Done (Suspended, w1) ->
  m w (env ++ [EvOther o]) =
    match other_step w1 o with Done w2 => Done (Suspended, w2) | Panic => Panic end.
Proof. intros [_ Hm] Hs. specialize (Hm w env (EvOther o)). by rewrite Hs in Hm. Qed.

Definition is_other (e : event Own Other) : bool := match e with EvOther _ => true | _ => false end.

Lemma ran_reached {A} w p w' : ran (A := A) w (Done (p, w')) -> rtc own w w'.
Proof. by destruct p; [intros []|..]. Qed.

Lemma resumes_own {A} (m : fut A) (w : W) (env : env) w1 e p w2 :
  resumes m -> m w env = Done (Suspended, w1) -> is_other e = false ->
  m w (env ++ [e]) = Done (p, w2) -> rtc own w1 w2.
Proof.
  intros [_ Hm] Hs He Hn. specialize (Hm w env e). rewrite Hs, Hn in Hm.
  destruct e; try done; by apply ran_reached in Hm.
Qed.

Lemma resumes_first {A} (m : fut A) (w : W) p w2 : resumes m -> m w [] = Done (p, w2) -> rtc own w w2.
Proof. intros [Hm _] Hn. specialize (Hm w). rewrite Hn in Hm. by apply ran_reached in Hm. Qed.

(** ** Bodies of loops that take an event *)

Lemma takes_bind {S A B} (m : S -> fut B) (f : S -> B -> fut (S + A)) :
  (forall s w env b rest w', m s w env = Done (Returned (Ok b) rest, w') -> length rest < length env) ->
  (forall s b w env r rest w', f s b w env = Done (Returned r rest, w') -> length rest <= length env) ->
  takes_event (fun s => bind_fut (m s) (f s)).
Proof.
  intros Hm Hf s w env s' rest w' Hb. unfold bind_fut in Hb.
  destruct (m s w env) as [[[[b|e] rest1| |] w1]|] eqn:Hs; try done.
  apply Hm in Hs. apply Hf in Hb. lia.
Qed.

(** No future gives events back. *)
Lemma await_rest {A} (f : Own -> option A) w env r rest w' :
  (await other_step f : fut A) w env = Done (Returned r rest, w') -> length rest < length env.
Proof.
  revert w. induction env as [|ev env IH]; intros w; [done|]. simpl.
  destruct ev as [e|o|]; [|destruct (other_step w o); [|done]|done].
  - destruct (f e); [intros [= _ <- _]; lia|]. intros Hr%IH. lia.
  - intros Hr%IH. lia.
Qed.

Lemma rest_rounds {S A} (body : S -> fut (S + A)) n s w env r rest w' :
  (forall s w env r rest w', body s w env = Done (Returned r rest, w') -> length rest <= length env) ->
  rounds n body s w env = Done (Returned r rest, w') -> length rest <= length env.
Proof.
  intros Hb. revert s w env. induction n as [|n IH]; intros s w env; [done|]. simpl. unfold bind_fut.
  destruct (body s w env) as [[[[[s'|a]|e] rest1| |] w1]|] eqn:Hs; try done; apply Hb in Hs.
  - intros Hr%IH. lia.
  - by intros [= _ <- _].
  - by intros [= _ <- _].
Qed.

Lemma built_rest {A} (m : fut A) (w : W) (env : env) r rest w' :
  built A m -> m w env = Done (Returned r rest, w') -> length rest <= length env.
Proof.
  intros Hm. revert w env r rest w'.
  induction Hm as [A a|A e|A f Hf|A f|A B m f Hm IHm Hf IHf|A c m Hm IHm Hc|S A body s Ht Hb IHb];
    intros w env r rest w'.
  - by intros [= _ <- _].
  - by intros [= _ <- _].
  - unfold sync. destruct (f w) as [[a w1]|]; [by intros [= _ <- _]|done].
  - intros Hr%await_rest. lia.
  - unfold bind_fut. destruct (m w env) as [[[[a|e] rest1| |] w1]|] eqn:Hs; try done; apply IHm in Hs.
    + intros Hr%IHf. lia.
    + by intros [= _ <- _].
  - unfold guard. destruct (m w env) as [[[[a|e] rest1| |] w1]|] eqn:Hs; try done; try apply IHm in Hs.
    + by intros [= _ <- _].
    + destruct (c w1); [by intros [= _ <- _]|done].
    + by destruct (c w1).
  - unfold loop. apply rest_rounds. exact IHb.
Qed.

Lemma takes_await {S A B} (g : S -> Own -> option B) (f : S -> B -> fut (S + A)) :
  (forall s b, built (S + A) (f s b)) ->
  takes_event (fun s => bind_fut (await other_step (g s)) (f s)).
Proof.
  intros Hf. apply takes_bind; [intros *; apply await_rest|]. intros *. by apply built_rest.
Qed.
End Resume.
