(* ===== verification/TxProbe.v ===== *)
(** * The transmit probe: foa/src/tx_probe.rs

    A bounded recorder of the life of gateway echo requests.  [accept_msdu]
    classifies an Ethernet frame under the armed scope and records its acceptance;
    the transmit path then reports when the frame was queued, picked and finished.
    [Recorder] is the store of one generic size, [State] the static behind the
    critical section, [probe_step] the calls of its users in any order: a
    classification runs outside the critical section, so it is a step of its own,
    and its result is recorded by a later one. *)
From S2P Require Import Prelude Bytes Platform.

(** ** Tags, phases, entries *)

Record Tag : Type := MkTag { ordinal : Z; slot : nat }.
#[export] Instance tag_eq_dec : EqDecision Tag.
Proof. solve_decision. Defined.

Inductive Phase : Type := Accepted | Queued | Picked | Finished.
#[export] Instance phase_eq_dec : EqDecision Phase.
Proof. solve_decision. Defined.

Record Scope : Type := MkScope {
  scope_cycle : Z;
  gateway : list Z;
  scope_generation : Z;
}.
#[export] Instance scope_eq_dec : EqDecision Scope.
Proof. solve_decision. Defined.

Record Counters : Type := MkCounters {
  capacity_rejections : Z;
  tag_exhaustion : Z;
  invalid_events : Z;
  scope_changes : Z;
}.

(** ** The classifier *)

(** [u16::from_be_bytes(bytes.try_into().ok()?)]. *)
Definition be_u16 (bytes : list Z) : option Z :=
  match bytes with [x; y] => Some (u16_be x y) | _ => None end.

(** [l.get(n..)]. *)
Definition get_from (l : list Z) (n : nat) : option (list Z) := get_range l n (length l).

Definition gateway_echo_sequence (ethernet gw : list Z) : option Z :=
  ethertype ← get_range ethernet 12 14;
  if decide (ethertype <> [0x08; 0x00]%Z) then None else
  ip ← get_from ethernet 14;
  version_ihl ← ip !! 0;
  let header := Z.to_nat (Z.land version_ihl 15) * 4 in
  if decide (Z.shiftr version_ihl 4 <> 4%Z \/ header < 20) then None else
  total ← get_range ip 2 4 ≫= be_u16;
  if decide (Z.to_nat total <> header + 520 \/ length ip < Z.to_nat total) then None else
  protocol ← ip !! 9;
  if decide (protocol <> 1%Z) then None else
  destination ← get_range ip 16 20;
  if decide (destination <> gw) then None else
  fragment ← get_range ip 6 8 ≫= be_u16;
  if decide (Z.land fragment 0x3fff <> 0%Z) then None else
  icmp ← get_range ip header (Z.to_nat total);
  kind ← get_range icmp 0 2;
  if decide (kind <> [8; 0]%Z) then None else
  identifier ← get_range icmp 4 6;
  if decide (identifier <> [0x53; 0x53]%Z) then None else
  sequence ← get_range icmp 6 8 ≫= be_u16;
  payload ← get_from icmp 8;
  if decide (~ (1 <= sequence <= 20)%Z \/ ~ Forall (eq 0x5a%Z) payload) then None else
  Some sequence.

Section TxProbe.
Context `{Hal}.

Record Entry : Type := MkEntry {
  tag : Tag;
  cycle : Z;
  sequence : Z;
  phase : Phase;
  completion : option (result TxError Z);
  accepted_us : Z;
  queued_us : option Z;
  picked_us : option Z;
  finished_us : option Z;
}.

Definition EMPTY : Entry :=
  MkEntry (MkTag 0 0) 0 0 Accepted None 0 None None None.

(** ** The recorder *)

Record Recorder : Type := MkRecorder {
  entries : list Entry;
  used : nat;
  last_tag : Z;
  counters : Counters;
}.
Implicit Types (r : Recorder) (e : Entry) (t : Tag) (at_us : Z).

Definition recorder_new (n : nat) : Recorder :=
  MkRecorder (replicate n EMPTY) 0 0 (MkCounters 0 0 0 0).

Definition invalid r : Recorder :=
  let c := counters r in
  MkRecorder (entries r) (used r) (last_tag r)
    (MkCounters (capacity_rejections c) (tag_exhaustion c)
       (saturating_add 32 (invalid_events c) 1) (scope_changes c)).

Definition accept r (cyc seq at_us : Z) : outcome (option Tag * Recorder) :=
  let c := counters r in
  if decide (cyc = 0%Z \/ ~ (1 <= seq <= 20)%Z) then mret (None, invalid r)
  else if decide (used r = length (entries r))
  then mret (None, MkRecorder (entries r) (used r) (last_tag r)
    (MkCounters (saturating_add 32 (capacity_rejections c) 1) (tag_exhaustion c)
       (invalid_events c) (scope_changes c)))
  else match checked_add 32 (last_tag r) 1 with
  | None => mret (None, MkRecorder (entries r) (used r) (last_tag r)
      (MkCounters (capacity_rejections c) (saturating_add 32 (tag_exhaustion c) 1)
         (invalid_events c) (scope_changes c)))
  | Some next =>
      let t := MkTag next (used r) in
      _ ← expect (entries r !! used r);
      mret (Some t, MkRecorder
        (<[used r := MkEntry t cyc seq Accepted None at_us None None None]> (entries r))
        (used r + 1) next c)
  end.

(** [self.entries[..self.used]]. *)
Definition live_entries r : outcome (list Entry) :=
  if decide (used r <= length (entries r)) then mret (take (used r) (entries r)) else Panic.

(** [e.picked_us.or(e.queued_us).unwrap_or(e.accepted_us)]. *)
Definition last_time e : Z :=
  match picked_us e, queued_us e with
  | Some p, _ => p
  | None, Some q => q
  | None, None => accepted_us e
  end.

Definition index r t (p : Phase) at_us : outcome (option nat * Recorder) :=
  live ← live_entries r;
  match live !! slot t with
  | Some e =>
      if decide (tag e = t /\ phase e = p /\ (last_time e <= at_us)%Z)
      then mret (Some (slot t), r) else mret (None, invalid r)
  | None => mret (None, invalid r)
  end.

(** [self.entries[i].f = ..]. *)
Definition update_entry r (i : nat) (f : Entry -> Entry) : outcome Recorder :=
  e ← expect (entries r !! i);
  mret (MkRecorder (<[i := f e]> (entries r)) (used r) (last_tag r) (counters r)).

Definition set_queued at_us e : Entry :=
  MkEntry (tag e) (cycle e) (sequence e) Queued (completion e) (accepted_us e)
    (Some at_us) (picked_us e) (finished_us e).
Definition set_picked at_us e : Entry :=
  MkEntry (tag e) (cycle e) (sequence e) Picked (completion e) (accepted_us e)
    (queued_us e) (Some at_us) (finished_us e).
Definition set_finished at_us (res : result TxError Z) e : Entry :=
  MkEntry (tag e) (cycle e) (sequence e) Finished (Some res) (accepted_us e)
    (queued_us e) (picked_us e) (Some at_us).

(** The body shared by the three events. *)
Definition advance r t (from : Phase) at_us (f : Entry -> Entry) : outcome Recorder :=
  '(i, r) ← index r t from at_us;
  match i with Some i => update_entry r i f | None => mret r end.

Definition recorder_queued r t at_us : outcome Recorder :=
  advance r t Accepted at_us (set_queued at_us).
Definition recorder_picked r t at_us : outcome Recorder :=
  advance r t Queued at_us (set_picked at_us).
Definition recorder_finished r t at_us (res : result TxError Z) : outcome Recorder :=
  advance r t Picked at_us (set_finished at_us res).

(** ** The static state *)

Definition CAPACITY : nat := 64.

Record State : Type := MkState {
  recorder : Recorder;
  scope : option Scope;
  generation : Z;
}.
Implicit Types (s : State).

Definition STATE : State := MkState (recorder_new CAPACITY) None 0.

Definition arm s (cyc : Z) (gw : list Z) : bool * State :=
  match checked_add 64 (generation s) 1 with
  | Some next =>
      if decide (cyc = 0%Z) then (false, MkState (invalid (recorder s)) None (generation s))
      else (true, MkState (recorder s) (Some (MkScope cyc gw next)) next)
  | None => (false, MkState (invalid (recorder s)) None (generation s))
  end.

Definition disarm s : State := MkState (recorder s) None (generation s).

(** The first critical section of [accept_msdu] and the classification after it. *)
Definition accept_msdu_classify s (ethernet : list Z) : option (Scope * Z) :=
  sc ← scope s;
  seq ← gateway_echo_sequence ethernet (gateway sc);
  Some (sc, seq).

Definition count_scope_change r : Recorder :=
  let c := counters r in
  MkRecorder (entries r) (used r) (last_tag r)
    (MkCounters (capacity_rejections c) (tag_exhaustion c) (invalid_events c)
       (saturating_add 32 (scope_changes c) 1)).

(** Its second critical section. *)
Definition accept_msdu_record s (sc : Scope) (seq at_us : Z) : outcome (option Tag * State) :=
  if decide (scope s <> Some sc)
  then mret (None, MkState (count_scope_change (recorder s)) (scope s) (generation s))
  else '(t, r) ← accept (recorder s) (scope_cycle sc) seq at_us;
       mret (t, MkState r (scope s) (generation s)).

Definition with_recorder s (m : Recorder -> outcome Recorder) : outcome State :=
  r ← m (recorder s); mret (MkState r (scope s) (generation s)).

Definition queued s t at_us : outcome State :=
  with_recorder s (fun r => recorder_queued r t at_us).
Definition picked s t at_us : outcome State :=
  with_recorder s (fun r => recorder_picked r t at_us).
Definition finished s t at_us (res : result TxError Z) : outcome State :=
  with_recorder s (fun r => recorder_finished r t at_us res).

Definition len s : nat := used (recorder s).
Definition entry s (i : nat) : outcome (option Entry) :=
  live ← live_entries (recorder s); mret (live !! i).

(** ** The users of the probe

    [classified]: the classifications that have not reached their second critical
    section yet. *)

Record System : Type := MkSystem { probe : State; classified : list (Scope * Z) }.
Implicit Types (y : System).

Definition system_new : System := MkSystem STATE [].

Inductive action : Type :=
| AArm (cyc : Z) (gw : list Z)
| ADisarm
| AClassify (ethernet : list Z)
| ARecord (i : nat) (at_us : Z)
| AQueued (t : Tag) (at_us : Z)
| APicked (t : Tag) (at_us : Z)
| AFinished (t : Tag) (at_us : Z) (res : result TxError Z).

Inductive output : Type := OArm (b : bool) | OTag (t : option Tag) | OUnit.

Definition lift y (m : outcome State) : outcome (System * output) :=
  s ← m; mret (MkSystem s (classified y), OUnit).

Definition probe_step y (a : action) : option (outcome (System * output)) :=
  let s := probe y in
  match a with
  | AArm cyc gw =>
      let '(b, s') := arm s cyc gw in Some (mret (MkSystem s' (classified y), OArm b))
  | ADisarm => Some (lift y (mret (disarm s)))
  | AClassify ethernet =>
      match accept_msdu_classify s ethernet with
      | Some c => Some (mret (MkSystem s (classified y ++ [c]), OUnit))
      | None => Some (mret (y, OTag None))
      end
  | ARecord i at_us =>
      '(sc, seq) ← classified y !! i;
      Some ('(t, s') ← accept_msdu_record s sc seq at_us;
            mret (MkSystem s' (delete i (classified y)), OTag t))
  | AQueued t at_us => Some (lift y (queued s t at_us))
  | APicked t at_us => Some (lift y (picked s t at_us))
  | AFinished t at_us res => Some (lift y (finished s t at_us res))
  end.

(** ** What the recorder guarantees *)

(** The ways an entry may change: each boundary once, in order, never back in time. *)
Inductive entry_step : Entry -> Entry -> Prop :=
| step_queued e at_us : phase e = Accepted -> (last_time e <= at_us)%Z ->
    entry_step e (set_queued at_us e)
| step_picked e at_us : phase e = Queued -> (last_time e <= at_us)%Z ->
    entry_step e (set_picked at_us e)
| step_finished e at_us res : phase e = Picked -> (last_time e <= at_us)%Z ->
    entry_step e (set_finished at_us res e).

(** The fields filled in agree with the phase, in the order of time. *)
Definition phase_ok e : Prop :=
  match phase e with
  | Accepted =>
      queued_us e = None /\ picked_us e = None /\ finished_us e = None /\ completion e = None
  | Queued => exists q, queued_us e = Some q /\ (accepted_us e <= q)%Z /\
      picked_us e = None /\ finished_us e = None /\ completion e = None
  | Picked => exists q p, queued_us e = Some q /\ picked_us e = Some p /\
      (accepted_us e <= q <= p)%Z /\ finished_us e = None /\ completion e = None
  | Finished => exists q p f res, queued_us e = Some q /\ picked_us e = Some p /\
      finished_us e = Some f /\ (accepted_us e <= q <= p)%Z /\ (p <= f)%Z /\
      completion e = Some res
  end.

Record wf_entry (i : nat) e : Prop := {
  wf_tag : tag e = MkTag (Z.of_nat (S i)) i;
  wf_cycle : cycle e <> 0%Z;
  wf_sequence : (1 <= sequence e <= 20)%Z;
  wf_phase : phase_ok e;
}.

(** Nothing recorded is lost or overwritten. *)
Record retains e e' : Prop := {
  same_tag : tag e' = tag e;
  same_cycle : cycle e' = cycle e;
  same_sequence : sequence e' = sequence e;
  same_accepted : accepted_us e' = accepted_us e;
  keeps_queued : forall q, queued_us e = Some q -> queued_us e' = Some q;
  keeps_picked : forall p, picked_us e = Some p -> picked_us e' = Some p;
  keeps_finished : forall f, finished_us e = Some f -> finished_us e' = Some f;
  keeps_completion : forall c, completion e = Some c -> completion e' = Some c;
}.

Lemma retains_trans e1 e2 e3 : retains e1 e2 -> retains e2 e3 -> retains e1 e3.
Proof. intros [] []. split; [congruence..| | | |]; eauto. Qed.

Lemma entry_step_wf i e e' : entry_step e e' -> wf_entry i e -> wf_entry i e' /\ retains e e'.
Proof.
  intros Hs [Ht Hc Hq Hp]. unfold phase_ok in Hp.
  inversion Hs as [? a Hph Hle|? a Hph Hle|? a res Hph Hle]; subst;
    rewrite Hph in Hp; open_hyps; unfold last_time in Hle; simplify_option_eq.
  all: split; split; simpl; try done; try congruence; unfold phase_ok; simpl.
  - exists a. repeat split; try done; congruence.
  - exists x, a. repeat split; try done; congruence.
  - exists x, x0, a, res. by repeat split.
Qed.

Lemma entry_steps_wf i e e' :
  rtc entry_step e e' -> wf_entry i e -> wf_entry i e' /\ retains e e'.
Proof.
  induction 1 as [e|e1 e2 e3 Hs _ IH]; intros Hwf; [by split; [|split]|].
  destruct (entry_step_wf _ _ _ Hs Hwf) as [Hwf2 Hr].
  destruct (IH Hwf2) as [Hwf3 Hr3]. split; [done|]. by eapply retains_trans.
Qed.

Record wf_recorder (n : nat) r : Prop := {
  wf_length : length (entries r) = n;
  wf_used : used r <= n;
  wf_last_tag : last_tag r = Z.of_nat (used r);
  wf_exhaustion : tag_exhaustion (counters r) = 0%Z;
  wf_entries : forall i e, i < used r -> entries r !! i = Some e -> wf_entry i e;
}.

(** One recorder later in time than another. *)
Record extends r r' : Prop := {
  ext_used : used r <= used r';
  ext_entries : forall i e, i < used r -> entries r !! i = Some e ->
    exists e', entries r' !! i = Some e' /\ rtc entry_step e e';
}.

#[local] Instance extends_preorder : PreOrder extends.
Proof.
  split.
  - intros r. split; [done|]. intros i e _ He. exists e. by split; [|apply rtc_refl].
  - intros r1 r2 r3 [Hu1 He1] [Hu2 He2]. split; [lia|]. intros i e Hi He.
    destruct (He1 i e Hi He) as (e2 & H2 & Hs2).
    destruct (He2 i e2) as (e3 & H3 & Hs3); [lia|done|].
    exists e3. split; [done|]. by etrans.
Qed.

(** The operations that only count. *)
Lemma same_entries_ok n r r' :
  entries r' = entries r -> used r' = used r -> last_tag r' = last_tag r ->
  tag_exhaustion (counters r') = tag_exhaustion (counters r) ->
  wf_recorder n r -> wf_recorder n r' /\ extends r r'.
Proof.
  intros He Hu Hl Ht [Hlen Huse Hlast Hex Hwf]. split.
  - split; [congruence..|]. rewrite Hu, He. apply Hwf.
  - split; [lia|]. intros i e _ Hi. exists e. rewrite He. by split; [|apply rtc_refl].
Qed.

Lemma accept_ok n r cyc seq at_us :
  (Z.of_nat n < 2 ^ 32)%Z -> wf_recorder n r ->
  exists o r', accept r cyc seq at_us = Done (o, r') /\ wf_recorder n r' /\ extends r r' /\
    (is_Some o <-> cyc <> 0%Z /\ (1 <= seq <= 20)%Z /\ used r < n) /\
    (forall x, o = Some x -> x = MkTag (Z.of_nat (used r')) (used r) /\ used r' = used r + 1 /\
       entries r' !! used r = Some (MkEntry x cyc seq Accepted None at_us None None None)).
Proof.
  intros Hn Hwf. pose proof Hwf as [Hlen Huse Hlast Hex He]. unfold accept.
  case_decide as Hbad.
  { eexists None, _. split; [done|]. destruct (same_entries_ok n r (invalid r)); try done.
    split_and!; try done. split; [by intros []|]. naive_solver. }
  apply Decidable.not_or in Hbad as [Hc Hs%dec_stable].
  case_decide as Hfull.
  { eexists None, _. split; [done|]. eapply and_assoc. split.
    - by eapply same_entries_ok.
    - split; [|done]. split; [by intros []|lia]. }
  unfold checked_add, u_max. rewrite decide_True by (rewrite Hlast; lia).
  destruct (lookup_lt_is_Some_2 (entries r) (used r)) as [old Hold]; [lia|].
  rewrite Hold. simpl. eexists (Some _), _. split; [done|].
  split; [|split; [|split]].
  - split; simpl; [by rewrite length_insert|lia|lia|done|]. intros i e Hi.
    destruct (decide (i = used r)) as [->|Hne].
    + rewrite list_lookup_insert_eq by lia. intros [= <-].
      split; simpl; [|done|exact Hs|by unfold phase_ok].
      f_equal. lia.
    + rewrite list_lookup_insert_ne by congruence. apply He. lia.
  - split; simpl; [lia|]. intros i e Hi Hie. exists e.
    rewrite list_lookup_insert_ne by lia. by split; [|apply rtc_refl].
  - split; [intros _; repeat split; (done || lia)|by eexists].
  - intros x [= <-]. simpl. split_and!; [f_equal; lia|done|]. apply list_lookup_insert_eq. lia.
Qed.

Lemma index_ok n r t p at_us :
  wf_recorder n r ->
  index r t p at_us = Done (None, invalid r) \/
  exists e, index r t p at_us = Done (Some (slot t), r) /\ slot t < used r /\
    entries r !! slot t = Some e /\ tag e = t /\ phase e = p /\ (last_time e <= at_us)%Z.
Proof.
  intros [Hlen Huse _ _ _]. unfold index, live_entries. rewrite decide_True by lia. simpl.
  destruct (take (used r) (entries r) !! slot t) as [e|] eqn:He; [|by left].
  case_decide as Hd; [|by left]. right. exists e.
  apply lookup_take_Some in He as [He Hlt]. tauto.
Qed.

Lemma advance_ok n r t p at_us f :
  (forall e, phase e = p -> (last_time e <= at_us)%Z -> entry_step e (f e)) ->
  wf_recorder n r ->
  exists r', advance r t p at_us f = Done r' /\ wf_recorder n r' /\ extends r r'.
Proof.
  intros Hf Hwf. unfold advance.
  destruct (index_ok n r t p at_us Hwf) as [->|(e & -> & Hlt & He & Ht & Hp & Hle)]; simpl.
  { eexists. split; [done|]. by apply same_entries_ok. }
  unfold update_entry. rewrite He. simpl. eexists. split; [done|].
  pose proof (Hf e Hp Hle) as Hstep. destruct Hwf as [Hlen Huse Hlast Hex Hwf]. split.
  - split; simpl; [by rewrite length_insert|done..|]. intros i e' Hi.
    destruct (decide (i = slot t)) as [->|Hne].
    + rewrite list_lookup_insert_eq by lia. intros [= <-].
      by apply (entry_step_wf _ _ _ Hstep), Hwf.
    + rewrite list_lookup_insert_ne by congruence. by apply Hwf.
  - split; simpl; [done|]. intros i e' Hi He'.
    destruct (decide (i = slot t)) as [->|Hne].
    + rewrite He in He'. simplify_eq. exists (f e'). rewrite list_lookup_insert_eq by lia.
      split; [done|]. by apply rtc_once.
    + exists e'. rewrite list_lookup_insert_ne by congruence. by split; [|apply rtc_refl].
Qed.

(** ** The system *)

Record sys_ok y : Prop := {
  ok_recorder : wf_recorder CAPACITY (recorder (probe y));
  ok_scope : forall sc, scope (probe y) = Some sc -> (scope_generation sc <= generation (probe y))%Z;
}.

Lemma system_new_ok : sys_ok system_new.
Proof. split; [|done]. split; simpl; try done; lia. Qed.

Lemma lift_ok y m :
  (exists r', m (recorder (probe y)) = Done r' /\ wf_recorder CAPACITY r' /\
     extends (recorder (probe y)) r') ->
  sys_ok y ->
  exists y', lift y (with_recorder (probe y) m) = Done (y', OUnit) /\ sys_ok y' /\
    extends (recorder (probe y)) (recorder (probe y')) /\
    scope (probe y') = scope (probe y) /\ generation (probe y') = generation (probe y).
Proof.
  intros (r' & Hm & Hwf & Hext) [_ Hsc]. unfold lift, with_recorder. rewrite Hm. simpl.
  eexists. split; [done|]. split_and!; [|done..]. by split.
Qed.

(** Only these actions touch the scope. *)
Definition changes_scope (a : action) : Prop :=
  match a with AArm _ _ | ADisarm => True | _ => False end.

(** How the scope may move: it stays, or it is gone, or it is a fresh one. *)
Definition scope_moved (s s' : State) : Prop :=
  scope s' = None \/ exists sc, scope s' = Some sc /\ (generation s < scope_generation sc)%Z.

(** The three events of a recorded frame go through the same lemmas. *)
Ltac event_case m :=
  match goal with
  | Hok : sys_ok ?y |- _ =>
      right; destruct (lift_ok y m) as (y' & Hy & Hok' & Hext & Hs & Hg);
      [apply advance_ok; [by constructor|done] | done |];
      exists y', OUnit; unfold queued, picked, finished; rewrite Hy, Hg;
      split_and!; try done; right; by split; [intros []|]
  end.

Lemma probe_step_ok y a :
  sys_ok y -> probe_step y a = None \/
  exists y' o, probe_step y a = Some (Done (y', o)) /\ sys_ok y' /\
    extends (recorder (probe y)) (recorder (probe y')) /\
    (generation (probe y) <= generation (probe y'))%Z /\
    (changes_scope a /\ scope_moved (probe y) (probe y') \/
     ~ changes_scope a /\ scope (probe y') = scope (probe y)).
Proof.
  intros Hok. pose proof Hok as [Hwf Hsc].
  destruct a as [cyc gw| |ethernet|i at_us|t at_us|t at_us|t at_us res]; simpl.
  - right. destruct (same_entries_ok CAPACITY (recorder (probe y)) (invalid (recorder (probe y))))
      as [Hwf' Hext]; [done..|].
    unfold arm, checked_add. case_decide; [case_decide|].
    1,3: do 2 eexists; split; [done|]; (split; [by split|]); split; [done|];
         split; [done|]; left; split; [done|by left].
    do 2 eexists. split; [done|]. split; [split; [done|]|]; simpl.
    { by intros ? [= <-]. }
    split; [done|]. split; [lia|]. left. split; [done|]. right. eexists. split; [done|].
    simpl. lia.
  - right. do 2 eexists. split; [done|]. split; [by split|]. split; [done|].
    split; [done|]. left. split; [done|by left].
  - right. destruct (accept_msdu_classify (probe y) ethernet).
    all: do 2 eexists; split; [done|]; split; [by split|]; split; [done|]; split; [done|];
      by right; split; [intros []|].
  - destruct (classified y !! i) as [[sc seq]|]; [simpl|by left]. right.
    unfold accept_msdu_record. case_decide.
    + destruct (same_entries_ok CAPACITY (recorder (probe y))
        (count_scope_change (recorder (probe y)))) as [Hwf' Hext]; [done..|].
      do 2 eexists; split; [done|]; split; [by split|]; split; [done|]; split; [done|].
      by right; split; [intros []|].
    + destruct (accept_ok CAPACITY (recorder (probe y)) (scope_cycle sc) seq at_us)
        as (o & r' & Ha & Hwf' & Hext & _); [done..|]. rewrite Ha. simpl.
      do 2 eexists; split; [done|]; split; [by split|]; split; [done|]; split; [done|].
      by right; split; [intros []|].
  - event_case (fun r => recorder_queued r t at_us).
  - event_case (fun r => recorder_picked r t at_us).
  - event_case (fun r => recorder_finished r t at_us res).
Qed.

Lemma probe_step_inv y a y' o :
  sys_ok y -> probe_step y a = Some (Done (y', o)) ->
  sys_ok y' /\ extends (recorder (probe y)) (recorder (probe y')) /\
  (generation (probe y) <= generation (probe y'))%Z /\
  (changes_scope a /\ scope_moved (probe y) (probe y') \/
   ~ changes_scope a /\ scope (probe y') = scope (probe y)).
Proof.
  intros Hok Hs. destruct (probe_step_ok y a Hok) as [Hn|(y1 & o1 & Hd & Hrest)]; [congruence|].
  rewrite Hs in Hd. by injection Hd as <- <-.
Qed.

(** A run from a sound system: what it keeps, and what it does to the scope. *)
Lemma run_ok y acts y' os :
  sys_ok y -> run probe_step y acts = Some (Done (y', os)) ->
  sys_ok y' /\ extends (recorder (probe y)) (recorder (probe y')) /\
  (generation (probe y) <= generation (probe y'))%Z /\
  (Exists changes_scope acts /\ scope_moved (probe y) (probe y') \/
   Forall (fun a => ~ changes_scope a) acts /\ scope (probe y') = scope (probe y)).
Proof.
  intros Hok. revert acts y' os. apply run_invariant.
  { split; [done|]. split; [done|]. split; [done|]. by right. }
  intros y1 acts os a y2 o (Hok1 & He1 & Hg1 & Hs1) Hstep.
  destruct (probe_step_inv _ _ _ _ Hok1 Hstep) as (Hok2 & He2 & Hg2 & Hs2).
  split; [done|]. split; [by etrans|]. split; [lia|].
  destruct Hs2 as [[Ha Hm]|[Ha Heq]].
  - left. split; [apply Exists_app; right; by constructor|].
    destruct Hm as [Hn|(sc & Hsc & Hlt)]; [by left|]. right. exists sc. split; [done|lia].
  - destruct Hs1 as [[Hx Hm]|[Hf Hs1]].
    + left. split; [apply Exists_app; by left|]. unfold scope_moved. by rewrite Heq.
    + right. split; [|congruence]. apply Forall_app. by split; [|constructor].
Qed.

Lemma probe_no_panic y acts : sys_ok y -> run probe_step y acts <> Some Panic.
Proof.
  intros Hok. apply (run_no_panic probe_step sys_ok); [done| |].
  - intros y1 a Hok1. destruct (probe_step_ok y1 a Hok1) as [->|(? & ? & -> & _)]; done.
  - intros. by eapply probe_step_inv.
Qed.

Lemma entry_Done n s i e :
  wf_recorder n (recorder s) ->
  entry s i = Done (Some e) <-> i < len s /\ entries (recorder s) !! i = Some e.
Proof.
  intros [Hlen Huse _ _ _]. unfold entry, live_entries, len. rewrite decide_True by lia.
  simpl. split.
  - intros He. injection He as He. apply lookup_take_Some in He as [??]. done.
  - intros [Hi He]. unfold mret, outcome_ret. f_equal. apply lookup_take_Some. done.
Qed.

(** The recorder keeps its evidence.  In any interleaving of classifications,
    acceptances and events, with arbitrary tags and times, an entry that was recorded
    is there for ever at the same index: its identity, sequence number, times and result
    never change once set, it moves only through the phases in order and forward in time,
    and no call panics. *)
Theorem probe_evidence_kept acts y os acts' :
  run probe_step system_new acts = Some (Done (y, os)) ->
  run probe_step y acts' <> Some Panic /\
  forall y' os', run probe_step y acts' = Some (Done (y', os')) ->
  forall i e, entry (probe y) i = Done (Some e) ->
  exists e', entry (probe y') i = Done (Some e') /\ rtc entry_step e e' /\ retains e e'.
Proof.
  intros Hr. destruct (run_ok _ _ _ _ system_new_ok Hr) as (Hok & _).
  split; [by apply probe_no_panic|]. intros y' os' Hr' i e He.
  destruct (run_ok _ _ _ _ Hok Hr') as ([Hwf' _] & [Hu Hx] & _). destruct Hok as [Hwf _].
  apply (entry_Done CAPACITY) in He as [Hi He]; [|done].
  destruct (Hx i e Hi He) as (e' & He' & Hs). exists e'. split.
  - apply (entry_Done CAPACITY); [done|]. unfold len in *. split; [lia|done].
  - split; [done|]. by eapply entry_steps_wf; [|apply (wf_entries _ _ Hwf)].
Qed.

(** Every entry the recorder shows is sound: entry [i] carries the tag with ordinal
    [i + 1] and slot [i], so tags are unique and increasing; its cycle is not 0, its
    sequence number is in 1..20, and the fields filled in are those of its phase with
    times in order.  At most [CAPACITY] entries are kept, and the branch of [accept] for
    exhausted tags is never taken. *)
Theorem probe_records_sound acts y os :
  run probe_step system_new acts = Some (Done (y, os)) ->
  len (probe y) <= CAPACITY /\ tag_exhaustion (counters (recorder (probe y))) = 0%Z /\
  forall i, (i < len (probe y) -> exists e, entry (probe y) i = Done (Some e)) /\
    (forall e, entry (probe y) i = Done (Some e) -> wf_entry i e).
Proof.
  intros Hr. destruct (run_ok _ _ _ _ system_new_ok Hr) as ([Hwf _] & _).
  pose proof Hwf as [Hlen Huse _ Hx Hen]. split; [done|]. split; [done|]. intros i. split.
  - intros Hi. destruct (lookup_lt_is_Some_2 (entries (recorder (probe y))) i) as [e He].
    { unfold len in Hi. lia. }
    exists e. by apply (entry_Done CAPACITY).
  - intros e [Hi He]%(entry_Done CAPACITY); [|done]. by apply Hen.
Qed.

(** A frame is recorded only under the scope it was classified under.  If a frame was
    classified at one time and the classification is accepted at a later one, then nobody
    armed or disarmed the probe in between, and the new entry has that scope's cycle, the
    frame's echo sequence number and the tag returned. *)
Theorem recorded_under_one_scope acts y os acts' y' os' ethernet sc seq at_us t s' :
  run probe_step system_new acts = Some (Done (y, os)) ->
  accept_msdu_classify (probe y) ethernet = Some (sc, seq) ->
  run probe_step y acts' = Some (Done (y', os')) ->
  accept_msdu_record (probe y') sc seq at_us = Done (Some t, s') ->
  Forall (fun a => ~ changes_scope a) acts' /\
  gateway_echo_sequence ethernet (gateway sc) = Some seq /\
  slot t = len (probe y') /\ len s' = S (len (probe y')) /\
  entry s' (slot t) =
    Done (Some (MkEntry t (scope_cycle sc) seq Accepted None at_us None None None)).
Proof.
  intros Hr Hc Hr' Ha. destruct (run_ok _ _ _ _ system_new_ok Hr) as (Hok & _).
  destruct (run_ok _ _ _ _ Hok Hr') as ([Hwf' _] & _ & _ & Hmv).
  unfold accept_msdu_classify in Hc.
  destruct (scope (probe y)) as [sc0|] eqn:Hsc; [|done]. simpl in Hc.
  destruct (gateway_echo_sequence _ _) as [seq0|] eqn:Hg; [|done]. injection Hc as -> ->.
  unfold accept_msdu_record in Ha. case_decide as Hd; [done|].
  split.
  { destruct Hmv as [[_ [Hn|(sc1 & Hsc1 & Hlt)]]|[Hf _]]; [congruence| |done].
    pose proof (ok_scope _ Hok _ Hsc). assert (sc1 = sc) as -> by congruence. lia. }
  split; [done|].
  destruct (accept_ok CAPACITY (recorder (probe y')) (scope_cycle sc) seq at_us)
    as (o & r' & Hacc & Hwr & _ & _ & Ho); [done..|].
  rewrite Hacc in Ha. simpl in Ha. injection Ha as -> <-.
  destruct (Ho t eq_refl) as (-> & Hu & He). unfold len. simpl. split; [done|].
  split; [lia|]. apply (entry_Done CAPACITY); [done|]. unfold len. simpl. split; [lia|done].
Qed.
End TxProbe.

(** ** The classifier against the format it is meant to recognise *)

(** The 512 bytes of pattern of the batch. *)
Definition echo_payload : list Z := replicate 512 0x5a%Z.

(** Two bytes in network order. *)
Definition be_bytes (z : Z) : list Z := [z / 256; z `mod` 256]%Z.

(** An echo request of the gateway batch: an IPv4 header of 20 bytes and options, the
    eight bytes of an ICMP echo header, and 512 bytes of pattern. *)
Definition echo_request (macs : list Z) (tos : Z) (id fragment : list Z) (ttl : Z)
  (header_sum source gw options icmp_sum padding : list Z) (seq : Z) : list Z :=
  macs ++ [0x08; 0x00]%Z ++
  [64 + Z.of_nat (5 + length options / 4); tos]%Z ++
  be_bytes (Z.of_nat (540 + length options)) ++ id ++ fragment ++ [ttl; 1]%Z ++ header_sum ++
  source ++ gw ++ options ++
  [8; 0]%Z ++ icmp_sum ++ [0x53; 0x53; 0; seq]%Z ++ echo_payload ++ padding.

Record echo_fields (macs id fragment header_sum source options icmp_sum : list Z) (seq : Z)
  : Prop := {
  ef_macs : length macs = 12;
  ef_id : length id = 2;
  ef_fragment : exists hi lo, fragment = [hi; lo] /\ (u16_be hi lo `mod` 0x4000 = 0)%Z;
  ef_sums : length header_sum = 2 /\ length icmp_sum = 2;
  ef_source : length source = 4;
  ef_options : length options mod 4 = 0 /\ length options <= 40;
  ef_seq : (1 <= seq <= 20)%Z;
}.

(** The first byte of the IP header. *)
Lemma version_ihl_spec v :
  is_byte v ->
  (Z.shiftr v 4 = 4%Z /\ 20 <= Z.to_nat (Z.land v 15) * 4) <->
  exists words, v = (64 + Z.of_nat words)%Z /\ 5 <= words <= 15.
Proof.
  intros Hv. unfold is_byte in Hv. rewrite Z.shiftr_div_pow2 by lia.
  change 15%Z with (Z.ones 4). rewrite Z.land_ones by lia. change (2 ^ 4)%Z with 16%Z. split.
  - intros [Hq Hm]. exists (Z.to_nat (v `mod` 16)). split; Z.div_mod_to_equations; lia.
  - intros (w & -> & Hw). split; Z.div_mod_to_equations; lia.
Qed.

Lemma header_length words :
  5 <= words <= 15 -> Z.to_nat (Z.land (64 + Z.of_nat words) 15) * 4 = words * 4.
Proof.
  intros Hw. change 15%Z with (Z.ones 4). rewrite Z.land_ones by lia.
  change (2 ^ 4)%Z with 16%Z. f_equal. Z.div_mod_to_equations. lia.
Qed.

Lemma be_bytes_be z : (0 <= z < 65536)%Z -> be_u16 (be_bytes z) = Some z.
Proof.
  intros Hz. unfold be_bytes, be_u16, u16_be. f_equal.
  pose proof (Z.div_mod z 256). lia.
Qed.

(** The part of the classifier that reads the ICMP message. *)
Definition icmp_sequence (icmp : list Z) : option Z :=
  kind ← get_range icmp 0 2;
  if decide (kind <> [8; 0]%Z) then None else
  identifier ← get_range icmp 4 6;
  if decide (identifier <> [0x53; 0x53]%Z) then None else
  sequence ← get_range icmp 6 8 ≫= be_u16;
  payload ← get_from icmp 8;
  if decide (~ (1 <= sequence <= 20)%Z \/ ~ Forall (eq 0x5a%Z) payload) then None else
  Some sequence.

(** The classifier on an IP packet cut into its header, options, message and padding. *)
Lemma classify_cut macs h options icmp padding gw words :
  length macs = 12 -> length h = 20 -> length options + 20 = words * 4 -> 5 <= words <= 15 ->
  length icmp = 520 ->
  h !! 0 = Some (64 + Z.of_nat words)%Z -> h !! 9 = Some 1%Z ->
  get_range h 2 4 ≫= be_u16 = Some (Z.of_nat (words * 4 + 520)) ->
  get_range h 16 20 = Some gw ->
  gateway_echo_sequence (macs ++ [0x08; 0x00]%Z ++ (h ++ options ++ icmp ++ padding)) gw =
    (fragment ← get_range h 6 8 ≫= be_u16;
     if decide (Z.land fragment 0x3fff <> 0%Z) then None else
     icmp_sequence icmp).
Proof.
  intros Hm Hh Ho Hw Hi H0 H9 Ht Hg. unfold gateway_echo_sequence.
  rewrite (get_range_app macs) by done. cbn [mbind option_bind]. rewrite decide_False by naive_solver.
  set (ip := h ++ options ++ icmp ++ padding).
  assert (get_from (macs ++ [8; 0]%Z ++ ip) 14 = Some ip) as ->.
  { apply get_range_to_end. exists (macs ++ [8; 0]%Z). rewrite length_app, <- app_assoc. simpl.
    split; [done|lia]. }
  assert (forall i, i < 20 -> ip !! i = h !! i) as Hl.
  { intros i Hlt. apply lookup_app_l. lia. }
  assert (forall a b, b <= 20 -> get_range ip a b = get_range h a b) as Hr.
  { intros a b Hb. apply get_range_app_l. lia. }
  cbn [mbind option_bind]. rewrite (Hl 0), H0 by lia. cbn [mbind option_bind].
  rewrite header_length by done.
  rewrite decide_False; last first.
  { intros [Hv|Hlt]; [|lia]. apply Hv. apply version_ihl_spec; [unfold is_byte; lia|]. eauto. }
  rewrite (Hr 2 4), Ht by lia. cbn [mbind option_bind].
  rewrite Nat2Z.id. rewrite decide_False; last first.
  { unfold ip. rewrite !length_app. lia. }
  rewrite (Hl 9), H9 by lia. cbn [mbind option_bind]. rewrite decide_False by naive_solver.
  rewrite (Hr 16 20), Hg by lia. cbn [mbind option_bind]. rewrite decide_False by naive_solver.
  rewrite (Hr 6 8) by lia.
  destruct (get_range h 6 8 ≫= be_u16) as [fragment|]; [|done]. cbn [mbind option_bind].
  case_decide; [done|]. unfold ip.
  replace (h ++ options ++ icmp ++ padding) with ((h ++ options) ++ icmp ++ padding)
    by (by rewrite <- app_assoc).
  rewrite get_range_app by (rewrite ?length_app; lia). done.
Qed.

Lemma be_u16_Some l z : be_u16 l = Some z -> exists x y, l = [x; y] /\ z = u16_be x y.
Proof. destruct l as [|x [|y [|]]]; try done. intros [= <-]. eauto. Qed.

Lemma classify_inv ethernet gw seq :
  Forall is_byte ethernet -> gateway_echo_sequence ethernet gw = Some seq ->
  exists macs h options icmp padding words,
    ethernet = macs ++ [0x08; 0x00]%Z ++ (h ++ options ++ icmp ++ padding) /\
    length macs = 12 /\ length h = 20 /\ length options + 20 = words * 4 /\ 5 <= words <= 15 /\
    length icmp = 520 /\
    h !! 0 = Some (64 + Z.of_nat words)%Z /\ h !! 9 = Some 1%Z /\
    get_range h 2 4 ≫= be_u16 = Some (Z.of_nat (words * 4 + 520)) /\
    get_range h 16 20 = Some gw.
Proof.
  intros Hb Hs. unfold gateway_echo_sequence in Hs.
  destruct (get_range ethernet 12 14) as [et|] eqn:He; [|done]. cbn [mbind option_bind] in Hs.
  case_decide as Het; [done|]. subst et.
  destruct (get_from ethernet 14) as [ip|] eqn:Hip; [|done]. cbn [mbind option_bind] in Hs.
  apply get_range_Some in He as (macs & rest & -> & Hm & _).
  apply get_range_to_end in Hip as (p & Hip & Hp). rewrite app_assoc in Hip.
  apply app_inj_1 in Hip as [_ ->]; [|rewrite length_app; simpl; lia].
  apply Forall_app in Hb as [_ [_ Hb]%Forall_app].
  destruct (ip !! 0) as [v|] eqn:Hv; [|done]. cbn [mbind option_bind] in Hs.
  case_decide as Hver; [done|]. apply Decidable.not_or in Hver as [H4 Hge].
  destruct (version_ihl_spec v) as [Hspec _].
  { rewrite Forall_lookup in Hb. by apply (Hb 0). }
  destruct Hspec as (words & -> & Hw); [split; [by apply dec_stable|lia]|].
  rewrite header_length in Hs by done.
  destruct (get_range ip 2 4 ≫= be_u16) as [total|] eqn:Ht; [|done]. cbn [mbind option_bind] in Hs.
  case_decide as Hlen; [done|]. apply Decidable.not_or in Hlen as [Htot%dec_stable Hlen].
  destruct (ip !! 9) as [pr|] eqn:H9; [|done]. cbn [mbind option_bind] in Hs.
  case_decide as Hpr; [done|]. subst pr.
  destruct (get_range ip 16 20) as [dst|] eqn:Hg; [|done]. cbn [mbind option_bind] in Hs.
  case_decide as Hgw; [done|]. subst dst. clear Hs.
  destruct (split_at 20 ip) as (h & body & -> & Hh); [lia|]. rewrite length_app in Hlen.
  destruct (split_at (words * 4 - 20) body) as (options & body' & -> & Ho); [lia|].
  rewrite length_app in Hlen.
  destruct (split_at 520 body') as (icmp & padding & -> & Hi); [lia|].
  rewrite !lookup_app_l in * by lia. rewrite !get_range_app_l in * by lia.
  assert (total = Z.of_nat (words * 4 + 520)) as Hz.
  { destruct (get_range h 2 4) as [l|] eqn:Hl; [|done]. cbn [mbind option_bind] in Ht.
    apply be_u16_Some in Ht as (x & y & -> & ->).
    apply Forall_app in Hb as [Hbh _]. apply (get_range_bytes _ _ _ _ _ Hbh) in Hl.
    apply Forall_cons in Hl as [Hx [Hy _]%Forall_cons].
    pose proof (u16_be_bounds _ _ Hx Hy). lia. }
  exists macs, h, options, icmp, padding, words. subst total. split_and!; try done; lia.
Qed.

Lemma icmp_sequence_cut a b c d e f g h payload :
  icmp_sequence ([a; b; c; d; e; f; g; h] ++ payload) =
    if decide ([a; b] <> [8; 0]%Z) then None else
    if decide ([e; f] <> [0x53; 0x53]%Z) then None else
    if decide (~ (1 <= u16_be g h <= 20)%Z \/ ~ Forall (eq 0x5a%Z) payload) then None else
    Some (u16_be g h).
Proof.
  unfold icmp_sequence.
  assert (get_from ([a; b; c; d; e; f; g; h] ++ payload) 8 = Some payload) as ->.
  { apply get_range_to_end. by exists [a; b; c; d; e; f; g; h]. }
  rewrite !(get_range_app_l [_; _; _; _; _; _; _; _]) by (simpl; lia). done.
Qed.

Lemma icmp_sequence_spec icmp seq :
  Forall is_byte icmp -> length icmp = 520 ->
  icmp_sequence icmp = Some seq <->
  (1 <= seq <= 20)%Z /\ exists icmp_sum, length icmp_sum = 2 /\
    icmp = [8; 0]%Z ++ icmp_sum ++ [0x53; 0x53; 0; seq]%Z ++ echo_payload.
Proof.
  intros Hb Hi. split.
  - destruct (split_at 8 icmp) as (ih & payload & -> & Hih); [lia|].
    rewrite length_app, Hih in Hi. apply (Nat.add_cancel_l _ 512 8) in Hi.
    destruct ih as [|a [|b [|c [|d [|e [|f [|g [|h [|]]]]]]]]]; try done.
    rewrite icmp_sequence_cut. case_decide as Hk; [done|]. case_decide as He; [done|].
    case_decide as Hp; [done|]. apply Decidable.not_or in Hp as [Hs%dec_stable Hp%dec_stable].
    intros [= <-]. simplify_eq. apply Forall_eq_replicate in Hp. rewrite Hi in Hp. subst payload.
    split; [done|]. exists [c; d]. split; [done|]. simpl. do 6 f_equal.
    apply Forall_app in Hb as [Hb _]. rewrite !Forall_cons in Hb.
    unfold is_byte, u16_be in *. destruct_and!. assert (g = 0%Z) as -> by lia. done.
  - intros [Hs (ck & Hck & ->)]. destruct ck as [|c [|d [|]]]; try done.
    change ([8; 0]%Z ++ [c; d] ++ [0x53; 0x53; 0; seq]%Z ++ echo_payload) with
      ([8; 0; c; d; 0x53; 0x53; 0; seq]%Z ++ echo_payload).
    rewrite icmp_sequence_cut. do 2 (rewrite decide_False by naive_solver).
    unfold u16_be. rewrite Z.mul_0_l, Z.add_0_l. rewrite decide_False; [done|].
    intros [Hn|Hn]; apply Hn; [lia|]. by apply Forall_replicate.
Qed.

(** The fixed header of an IPv4 packet, byte by byte. *)
Lemma header_bytes h gw words :
  length h = 20 -> h !! 0 = Some (64 + Z.of_nat words)%Z -> h !! 9 = Some 1%Z ->
  get_range h 2 4 ≫= be_u16 = Some (Z.of_nat (words * 4 + 520)) ->
  get_range h 16 20 = Some gw -> Forall is_byte h ->
  exists tos id hi lo ttl header_sum source,
    length id = 2 /\ length header_sum = 2 /\ length source = 4 /\ length gw = 4 /\
    get_range h 6 8 ≫= be_u16 = Some (u16_be hi lo) /\ (0 <= u16_be hi lo < 65536)%Z /\
    h = [64 + Z.of_nat words; tos]%Z ++ be_bytes (Z.of_nat (words * 4 + 520)) ++ id ++ [hi; lo] ++
        [ttl; 1]%Z ++ header_sum ++ source ++ gw.
Proof.
  intros Hh H0 H9 Ht Hg Hb.
  destruct h as [|a0 [|a1 [|a2 [|a3 [|a4 [|a5 [|a6 [|a7 [|a8 [|a9 h]]]]]]]]]]; try done.
  destruct h as [|c0 [|c1 [|d0 [|d1 [|d2 [|d3 [|g0 [|g1 [|g2 [|g3 [|]]]]]]]]]]]; try done.
  injection H0 as ->. injection H9 as ->. injection Ht as Ht. injection Hg as <-.
  rewrite !Forall_cons in Hb. destruct_and!.
  exists a1, [a4; a5], a6, a7, a8, [c0; c1], [d0; d1; d2; d3].
  split_and!; try done; try (by apply u16_be_bounds).
  rewrite <- Ht. unfold be_bytes, u16_be. unfold is_byte in *.
  replace ((a2 * 256 + a3) / 256)%Z with a2 by (Z.div_mod_to_equations; lia).
  by replace ((a2 * 256 + a3) `mod` 256)%Z with a3 by (Z.div_mod_to_equations; lia).
Qed.

Lemma classifier_sound ethernet gw seq :
  Forall is_byte ethernet -> gateway_echo_sequence ethernet gw = Some seq ->
  exists macs tos id fragment ttl header_sum source options icmp_sum padding,
    echo_fields macs id fragment header_sum source options icmp_sum seq /\
    ethernet = echo_request macs tos id fragment ttl header_sum source gw options icmp_sum
                 padding seq.
Proof.
  intros Hb Hs. destruct (classify_inv _ _ _ Hb Hs)
    as (macs & h & options & icmp & padding & words & -> & Hm & Hh & Ho & Hw & Hi & H0 & H9 & Ht & Hg).
  rewrite (classify_cut macs h options icmp padding gw words) in Hs by done.
  rewrite !Forall_app in Hb. destruct_and!.
  destruct (header_bytes h gw words) as
    (tos & id & hi & lo & ttl & hs & src & Hid & Hhs & Hsrc & _ & Hf & Hfb & ->); try done.
  rewrite Hf in Hs. cbn [mbind option_bind] in Hs. case_decide as Hfr; [done|].
  apply icmp_sequence_spec in Hs as (Hseq & isum & Hisum & ->); [|done..].
  exists macs, tos, id, [hi; lo], ttl, hs, src, options, isum, padding. split.
  - split; try done; [|split; [|lia]].
    + exists hi, lo. split; [done|]. change 0x3fff%Z with (Z.ones 14) in Hfr.
      by rewrite Z.land_ones in Hfr by lia.
    + replace (length options) with ((words - 5) * 4) by lia. apply Nat.Div0.mod_mul.
  - unfold echo_request. replace (length options) with ((words - 5) * 4) by lia.
    rewrite Nat.div_mul by lia. replace (5 + (words - 5)) with words by lia.
    replace (540 + (words - 5) * 4) with (words * 4 + 520) by lia.
    by rewrite <- !app_assoc.
Qed.

Lemma classifier_complete macs tos id fr ttl hs src options isum padding gw seq :
  length gw = 4 ->
  Forall is_byte (echo_request macs tos id fr ttl hs src gw options isum padding seq) ->
  echo_fields macs id fr hs src options isum seq ->
  gateway_echo_sequence (echo_request macs tos id fr ttl hs src gw options isum padding seq) gw
    = Some seq.
Proof.
  intros Hgw Hb Hf.
  destruct Hf as [Hm Hid (hi & lo & -> & Hfr) [Hhs His] Hsrc [Hom Ho] Hseq].
  destruct id as [|i0 [|i1 [|]]]; try done. destruct hs as [|c0 [|c1 [|]]]; try done.
  destruct src as [|d0 [|d1 [|d2 [|d3 [|]]]]]; try done.
  destruct gw as [|g0 [|g1 [|g2 [|g3 [|]]]]]; try done.
  set (words := 5 + length options / 4).
  assert (length options + 20 = words * 4) as Hw.
  { pose proof (Nat.div_mod_eq (length options) 4). unfold words. lia. }
  set (h := [64 + Z.of_nat words; tos]%Z ++ be_bytes (Z.of_nat (words * 4 + 520)) ++ [i0; i1] ++
            [hi; lo] ++ [ttl; 1]%Z ++ [c0; c1] ++ [d0; d1; d2; d3] ++ [g0; g1; g2; g3]).
  set (icmp := [8; 0]%Z ++ isum ++ [0x53; 0x53; 0; seq]%Z ++ echo_payload).
  assert (echo_request macs tos [i0; i1] [hi; lo] ttl [c0; c1] [d0; d1; d2; d3]
            [g0; g1; g2; g3] options isum padding seq =
          macs ++ [0x08; 0x00]%Z ++ h ++ options ++ icmp ++ padding) as Heq.
  { unfold echo_request, h, icmp. fold words.
    replace (540 + length options) with (words * 4 + 520) by lia. by rewrite <- !app_assoc. }
  rewrite Heq in *. rewrite !Forall_app in Hb. destruct_and!.
  assert (length icmp = 520) as Hi.
  { unfold icmp. rewrite !length_app, His. done. }
  rewrite (classify_cut macs h options icmp padding _ words); try done; [|lia|].
  - change (get_range h 6 8 ≫= be_u16) with (Some (u16_be hi lo)). cbn [mbind option_bind].
    rewrite decide_False; last first.
    { change 0x3fff%Z with (Z.ones 14). rewrite Z.land_ones by lia. intros Hn. by apply Hn. }
    apply icmp_sequence_spec; [done..|]. split; [done|]. by exists isum.
  - change (get_range h 2 4) with (Some (be_bytes (Z.of_nat (words * 4 + 520)))).
    apply be_bytes_be. lia.
Qed.

(** C37 The classifier accepts exactly the echo requests it describes.  On any bytes, it
    returns [seq] if and only if the frame is an IPv4 echo request to the gateway with
    some addresses, options, identification, checksums and padding, with no fragment
    offset and no more-fragments flag, the batch's identifier, a sequence number in
    1..20 and 512 bytes of pattern. *)
Theorem classifier_recognises_echo ethernet gw seq :
  Forall is_byte ethernet -> length gw = 4 ->
  gateway_echo_sequence ethernet gw = Some seq <->
  exists macs tos id fragment ttl header_sum source options icmp_sum padding,
    echo_fields macs id fragment header_sum source options icmp_sum seq /\
    ethernet = echo_request macs tos id fragment ttl header_sum source gw options icmp_sum
                 padding seq.
Proof.
  intros Hb Hgw. split; [by apply classifier_sound|].
  intros (macs & tos & id & fr & ttl & hs & src & options & isum & padding & Hf & ->).
  by apply classifier_complete.
Qed.

(** ** Examples *)

Definition demo_gateway : list Z := [10; 0; 0; 1]%Z.

(** The packet of the repository's tests: no options, sequence number 8. *)
Definition demo_echo (options padding : list Z) : list Z :=
  echo_request (replicate 12 0%Z) 0 [0; 0]%Z [0; 0]%Z 0 [0; 0]%Z (replicate 4 0%Z) demo_gateway
    options [0; 0]%Z padding 8.

Example echo_with_options_and_padding :
  gateway_echo_sequence (demo_echo [] []) demo_gateway = Some 8%Z /\
  gateway_echo_sequence (demo_echo (replicate 40 0%Z) (replicate 18 0%Z)) demo_gateway = Some 8%Z /\
  gateway_echo_sequence (take 553 (demo_echo [] [])) demo_gateway = None.
Proof. by vm_compute. Qed.

Definition demo_calls : list (@action unit_hal) :=
  [AArm 1 demo_gateway; AClassify (demo_echo [] []); ARecord 0 10; AQueued (MkTag 1 0) 11].
Definition demo_later : list (@action unit_hal) :=
  [APicked (MkTag 1 0) 12; AFinished (MkTag 1 0) 13 (Ok 2%Z); AFinished (MkTag 1 0) 14 (Ok 0%Z)].

(** The system after some calls that are known to succeed. *)
Definition after (acts : list (@action unit_hal)) : @System unit_hal :=
  match run probe_step system_new acts with Some (Done (y, _)) => y | _ => system_new end.

Lemma probe_evidence_kept_witness :
  let y := after demo_calls in
  let y' := after (demo_calls ++ demo_later) in
  let e := MkEntry (MkTag 1 0) 1 8 Queued None 10 (Some 11%Z) None None in
  run probe_step system_new demo_calls =
    Some (Done (y, [OArm true; OUnit; OTag (Some (MkTag 1 0)); OUnit])) /\
  run probe_step y demo_later = Some (Done (y', [OUnit; OUnit; OUnit])) /\
  entry (probe y) 0 = Done (Some e) /\
  exists e', entry (probe y') 0 = Done (Some e') /\ rtc entry_step e e' /\ retains e e'.
Proof.
  intros y y' e. split; [vm_compute; reflexivity|]. split; [vm_compute; reflexivity|].
  split; [vm_compute; reflexivity|].
  eapply (probe_evidence_kept demo_calls y _ demo_later); vm_compute; reflexivity.
Defined.

Lemma probe_records_sound_witness :
  len (probe (after demo_calls)) = 1 /\ len (probe (after demo_calls)) <= CAPACITY.
Proof.
  split; [vm_compute; reflexivity|].
  eapply (probe_records_sound demo_calls). vm_compute. reflexivity.
Defined.

Lemma recorded_under_one_scope_witness :
  let y := after [AArm 1 demo_gateway] in
  exists s', accept_msdu_record (probe y) (MkScope 1 demo_gateway 1) 8 10 =
      Done (Some (MkTag 1 0), s') /\
    entry s' 0 = Done (Some (MkEntry (MkTag 1 0) 1 8 Accepted None 10 None None None)).
Proof.
  intros y. eexists. split; [vm_compute; reflexivity|].
  eapply (recorded_under_one_scope [AArm 1 demo_gateway] y _ [] y _ (demo_echo [] [])
    (MkScope 1 demo_gateway 1) 8 10 (MkTag 1 0)); vm_compute; reflexivity.
Defined.

Lemma classifier_recognises_echo_witness :
  gateway_echo_sequence (demo_echo (replicate 8 1%Z) [0]%Z) demo_gateway = Some 8%Z.
Proof.
  apply classifier_recognises_echo.
  - apply (bool_decide_eq_true_1 (Forall is_byte _)). vm_compute. reflexivity.
  - reflexivity.
  - exists (replicate 12 0%Z), 0%Z, [0; 0]%Z, [0; 0]%Z, 0%Z, [0; 0]%Z, (replicate 4 0%Z),
      (replicate 8 1%Z), [0; 0]%Z, [0]%Z.
    split; [|reflexivity]. split; try done; [|split; simpl; [done|lia]].
    exists 0%Z, 0%Z. split; reflexivity.
Defined.
