(* ===== verification/TxTrace.v ===== *)
(** * The transmit trace: [tx_trace_header] of foa/src/tx_queue.rs

    What the feature tx-trace may log of a frame: public header fields. *)
From S2P Require Import Prelude Bytes.

Record TxTraceHeader : Type := MkTxTraceHeader {
  kind : option Z;
  subtype : option Z;
  protected : option bool;
  sequence : option Z;
}.
#[export] Instance tx_trace_header_eq_dec : EqDecision TxTraceHeader.
Proof. solve_decision. Defined.

(** [#[derive(Default)]]. *)
Definition TxTraceHeader_default : TxTraceHeader := MkTxTraceHeader None None None None.

Definition u16_from_le (bytes : list Z) : outcome Z :=
  b0 ← byte_at bytes 0; b1 ← byte_at bytes 1; mret (u16_be b1 b0).

Definition tx_trace_header (frame : list Z) : outcome TxTraceHeader :=
  match get_range frame 0 2 with
  | None => mret TxTraceHeader_default
  | Some control =>
      c0 ← byte_at control 0;
      if bool_decide (Z.land c0 3 <> 0%Z) then mret TxTraceHeader_default else
      let kind := Z.land (Z.shiftr c0 2) 3 in
      sequence ← (if bool_decide (kind = 0%Z \/ kind = 2%Z) then
                    match get_range frame 22 24 with
                    | Some bytes => v ← u16_from_le bytes; mret (Some (Z.shiftr v 4))
                    | None => mret None
                    end
                  else mret None);
      c1 ← byte_at control 1;
      mret (MkTxTraceHeader (Some kind) (Some (Z.shiftr c0 4))
              (Some (bool_decide (Z.land c1 64 <> 0%Z))) sequence)
  end.

Lemma get_range_take (l : list Z) n a b : b <= n -> get_range (take n l) a b = get_range l a b.
Proof.
  intros Hb. unfold get_range. rewrite length_take.
  destruct (decide (a <= b /\ b <= length l)) as [[Hab Hl]|Hno].
  - rewrite decide_True by lia. rewrite !take_drop_commute, take_take. do 3 f_equal. lia.
  - rewrite decide_False; [done|]. lia.
Qed.

Lemma shiftr_bounds x (n : nat) k :
  (0 <= x < 2 ^ (Z.of_nat n + k))%Z -> (0 <= k)%Z -> (0 <= Z.shiftr x (Z.of_nat n) < 2 ^ k)%Z.
Proof.
  intros [Hx Hlt] Hk. rewrite Z.shiftr_div_pow2 by lia. split.
  - apply Z.div_pos; [done|]. apply Z.pow_pos_nonneg; lia.
  - apply Z.div_lt_upper_bound; [apply Z.pow_pos_nonneg; lia|].
    by rewrite <- Z.pow_add_r by lia.
Qed.

(** Tracing never panics, whatever the frame, looks at nothing behind the
    24 bytes of the fixed header, so it cannot log payload, and every field is in
    the range of its bits. *)
Theorem tx_trace_header_spec frame :
  Forall is_byte frame ->
  exists h, tx_trace_header frame = Done h /\ tx_trace_header (take 24 frame) = Done h /\
    (forall k, kind h = Some k -> (0 <= k < 4)%Z) /\
    (forall t, subtype h = Some t -> (0 <= t < 16)%Z) /\
    (forall q, sequence h = Some q -> (0 <= q < 4096)%Z /\ (kind h = Some 0%Z \/ kind h = Some 2%Z)).
Proof.
  intros Hb. unfold tx_trace_header. rewrite !get_range_take by lia.
  destruct (get_range frame 0 2) as [control|] eqn:Hc; [|by eexists].
  pose proof (get_range_length _ _ _ _ Hc) as Hlen.
  pose proof (get_range_bytes _ _ _ _ is_byte Hb Hc) as Hcb.
  destruct control as [|c0 [|c1 [|]]]; simpl in Hlen; try lia.
  apply Forall_cons in Hcb as [H0 [H1 _]%Forall_cons]. cbn [byte_at expect]. simpl.
  case_bool_decide; [by eexists|].
  assert (0 <= Z.land (Z.shiftr c0 2) 3 < 4)%Z as Hk.
  { change 3%Z with (Z.ones 2). rewrite Z.land_ones by lia. by apply Z.mod_pos_bound. }
  assert (0 <= Z.shiftr c0 4 < 16)%Z as Ht by (apply (shiftr_bounds c0 4 4); [exact H0|lia]).
  set (k := Z.land (Z.shiftr c0 2) 3) in *.
  destruct (decide (k = 0%Z \/ k = 2%Z)) as [Hkind|Hkind];
    [rewrite !(bool_decide_true _ Hkind)|rewrite !(bool_decide_false _ Hkind)]; simpl.
  2:{ eexists. split_and!; [done|done|by intros ? [= <-]..|done]. }
  destruct (get_range frame 22 24) as [bytes|] eqn:Hq; simpl.
  2:{ eexists. split_and!; [done|done|by intros ? [= <-]..|done]. }
  pose proof (get_range_length _ _ _ _ Hq) as Hql.
  pose proof (get_range_bytes _ _ _ _ is_byte Hb Hq) as Hqb.
  destruct bytes as [|b0 [|b1 [|]]]; simpl in Hql; try lia.
  apply Forall_cons in Hqb as [Hb0 [Hb1 _]%Forall_cons]. simpl.
  eexists. split_and!; [done|done|by intros ? [= <-]..|]. simpl. intros q [= <-].
  split; [|by destruct Hkind as [->| ->]; auto]. apply (shiftr_bounds _ 4 12); [|lia].
  by apply u16_be_bounds.
Qed.

(** A data frame with sequence number 0xabc, and the same with another protocol
    version. *)
Definition demo_header (control : Z) : list Z := [control; 64%Z] ++ replicate 20 0%Z ++ [192; 171; 7]%Z.

Example traced_data :
  tx_trace_header (demo_header 136) = Done (MkTxTraceHeader (Some 2) (Some 8) (Some true) (Some 2748))%Z.
Proof. reflexivity. Qed.
Example traced_other_version : tx_trace_header (demo_header 137) = Done TxTraceHeader_default.
Proof. reflexivity. Qed.

Lemma tx_trace_header_spec_witness :
  exists h, tx_trace_header (demo_header 136) = Done h /\
    forall q, sequence h = Some q -> (0 <= q < 4096)%Z /\ (kind h = Some 0%Z \/ kind h = Some 2%Z).
Proof.
  destruct (tx_trace_header_spec (demo_header 136)) as (h & Hh & _ & _ & _ & Hq).
  { repeat constructor; vm_compute; discriminate || reflexivity. }
  by exists h.
Defined.
