(* ===== verification/Ring.v ===== *)
(** * Rings indexed by generation

    A ring of [n] cells holds the last [n] generations of a sequence of cells:
    generation [k] lives at index [k mod n].  [ring_repr items c f init] says
    that the ring stores [f k] for every generation [k] among the last [n] of
    the [c] generations so far, and [init] where no generation was stored. *)
From S2P Require Import Prelude.

Section Ring.
Context {A : Type} (n : nat).
Hypothesis n_pos : 0 < n.
Implicit Types (items : list A) (f : nat -> A) (init : A).

Record ring_repr items (c : nat) f init : Prop := {
  rr_length : length items = n;
  rr_window : forall k, k < c -> c <= k + n -> items !! (k mod n) = Some (f k);
  rr_unused : forall i, c <= i < n -> items !! i = Some init;
}.

Lemma ring_new f init : ring_repr (replicate n init) 0 f init.
Proof.
  split; [apply length_replicate|lia|].
  intros i Hi. apply lookup_replicate. split; [done|lia].
Qed.

Lemma ring_index_lt items c f init k :
  ring_repr items c f init -> k mod n < length items.
Proof. intros [-> _ _]. apply Nat.mod_upper_bound. lia. Qed.

(** The cell a new generation overwrites. *)
Lemma ring_push_old items c f init :
  ring_repr items c f init ->
  items !! (c mod n) = Some (if decide (n <= c) then f (c - n) else init).
Proof.
  intros Hr. case_decide as Hc.
  - rewrite <- (rr_window _ _ _ _ Hr (c - n)) by lia. f_equal.
    replace c with (c - n + 1 * n) at 1 by lia. apply Nat.Div0.mod_add.
  - rewrite Nat.mod_small by lia. apply (rr_unused _ _ _ _ Hr). lia.
Qed.

Lemma ring_push items c f f' init :
  ring_repr items c f init ->
  (forall k, k < c -> c < k + n -> f' k = f k) ->
  ring_repr (<[c mod n := f' c]> items) (S c) f' init.
Proof.
  intros Hr Hf. pose proof (ring_index_lt _ _ _ _ c Hr) as Hlt.
  destruct Hr as [Hlen Hw Hu]. split.
  - by rewrite length_insert.
  - intros k Hk Hwin. destruct (decide (k = c)) as [->|Hne].
    + by apply list_lookup_insert_eq.
    + rewrite list_lookup_insert_ne, Hf; [apply Hw; lia|lia|lia|].
      intros Hm. apply Hne. apply (mod_window n); lia.
  - intros i Hi. rewrite list_lookup_insert_ne; [apply Hu; lia|].
    rewrite Nat.mod_small; lia.
Qed.

Lemma ring_update items c f f' init k :
  ring_repr items c f init -> k < c -> c <= k + n ->
  (forall j, j < c -> c <= j + n -> j <> k -> f' j = f j) ->
  ring_repr (<[k mod n := f' k]> items) c f' init.
Proof.
  intros Hr Hk Hwin Hf. pose proof (ring_index_lt _ _ _ _ k Hr) as Hlt.
  destruct Hr as [Hlen Hw Hu]. split.
  - by rewrite length_insert.
  - intros j Hj Hjw. destruct (decide (j = k)) as [->|Hne].
    + by apply list_lookup_insert_eq.
    + rewrite list_lookup_insert_ne, Hf; [by apply Hw|lia|lia|done|].
      intros Hm. apply Hne. destruct (decide (j <= k)).
      * apply (mod_window n); lia.
      * symmetry. apply (mod_window n); lia.
  - intros i Hi. rewrite list_lookup_insert_ne; [by apply Hu|].
    rewrite Nat.mod_small; lia.
Qed.

Lemma ring_ext items c f f' init :
  ring_repr items c f init ->
  (forall j, j < c -> c <= j + n -> f' j = f j) ->
  ring_repr items c f' init.
Proof.
  intros [Hlen Hw Hu] Hf. split; [done| |done].
  intros k Hk Hwin. by rewrite Hf, Hw.
Qed.

(** The index of the oldest of [len] live generations, computed as the source
    does from the index of the next one. *)
Lemma ring_front c len :
  len <= n -> len <= c ->
  (c - len) mod n =
    if decide (len <= c mod n) then c mod n - len else n - (len - c mod n).
Proof.
  intros Hn Hc. pose proof (Nat.div_mod_eq c n) as Hd.
  assert (c mod n < n) by (apply Nat.mod_upper_bound; lia).
  case_decide as Hle; symmetry.
  - apply (Nat.mod_unique _ _ (c / n)); lia.
  - destruct (c / n) as [|d] eqn:Hq; [lia|].
    apply (Nat.mod_unique _ _ d); nia.
Qed.

Lemma ring_index_Z k :
  Z.to_nat (Z.of_nat k `mod` Z.of_nat n) = k mod n.
Proof. rewrite <- Nat2Z.inj_mod. apply Nat2Z.id. Qed.
End Ring.
