(* ===== verification/HandshakeProbe.v ===== *)
(** * The handshake recorder: foa_sta/src/handshake_probe.rs

    The flight recorder of a connection attempt: counters, the time of each phase, and
    a ring of the last 64 events.  [hp_step] takes the calls of the connection code
    in any order; its output is not part of the code: it is the event the call is
    documented to record, against which the ring is proved. *)
From S2P Require Import Prelude Ring.

Record Event : Type := MkEvent {
  ev_us : Z;
  ev_phase : Z;
  ev_kind : Z;
  ev_a : Z;
  ev_b : Z;
}.

Record Snapshot : Type := MkSnapshot {
  s_phase : Z;
  phase_us : list Z;
  queues : nat * nat;
  eapol_routed : Z;
  eapol_dropped : Z;
  route_failures : Z;
  events : list Event;
  total_events : Z;
}.

Record State : Type := MkState { start : Z; snap : Snapshot }.
Implicit Types (s : State) (now : Z).

Definition EVENT_ZERO : Event := MkEvent 0 0 0 0 0.
Definition snapshot_empty : Snapshot :=
  MkSnapshot 0 (replicate 11 (u_max 32)) (0, 0) 0 0 0 (replicate 64 EVENT_ZERO) 0.

(** [now.wrapping_sub(start)] on [u32]. *)
Definition elapsed s now : Z := wrapping 32 (now - start s).

Definition append s now (kind a b : Z) : outcome State :=
  let p := snap s in
  let i := Z.to_nat (total_events p) mod 64 in
  _ ← expect (events p !! i);
  mret (MkState (start s) (MkSnapshot (s_phase p) (phase_us p) (queues p) (eapol_routed p)
    (eapol_dropped p) (route_failures p)
    (<[i := MkEvent (elapsed s now) (s_phase p) kind a b]> (events p))
    (wrapping 32 (total_events p + 1)))).

Definition reset now : State := MkState now snapshot_empty.

Definition set_phase s (p : Z) now : outcome State :=
  let q := snap s in
  _ ← expect (phase_us q !! Z.to_nat p);
  append (MkState (start s) (MkSnapshot p (<[Z.to_nat p := elapsed s now]> (phase_us q))
      (queues q) (eapol_routed q) (eapol_dropped q) (route_failures q) (events q)
      (total_events q)))
    now 1 p 0.

Definition record_event s (kind a b : Z) now : outcome State := append s now kind a b.

(** [x += 1] on [u32]: overflow panics in debug builds. *)
Definition u32_incr (x : Z) : outcome Z := expect (checked_add 32 x 1).

Definition pack_route (kind : Z) (success : bool) : Z :=
  Z.lor (wrapping 32 (Z.shiftl kind 8)) (Z.b2z success).
Definition pack_queues (q : nat * nat) : Z :=
  Z.lor (wrapping 32 (Z.shiftl (wrapping 32 (Z.of_nat q.1)) 16)) (wrapping 32 (Z.of_nat q.2)).

Definition routed s (kind : Z) (success : bool) (q : nat * nat) now : outcome State :=
  let p := snap s in
  if decide (s_phase p = 10 /\ kind = 0)%Z then mret s else
  failures ← if success then mret (route_failures p) else u32_incr (route_failures p);
  '(ok, dropped) ←
    (if decide (kind = 1%Z)
     then if success then n ← u32_incr (eapol_routed p); mret (n, eapol_dropped p)
          else n ← u32_incr (eapol_dropped p); mret (eapol_routed p, n)
     else mret (eapol_routed p, eapol_dropped p));
  let s' := MkState (start s) (MkSnapshot (s_phase p) (phase_us p) q ok dropped failures
              (events p) (total_events p)) in
  if decide (kind = 0%Z) then mret s'
  else append s' now (if decide (kind = 1%Z) then 6 else 7)%Z (pack_route kind success)
         (pack_queues q).

(** ** The calls in any order, and the events they are meant to record *)

Inductive action : Type :=
| HReset (now : Z)
| HPhase (p now : Z)
| HEvent (kind a b now : Z)
| HRouted (kind : Z) (success : bool) (q : nat * nat) (now : Z).

Definition recorded s (a : action) : option Event :=
  let p := s_phase (snap s) in
  match a with
  | HReset _ => None
  | HPhase p now => Some (MkEvent (elapsed s now) p 1 p 0)
  | HEvent kind x y now => Some (MkEvent (elapsed s now) p kind x y)
  | HRouted kind success q now =>
      if decide (kind = 0%Z) then None
      else Some (MkEvent (elapsed s now) p (if decide (kind = 1%Z) then 6 else 7)%Z
             (pack_route kind success) (pack_queues q))
  end.

Definition hp_call s (a : action) : outcome State :=
  match a with
  | HReset now => mret (reset now)
  | HPhase p now => set_phase s p now
  | HEvent kind x y now => record_event s kind x y now
  | HRouted kind success q now => routed s kind success q now
  end.

Definition hp_step s (a : action) : option (outcome (State * option Event)) :=
  Some (s' ← hp_call s a; mret (s', recorded s a)).

(** The calls between two resets. *)
Definition no_reset (a : action) : Prop := match a with HReset _ => False | _ => True end.

(** The ring holds the end of a log. *)
Definition ring_of_log s (log : list Event) : Prop :=
  total_events (snap s) = wrapping 32 (Z.of_nat (length log)) /\
  ring_repr 64 (events (snap s)) (length log) (fun k => default EVENT_ZERO (log !! k)) EVENT_ZERO.

Lemma ring_of_log_nil now : ring_of_log (reset now) [].
Proof. split; [done|]. apply (ring_new 64). lia. Qed.

(** 64 divides 2^32, so the index survives the wrap of the counter. *)
Lemma wrapped_index n : Z.to_nat (wrapping 32 (Z.of_nat n)) mod 64 = n mod 64.
Proof.
  unfold wrapping. apply Nat2Z.inj. rewrite !Nat2Z.inj_mod, Z2Nat.id by (apply Z.mod_pos_bound; lia).
  change (Z.of_nat 64) with 64%Z. rewrite <- (Znumtheory.Zmod_div_mod 64 (2 ^ 32) (Z.of_nat n)); [done|lia|lia|].
  by exists (2 ^ 26)%Z.
Qed.

Lemma append_log s log now kind a b :
  ring_of_log s log ->
  exists s', append s now kind a b = Done s' /\
    ring_of_log s' (log ++ [MkEvent (elapsed s now) (s_phase (snap s)) kind a b]) /\
    snap s' = MkSnapshot (s_phase (snap s)) (phase_us (snap s)) (queues (snap s))
      (eapol_routed (snap s)) (eapol_dropped (snap s)) (route_failures (snap s))
      (events (snap s')) (total_events (snap s')) /\ start s' = start s.
Proof.
  intros [Ht Hr]. unfold append. rewrite Ht, wrapped_index.
  destruct (lookup_lt_is_Some_2 (events (snap s)) (length log mod 64)) as [old Hold].
  { apply (ring_index_lt 64 ltac:(lia) _ _ _ _ _ Hr). }
  rewrite Hold. simpl. eexists. split; [done|]. split; [|done]. split; simpl.
  - rewrite length_app, Nat2Z.inj_add. unfold wrapping. simpl. by rewrite Z.add_mod_idemp_l.
  - rewrite length_app, Nat.add_1_r. set (e := MkEvent _ _ _ _ _).
    replace e with (default EVENT_ZERO ((log ++ [e]) !! length log)) at 1
      by (by rewrite lookup_app_r, Nat.sub_diag by done).
    apply (ring_push 64 ltac:(lia) _ _ (fun k => default EVENT_ZERO (log !! k))
             (fun k => default EVENT_ZERO ((log ++ [e]) !! k))); [done|].
    intros k Hk _. by rewrite lookup_app_l.
Qed.

Lemma append_inv s log now kind a b s' :
  ring_of_log s log -> append s now kind a b = Done s' ->
  ring_of_log s' (log ++ [MkEvent (elapsed s now) (s_phase (snap s)) kind a b]) /\
    snap s' = MkSnapshot (s_phase (snap s)) (phase_us (snap s)) (queues (snap s))
      (eapol_routed (snap s)) (eapol_dropped (snap s)) (route_failures (snap s))
      (events (snap s')) (total_events (snap s')) /\ start s' = start s.
Proof.
  intros Hr Ha. destruct (append_log s log now kind a b Hr) as (s1 & Hs1 & Hrest).
  rewrite Ha in Hs1. by injection Hs1 as ->.
Qed.

(** ** Counting routed frames *)

(** A call that routes an EAPOL frame, with its success. *)
Definition eapol_route (a : action) : option bool :=
  match a with
  | HRouted kind success _ _ => if decide (kind = 1%Z) then Some success else None
  | _ => None
  end.

Definition count_routes (b : bool) (acts : list action) : nat :=
  length (filter (fun a => eapol_route a = Some b) acts).

Lemma count_routes_snoc b acts a :
  count_routes b (acts ++ [a]) =
    count_routes b acts + (if decide (eapol_route a = Some b) then 1 else 0).
Proof.
  unfold count_routes. rewrite filter_app, length_app. f_equal. rewrite filter_cons.
  by case_decide.
Qed.

Lemma count_routes_other b acts a :
  eapol_route a = None -> count_routes b (acts ++ [a]) = count_routes b acts.
Proof. intros Ha. rewrite count_routes_snoc, Ha. apply Nat.add_0_r. Qed.

Record recorder_inv (t0 : Z) s (acts : list action) (log : list Event) : Prop := {
  inv_start : start s = t0;
  inv_ring : ring_of_log s log;
  inv_routed : eapol_routed (snap s) = Z.of_nat (count_routes true acts);
  inv_dropped : eapol_dropped (snap s) = Z.of_nat (count_routes false acts);
  inv_phases : length (phase_us (snap s)) = 11;
  inv_failures : (route_failures (snap s) <= Z.of_nat (length acts))%Z;
}.

Lemma u32_incr_Done x y : u32_incr x = Done y <-> y = (x + 1)%Z /\ (x + 1 <= u_max 32)%Z.
Proof. unfold u32_incr. rewrite expect_Done, checked_add_Some. done. Qed.

(** The counters after a routed frame. *)
Lemma routed_counters (kind : Z) (success : bool) q now acts (x y : Z) (ok dropped : Z) :
  x = Z.of_nat (count_routes true acts) -> y = Z.of_nat (count_routes false acts) ->
  (if decide (kind = 1%Z)
   then if success then n ← u32_incr x; mret (n, y) else n ← u32_incr y; mret (x, n)
   else mret (x, y)) = Done (ok, dropped) ->
  ok = Z.of_nat (count_routes true (acts ++ [HRouted kind success q now])) /\
  dropped = Z.of_nat (count_routes false (acts ++ [HRouted kind success q now])).
Proof.
  intros -> -> Hc. rewrite !count_routes_snoc. simpl. destruct (decide (kind = 1%Z)).
  - destruct success; apply outcome_bind_Done in Hc as (n & [-> _]%u32_incr_Done & Hc);
      injection Hc as <- <-; simpl; lia.
  - injection Hc as <- <-. simpl. lia.
Qed.

Lemma hp_call_inv t0 s acts log a s' :
  no_reset a -> recorder_inv t0 s acts log -> hp_call s a = Done s' ->
  recorder_inv t0 s' (acts ++ [a]) (log ++ option_list (recorded s a)).
Proof.
  intros Hn [Hst Hr Hok Hdr Hph] Hc. destruct a as [now|p now|kind x y now|kind success q now].
  - destruct Hn.
  - cbn [hp_call] in Hc. unfold set_phase in Hc. apply outcome_bind_Done in Hc as (u & _ & Hc).
    apply (append_inv _ log) in Hc as (Hr' & Hs' & Hst'); [|exact Hr].
    split; [by rewrite Hst'|exact Hr'|..]; rewrite Hs'.
    + by rewrite count_routes_other.
    + by rewrite count_routes_other.
    + cbn [phase_us snap]. by rewrite length_insert.
    + rewrite length_app. cbn [route_failures snap]. lia.
  - cbn [hp_call] in Hc. apply (append_inv _ log) in Hc as (Hr' & Hs' & Hst'); [|exact Hr].
    split; [by rewrite Hst'|exact Hr'|..]; rewrite Hs'.
    + by rewrite count_routes_other.
    + by rewrite count_routes_other.
    + exact Hph.
    + rewrite length_app. cbn [route_failures]. lia.
  - cbn [hp_call] in Hc. unfold routed in Hc. case_decide as Hq.
    { destruct Hq as [_ ->]. injection Hc as <-. cbn [recorded]. rewrite app_nil_r.
      split; rewrite ?count_routes_other, ?length_app; try done. lia. }
    apply outcome_bind_Done in Hc as (failures & Hf & Hc).
    assert (failures <= Z.of_nat (length (acts ++ [HRouted kind success q now])))%Z as Hfb.
    { rewrite length_app. cbn [length]. destruct success; [injection Hf as <-|apply u32_incr_Done in Hf as [-> _]]; lia. }
    apply outcome_bind_Done in Hc as ([ok dropped] & Hcount & Hc).
    apply (routed_counters _ _ q now acts) in Hcount as [-> ->]; [|done..].
    cbn [recorded]. case_decide as Hk.
    + injection Hc as <-. rewrite app_nil_r. by split.
    + apply (append_inv _ log) in Hc as (Hr' & Hs' & Hst'); [|exact Hr].
      split; [by rewrite Hst'|exact Hr'|..]; by rewrite Hs'.
Qed.

Lemma count_routes_le b acts : count_routes b acts <= length acts.
Proof. unfold count_routes. apply length_filter. Qed.

(** The calls of the station: phases are 0 to 10. *)
Definition call_ok (a : action) : Prop :=
  match a with HPhase p _ => (0 <= p <= 10)%Z | _ => True end.

Lemma u32_incr_ok x n :
  (x <= Z.of_nat n)%Z -> (Z.of_nat n < u_max 32)%Z -> u32_incr x = Done (x + 1)%Z.
Proof. intros. apply u32_incr_Done. split; [done|lia]. Qed.

(** An append to a sound ring succeeds, whatever the other fields are. *)
Ltac append_succeeds Hr :=
  match goal with
  | |- exists s', append ?s1 ?now ?k ?a ?b = _ =>
      destruct (append_log s1 _ now k a b Hr) as (s' & Hs' & _); by exists s'
  end.

Lemma hp_call_total t0 s acts log a :
  recorder_inv t0 s acts log -> call_ok a -> (Z.of_nat (length acts) < u_max 32)%Z ->
  exists s', hp_call s a = Done s'.
Proof.
  intros [Hst Hr Hok Hdr Hph Hfl] Ha Hlen.
  destruct a as [now|p now|kind x y now|kind success q now]; cbn [hp_call].
  - by eexists.
  - unfold set_phase. destruct (lookup_lt_is_Some_2 (phase_us (snap s)) (Z.to_nat p)) as [u ->].
    { simpl in Ha. lia. }
    cbn [expect mbind outcome_bind]. append_succeeds Hr.
  - unfold record_event. append_succeeds Hr.
  - unfold routed. case_decide; [by eexists|].
    pose proof (count_routes_le true acts). pose proof (count_routes_le false acts).
    rewrite (u32_incr_ok (route_failures (snap s)) (length acts)) by done.
    rewrite (u32_incr_ok (eapol_routed (snap s)) (length acts)) by lia.
    rewrite (u32_incr_ok (eapol_dropped (snap s)) (length acts)) by lia.
    destruct success, (decide (kind = 1%Z)); cbn [mbind outcome_bind mret outcome_ret];
      (case_decide; [by eexists|]); append_succeeds Hr.
Qed.

Lemma run_recorder_inv t0 acts s os :
  run hp_step (reset t0) acts = Some (Done (s, os)) ->
  Forall no_reset acts -> recorder_inv t0 s acts (omap id os).
Proof.
  revert acts s os. apply (run_invariant hp_step
    (fun s acts os => Forall no_reset acts -> recorder_inv t0 s acts (omap id os))).
  { intros _. split; [done|apply ring_of_log_nil|done..]. }
  intros s1 acts os a s2 o IH Hs Hall. apply Forall_app in Hall as [Hall [Ha _]%Forall_cons].
  specialize (IH Hall). unfold hp_step in Hs. apply (inj Some) in Hs.
  apply outcome_bind_Done in Hs as (s' & Hc & Hs). injection Hs as <- <-.
  rewrite omap_app. pose proof (hp_call_inv _ _ _ _ _ _ Ha IH Hc) as Hinv.
  by destruct (recorded s1 a).
Qed.

(** The flight recorder keeps the last 64 events.  After any calls since a reset, the
    ring holds, at the index of its number modulo 64, every one of the last 64 events
    the calls are documented to record, in order, with the time since the reset and the
    phase at that moment; the total is their number modulo 2^32, and its wrap does not
    disturb the ring.  The EAPOL counters are the numbers of frames routed and dropped.
    With phases up to 10 and fewer than 2^32 calls nothing panics. *)
Theorem flight_recorder t0 acts :
  Forall no_reset acts ->
  (Forall call_ok acts -> (Z.of_nat (length acts) <= u_max 32)%Z ->
   exists s os, run hp_step (reset t0) acts = Some (Done (s, os))) /\
  forall s os, run hp_step (reset t0) acts = Some (Done (s, os)) ->
  let log := omap id os in
  total_events (snap s) = (Z.of_nat (length log) `mod` 2 ^ 32)%Z /\
  (forall k e, log !! k = Some e -> length log <= k + 64 ->
     events (snap s) !! (k mod 64) = Some e) /\
  eapol_routed (snap s) = Z.of_nat (count_routes true acts) /\
  eapol_dropped (snap s) = Z.of_nat (count_routes false acts) /\
  start s = t0.
Proof.
  intros Hall. split.
  - intros Hok Hlen. induction acts as [|a acts IH] using rev_ind; [by do 2 eexists|].
    apply Forall_app in Hall as [Hall _]. apply Forall_app in Hok as [Hok [Ha _]%Forall_cons].
    rewrite length_app in Hlen. cbn [length] in Hlen.
    destruct (IH Hall Hok) as (s & os & Hr); [lia|].
    destruct (hp_call_total t0 s acts (omap id os) a) as (s' & Hs'); [by apply run_recorder_inv|done|lia|].
    exists s', (os ++ [recorded s a]). apply run_snoc. exists s, os, (recorded s a).
    split; [done|]. split; [|done]. unfold hp_step. by rewrite Hs'.
  - intros s os Hr log. destruct (run_recorder_inv t0 acts s os Hr Hall)
      as [Hst [Ht Hring] Hok Hd _ _].
    split; [done|]. split; [|done]. intros k e Hk Hw.
    unfold log in Hk. rewrite (rr_window _ _ _ _ _ Hring); [by rewrite Hk| |done].
    by apply lookup_lt_Some in Hk.
Qed.

Definition demo_acts : list action :=
  HPhase 0 100 :: HRouted 1 true (1, 0) 105 :: HRouted 1 false (4, 0) 106 ::
  replicate 70 (HEvent 12 1 0 110) ++ [HPhase 10 120; HRouted 0 true (0, 0) 130].

Definition demo_end : State :=
  match run hp_step (reset 90) demo_acts with Some (Done (s, _)) => s | _ => reset 0 end.

Lemma flight_recorder_witness :
  total_events (snap demo_end) = 74%Z /\ eapol_dropped (snap demo_end) = 1%Z /\
  events (snap demo_end) !! (73 mod 64) = Some (MkEvent 30 10 1 10 0).
Proof.
  assert (Forall no_reset demo_acts) as Hn by (repeat constructor).
  pose proof (proj2 (flight_recorder 90 demo_acts Hn) demo_end
    (Some (MkEvent 10 0 1 0 0) :: Some (MkEvent 15 0 6 257 65536) ::
     Some (MkEvent 16 0 6 256 262144) ::
     replicate 70 (Some (MkEvent 20 0 12 1 0)) ++ [Some (MkEvent 30 10 1 10 0); None]))
    as Hf.
  destruct Hf as (Ht & Hw & _ & Hd & _).
  - vm_compute. reflexivity.
  - split; [exact Ht|]. split; [exact Hd|]. apply Hw; [reflexivity|]. vm_compute. lia.
Defined.
