(* ===== verification/TxBuffers.v ===== *)
(** * TX buffers: foa/src/tx_buffer_management.rs

    The manager owns a slab of [TX_BUFFER_COUNT] buffers and a channel of
    pointers to the free ones.  A pointer is the index of its buffer in the
    slab.  [pool_inv m held] says that the free pointers together with the
    pointers of the live [TxBuffer]s are exactly the slab's indices, each once,
    and that every free buffer is all zero. *)
From S2P Require Import Prelude Platform.

(** [NonNull<[u8; TX_BUFFER_SIZE]>], as an index into the slab.  The sender to
    the buffer queue is the manager's own channel. *)
Record TxBuffer : Type := MkTxBuffer { buffer : nat }.

#[export] Instance TxBuffer_eq_dec : EqDecision TxBuffer.
Proof. solve_decision. Defined.

Section TxBufferManager.
Context {Ch : Type -> Type} `{FoaConfig, ChannelLaws Ch}.

Record TxBufferManager : Type := MkTxBufferManager {
  buffer_queue : Ch nat;
  (** The memory [NonNull] points into: [FoAResources::tx_buffers]. *)
  slab : list (list Z);
}.
Implicit Types (m : TxBufferManager) (b : TxBuffer) (held : list TxBuffer).

(** [let _ = queue.try_send(x)]. *)
Definition try_send_ignoring (c : Ch nat) (x : nat) : Ch nat :=
  default c (ch_try_send c x).

(** [FoAResources::new]: the slab starts zeroed. *)
Definition tx_buffers_init : list (list Z) :=
  replicate TX_BUFFER_COUNT (replicate TX_BUFFER_SIZE 0%Z).

Definition manager_new (buffers : list (list Z)) : TxBufferManager :=
  {| buffer_queue :=
       foldl try_send_ignoring (ch_new TX_BUFFER_COUNT) (seq 0 (length buffers));
     slab := buffers |}.

Definition try_alloc m : option (TxBuffer * TxBufferManager) :=
  match ch_try_receive (buffer_queue m) with
  | Some (p, c) => Some (MkTxBuffer p, MkTxBufferManager c (slab m))
  | None => None
  end.

(** One poll of [alloc]: [receive] is ready when the channel is not empty. *)
Definition alloc m : option (TxBuffer * TxBufferManager) :=
  match ch_try_receive (buffer_queue m) with
  | Some (p, c) => Some (MkTxBuffer p, MkTxBufferManager c (slab m))
  | None => None
  end.

(** [Deref for TxBuffer]. *)
Definition deref m b : option (list Z) := slab m !! buffer b.

(** A store through [DerefMut for TxBuffer]; the reference has array type, so
    the length stays. *)
Definition deref_mut m b (bytes : list Z) : TxBufferManager :=
  MkTxBufferManager (buffer_queue m) (<[buffer b := bytes]> (slab m)).

(** [Drop for TxBuffer]: fill with zeros, then give the pointer back. *)
Definition drop_buffer m b : TxBufferManager :=
  let m' := deref_mut m b (replicate TX_BUFFER_SIZE 0%Z) in
  MkTxBufferManager (try_send_ignoring (buffer_queue m') (buffer b)) (slab m').

Definition drop_buffers m held : TxBufferManager := foldl drop_buffer m held.

(** ** The invariant *)

Definition zeroed (bytes : list Z) : Prop :=
  bytes = replicate TX_BUFFER_SIZE 0%Z.

Record pool_inv m held : Prop := {
  pi_capacity : ch_capacity (buffer_queue m) = TX_BUFFER_COUNT;
  pi_slab : length (slab m) = TX_BUFFER_COUNT;
  pi_partition :
    ch_contents (buffer_queue m) ++ (buffer <$> held) ≡ₚ seq 0 TX_BUFFER_COUNT;
  pi_free_zero : forall p, p ∈ ch_contents (buffer_queue m) ->
    exists bytes, slab m !! p = Some bytes /\ zeroed bytes;
}.

#[export] Instance pool_inv_proper m : Proper ((≡ₚ) ==> iff) (pool_inv m).
Proof.
  intros h1 h2 Hp. split; intros []; split; try done; rewrite <- pi_partition0.
  - by rewrite Hp.
  - by rewrite Hp.
Qed.

Lemma pool_inv_count m held :
  pool_inv m held ->
  length (ch_contents (buffer_queue m)) + length held = TX_BUFFER_COUNT.
Proof.
  intros [_ _ Hp _]. apply Permutation_length in Hp.
  rewrite length_app, length_fmap, length_seq in Hp. done.
Qed.

Lemma pool_inv_held_lt m held b :
  pool_inv m held -> b ∈ held -> buffer b < TX_BUFFER_COUNT.
Proof.
  intros [_ _ Hp _] Hb.
  assert (buffer b ∈ seq 0 TX_BUFFER_COUNT) as Hin.
  { rewrite <- Hp. apply elem_of_app. right. by apply list_elem_of_fmap_2. }
  apply elem_of_seq in Hin. lia.
Qed.

(** A free pointer is neither held nor free twice. *)
Lemma pool_inv_fresh m held p c :
  pool_inv m held -> ch_contents (buffer_queue m) = p :: c ->
  p ∉ c /\ MkTxBuffer p ∉ held.
Proof.
  intros [_ _ Hp _] Hc. rewrite Hc in Hp.
  assert (NoDup ((p :: c) ++ (buffer <$> held))) as Hnd.
  { rewrite Hp. apply NoDup_seq. }
  rewrite NoDup_app, NoDup_cons in Hnd. destruct Hnd as ([Hpc _] & Hd & _).
  split; [done|]. intros Hh. apply (Hd p); [left|].
  by apply (list_elem_of_fmap_2 buffer) in Hh.
Qed.

(** ** The operations *)

Lemma send_all_contents (l : list nat) c :
  length (ch_contents c) + length l <= ch_capacity c ->
  ch_contents (foldl try_send_ignoring c l) = ch_contents c ++ l /\
  ch_capacity (foldl try_send_ignoring c l) = ch_capacity c.
Proof.
  revert c. induction l as [|x l IH]; intros c Hlen; simpl.
  - by rewrite app_nil_r.
  - simpl in Hlen. destruct (ch_try_send_room c x) as (c' & Hs & Hc & Hk); [lia|].
    unfold try_send_ignoring at 2 4. rewrite Hs. simpl.
    destruct (IH c') as [-> ->].
    + rewrite Hc, Hk, length_app. simpl. lia.
    + by rewrite Hc, Hk, <- app_assoc.
Qed.

Lemma manager_new_inv : pool_inv (manager_new tx_buffers_init) [].
Proof.
  unfold manager_new, tx_buffers_init.
  destruct (send_all_contents (seq 0 TX_BUFFER_COUNT) (ch_new TX_BUFFER_COUNT))
    as [Hc Hk]; [autorewrite with foa; rewrite length_seq; simpl; lia|].
  autorewrite with foa in *. simpl in Hc.
  split; simpl; rewrite ?length_replicate, ?Hc, ?Hk; try done.
  - by rewrite app_nil_r.
  - intros p Hp%elem_of_seq. exists (replicate TX_BUFFER_SIZE 0%Z).
    split; [|done]. apply lookup_replicate. split; [done|lia].
Qed.

Lemma try_alloc_inv m held b m' :
  pool_inv m held -> try_alloc m = Some (b, m') ->
  pool_inv m' (b :: held) /\ b ∉ held /\
  (exists bytes, deref m' b = Some bytes /\ zeroed bytes).
Proof.
  unfold try_alloc. intros Hinv Ha.
  destruct (ch_try_receive (buffer_queue m)) as [[p c]|] eqn:Hr; simplify_eq/=.
  pose proof (ch_try_receive_contents _ _ _ _ Hr) as Hc.
  pose proof (ch_try_receive_capacity _ _ _ _ Hr) as Hk.
  destruct (pool_inv_fresh m held p _ Hinv Hc) as [_ Hfresh].
  destruct Hinv as [Hcap Hlen Hp Hz].
  split; [split; simpl|split].
  - congruence.
  - done.
  - rewrite <- Hp, Hc. simpl. solve_Permutation.
  - intros q Hq. apply Hz. rewrite Hc. by right.
  - done.
  - apply Hz. rewrite Hc. left.
Qed.

Lemma try_alloc_None m held :
  pool_inv m held -> (try_alloc m = None <-> length held = TX_BUFFER_COUNT).
Proof.
  intros Hinv. pose proof (pool_inv_count _ _ Hinv) as Hcount. unfold try_alloc.
  destruct (ch_try_receive (buffer_queue m)) as [[p c]|] eqn:Hr.
  - apply ch_try_receive_contents in Hr. rewrite Hr in Hcount. simpl in Hcount.
    split; [done|lia].
  - apply ch_try_receive_empty in Hr. rewrite Hr in Hcount. simpl in Hcount.
    split; [lia|done].
Qed.

Lemma deref_mut_inv m held b bytes :
  pool_inv m held -> b ∈ held -> pool_inv (deref_mut m b bytes) held.
Proof.
  intros [Hcap Hlen Hp Hz] Hb. split; simpl; rewrite ?length_insert; try done.
  intros p Hin. rewrite list_lookup_insert_ne; [by apply Hz|].
  intros <-. assert (NoDup (ch_contents (buffer_queue m) ++ (buffer <$> held))) as Hnd.
  { rewrite Hp. apply NoDup_seq. }
  rewrite NoDup_app in Hnd. destruct Hnd as (_ & Hd & _).
  apply (Hd _ Hin). by apply list_elem_of_fmap_2.
Qed.

(** The ignored [try_send] of [Drop] always finds room. *)
Lemma drop_buffer_sends m held b :
  pool_inv m (b :: held) ->
  exists c', ch_try_send (buffer_queue m) (buffer b) = Some c' /\
    ch_contents c' = ch_contents (buffer_queue m) ++ [buffer b] /\
    ch_capacity c' = ch_capacity (buffer_queue m).
Proof.
  intros Hinv. apply ch_try_send_room.
  pose proof (pool_inv_count _ _ Hinv). rewrite (pi_capacity _ _ Hinv).
  simpl in *. lia.
Qed.

Lemma drop_buffer_inv m held b :
  pool_inv m (b :: held) -> pool_inv (drop_buffer m b) held.
Proof.
  intros Hinv.
  destruct (drop_buffer_sends _ _ _ Hinv) as (c' & Hs & Hc & Hk).
  assert (buffer b < TX_BUFFER_COUNT) as Hlt
    by (eapply pool_inv_held_lt; [done|left]).
  destruct (deref_mut_inv _ _ b (replicate TX_BUFFER_SIZE 0%Z) Hinv)
    as [Hcap Hlen Hp Hz]; [left|].
  unfold drop_buffer, try_send_ignoring. simpl in *. rewrite Hs. simpl.
  split; simpl; try congruence.
  - rewrite Hc, <- Hp. simpl. solve_Permutation.
  - intros p. rewrite Hc, elem_of_app, list_elem_of_singleton. intros [Hin| ->].
    + by apply Hz.
    + eexists. split; [apply list_lookup_insert_eq|done].
      rewrite length_insert in Hlen. lia.
Qed.

Lemma drop_buffers_inv m held dropped :
  pool_inv m (dropped ++ held) -> pool_inv (drop_buffers m dropped) held.
Proof.
  revert m. induction dropped as [|b l IH]; intros m Hinv; simpl in *; [done|].
  by apply IH, drop_buffer_inv.
Qed.

(** ** Whose bytes an operation touches *)

Lemma pool_inv_NoDup m held : pool_inv m held -> NoDup held.
Proof.
  intros [_ _ Hp _]. apply (NoDup_fmap_1 buffer).
  assert (NoDup (ch_contents (buffer_queue m) ++ (buffer <$> held))) as Hnd
    by (rewrite Hp; apply NoDup_seq).
  by apply NoDup_app in Hnd as (_ & _ & ?).
Qed.

Lemma pool_inv_deref m held b : pool_inv m held -> b ∈ held -> is_Some (deref m b).
Proof.
  intros Hinv Hb. apply lookup_lt_is_Some. rewrite (pi_slab _ _ Hinv).
  by eapply pool_inv_held_lt.
Qed.

Lemma try_alloc_slab m b m' : try_alloc m = Some (b, m') -> slab m' = slab m.
Proof. unfold try_alloc. intros Ha. by destruct (ch_try_receive _) as [[]|]; simplify_eq. Qed.

Lemma deref_mut_other m b b' bytes :
  b <> b' -> deref (deref_mut m b bytes) b' = deref m b'.
Proof.
  intros Hne. unfold deref. simpl. apply list_lookup_insert_ne.
  intros Heq. apply Hne. destruct b, b'. simpl in Heq. by subst.
Qed.

Lemma drop_buffers_other m bs b : b ∉ bs -> deref (drop_buffers m bs) b = deref m b.
Proof.
  revert m. induction bs as [|b' bs IH]; intros m Hb; [done|].
  apply not_elem_of_cons in Hb as [Hne Hb]. simpl. rewrite (IH _ Hb).
  by apply (deref_mut_other m b' b).
Qed.

(** Every buffer of the slab keeps its size. *)
Definition slab_sized m : Prop := Forall (fun bytes => length bytes = TX_BUFFER_SIZE) (slab m).

Lemma deref_mut_sized m b bytes :
  slab_sized m -> length bytes = TX_BUFFER_SIZE -> slab_sized (deref_mut m b bytes).
Proof. intros. by apply Forall_insert. Qed.

Lemma drop_buffers_sized m bs : slab_sized m -> slab_sized (drop_buffers m bs).
Proof.
  revert m. induction bs as [|b bs IH]; intros m Hm; [done|].
  apply IH, (deref_mut_sized m b _ Hm), length_replicate.
Qed.

Lemma manager_new_sized : slab_sized (manager_new tx_buffers_init).
Proof. apply Forall_replicate, length_replicate. Qed.
End TxBufferManager.
Arguments TxBufferManager Ch : clear implicits.

#[export] Hint Resolve manager_new_inv drop_buffer_inv drop_buffers_inv
  deref_mut_inv : foa.

(** ** Properties *)

Section Properties.
Context {Ch : Type -> Type} `{FoaConfig, ChannelLaws Ch}.
Implicit Types (m : TxBufferManager Ch) (b : TxBuffer) (held : list TxBuffer).

(** Allocation hands out a zeroed buffer that nobody else holds, and dropping it
    later always succeeds in returning it: after any write, alloc, drop round
    trip the pool is whole again. *)
Theorem alloc_write_drop m held b m' bytes :
  pool_inv m held -> try_alloc m = Some (b, m') ->
  b ∉ held /\ (exists z, deref m' b = Some z /\ zeroed z) /\
  pool_inv (drop_buffer (deref_mut m' b bytes) b) held.
Proof.
  intros Hinv Ha. destruct (try_alloc_inv _ _ _ _ Hinv Ha) as (Hinv' & Hb & Hz).
  split_and!; [done..|]. apply drop_buffer_inv, deref_mut_inv; [done|left].
Qed.
End Properties.

(** ** Witness *)

Lemma alloc_write_drop_witness :
  let m := manager_new (H := small_config) (Ch := list_chan) (tx_buffers_init (H := small_config)) in
  exists b m', try_alloc m = Some (b, m') /\
    pool_inv (H := small_config)
      (drop_buffer (deref_mut m' b (replicate TX_BUFFER_SIZE 7%Z)) b) [].
Proof.
  intros m. assert (exists b m', try_alloc m = Some (b, m')) as (b & m' & Ha)
    by (eexists _, _; reflexivity).
  exists b, m'. split; [done|].
  destruct (alloc_write_drop (H := small_config) m [] b m' (replicate TX_BUFFER_SIZE 7%Z))
    as (_ & _ & Hp); [apply manager_new_inv|done|done].
Defined.
