(* ===== verification/TxQueue.v ===== *)
(** * TX queue: foa/src/tx_queue.rs, data and operations

    One EDCA software queue: a ring of [TX_BUFFER_COUNT] slots with a running
    generation counter.  Each operation returns the new state together with
    the slot values it drops (a dropped slot gives its TX buffer back to the
    pool) and the calls it makes on the queue's wakers, in order.

    The definitions follow the default build, without the [tx-probe] and
    [tx-trace] instrumentation; the counter is a [u64] and every subtraction is
    checked. *)
From S2P Require Import Prelude Platform TxBuffers.

Section TxQueue.
Context `{FoaConfig, Hal}.

(** ** Data *)

Inductive RetryBehaviour : Type :=
| Drop
| RetryUntil (retries : Z)
| MultiRateRetry (rates : list TxPhyRate).

(** [impl Default for RetryBehaviour]. *)
Definition RetryBehaviour_default : RetryBehaviour := Drop.

(** [esp_wifi_hal::prelude::TxErrorBehaviour], whose constructors the source
    names. *)
Inductive TxErrorBehaviour : Type :=
| DriverDrop
| DriverRetryUntil (retries : Z)
| DriverMultiRateRetry (rates : list TxPhyRate).

Definition as_driver_behaviour (r : RetryBehaviour) : TxErrorBehaviour :=
  match r with
  | Drop => DriverDrop
  | RetryUntil retries => DriverRetryUntil retries
  | MultiRateRetry rates => DriverMultiRateRetry rates
  end.

Record PendingFrame : Type := MkPendingFrame {
  pf_frame : TxBuffer;
  pf_frame_length : nat;
  pf_plcp_parameters : TxPlcpParameters;
  pf_mac_parameters : TxMacParameters;
  pf_interface : Z;
  pf_retry_behaviour : RetryBehaviour;
}.

Record TxReturnData : Type := MkTxReturnData {
  rd_result : result TxError Z;
  rd_frame : TxBuffer;
  rd_frame_length : nat;
}.

Inductive TxQueueSlot : Type :=
| Empty
| Pending (f : PendingFrame)
| InProgress
| ReturnDataAvailable (d : TxReturnData).

(** One element of [queue_items]; its waker is external and appears through
    the [WakerCall]s of the operations. *)
Record TxQueueItem : Type := MkItem {
  item_slot : TxQueueSlot;
  return_data_expected : bool;
}.

Record TxQueueState : Type := MkTxQueueState {
  queue_items : list TxQueueItem;
  counter : Z;
  capacity : nat;
}.

(** Calls on [queue_update_waker] and on the waker of a slot. *)
Inductive WakerCall : Type :=
| WakeQueueUpdate
| RegisterQueueUpdate
| WakeSlot (i : nat)
| RegisterSlot (i : nat).

(** The TX buffers a dropped slot value returns. *)
Definition slot_buffers (s : TxQueueSlot) : list TxBuffer :=
  match s with
  | Empty | InProgress => []
  | Pending f => [pf_frame f]
  | ReturnDataAvailable d => [rd_frame d]
  end.

(** ** [impl TxQueueState] *)

Definition empty_item : TxQueueItem := MkItem Empty true.

Definition queue_new : TxQueueState :=
  {| queue_items := replicate TX_BUFFER_COUNT empty_item;
     counter := 0; capacity := TX_BUFFER_COUNT |}.

Definition next_slot_index (q : TxQueueState) : nat :=
  Z.to_nat (counter q `mod` Z.of_nat TX_BUFFER_COUNT).

Definition queue_len (q : TxQueueState) : outcome nat :=
  usize_sub TX_BUFFER_COUNT (capacity q).

Definition is_empty (q : TxQueueState) : bool :=
  bool_decide (capacity q = TX_BUFFER_COUNT).

Definition front_index (q : TxQueueState) : outcome nat :=
  len ← queue_len q;
  if decide (len <= next_slot_index q)
  then usize_sub (next_slot_index q) len
  else overrun_count ← usize_sub len (next_slot_index q);
       usize_sub TX_BUFFER_COUNT overrun_count.

Definition increase_queue_counter (q : TxQueueState) : outcome (Z * TxQueueState) :=
  c ← expect (checked_add 64 (counter q) 1);
  mret (counter q, MkTxQueueState (queue_items q) c (capacity q)).

Definition is_counter_out_of_bounds (q : TxQueueState) (c : Z) : outcome bool :=
  d ← u64_sub (counter q) c;
  mret (bool_decide (Z.of_nat TX_BUFFER_COUNT < d)%Z).

(** [queue_items[i].0.set(s)]: the previous slot value is dropped. *)
Definition set_slot (q : TxQueueState) (i : nat) (s : TxQueueSlot)
  : outcome (TxQueueSlot * TxQueueState) :=
  it ← expect (queue_items q !! i);
  mret (item_slot it,
    MkTxQueueState (<[i := MkItem s (return_data_expected it)]> (queue_items q))
      (counter q) (capacity q)).

(** [queue_items[i].2.store(b)]. *)
Definition set_expected (q : TxQueueState) (i : nat) (b : bool)
  : outcome TxQueueState :=
  it ← expect (queue_items q !! i);
  mret (MkTxQueueState (<[i := MkItem (item_slot it) b]> (queue_items q))
    (counter q) (capacity q)).

Definition set_capacity (q : TxQueueState) (c : nat) : TxQueueState :=
  MkTxQueueState (queue_items q) (counter q) c.

(** ** [impl TxQueue] *)

(** Returns the handle's generation, the dropped slot values and the waker
    calls. *)
Definition enqueue_frame (q : TxQueueState) (f : PendingFrame)
  : outcome (TxQueueState * Z * list TxQueueSlot * list WakerCall) :=
  _ ← assert_that (bool_decide (0 < capacity q));
  let was_queue_empty := is_empty q in
  let i := next_slot_index q in
  '(c, q) ← increase_queue_counter q;
  cap ← usize_sub (capacity q) 1;
  '(old, q) ← set_slot (set_capacity q cap) i (Pending f);
  q ← set_expected q i true;
  mret (q, c, [old], if was_queue_empty then [WakeQueueUpdate] else []).

(** ** [impl TxQueueRunner] *)

(** One poll of [wait_queue_not_empty]. *)
Definition wait_queue_not_empty (q : TxQueueState) : poll unit * list WakerCall :=
  if is_empty q then (PollPending, [RegisterQueueUpdate]) else (PollReady tt, []).

(** [Some (index, frame)]: the [InProgressTransmission] and the frame. *)
Definition try_receive (q : TxQueueState)
  : outcome (option (nat * PendingFrame) * TxQueueState) :=
  if is_empty q then mret (None, q) else
  front ← front_index q;
  it ← expect (queue_items q !! front);
  match item_slot it with
  | Empty | ReturnDataAvailable _ => Panic
  | Pending f =>
      '(_, q) ← set_slot q front InProgress;
      mret (Some (front, f), q)
  | InProgress => Panic
  end.

(** ** [impl InProgressTransmission] *)

Definition finish (q : TxQueueState) (index : nat) (new_slot_state : TxQueueSlot)
  : outcome (TxQueueState * list TxQueueSlot * list WakerCall) :=
  let q := set_capacity q (capacity q + 1) in
  it ← expect (queue_items q !! index);
  if return_data_expected it then
    '(old, q) ← set_slot q index new_slot_state;
    mret (q, [old], [WakeSlot index])
  else
    '(old, q) ← set_slot q index Empty;
    mret (q, [old; new_slot_state], [WakeSlot index]).

(** What [transmit] passes to the radio: the frame slice
    [frame[..frame_length]] panics beyond the buffer. *)
Record TxRequest : Type := MkTxRequest {
  rq_interface : Z;
  rq_plcp_parameters : TxPlcpParameters;
  rq_mac_parameters : TxMacParameters;
  rq_behaviour : TxErrorBehaviour;
  rq_frame : list Z;
}.

Definition transmit_request (bytes : list Z) (f : PendingFrame) : outcome TxRequest :=
  _ ← assert_that (bool_decide (pf_frame_length f <= length bytes));
  mret (MkTxRequest (pf_interface f) (pf_plcp_parameters f) (pf_mac_parameters f)
    (as_driver_behaviour (pf_retry_behaviour f)) (take (pf_frame_length f) bytes)).

(** The rest of [transmit], once the radio returned [r]. *)
Definition transmit_finish (q : TxQueueState) (index : nat) (f : PendingFrame)
  (r : result TxError Z)
  : outcome (TxQueueState * list TxQueueSlot * list WakerCall) :=
  finish q index
    (ReturnDataAvailable (MkTxReturnData r (pf_frame f) (pf_frame_length f))).

(** An aborted [transmit]: its arguments are dropped in reverse order, first
    the frame, then [self] ([Drop for InProgressTransmission]). *)
Definition in_progress_drop (q : TxQueueState) (index : nat) (f : PendingFrame)
  : outcome (TxQueueState * list TxQueueSlot * list WakerCall) :=
  '(q, dropped, calls) ← finish q index Empty;
  mret (q, Pending f :: dropped, calls).

(** ** [impl PendingTransmission]: a handle is its generation *)

Inductive PendingTransmissionStatus : Type :=
| StatusPending
| StatusInProgress
| StatusReturnDataAvailable
| StatusSlotNoLongerValid.

Definition slot_index (c : Z) : nat := Z.to_nat (c `mod` Z.of_nat TX_BUFFER_COUNT).

Definition status (q : TxQueueState) (c : Z) : outcome PendingTransmissionStatus :=
  oob ← is_counter_out_of_bounds q c;
  if (oob : bool) then mret StatusSlotNoLongerValid else
  it ← expect (queue_items q !! slot_index c);
  mret match item_slot it with
       | InProgress => StatusInProgress
       | Pending _ => StatusPending
       | ReturnDataAvailable _ => StatusReturnDataAvailable
       | Empty => StatusSlotNoLongerValid
       end.

(** One poll of [wait_for_completion]. *)
Definition wait_for_completion (q : TxQueueState) (c : Z)
  : outcome (poll (option TxReturnData) * TxQueueState * list WakerCall) :=
  oob ← is_counter_out_of_bounds q c;
  if (oob : bool) then mret (PollReady None, q, []) else
  it ← expect (queue_items q !! slot_index c);
  match item_slot it with
  | ReturnDataAvailable d =>
      '(_, q) ← set_slot q (slot_index c) Empty;
      mret (PollReady (Some d), q, [])
  | Empty => mret (PollReady None, q, [])
  | _ => mret (PollPending, q, [RegisterSlot (slot_index c)])
  end.

(** [Drop for PendingTransmission]. *)
Definition pending_drop (q : TxQueueState) (c : Z)
  : outcome (TxQueueState * list TxQueueSlot) :=
  oob ← is_counter_out_of_bounds q c;
  if (oob : bool) then mret (q, []) else
  q ← set_expected q (slot_index c) false;
  it ← expect (queue_items q !! slot_index c);
  match item_slot it with
  | ReturnDataAvailable _ =>
      '(old, q) ← set_slot q (slot_index c) Empty;
      mret (q, [old])
  | _ => mret (q, [])
  end.
End TxQueue.

(** ** [impl TxEndpoint]: choice of the queue and of the frame's fields *)

Section TxEndpoint.
Context `{FoaConfig, Hal}.

(** The four EDCA queues; [hardware_slot] is
    [EdcaAccessCategory::hardware_slot] of the driver. *)
Definition transmit_edca (queues : list TxQueueState) (hardware_slot : nat)
  (interface : nat) (frame : TxBuffer) (frame_length : nat)
  (plcp : TxPlcpParameters) (mac : TxMacParameters) (retry : RetryBehaviour)
  : outcome (list TxQueueState * Z * list TxQueueSlot * list WakerCall) :=
  i ← usize_sub hardware_slot 1;
  q ← expect (queues !! i);
  '(q, c, dropped, calls) ← enqueue_frame q
    (MkPendingFrame frame frame_length plcp mac (wrapping 8 (Z.of_nat interface)) retry);
  mret (<[i := q]> queues, c, dropped, calls).
End TxEndpoint.
