(* ===== verification/TxQueueSpec.v ===== *)
(** * TX queue: abstract specification and refinement

    [TxSpec] promises what a caller may rely on, with no ring and no slot: a
    frame per generation in enqueue order, the radio's results in the same
    order, and the results still stored for their callers.  [TxMachine] is the
    code: the ring of TxQueue.v with the one runner's in-progress frame.
    [tx_refines] relates the two, and [machine_refines_spec] says that every
    step of the code is the corresponding step of the specification. *)
From S2P Require Import Prelude Platform Ring TxBuffers TxQueue.

Section TxQueueSpec.
Context `{FoaConfig, Hal}.
Implicit Types (g k : nat) (f : PendingFrame) (d : TxReturnData).

(** ** Actions of the callers, the runner and the radio *)

Inductive tx_action : Type :=
| AEnqueue f
| AReceive
| AFinish (r : result TxError Z)
| AAbort
| APoll g
| ADropHandle g
| AStatus g.

Inductive tx_output : Type :=
| OHandle (c : Z)
| OPicked (f : option PendingFrame)
| OUnit
| OPolled (p : poll (option TxReturnData))
| OStatus (s : PendingTransmissionStatus).

(** ** The code as a machine *)

(** The runner: [None] between transmissions, [Some (index, frame)] while it
    awaits the radio ([run] receives again only afterwards). *)
Record TxMachine : Type := MkTxMachine {
  tm_queue : TxQueueState;
  tm_runner : option (nat * PendingFrame);
}.

Definition machine_new : TxMachine := MkTxMachine queue_new None.

Definition buffers_of (l : list TxQueueSlot) : list TxBuffer := owned slot_buffers l.

(** Handles exist only for generations that were enqueued. *)
Definition is_generation (m : TxMachine) g : bool :=
  bool_decide (Z.of_nat g < counter (tm_queue m))%Z.

(** [None]: the control flow or the ownership rules make the action
    impossible in this state. *)
Definition machine_step (m : TxMachine) (a : tx_action)
  : option (outcome (TxMachine * (tx_output * list TxBuffer))) :=
  let q := tm_queue m in
  match a with
  | AEnqueue f => Some (
      '(q, c, dropped, _) ← enqueue_frame q f;
      mret (MkTxMachine q (tm_runner m), (OHandle c, buffers_of dropped)))
  | AReceive =>
      match tm_runner m with
      | Some _ => None
      | None => Some (
          '(o, q) ← try_receive q;
          mret (MkTxMachine q o, (OPicked (snd <$> o), [])))
      end
  | AFinish r =>
      '(i, f) ← tm_runner m;
      Some ('(q, dropped, _) ← transmit_finish q i f r;
            mret (MkTxMachine q None, (OUnit, buffers_of dropped)))
  | AAbort =>
      '(i, f) ← tm_runner m;
      Some ('(q, dropped, _) ← in_progress_drop q i f;
            mret (MkTxMachine q None, (OUnit, buffers_of dropped)))
  | APoll g =>
      if is_generation m g then Some (
        '(p, q, _) ← wait_for_completion q (Z.of_nat g);
        mret (MkTxMachine q (tm_runner m), (OPolled p, [])))
      else None
  | ADropHandle g =>
      if is_generation m g then Some (
        '(q, dropped) ← pending_drop q (Z.of_nat g);
        mret (MkTxMachine q (tm_runner m), (OUnit, buffers_of dropped)))
      else None
  | AStatus g =>
      if is_generation m g then Some (
        s ← status q (Z.of_nat g);
        mret (m, (OStatus s, [])))
      else None
  end.

(** ** The specification *)

Record TxSpec : Type := MkTxSpec {
  sp_frames : list PendingFrame;
  sp_results : list (option (result TxError Z));
  sp_active : bool;
  sp_store : gmap nat TxReturnData;
  sp_cancelled : gset nat;
}.

Definition spec_new : TxSpec := MkTxSpec [] [] false ∅ ∅.

Definition expired (sp : TxSpec) g : bool :=
  bool_decide (g + TX_BUFFER_COUNT < length (sp_frames sp)).

Definition return_data f (r : result TxError Z) : TxReturnData :=
  MkTxReturnData r (pf_frame f) (pf_frame_length f).

Definition store_buffers (o : option TxReturnData) : list TxBuffer :=
  match o with Some d => [rd_frame d] | None => [] end.

(** The generation an enqueue pushes out of the retention window. *)
Definition overwritten (sp : TxSpec) : option nat :=
  if decide (TX_BUFFER_COUNT <= length (sp_frames sp))
  then Some (length (sp_frames sp) - TX_BUFFER_COUNT) else None.

Definition spec_enqueue (sp : TxSpec) f : TxSpec * list TxBuffer :=
  match overwritten sp with
  | Some k =>
      (MkTxSpec (sp_frames sp ++ [f]) (sp_results sp) (sp_active sp)
         (delete k (sp_store sp)) (sp_cancelled sp),
       store_buffers (sp_store sp !! k))
  | None =>
      (MkTxSpec (sp_frames sp ++ [f]) (sp_results sp) (sp_active sp)
         (sp_store sp) (sp_cancelled sp), [])
  end.

Definition spec_complete (sp : TxSpec) f (r : option (result TxError Z))
  : TxSpec * list TxBuffer :=
  let g := length (sp_results sp) in
  match r with
  | Some r' =>
      if decide (g ∈ sp_cancelled sp)
      then (MkTxSpec (sp_frames sp) (sp_results sp ++ [r]) false (sp_store sp)
              (sp_cancelled sp), [pf_frame f])
      else (MkTxSpec (sp_frames sp) (sp_results sp ++ [r]) false
              (<[g := return_data f r']> (sp_store sp)) (sp_cancelled sp), [])
  | None =>
      (MkTxSpec (sp_frames sp) (sp_results sp ++ [r]) false (sp_store sp)
         (sp_cancelled sp), [pf_frame f])
  end.

Definition spec_take (sp : TxSpec) g : TxSpec :=
  MkTxSpec (sp_frames sp) (sp_results sp) (sp_active sp)
    (delete g (sp_store sp)) (sp_cancelled sp).

Definition spec_status (sp : TxSpec) g : PendingTransmissionStatus :=
  if expired sp g then StatusSlotNoLongerValid
  else if decide (g < length (sp_results sp)) then
    match sp_store sp !! g with
    | Some _ => StatusReturnDataAvailable
    | None => StatusSlotNoLongerValid
    end
  else if sp_active sp && bool_decide (g = length (sp_results sp))
  then StatusInProgress else StatusPending.

Definition spec_step (sp : TxSpec) (a : tx_action)
  : option (outcome (TxSpec * (tx_output * list TxBuffer))) :=
  let next := length (sp_frames sp) in
  let current := length (sp_results sp) in
  match a with
  | AEnqueue f => Some (
      if decide (next - current < TX_BUFFER_COUNT /\ (Z.of_nat next < u_max 64)%Z)
      then let '(sp', bufs) := spec_enqueue sp f in
           Done (sp', (OHandle (Z.of_nat next), bufs))
      else Panic)
  | AReceive =>
      if sp_active sp then None else Some (Done (
        match sp_frames sp !! current with
        | Some f =>
            (MkTxSpec (sp_frames sp) (sp_results sp) true (sp_store sp)
               (sp_cancelled sp), (OPicked (Some f), []))
        | None => (sp, (OPicked None, []))
        end))
  | AFinish r =>
      if sp_active sp then
        f ← sp_frames sp !! current;
        let '(sp', bufs) := spec_complete sp f (Some r) in
        Some (Done (sp', (OUnit, bufs)))
      else None
  | AAbort =>
      if sp_active sp then
        f ← sp_frames sp !! current;
        let '(sp', bufs) := spec_complete sp f None in
        Some (Done (sp', (OUnit, bufs)))
      else None
  | APoll g =>
      if decide (g < next) then Some (Done (
        if expired sp g then (sp, (OPolled (PollReady None), []))
        else if decide (g < current) then
          (spec_take sp g, (OPolled (PollReady (sp_store sp !! g)), []))
        else (sp, (OPolled PollPending, []))))
      else None
  | ADropHandle g =>
      if decide (g < next) then Some (Done (
        if expired sp g then (sp, (OUnit, []))
        else
          (MkTxSpec (sp_frames sp) (sp_results sp) (sp_active sp)
             (delete g (sp_store sp)) ({[g]} ∪ sp_cancelled sp),
           (OUnit, store_buffers (sp_store sp !! g)))))
      else None
  | AStatus g =>
      if decide (g < next) then Some (Done (sp, (OStatus (spec_status sp g), [])))
      else None
  end.

(** ** The refinement relation *)

Definition spec_slot (sp : TxSpec) k : TxQueueSlot :=
  if decide (k < length (sp_results sp)) then
    match sp_store sp !! k with Some d => ReturnDataAvailable d | None => Empty end
  else if sp_active sp && bool_decide (k = length (sp_results sp)) then InProgress
  else match sp_frames sp !! k with Some f => Pending f | None => Empty end.

Definition spec_item (sp : TxSpec) k : TxQueueItem :=
  MkItem (spec_slot sp k) (bool_decide (k ∉ sp_cancelled sp)).

(** What the specification's states look like. *)
Record spec_ok (sp : TxSpec) : Prop := {
  so_results : length (sp_results sp) <= length (sp_frames sp);
  so_live : length (sp_frames sp) <= length (sp_results sp) + TX_BUFFER_COUNT;
  so_active : sp_active sp = true -> length (sp_results sp) < length (sp_frames sp);
  so_counter : (Z.of_nat (length (sp_frames sp)) <= u_max 64)%Z;
  so_store : forall k d, sp_store sp !! k = Some d ->
    k < length (sp_results sp) /\ length (sp_frames sp) <= k + TX_BUFFER_COUNT /\
    k ∉ sp_cancelled sp /\
    exists f r, sp_frames sp !! k = Some f /\ sp_results sp !! k = Some (Some r) /\
      d = return_data f r;
  so_cancelled : forall k, k ∈ sp_cancelled sp -> k < length (sp_frames sp);
}.

Definition runner_of (sp : TxSpec) : option (nat * PendingFrame) :=
  if sp_active sp then
    pair (length (sp_results sp) mod TX_BUFFER_COUNT) <$>
      (sp_frames sp !! length (sp_results sp))
  else None.

Record tx_refines (m : TxMachine) (sp : TxSpec) : Prop := {
  tr_ok : spec_ok sp;
  tr_counter : counter (tm_queue m) = Z.of_nat (length (sp_frames sp));
  tr_capacity : capacity (tm_queue m) =
    TX_BUFFER_COUNT - (length (sp_frames sp) - length (sp_results sp));
  tr_runner : tm_runner m = runner_of sp;
  tr_ring : ring_repr TX_BUFFER_COUNT (queue_items (tm_queue m))
    (length (sp_frames sp)) (spec_item sp) empty_item;
}.

End TxQueueSpec.

(** ** A concrete configuration for the examples: three slots *)

Section Demo.
#[local] Existing Instances small_config unit_hal.

Definition demo_frame (i : nat) : PendingFrame :=
  MkPendingFrame (MkTxBuffer i) (100 + i) tt tt 0 Drop.

(** Two frames enqueued, the first transmitted with [Ok 0]. *)
Definition demo_acts : list tx_action :=
  [AEnqueue (demo_frame 0); AReceive; AEnqueue (demo_frame 1); AFinish (Ok 0%Z)].

Definition demo_machine (acts : list tx_action) : TxMachine :=
  match run machine_step machine_new acts with
  | Some (Done (m, _)) => m
  | _ => machine_new
  end.
Definition demo_outputs (acts : list tx_action) : list (tx_output * list TxBuffer) :=
  match run machine_step machine_new acts with
  | Some (Done (_, os)) => os
  | _ => []
  end.

Definition demo_full : list tx_action :=
  AEnqueue <$> [demo_frame 0; demo_frame 1; demo_frame 2].
(** Four frames through three slots: generation 0 is overwritten. *)
Definition demo_wrapped : list tx_action :=
  demo_acts ++ (AEnqueue <$> [demo_frame 2; demo_frame 0]).
End Demo.
