(* ===== verification/TxQueueRefine.v ===== *)
(** * TX queue: the ring implements the specification

    One lemma per operation shows that the code's step is the specification's
    step; [machine_refines_spec] collects them. *)
From S2P Require Import Prelude Platform Ring TxBuffers TxQueue TxQueueSpec.

Section TxQueueRefine.
Context `{FoaConfig, Hal}.
Implicit Types (g k : nat) (f : PendingFrame) (d : TxReturnData).
Implicit Types (m : TxMachine) (sp : TxSpec).

Notation N := TX_BUFFER_COUNT.
#[local] Arguments spec_complete : simpl never.
#[local] Arguments spec_enqueue : simpl never.

Lemma machine_new_refines : tx_refines machine_new spec_new.
Proof.
  pose proof TX_BUFFER_COUNT_pos. split; simpl; try done; try lia.
  - split; simpl; try done; try lia; set_solver.
  - by apply ring_new.
Qed.

(** ** Reading the ring *)

Section Reading.
Context m sp (Hr : tx_refines m sp).

Lemma live_le : length (sp_frames sp) - length (sp_results sp) <= N.
Proof. pose proof (so_live _ (tr_ok _ _ Hr)). lia. Qed.

Lemma next_index : next_slot_index (tm_queue m) = length (sp_frames sp) mod N.
Proof.
  unfold next_slot_index. rewrite (tr_counter _ _ Hr).
  apply ring_index_Z.
Qed.

Lemma handle_index g : slot_index (Z.of_nat g) = g mod N.
Proof. apply ring_index_Z. Qed.

Lemma read_item k :
  k < length (sp_frames sp) -> expired sp k = false ->
  queue_items (tm_queue m) !! (k mod N) = Some (spec_item sp k).
Proof.
  unfold expired. intros Hk He%bool_decide_eq_false.
  apply (rr_window _ _ _ _ _ (tr_ring _ _ Hr)); lia.
Qed.

Lemma out_of_bounds g :
  g < length (sp_frames sp) ->
  is_counter_out_of_bounds (tm_queue m) (Z.of_nat g) = Done (expired sp g).
Proof.
  intros Hg. unfold is_counter_out_of_bounds, expired.
  rewrite (tr_counter _ _ Hr), u64_sub_le by lia. simpl. f_equal.
  apply bool_decide_ext. lia.
Qed.

Lemma queue_empty_iff :
  is_empty (tm_queue m) =
    bool_decide (length (sp_frames sp) = length (sp_results sp)).
Proof.
  unfold is_empty. rewrite (tr_capacity _ _ Hr). apply bool_decide_ext.
  pose proof live_le. pose proof (so_results _ (tr_ok _ _ Hr)).
  pose proof TX_BUFFER_COUNT_pos. lia.
Qed.

Lemma front_is_oldest :
  front_index (tm_queue m) = Done (length (sp_results sp) mod N).
Proof.
  pose proof live_le. pose proof (so_results _ (tr_ok _ _ Hr)).
  unfold front_index, queue_len. rewrite (tr_capacity _ _ Hr), next_index.
  rewrite usize_sub_le by lia. simpl.
  replace (N - (N - (length (sp_frames sp) - length (sp_results sp))))
    with (length (sp_frames sp) - length (sp_results sp)) by lia.
  pose proof (ring_front N TX_BUFFER_COUNT_pos (length (sp_frames sp))
    (length (sp_frames sp) - length (sp_results sp))) as Hf.
  replace (length (sp_frames sp) - (length (sp_frames sp) - length (sp_results sp)))
    with (length (sp_results sp)) in Hf by lia.
  rewrite Hf by lia. case_decide.
  - by rewrite usize_sub_le.
  - rewrite usize_sub_le by lia. simpl. rewrite usize_sub_le; [done|lia].
Qed.

Lemma current_not_expired :
  length (sp_results sp) < length (sp_frames sp) ->
  expired sp (length (sp_results sp)) = false.
Proof.
  intros. apply bool_decide_eq_false.
  pose proof (so_live _ (tr_ok _ _ Hr)). lia.
Qed.
End Reading.

(** ** Writing the ring *)

Lemma set_slot_at q i it s :
  queue_items q !! i = Some it ->
  set_slot q i s = Done (item_slot it,
    MkTxQueueState (<[i := MkItem s (return_data_expected it)]> (queue_items q))
      (counter q) (capacity q)).
Proof. intros Hi. unfold set_slot. by rewrite Hi. Qed.

Lemma set_expected_at q i it b :
  queue_items q !! i = Some it ->
  set_expected q i b = Done
    (MkTxQueueState (<[i := MkItem (item_slot it) b]> (queue_items q))
      (counter q) (capacity q)).
Proof. intros Hi. unfold set_expected. by rewrite Hi. Qed.

Lemma enqueue_frame_at q f it :
  0 < capacity q -> (counter q + 1 <= u_max 64)%Z ->
  queue_items q !! next_slot_index q = Some it ->
  enqueue_frame q f = Done
    (MkTxQueueState (<[next_slot_index q := MkItem (Pending f) true]> (queue_items q))
       (counter q + 1)%Z (capacity q - 1),
     counter q, [item_slot it],
     if is_empty q then [WakeQueueUpdate] else []).
Proof.
  intros Hc Hn Hi. unfold enqueue_frame, increase_queue_counter.
  rewrite bool_decide_true by done. simpl.
  rewrite (proj2 (checked_add_Some _ _ _ (counter q + 1)%Z)) by done. simpl.
  rewrite usize_sub_le by lia. simpl.
  rewrite (set_slot_at _ _ it) by done. simpl.
  erewrite set_expected_at by
    (simpl; apply list_lookup_insert_eq; by eapply lookup_lt_Some).
  simpl. by rewrite list_insert_insert_eq.
Qed.

Lemma finish_at q i it s :
  queue_items q !! i = Some it ->
  finish q i s = Done
    (MkTxQueueState
       (<[i := MkItem (if return_data_expected it then s else Empty)
                 (return_data_expected it)]> (queue_items q))
       (counter q) (capacity q + 1),
     item_slot it :: (if return_data_expected it then [] else [s]), [WakeSlot i]).
Proof.
  intros Hi. unfold finish. simpl. rewrite Hi. simpl.
  destruct it as [sl [|]]; simpl;
    by rewrite (set_slot_at _ _ (MkItem sl _)) by done.
Qed.

(** ** Items of the specification *)

Lemma spec_item_active sp :
  sp_active sp = true ->
  spec_item sp (length (sp_results sp)) =
    MkItem InProgress (bool_decide (length (sp_results sp) ∉ sp_cancelled sp)).
Proof.
  intros Ha. unfold spec_item, spec_slot. rewrite decide_False by lia.
  by rewrite Ha, bool_decide_true.
Qed.

Lemma spec_item_waiting sp f :
  sp_active sp = false -> sp_frames sp !! length (sp_results sp) = Some f ->
  spec_item sp (length (sp_results sp)) =
    MkItem (Pending f) (bool_decide (length (sp_results sp) ∉ sp_cancelled sp)).
Proof.
  intros Ha Hf. unfold spec_item, spec_slot. rewrite decide_False by lia.
  by rewrite Ha, Hf.
Qed.

Lemma spec_item_done sp k :
  k < length (sp_results sp) ->
  spec_item sp k =
    MkItem match sp_store sp !! k with
           | Some d => ReturnDataAvailable d
           | None => Empty
           end (bool_decide (k ∉ sp_cancelled sp)).
Proof. intros Hk. unfold spec_item, spec_slot. by rewrite decide_True. Qed.

Lemma buffers_of_done sp k :
  k < length (sp_results sp) ->
  buffers_of [item_slot (spec_item sp k)] = store_buffers (sp_store sp !! k).
Proof.
  intros Hk. rewrite spec_item_done by done. simpl.
  by destruct (sp_store sp !! k).
Qed.

(** ** Enqueue *)

Definition enqueued sp f : TxSpec := fst (spec_enqueue sp f).

Lemma enqueued_fields sp f :
  sp_frames (enqueued sp f) = sp_frames sp ++ [f] /\
  sp_results (enqueued sp f) = sp_results sp /\
  sp_active (enqueued sp f) = sp_active sp /\
  sp_cancelled (enqueued sp f) = sp_cancelled sp.
Proof. unfold enqueued, spec_enqueue. by destruct (overwritten sp). Qed.

Lemma enqueued_store sp f k :
  length (sp_frames sp) < k + N ->
  sp_store (enqueued sp f) !! k = sp_store sp !! k.
Proof.
  intros Hk. unfold enqueued, spec_enqueue, overwritten.
  case_decide; simpl; [|done]. rewrite lookup_delete_ne; [done|lia].
Qed.

Lemma enqueued_store_Some sp f k d :
  sp_store (enqueued sp f) !! k = Some d ->
  sp_store sp !! k = Some d /\ (N <= length (sp_frames sp) ->
    k <> length (sp_frames sp) - N).
Proof.
  unfold enqueued, spec_enqueue, overwritten. case_decide; simpl; [|naive_solver lia].
  rewrite lookup_delete_Some. naive_solver.
Qed.

Lemma enqueued_ok sp f :
  spec_ok sp -> length (sp_frames sp) - length (sp_results sp) < N ->
  (Z.of_nat (length (sp_frames sp)) < u_max 64)%Z -> spec_ok (enqueued sp f).
Proof.
  intros [Hres Hlive Hact Hcnt Hst Hcan] Hroom Hmax.
  destruct (enqueued_fields sp f) as (Hf & Hr & Ha & Hc).
  split; rewrite ?Hf, ?Hr, ?Ha, ?Hc, ?length_app; simpl; try lia.
  - intros k d Hk. apply enqueued_store_Some in Hk as [Hk Hne].
    destruct (Hst k d Hk) as (? & ? & ? & f' & r & ? & ? & ?).
    split_and!; [done| |done|].
    + destruct (decide (N <= length (sp_frames sp))); lia.
    + exists f', r. split_and!; try done. by apply lookup_app_l_Some.
  - intros k ?%Hcan. lia.
Qed.

Lemma enqueued_item_old sp f k :
  k < length (sp_frames sp) -> length (sp_frames sp) < k + N ->
  spec_item (enqueued sp f) k = spec_item sp k.
Proof.
  intros Hk Hw. destruct (enqueued_fields sp f) as (Hf & Hr & Ha & Hc).
  unfold spec_item, spec_slot.
  by rewrite Hf, Hr, Ha, Hc, enqueued_store, lookup_app_l.
Qed.

Lemma enqueued_item_new sp f :
  spec_ok sp ->
  spec_item (enqueued sp f) (length (sp_frames sp)) = MkItem (Pending f) true.
Proof.
  intros [Hres _ Hact _ _ Hcan].
  destruct (enqueued_fields sp f) as (Hf & Hr & Ha & Hc).
  unfold spec_item, spec_slot. rewrite Hf, Hr, Ha, Hc.
  rewrite decide_False by lia.
  rewrite list_lookup_middle by done.
  rewrite (bool_decide_true (_ ∉ _)) by (intros ?%Hcan; lia).
  destruct (sp_active sp); [|done]. simpl.
  rewrite bool_decide_false; [done|]. specialize (Hact eq_refl). lia.
Qed.

Lemma enqueued_buffers sp f :
  length (sp_frames sp) - length (sp_results sp) < N ->
  snd (spec_enqueue sp f) =
    buffers_of [item_slot (if decide (N <= length (sp_frames sp))
      then spec_item sp (length (sp_frames sp) - N) else empty_item)].
Proof.
  intros Hroom. unfold spec_enqueue, overwritten. case_decide; [|done].
  rewrite buffers_of_done; [done|lia].
Qed.

Lemma enqueue_refines m sp f :
  tx_refines m sp ->
  steps_agree tx_refines (machine_step m (AEnqueue f)) (spec_step sp (AEnqueue f)).
Proof.
  intros Hr. pose proof (so_results _ (tr_ok _ _ Hr)) as Hres.
  pose proof (tr_capacity _ _ Hr) as Hcap. pose proof (tr_counter _ _ Hr) as Hcnt.
  simpl. case_decide as Hroom.
  - destruct Hroom as [Hroom Hmax].
    pose proof (ring_push_old N TX_BUFFER_COUNT_pos _ _ _ _ (tr_ring _ _ Hr)) as Hold.
    erewrite enqueue_frame_at; [|lia|lia|rewrite (next_index _ _ Hr); exact Hold].
    rewrite (surjective_pairing (spec_enqueue sp f)), enqueued_buffers by done.
    simpl. split; [by rewrite Hcnt|].
    fold (enqueued sp f).
    destruct (enqueued_fields sp f) as (Hf & Hrs & Ha & Hc).
    split; simpl; rewrite ?Hf, ?Hrs, ?length_app; simpl.
    + by apply enqueued_ok; [apply (tr_ok _ _ Hr)|..].
    + lia.
    + lia.
    + rewrite (tr_runner _ _ Hr). unfold runner_of. rewrite Hf, Hrs, Ha.
      destruct (sp_active sp) eqn:Hact; [|done].
      rewrite lookup_app_l; [done|]. by apply (so_active _ (tr_ok _ _ Hr)).
    + rewrite (next_index _ _ Hr), Nat.add_1_r.
      rewrite <- (enqueued_item_new sp f (tr_ok _ _ Hr)).
      eapply ring_push; [apply TX_BUFFER_COUNT_pos|apply (tr_ring _ _ Hr)|].
      intros k. apply enqueued_item_old.
  - unfold enqueue_frame, increase_queue_counter.
    destruct (decide (capacity (tm_queue m) = 0)) as [Hz|Hnz].
    + by rewrite bool_decide_false by lia.
    + rewrite bool_decide_true by lia. simpl.
      by rewrite (proj2 (checked_add_None _ _ _)) by lia.
Qed.

(** ** The steps that rewrite one live generation *)

Lemma refines_update m sp sp' k it cap run :
  tx_refines m sp -> spec_ok sp' -> sp_frames sp' = sp_frames sp ->
  k < length (sp_frames sp) -> expired sp k = false ->
  it = spec_item sp' k ->
  (forall j, j <> k -> spec_item sp' j = spec_item sp j) ->
  cap = N - (length (sp_frames sp) - length (sp_results sp')) ->
  run = runner_of sp' ->
  tx_refines
    (MkTxMachine
       (MkTxQueueState (<[k mod N := it]> (queue_items (tm_queue m)))
          (counter (tm_queue m)) cap) run) sp'.
Proof.
  unfold expired. intros Hr Hok Hf Hk He%bool_decide_eq_false -> Hj -> ->.
  split; simpl; rewrite ?Hf; try done.
  - apply (tr_counter _ _ Hr).
  - eapply ring_update; [apply TX_BUFFER_COUNT_pos|apply (tr_ring _ _ Hr)|done|lia|].
    intros j _ _. apply Hj.
Qed.

Lemma runner_active m sp :
  tx_refines m sp -> sp_active sp = true ->
  exists f, sp_frames sp !! length (sp_results sp) = Some f /\
    tm_runner m = Some (length (sp_results sp) mod N, f).
Proof.
  intros Hr Ha. pose proof (so_active _ (tr_ok _ _ Hr) Ha) as Hlt.
  apply lookup_lt_is_Some in Hlt as [f Hf]. exists f. split; [done|].
  rewrite (tr_runner _ _ Hr). unfold runner_of. by rewrite Ha, Hf.
Qed.

Lemma runner_inactive m sp :
  tx_refines m sp -> sp_active sp = false -> tm_runner m = None.
Proof.
  intros Hr Ha. rewrite (tr_runner _ _ Hr). unfold runner_of. by rewrite Ha.
Qed.

Lemma receive_refines m sp :
  tx_refines m sp -> steps_agree tx_refines (machine_step m AReceive) (spec_step sp AReceive).
Proof.
  intros Hr. simpl. destruct (sp_active sp) eqn:Ha.
  { destruct (runner_active _ _ Hr Ha) as (f & _ & ->). done. }
  rewrite (runner_inactive _ _ Hr Ha). unfold try_receive.
  pose proof (so_results _ (tr_ok _ _ Hr)) as Hres.
  rewrite (queue_empty_iff _ _ Hr). case_bool_decide as He.
  - rewrite lookup_ge_None_2 by lia. simpl. split; [done|].
    rewrite <- (runner_inactive _ _ Hr Ha). by destruct m.
  - assert (length (sp_results sp) < length (sp_frames sp)) as Hlt by lia.
    pose proof Hlt as [f Hf]%lookup_lt_is_Some. rewrite Hf.
    pose proof (current_not_expired _ _ Hr Hlt) as Hne.
    pose proof (read_item _ _ Hr _ Hlt Hne) as Hit.
    rewrite (spec_item_waiting _ f Ha Hf) in Hit.
    rewrite (front_is_oldest _ _ Hr). simpl. rewrite Hit. simpl.
    rewrite (set_slot_at _ _ _ _ Hit). simpl. split; [done|].
    apply (refines_update m sp); simpl; try done.
    + destruct (tr_ok _ _ Hr). by split.
    + symmetry. by apply (spec_item_active (MkTxSpec _ _ true _ _)).
    + intros j Hj. unfold spec_item, spec_slot. simpl. rewrite Ha.
      by rewrite (bool_decide_false (j = _)).
    + apply (tr_capacity _ _ Hr).
    + unfold runner_of. simpl. by rewrite Hf.
Qed.

(** Completion and abortion of the frame in progress. *)
Definition completed sp f r : TxSpec := fst (spec_complete sp f r).

Lemma completed_fields sp f r :
  sp_frames (completed sp f r) = sp_frames sp /\
  sp_results (completed sp f r) = sp_results sp ++ [r] /\
  sp_active (completed sp f r) = false /\
  sp_cancelled (completed sp f r) = sp_cancelled sp.
Proof. unfold completed, spec_complete. destruct r; [case_decide|]; done. Qed.

Lemma completed_store_Some sp f r k d :
  sp_store (completed sp f r) !! k = Some d ->
  sp_store sp !! k = Some d \/
  (k = length (sp_results sp) /\ k ∉ sp_cancelled sp /\
   exists r', r = Some r' /\ d = return_data f r').
Proof.
  unfold completed, spec_complete. destruct r as [r'|]; [case_decide|]; simpl; auto.
  rewrite lookup_insert_Some. naive_solver.
Qed.

Lemma completed_store_other sp f r k :
  k <> length (sp_results sp) ->
  sp_store (completed sp f r) !! k = sp_store sp !! k.
Proof.
  intros Hk. unfold completed, spec_complete.
  destruct r as [r'|]; [case_decide|]; simpl; try done.
  by rewrite lookup_insert_ne.
Qed.

Lemma completed_ok sp f r :
  spec_ok sp -> sp_frames sp !! length (sp_results sp) = Some f ->
  spec_ok (completed sp f r).
Proof.
  intros [Hres Hlive _ Hcnt Hst Hcan] Hf.
  pose proof (lookup_lt_Some _ _ _ Hf) as Hlt.
  destruct (completed_fields sp f r) as (Hfr & Hr & Ha & Hc).
  split; rewrite ?Hfr, ?Hr, ?Ha, ?Hc, ?length_app; simpl; try lia; try done.
  intros k d [Hk|(-> & Hk & r' & -> & ->)]%completed_store_Some.
  - destruct (Hst k d Hk) as (? & ? & ? & f' & r' & ? & ? & ?).
    split_and!; try done; try lia. exists f', r'. split_and!; try done.
    by apply lookup_app_l_Some.
  - split_and!; try done; try lia. exists f, r'. split_and!; try done.
    by rewrite list_lookup_middle.
Qed.

Lemma completed_item_other sp f r j :
  j <> length (sp_results sp) ->
  spec_item (completed sp f r) j = spec_item sp j.
Proof.
  intros Hj. destruct (completed_fields sp f r) as (Hfr & Hr & Ha & Hc).
  unfold spec_item, spec_slot.
  rewrite Hfr, Hr, Ha, Hc, length_app, completed_store_other by done. simpl.
  rewrite (bool_decide_false (j = length (sp_results sp))), andb_false_r by done.
  destruct (decide (j < length (sp_results sp))).
  - by rewrite decide_True by lia.
  - by rewrite decide_False by lia.
Qed.

Lemma complete_refines m sp f r s :
  tx_refines m sp -> sp_active sp = true ->
  sp_frames sp !! length (sp_results sp) = Some f ->
  sp_store sp !! length (sp_results sp) = None ->
  s = match r with
      | Some r' => ReturnDataAvailable (return_data f r')
      | None => Empty
      end ->
  exists q, finish (tm_queue m) (length (sp_results sp) mod N) s =
      Done (q, InProgress :: (if bool_decide (length (sp_results sp) ∈ sp_cancelled sp)
                              then [s] else []),
            [WakeSlot (length (sp_results sp) mod N)]) /\
    tx_refines (MkTxMachine q None) (completed sp f r).
Proof.
  intros Hr Ha Hf Hst ->. pose proof (lookup_lt_Some _ _ _ Hf) as Hlt.
  pose proof (current_not_expired _ _ Hr Hlt) as Hne.
  pose proof (read_item _ _ Hr _ Hlt Hne) as Hit.
  rewrite (spec_item_active _ Ha) in Hit.
  eexists. rewrite (finish_at _ _ _ _ Hit). simpl. split.
  { do 3 f_equal. repeat case_bool_decide; set_solver. }
  destruct (completed_fields sp f r) as (Hfr & Hrs & Hac & Hc).
  apply (refines_update m sp); try done.
  - by apply completed_ok; [apply (tr_ok _ _ Hr)|].
  - rewrite spec_item_done, Hc by (rewrite Hrs, length_app; simpl; lia).
    unfold completed, spec_complete. destruct r as [r'|]; simpl.
    + case_bool_decide; case_decide; try set_solver; simpl.
      * by rewrite lookup_insert_eq.
      * by rewrite Hst.
    + rewrite Hst. by case_bool_decide.
  - intros j. apply completed_item_other.
  - pose proof (tr_capacity _ _ Hr). pose proof (live_le _ _ Hr).
    rewrite Hrs, length_app. simpl. lia.
  - unfold runner_of. by rewrite Hac.
Qed.

Lemma store_current sp :
  spec_ok sp -> sp_store sp !! length (sp_results sp) = None.
Proof.
  intros Hok. destruct (sp_store sp !! _) as [d|] eqn:Hd; [|done].
  destruct (so_store _ Hok _ _ Hd). lia.
Qed.

Lemma finish_refines m sp r :
  tx_refines m sp ->
  steps_agree tx_refines (machine_step m (AFinish r)) (spec_step sp (AFinish r)).
Proof.
  intros Hr. simpl. destruct (sp_active sp) eqn:Ha.
  - destruct (runner_active _ _ Hr Ha) as (f & Hf & Hrun). rewrite Hrun, Hf. simpl.
    destruct (complete_refines m sp f (Some r) _ Hr Ha Hf
      (store_current _ (tr_ok _ _ Hr)) eq_refl) as (q & Hfin & Href).
    unfold transmit_finish. unfold return_data in Hfin. rewrite Hfin.
    rewrite (surjective_pairing (spec_complete _ _ _)). simpl.
    split; [|done]. unfold spec_complete.
    case_bool_decide; case_decide; done.
  - by rewrite (runner_inactive _ _ Hr Ha).
Qed.

Lemma abort_refines m sp :
  tx_refines m sp -> steps_agree tx_refines (machine_step m AAbort) (spec_step sp AAbort).
Proof.
  intros Hr. simpl. destruct (sp_active sp) eqn:Ha.
  - destruct (runner_active _ _ Hr Ha) as (f & Hf & Hrun). rewrite Hrun, Hf. simpl.
    destruct (complete_refines m sp f None _ Hr Ha Hf
      (store_current _ (tr_ok _ _ Hr)) eq_refl) as (q & Hfin & Href).
    unfold in_progress_drop. rewrite Hfin. simpl.
    split; [|done]. by case_bool_decide.
  - by rewrite (runner_inactive _ _ Hr Ha).
Qed.

(** ** The callers' handles *)

Lemma is_generation_spec m sp g :
  tx_refines m sp ->
  is_generation m g = bool_decide (g < length (sp_frames sp)).
Proof.
  intros Hr. unfold is_generation. rewrite (tr_counter _ _ Hr).
  apply bool_decide_ext. lia.
Qed.

Lemma taken_ok sp g : spec_ok sp -> spec_ok (spec_take sp g).
Proof.
  intros [Hres Hlive Hact Hcnt Hst Hcan]. split; simpl; try done.
  intros k d [_ Hk]%lookup_delete_Some. by apply Hst.
Qed.

Definition dropped_handle sp g : TxSpec :=
  MkTxSpec (sp_frames sp) (sp_results sp) (sp_active sp)
    (delete g (sp_store sp)) ({[g]} ∪ sp_cancelled sp).

Lemma dropped_handle_ok sp g :
  spec_ok sp -> g < length (sp_frames sp) -> spec_ok (dropped_handle sp g).
Proof.
  intros [Hres Hlive Hact Hcnt Hst Hcan] Hg. split; simpl; try done.
  - intros k d [Hne Hk]%lookup_delete_Some.
    destruct (Hst k d Hk) as (? & ? & ? & ?). split_and!; try done. set_solver.
  - intros k. rewrite elem_of_union, elem_of_singleton. intros [->|?]; auto.
Qed.

Lemma poll_refines m sp g :
  tx_refines m sp -> steps_agree tx_refines (machine_step m (APoll g)) (spec_step sp (APoll g)).
Proof.
  intros Hr. simpl. rewrite (is_generation_spec _ _ _ Hr).
  case_bool_decide as Hg; [rewrite decide_True by done|by rewrite decide_False].
  unfold wait_for_completion. rewrite (out_of_bounds _ _ Hr) by done. simpl.
  destruct (expired sp g) eqn:He.
  { simpl. split_and!; try done. by destruct m. }
  pose proof (read_item _ _ Hr _ Hg He) as Hit. rewrite handle_index, Hit. simpl.
  case_decide as Hd.
  - rewrite (spec_item_done _ _ Hd) in Hit.
    unfold spec_slot. rewrite decide_True by done.
    destruct (sp_store sp !! g) as [d|] eqn:Hs; simpl.
    + rewrite (set_slot_at _ _ _ _ Hit). simpl. split; [done|].
      apply (refines_update m sp); simpl; try done.
      * apply taken_ok, (tr_ok _ _ Hr).
      * unfold spec_item, spec_slot. simpl.
        by rewrite decide_True, lookup_delete_eq by done.
      * intros j Hj. unfold spec_item, spec_slot. simpl.
        by rewrite lookup_delete_ne.
      * apply (tr_capacity _ _ Hr).
      * apply (tr_runner _ _ Hr).
    + split_and!; try done. unfold spec_take. rewrite delete_id by done.
      by destruct m, sp.
  - unfold spec_slot. rewrite decide_False by done.
    pose proof Hg as [f Hf]%lookup_lt_is_Some. rewrite Hf.
    destruct (sp_active sp && bool_decide (g = length (sp_results sp)));
      simpl; (split_and!; try done; by destruct m).
Qed.

Lemma drop_handle_refines m sp g :
  tx_refines m sp ->
  steps_agree tx_refines (machine_step m (ADropHandle g)) (spec_step sp (ADropHandle g)).
Proof.
  intros Hr. simpl. rewrite (is_generation_spec _ _ _ Hr).
  case_bool_decide as Hg; [rewrite decide_True by done|by rewrite decide_False].
  unfold pending_drop. rewrite (out_of_bounds _ _ Hr) by done. simpl.
  destruct (expired sp g) eqn:He.
  { simpl. split_and!; try done. by destruct m. }
  pose proof (read_item _ _ Hr _ Hg He) as Hit.
  pose proof (lookup_lt_Some _ _ _ Hit) as Hlt.
  rewrite handle_index, (set_expected_at _ _ _ _ Hit). simpl.
  rewrite list_lookup_insert_eq by done. simpl.
  assert (forall s cap,
    s = spec_slot (dropped_handle sp g) g -> cap = capacity (tm_queue m) ->
    tx_refines (MkTxMachine (MkTxQueueState
      (<[g mod N := MkItem s false]> (queue_items (tm_queue m)))
      (counter (tm_queue m)) cap) (tm_runner m)) (dropped_handle sp g)) as Hup.
  { intros s cap -> ->. apply (refines_update m sp); simpl; try done.
    - by apply dropped_handle_ok; [apply (tr_ok _ _ Hr)|].
    - unfold spec_item. f_equal. symmetry. apply bool_decide_eq_false. set_solver.
    - intros j Hj. unfold spec_item, spec_slot. simpl.
      rewrite lookup_delete_ne by done. f_equal.
      apply bool_decide_ext. set_solver.
    - apply (tr_capacity _ _ Hr).
    - apply (tr_runner _ _ Hr). }
  revert Hup. unfold spec_slot. simpl. rewrite lookup_delete_eq.
  case_decide as Hd; simpl.
  - destruct (sp_store sp !! g) as [d|] eqn:Hs; simpl.
    + intros Hup. erewrite set_slot_at by (simpl; by apply list_lookup_insert_eq).
      simpl. rewrite list_insert_insert_eq. split; [done|]. by apply Hup.
    + intros Hup. split; [done|]. by apply Hup.
  - intros Hup. assert (sp_store sp !! g = None) as ->.
    { destruct (sp_store sp !! g) as [d|] eqn:Hs; [|done].
      destruct (so_store _ (tr_ok _ _ Hr) _ _ Hs). lia. }
    pose proof Hg as [f Hf]%lookup_lt_is_Some. revert Hup. rewrite Hf.
    destruct (sp_active sp && bool_decide (g = length (sp_results sp))); simpl;
      intros Hup; (split; [done|]); by apply Hup.
Qed.

Lemma status_refines m sp g :
  tx_refines m sp ->
  steps_agree tx_refines (machine_step m (AStatus g)) (spec_step sp (AStatus g)).
Proof.
  intros Hr. simpl. rewrite (is_generation_spec _ _ _ Hr).
  case_bool_decide as Hg; [rewrite decide_True by done|by rewrite decide_False].
  unfold status, spec_status. rewrite (out_of_bounds _ _ Hr) by done. simpl.
  destruct (expired sp g) eqn:He; [done|].
  rewrite handle_index, (read_item _ _ Hr _ Hg He). simpl. unfold spec_slot.
  pose proof Hg as [f Hf]%lookup_lt_is_Some. rewrite Hf.
  case_decide; [by destruct (sp_store sp !! g)|].
  by destruct (sp_active sp && bool_decide (g = length (sp_results sp))).
Qed.

Lemma step_refines m sp a :
  tx_refines m sp -> steps_agree tx_refines (machine_step m a) (spec_step sp a).
Proof.
  destruct a; auto using enqueue_refines, receive_refines, finish_refines,
    abort_refines, poll_refines, drop_handle_refines, status_refines.
Qed.

(** The specification panics on an enqueue only, so the code does. *)
Lemma machine_panic_cause m sp a :
  tx_refines m sp -> machine_step m a = Some Panic ->
  exists f, a = AEnqueue f /\
    (capacity (tm_queue m) = 0 \/ counter (tm_queue m) = u_max 64).
Proof.
  intros Href Hp. pose proof (step_refines m sp a Href) as Hs. rewrite Hp in Hs.
  destruct a as [f| |r| |g|g|g]; simpl in Hs;
    [|exfalso; by repeat (case_match; simplify_option_eq)..].
  exists f. split; [done|]. case_decide as Hd; [by destruct (spec_enqueue sp f)|].
  rewrite (tr_capacity _ _ Href), (tr_counter _ _ Href).
  pose proof (live_le _ _ Href). pose proof (so_counter _ (tr_ok _ _ Href)).
  unfold u_max in *. lia.
Qed.
End TxQueueRefine.
