(* ===== verification/TxQueueProps.v ===== *)
(** * TX queue: what its users rely on

    Consequences of the refinement, stated of the code's machine: the trace
    equivalence itself, freedom from panics, order, ownership of completions,
    retention, inert stale handles and wake-ups. *)
From S2P Require Import Prelude Platform Ring TxBuffers TxQueue TxQueueSpec TxQueueRefine.

Section Histories.
Context `{FoaConfig, Hal}.

(** The history of a run, read off its actions and outputs. *)
Definition enqueued_by (a : tx_action) : option PendingFrame :=
  match a with AEnqueue f => Some f | _ => None end.
Definition frames_enqueued (acts : list tx_action) : list PendingFrame := omap enqueued_by acts.

Definition completed_by (a : tx_action) : option (option (result TxError Z)) :=
  match a with AFinish r => Some (Some r) | AAbort => Some None | _ => None end.
Definition completions (acts : list tx_action) : list (option (result TxError Z)) :=
  omap completed_by acts.

Definition picked_by (o : tx_output * list TxBuffer) : option PendingFrame :=
  match o with (OPicked (Some f), _) => Some f | _ => None end.
Definition picked (os : list (tx_output * list TxBuffer)) : list PendingFrame :=
  omap picked_by os.

(** The handle of generation [g] was neither dropped nor polled to
    completion. *)
Definition handle_unused (g : nat) (acts : list tx_action)
  (os : list (tx_output * list TxBuffer)) : Prop :=
  ADropHandle g ∉ acts /\
  forall i, acts !! i = Some (APoll g) -> fst <$> os !! i = Some (OPolled PollPending).

(** The waker calls an action of the machine makes. *)
Definition machine_calls (m : TxMachine) (a : tx_action) : list WakerCall :=
  let q := tm_queue m in
  match a with
  | AEnqueue f =>
      match enqueue_frame q f with Done (_, calls) => calls | Panic => [] end
  | AReceive => snd (wait_queue_not_empty q)
  | AFinish r =>
      match tm_runner m with
      | Some (i, f) =>
          match transmit_finish q i f r with Done (_, calls) => calls | Panic => [] end
      | None => []
      end
  | AAbort =>
      match tm_runner m with
      | Some (i, f) =>
          match in_progress_drop q i f with Done (_, calls) => calls | Panic => [] end
      | None => []
      end
  | APoll g =>
      match wait_for_completion q (Z.of_nat g) with
      | Done (_, calls) => calls | Panic => [] end
  | ADropHandle _ | AStatus _ => []
  end.
End Histories.

Section Consequences.
Context `{FoaConfig, Hal}.
Implicit Types (g k : nat) (f : PendingFrame) (d : TxReturnData).
Implicit Types (m : TxMachine) (sp : TxSpec).
Notation N := TX_BUFFER_COUNT.
Notation output := (tx_output * list TxBuffer)%type.

Lemma frames_enqueued_snoc acts a :
  frames_enqueued (acts ++ [a]) = frames_enqueued acts ++ match enqueued_by a with Some f => [f] | None => [] end.
Proof. unfold frames_enqueued. rewrite omap_app. simpl. by destruct (enqueued_by a). Qed.
Lemma completions_snoc acts a :
  completions (acts ++ [a]) =
    completions acts ++ match completed_by a with Some r => [r] | None => [] end.
Proof. unfold completions. rewrite omap_app. simpl. by destruct (completed_by a). Qed.
Lemma picked_snoc os o :
  picked (os ++ [o]) = picked os ++ match picked_by o with Some f => [f] | None => [] end.
Proof. unfold picked. rewrite omap_app. simpl. by destruct (picked_by o). Qed.

(** ** The specification's state is its history *)

Record spec_history sp (acts : list tx_action) (os : list output) : Prop := {
  sh_frames : sp_frames sp = frames_enqueued acts;
  sh_results : sp_results sp = completions acts;
  sh_picked : picked os =
    take (length (sp_results sp) + if sp_active sp then 1 else 0) (sp_frames sp);
  sh_cancelled : forall g, g ∈ sp_cancelled sp -> ADropHandle g ∈ acts;
  sh_store : forall g f r,
    frames_enqueued acts !! g = Some f -> completions acts !! g = Some (Some r) ->
    length (frames_enqueued acts) <= g + N -> handle_unused g acts os ->
    sp_store sp !! g = Some (return_data f r);
  sh_length : length os = length acts;
}.

Lemma handle_unused_snoc g acts os a o :
  length os = length acts -> handle_unused g (acts ++ [a]) (os ++ [o]) ->
  handle_unused g acts os /\ a <> ADropHandle g /\
  (a = APoll g -> fst o = OPolled PollPending).
Proof.
  intros Hl [Hd Hp]. split; [split|split].
  - set_solver.
  - intros i Hi. specialize (Hp i). rewrite lookup_app_l in Hp
      by (by apply lookup_lt_Some in Hi).
    specialize (Hp Hi). rewrite lookup_app_l in Hp; [done|].
    apply lookup_lt_Some in Hi. lia.
  - set_solver.
  - intros ->. specialize (Hp (length acts)).
    rewrite list_lookup_middle in Hp by done. specialize (Hp eq_refl).
    rewrite <- Hl, list_lookup_middle in Hp by done. simpl in Hp. congruence.
Qed.

Lemma spec_new_history : spec_history spec_new [] [].
Proof. by split. Qed.

(** Steps that touch neither frames nor results. *)
Lemma history_stutter sp sp' acts os a (o : output) :
  spec_history sp acts os ->
  sp_frames sp' = sp_frames sp -> sp_results sp' = sp_results sp ->
  sp_active sp' = sp_active sp ->
  enqueued_by a = None -> completed_by a = None -> picked_by o = None ->
  (forall g, g ∈ sp_cancelled sp' -> g ∈ sp_cancelled sp \/ a = ADropHandle g) ->
  (forall g d, a <> ADropHandle g -> (a = APoll g -> fst o = OPolled PollPending) ->
     sp_store sp !! g = Some d -> sp_store sp' !! g = Some d) ->
  spec_history sp' (acts ++ [a]) (os ++ [o]).
Proof.
  intros [Hf Hr Hp Hc Hs Hl] Hf' Hr' Ha' Hea Hca Hpo Hcan Hst.
  split; rewrite ?frames_enqueued_snoc, ?completions_snoc, ?picked_snoc, ?Hea, ?Hca, ?Hpo,
    ?app_nil_r, ?Hf', ?Hr', ?Ha'; try done.
  - intros g [Hg| ->]%Hcan; [apply Hc in Hg|]; set_solver.
  - intros g f r Hef Hcr Hw Hu.
    apply handle_unused_snoc in Hu as (Hu & Hnd & Hpp); [|done].
    apply Hst; [done..|]. by apply Hs.
  - rewrite !length_app. simpl. lia.
Qed.

Lemma history_enqueue sp acts os f (o : output) :
  spec_ok sp -> spec_history sp acts os -> picked_by o = None ->
  spec_history (fst (spec_enqueue sp f)) (acts ++ [AEnqueue f]) (os ++ [o]).
Proof.
  intros Hok [Hf Hr Hp Hc Hs Hl] Hpo. fold (enqueued sp f).
  destruct (enqueued_fields sp f) as (Ef & Er & Ea & Ec).
  pose proof (so_results _ Hok) as Hle.
  split; rewrite ?frames_enqueued_snoc, ?completions_snoc, ?picked_snoc, ?Hpo,
    ?Ef, ?Er, ?Ea, ?Ec; simpl; rewrite ?app_nil_r.
  - by rewrite Hf.
  - done.
  - rewrite Hp, take_app_le; [done|]. destruct (sp_active sp) eqn:Ha; [|lia].
    pose proof (so_active _ Hok Ha). lia.
  - intros g Hg. apply Hc in Hg. set_solver.
  - intros g f' r Hef Hcr Hw Hu.
    apply handle_unused_snoc in Hu as (Hu & _ & _); [|done].
    pose proof (lookup_lt_Some _ _ _ Hcr) as Hlt. rewrite <- Hr in Hlt.
    rewrite lookup_app_l in Hef by (rewrite <- Hf; lia).
    rewrite length_app in Hw. simpl in Hw.
    assert (sp_store sp !! g = Some (return_data f' r)) as Hg
      by (apply Hs; [done|done|lia|done]).
    unfold enqueued, spec_enqueue, overwritten.
    case_decide; [|done]. simpl. rewrite lookup_delete_ne; [done|].
    rewrite Hf in *. lia.
  - rewrite !length_app. simpl. lia.
Qed.

Lemma history_complete sp acts os f r a (o : output) :
  spec_ok sp -> spec_history sp acts os -> sp_active sp = true ->
  sp_frames sp !! length (sp_results sp) = Some f ->
  picked_by o = None -> enqueued_by a = None -> completed_by a = Some r ->
  (forall g, a <> ADropHandle g) ->
  spec_history (fst (spec_complete sp f r)) (acts ++ [a]) (os ++ [o]).
Proof.
  intros Hok [Hf Hr Hp Hc Hs Hl] Ha Hcur Hpo Hea Hca Hnd. fold (completed sp f r).
  destruct (completed_fields sp f r) as (Ef & Er & Ea & Ec).
  split; rewrite ?frames_enqueued_snoc, ?completions_snoc, ?picked_snoc, ?Hpo, ?Hea, ?Hca,
    ?Ef, ?Er, ?Ea, ?Ec, ?app_nil_r; try done.
  - by rewrite Hr.
  - rewrite Hp, Ha, length_app. simpl. f_equal; lia.
  - intros g Hg. apply Hc in Hg. set_solver.
  - intros g f' r' Hef Hcr Hw Hu.
    apply handle_unused_snoc in Hu as (Hu & _ & _); [|done].
    apply lookup_snoc_Some in Hcr as [[Hlt Hcr]|[-> ->]].
    + rewrite completed_store_other by (rewrite Hr; lia). by apply Hs.
    + rewrite <- Hr, <- Hf in *. rewrite Hcur in Hef. simplify_eq.
      unfold completed, spec_complete. case_decide as Hin.
      * apply Hc in Hin. destruct Hu as [Hu _]. done.
      * simpl. by rewrite lookup_insert_eq.
  - rewrite !length_app. simpl. lia.
Qed.

#[local] Arguments spec_complete : simpl never.

Lemma spec_step_history sp acts os a sp' o :
  spec_ok sp -> spec_history sp acts os ->
  spec_step sp a = Some (Done (sp', o)) -> spec_history sp' (acts ++ [a]) (os ++ [o]).
Proof.
  intros Hok Hh. destruct a as [f| |r| |g|g|g]; simpl; intros Hs.
  - case_decide; [|done]. destruct (spec_enqueue sp f) as [sp1 bufs] eqn:He.
    simplify_eq. pose proof (history_enqueue sp acts os f) as Hen.
    rewrite He in Hen. by apply Hen.
  - destruct (sp_active sp) eqn:Ha; [done|].
    destruct (sp_frames sp !! _) as [f|] eqn:Hf; injection Hs as <- <-; [|apply (history_stutter sp); auto].
    destruct Hh as [Ef Er Hp Hc Hst Hl].
    split; rewrite ?frames_enqueued_snoc, ?completions_snoc, ?picked_snoc; simpl;
      rewrite ?app_nil_r; try done.
    + rewrite Hp, Ha, Nat.add_0_r, Nat.add_1_r. by erewrite take_S_r.
    + intros g Hg%Hc. set_solver.
    + intros g f' r' Hef Hcr Hw Hu.
      apply handle_unused_snoc in Hu as (Hu & _ & _); auto.
    + rewrite !length_app. simpl. lia.
  - destruct (sp_active sp) eqn:Ha; [|done].
    destruct (sp_frames sp !! _) as [f|] eqn:Hf; [|done]. simpl in Hs.
    rewrite (surjective_pairing (spec_complete _ _ _)) in Hs. injection Hs as <- <-.
    by apply history_complete.
  - destruct (sp_active sp) eqn:Ha; [|done].
    destruct (sp_frames sp !! _) as [f|] eqn:Hf; [|done]. simpl in Hs.
    injection Hs as <- <-. by apply (history_complete sp acts os f None AAbort).
  - case_decide; [|done]. destruct (expired sp g); [injection Hs as <- <-; apply (history_stutter sp); auto|].
    case_decide; injection Hs as <- <-; [|apply (history_stutter sp); auto].
    apply (history_stutter sp); simpl; auto.
    intros g' d Hne Hpo Hd. rewrite lookup_delete_ne; [done|].
    intros ->. by specialize (Hpo eq_refl).
  - case_decide; [|done]. destruct (expired sp g); injection Hs as <- <-;
      [by apply (history_stutter sp); auto|].
    apply (history_stutter sp); simpl; try done.
    + intros g'. rewrite elem_of_union, elem_of_singleton. intros [->|?]; auto.
    + intros g' d Hne _ Hd. rewrite lookup_delete_ne; [done|]. by intros ->.
  - case_decide; [|done]. injection Hs as <- <-. apply (history_stutter sp); auto.
Qed.

(** ** Reachable machines *)

Lemma reachable m acts os :
  run machine_step machine_new acts = Some (Done (m, os)) ->
  exists sp, tx_refines m sp /\ spec_history sp acts os.
Proof.
  revert m os. induction acts as [|a acts IH] using rev_ind; intros m os Hr.
  - apply run_nil in Hr as [-> ->]. exists spec_new.
    split; [apply machine_new_refines|apply spec_new_history].
  - apply run_snoc in Hr as (m1 & os1 & o & Hr & Hs & ->).
    destruct (IH _ _ Hr) as (sp & Href & Hh).
    pose proof (step_refines m1 sp a Href) as Hsim. rewrite Hs in Hsim. simpl in Hsim.
    destruct (spec_step sp a) as [[[sp' o']|]|] eqn:Hsp; try done.
    destruct Hsim as [-> Href']. exists sp'. split; [done|].
    by eapply (spec_step_history sp); [apply (tr_ok _ _ Href)|..].
Qed.

(** What the code's machine answers, in terms of the history. *)
Lemma machine_step_spec m sp a :
  tx_refines m sp ->
  match spec_step sp a with
  | Some (Done (sp', o)) =>
      exists m', machine_step m a = Some (Done (m', o)) /\ tx_refines m' sp'
  | Some Panic => machine_step m a = Some Panic
  | None => machine_step m a = None
  end.
Proof.
  intros Hr. pose proof (step_refines m sp a Hr) as Hs.
  destruct (machine_step m a) as [[[m' o]|]|], (spec_step sp a) as [[[sp' o']|]|];
    simpl in Hs; try done.
  destruct Hs as [-> Hs]. eauto.
Qed.

(** ** Properties *)

(** C15 Refinement: every sequence of actions of callers, runner and radio
    makes the ring of slots (foa/src/tx_queue.rs) answer exactly as the
    specification does: the same handles, frames, results, statuses and
    returned buffers in the same order, the same panics and the same refused
    actions. *)
Theorem machine_trace_equiv (acts : list tx_action) :
  trace_of (run machine_step machine_new acts) =
  trace_of (run spec_step spec_new acts).
Proof.
  apply (simulation_trace machine_step spec_step tx_refines);
    [apply step_refines|apply machine_new_refines].
Qed.

(** In every reachable state the queue panics on no action but an enqueue,
    and there only when no slot is free ([assert!(self.capacity > 0)]) or the
    64-bit generation counter is used up: no index is out of range, no
    subtraction underflows, no [unreachable!] is reached. *)
Theorem machine_panics_only acts m os a :
  run machine_step machine_new acts = Some (Done (m, os)) ->
  machine_step m a = Some Panic ->
  exists f, a = AEnqueue f /\
    (capacity (tm_queue m) = 0 \/ counter (tm_queue m) = u_max 64).
Proof.
  intros Hr. destruct (reachable _ _ _ Hr) as (sp & Href & _).
  by apply (machine_panic_cause m sp).
Qed.

(** First in, first out: the frames the runner picks are the enqueued
    frames in enqueue order, none skipped and none twice, and an idle runner
    that asks gets the oldest frame not yet picked, or nothing when every
    frame was. *)
Theorem machine_fifo acts m os :
  run machine_step machine_new acts = Some (Done (m, os)) ->
  picked os `prefix_of` frames_enqueued acts /\
  (tm_runner m = None ->
   exists m', machine_step m AReceive =
     Some (Done (m', (OPicked (frames_enqueued acts !! length (picked os)), [])))).
Proof.
  intros Hr. destruct (reachable _ _ _ Hr) as (sp & Href & Hh).
  rewrite <- (sh_frames _ _ _ Hh), (sh_picked _ _ _ Hh).
  split; [apply prefix_take|]. intros Hidle.
  assert (sp_active sp = false) as Ha.
  { destruct (sp_active sp) eqn:Ha; [|done].
    destruct (runner_active _ _ Href Ha) as (f & _ & Hrun). congruence. }
  pose proof (so_results _ (tr_ok _ _ Href)).
  rewrite Ha, Nat.add_0_r, length_take, Nat.min_l by done.
  pose proof (machine_step_spec m sp AReceive Href) as Hs. simpl in Hs. rewrite Ha in Hs.
  destruct (sp_frames sp !! _); destruct Hs as (m' & Hs & _); eauto.
Qed.

(** A handle only ever reports the completion of its own frame: what
    [wait_for_completion] returns for generation [g] carries the buffer and
    length of the frame enqueued as number [g] and the radio's answer to the
    transmission number [g]. *)
Theorem own_completion acts m os g m' d bufs :
  run machine_step machine_new acts = Some (Done (m, os)) ->
  machine_step m (APoll g) = Some (Done (m', (OPolled (PollReady (Some d)), bufs))) ->
  exists f r, frames_enqueued acts !! g = Some f /\
    completions acts !! g = Some (Some r) /\ d = return_data f r.
Proof.
  intros Hr Hp. destruct (reachable _ _ _ Hr) as (sp & Href & Hh).
  pose proof (step_refines m sp (APoll g) Href) as Hs. rewrite Hp in Hs. simpl in Hs.
  rewrite <- (sh_frames _ _ _ Hh), <- (sh_results _ _ _ Hh).
  case_decide; [|done]. destruct (expired sp g); [by destruct Hs|].
  case_decide; [|by destruct Hs].
  destruct Hs as [[= Hd _] _]. symmetry in Hd.
  destruct (so_store _ (tr_ok _ _ Href) _ _ Hd) as (_ & _ & _ & ?). done.
Qed.

(** A completion waits for its caller: once the radio answered [r] to frame
    number [g], and as long as the handle was neither dropped nor polled to
    completion and no more than the ring's size of frames were enqueued from
    it on, the next poll returns exactly that result, and the poll after it
    returns [None]. *)
Theorem completion_retained acts m os g f r :
  run machine_step machine_new acts = Some (Done (m, os)) ->
  frames_enqueued acts !! g = Some f -> completions acts !! g = Some (Some r) ->
  length (frames_enqueued acts) <= g + N -> handle_unused g acts os ->
  exists m1 m2,
    machine_step m (APoll g) =
      Some (Done (m1, (OPolled (PollReady (Some (return_data f r))), []))) /\
    machine_step m1 (APoll g) = Some (Done (m2, (OPolled (PollReady None), []))).
Proof.
  intros Hr Hf Hc Hw Hu. destruct (reachable _ _ _ Hr) as (sp & Href & Hh).
  pose proof (sh_store _ _ _ Hh _ _ _ Hf Hc Hw Hu) as Hst.
  assert (g < length (sp_frames sp)) as Hg.
  { rewrite (sh_frames _ _ _ Hh). by apply lookup_lt_Some in Hf. }
  assert (g < length (sp_results sp)) as Hg2.
  { rewrite (sh_results _ _ _ Hh). by apply lookup_lt_Some in Hc. }
  assert (expired sp g = false) as He.
  { apply bool_decide_eq_false. rewrite (sh_frames _ _ _ Hh). lia. }
  pose proof (machine_step_spec m sp (APoll g) Href) as H1. simpl in H1.
  rewrite decide_True, He, decide_True, Hst in H1 by done.
  destruct H1 as (m1 & H1 & Href1).
  pose proof (machine_step_spec m1 _ (APoll g) Href1) as H2. simpl in H2.
  rewrite decide_True in H2 by done. unfold expired in *. simpl in H2.
  rewrite He, decide_True, lookup_delete_eq in H2 by done.
  destruct H2 as (m2 & H2 & _). eauto.
Qed.

(** A handle whose slot was reused is inert: after more than the ring's
    size of frames were enqueued from it on, it polls as [None], reports
    [SlotNoLongerValid], and dropping it changes nothing, so it can never take
    or cancel the transmission that now uses its slot. *)
Theorem stale_handle_inert acts m os g :
  run machine_step machine_new acts = Some (Done (m, os)) ->
  g + N < length (frames_enqueued acts) ->
  machine_step m (APoll g) = Some (Done (m, (OPolled (PollReady None), []))) /\
  machine_step m (AStatus g) = Some (Done (m, (OStatus StatusSlotNoLongerValid, []))) /\
  machine_step m (ADropHandle g) = Some (Done (m, (OUnit, []))).
Proof.
  intros Hr Hg. destruct (reachable _ _ _ Hr) as (sp & Href & Hh).
  rewrite <- (sh_frames _ _ _ Hh) in Hg. simpl.
  rewrite (is_generation_spec _ _ _ Href), bool_decide_true by lia.
  unfold wait_for_completion, status, pending_drop.
  rewrite (out_of_bounds _ _ Href) by lia.
  unfold expired. rewrite bool_decide_true by lia. simpl. by destruct m.
Qed.

Lemma wait_pending_calls q c q' calls :
  wait_for_completion q c = Done (PollPending, q', calls) ->
  calls = [RegisterSlot (slot_index c)].
Proof.
  unfold wait_for_completion. intros Hw.
  apply outcome_bind_Done in Hw as ([] & _ & Hw); [done|].
  apply outcome_bind_Done in Hw as (it & _ & Hw).
  destruct (item_slot it) as [|f| |d]; [by inversion Hw..|].
  by apply outcome_bind_Done in Hw as ([] & _ & Hw).
Qed.

Lemma enqueue_calls q f q' c dropped calls :
  enqueue_frame q f = Done (q', c, dropped, calls) ->
  calls = if is_empty q then [WakeQueueUpdate] else [].
Proof.
  unfold enqueue_frame. intros He.
  apply outcome_bind_Done in He as ([] & _ & He).
  apply outcome_bind_Done in He as ([c' q1] & _ & He).
  apply outcome_bind_Done in He as (cap & _ & He).
  apply outcome_bind_Done in He as ([old q2] & _ & He).
  apply outcome_bind_Done in He as (q3 & _ & He). by inversion He.
Qed.

(** No lost wake-up: a poll that stays pending registers on the waker of
    the slot its own generation occupies; when the runner completes or aborts
    generation [g] it wakes that very slot; and a runner that found the queue
    empty registered on the queue's waker, which the next accepted frame
    wakes. *)
Theorem wake_ups acts m os :
  run machine_step machine_new acts = Some (Done (m, os)) ->
  (forall g m' bufs,
     machine_step m (APoll g) = Some (Done (m', (OPolled PollPending, bufs))) ->
     machine_calls m (APoll g) = [RegisterSlot (slot_index (Z.of_nat g))]) /\
  (forall a, is_Some (completed_by a) -> is_Some (machine_step m a) ->
     machine_calls m a =
       [WakeSlot (slot_index (Z.of_nat (length (completions acts))))]) /\
  (machine_calls m AReceive = [RegisterQueueUpdate] ->
     length (completions acts) = length (frames_enqueued acts) /\
     forall f m' o, machine_step m (AEnqueue f) = Some (Done (m', o)) ->
       machine_calls m (AEnqueue f) = [WakeQueueUpdate]).
Proof.
  intros Hr. destruct (reachable _ _ _ Hr) as (sp & Href & Hh).
  rewrite <- (sh_frames _ _ _ Hh), <- (sh_results _ _ _ Hh). split_and!.
  - simpl. intros g m' bufs Hp. destruct (is_generation m g); [|done].
    destruct (wait_for_completion _ _) as [[[p q] calls]|] eqn:Hw; [|done].
    injection Hp as _ -> _. by apply wait_pending_calls in Hw.
  - intros a Hc Hs. rewrite handle_index.
    destruct (sp_active sp) eqn:Ha.
    + destruct (runner_active _ _ Href Ha) as (f & Hf & Hrun).
      pose proof (store_current _ (tr_ok _ _ Href)) as Hst.
      destruct a as [| |r| | | |]; simpl in *; try by destruct Hc.
      * rewrite Hrun. unfold transmit_finish.
        destruct (complete_refines m sp f (Some r) _ Href Ha Hf Hst eq_refl)
          as (q & Hfin & _). unfold return_data in Hfin. by rewrite Hfin.
      * rewrite Hrun. unfold in_progress_drop.
        destruct (complete_refines m sp f None _ Href Ha Hf Hst eq_refl)
          as (q & Hfin & _). by rewrite Hfin.
    + pose proof (runner_inactive _ _ Href Ha) as Hrun.
      destruct a; simpl in *; try (by destruct Hc);
        rewrite Hrun in Hs; by destruct Hs.
  - simpl. unfold wait_queue_not_empty. destruct (is_empty (tm_queue m)) eqn:He; [|done].
    intros _. pose proof He as Hq. rewrite (queue_empty_iff _ _ Href) in Hq.
    apply bool_decide_eq_true in Hq. split; [done|]. intros f m' o Hs.
    destruct (enqueue_frame _ _) as [[[[q c] dropped] calls]|] eqn:Hen; [|done].
    apply enqueue_calls in Hen as ->. by rewrite He.
Qed.
End Consequences.

(** ** Witnesses *)

Section Witnesses.
#[local] Existing Instances small_config unit_hal.

Lemma machine_panics_only_witness :
  exists f, AEnqueue (demo_frame 0) = AEnqueue f /\
    (capacity (tm_queue (demo_machine demo_full)) = 0 \/
     counter (tm_queue (demo_machine demo_full)) = u_max 64).
Proof.
  apply (machine_panics_only demo_full (demo_machine demo_full) (demo_outputs demo_full));
    reflexivity.
Defined.

Lemma machine_fifo_witness :
  picked (demo_outputs demo_acts) = [demo_frame 0] /\
  exists m', machine_step (demo_machine demo_acts) AReceive =
    Some (Done (m', (OPicked (Some (demo_frame 1)), []))).
Proof.
  split; [reflexivity|].
  apply (machine_fifo demo_acts (demo_machine demo_acts) (demo_outputs demo_acts));
    reflexivity.
Defined.

Lemma own_completion_witness :
  exists f r, frames_enqueued demo_acts !! 0 = Some f /\
    completions demo_acts !! 0 = Some (Some r) /\
    MkTxReturnData (Ok 0%Z) (MkTxBuffer 0) 100 = return_data f r.
Proof.
  eapply (own_completion demo_acts (demo_machine demo_acts) (demo_outputs demo_acts) 0
    _ _ []); reflexivity.
Defined.

Lemma completion_retained_witness :
  exists m1 m2,
    machine_step (demo_machine demo_acts) (APoll 0) = Some (Done (m1,
      (OPolled (PollReady (Some (return_data (demo_frame 0) (Ok 0%Z)))), []))) /\
    machine_step m1 (APoll 0) = Some (Done (m2, (OPolled (PollReady None), []))).
Proof.
  apply (completion_retained demo_acts (demo_machine demo_acts) (demo_outputs demo_acts)
    0); [reflexivity..|vm_compute; lia|].
  split; [vm_compute; set_solver|].
  intros i Hi. do 4 (destruct i; [discriminate Hi|]). discriminate Hi.
Defined.

Lemma stale_handle_inert_witness :
  length (frames_enqueued demo_wrapped) = 4 /\
  machine_step (demo_machine demo_wrapped) (ADropHandle 0) =
    Some (Done (demo_machine demo_wrapped, (OUnit, []))).
Proof.
  split; [reflexivity|].
  apply (stale_handle_inert demo_wrapped (demo_machine demo_wrapped)
    (demo_outputs demo_wrapped) 0); [reflexivity|vm_compute; lia].
Defined.

Lemma wake_ups_witness :
  machine_calls (demo_machine demo_acts) (APoll 1) = [RegisterSlot 1].
Proof.
  destruct (wake_ups demo_acts (demo_machine demo_acts) (demo_outputs demo_acts))
    as [Hw _]; [reflexivity|].
  apply (Hw 1 (demo_machine demo_acts) []). reflexivity.
Defined.
End Witnesses.
