(* ===== verification/TxSystem.v ===== *)
(** * The transmit path: buffer pool, EDCA queues and callers together

    All [TxQueue]s share one [TxBufferManager] (foa/src/lib.rs, [init]).  The
    ownership rules of Rust are the guards of [system_step]: a buffer can be
    written, dropped or enqueued only by who holds it.  The theorems show that
    buffers are neither lost nor duplicated, and that [assert!(capacity > 0)] in
    [enqueue_frame] cannot fire for a caller that holds a buffer. *)
From S2P Require Import Prelude Platform Ring TxBuffers TxQueue TxQueueSpec TxQueueRefine.

Section TxSystem.
Context {Ch : Type -> Type} `{FoaConfig, Hal, ChannelLaws Ch}.
Implicit Types (b : TxBuffer) (f : PendingFrame) (q : TxQueueState) (m : TxMachine).
Notation N := TX_BUFFER_COUNT.

(** ** State and steps *)

Record TxSystem : Type := MkTxSystem {
  sy_pool : TxBufferManager Ch;
  sy_queues : list TxMachine;
  sy_held : list TxBuffer;
}.

Inductive sys_action : Type :=
| SAlloc
| SWrite b (bytes : list Z)
| SRelease b
| SQueue (i : nat) (a : tx_action).

Inductive sys_output : Type :=
| SOAlloc (b : option TxBuffer)
| SOUnit
| SOQueue (o : tx_output).

(** Four queues, one per EDCA access category. *)
Definition system_new : TxSystem :=
  MkTxSystem (manager_new tx_buffers_init) (replicate 4 machine_new) [].

(** The buffer an action takes from its caller, and the one it hands back. *)
Definition taken (a : tx_action) : list TxBuffer :=
  match a with AEnqueue f => [pf_frame f] | _ => [] end.
Definition returned (o : tx_output) : list TxBuffer :=
  match o with OPolled (PollReady (Some d)) => [rd_frame d] | _ => [] end.

Definition hand_over (held : list TxBuffer) (a : tx_action) : option (list TxBuffer) :=
  match a with AEnqueue f => remove_one (pf_frame f) held | _ => Some held end.

Definition system_step (s : TxSystem) (a : sys_action)
  : option (outcome (TxSystem * sys_output)) :=
  match a with
  | SAlloc => Some (Done
      match try_alloc (sy_pool s) with
      | Some (b, pool) =>
          (MkTxSystem pool (sy_queues s) (b :: sy_held s), SOAlloc (Some b))
      | None => (s, SOAlloc None)
      end)
  | SWrite b bytes =>
      if decide (b ∈ sy_held s /\ length bytes = TX_BUFFER_SIZE) then
        Some (Done (MkTxSystem (deref_mut (sy_pool s) b bytes) (sy_queues s)
                      (sy_held s), SOUnit))
      else None
  | SRelease b =>
      match remove_one b (sy_held s) with
      | Some held =>
          Some (Done (MkTxSystem (drop_buffer (sy_pool s) b) (sy_queues s) held, SOUnit))
      | None => None
      end
  | SQueue i a =>
      match sy_queues s !! i, hand_over (sy_held s) a with
      | Some m, Some held =>
          match machine_step m a with
          | Some (Done (m', (o, bufs))) =>
              Some (Done (MkTxSystem (drop_buffers (sy_pool s) bufs)
                            (<[i := m']> (sy_queues s)) (returned o ++ held),
                          SOQueue o))
          | Some Panic => Some Panic
          | None => None
          end
      | _, _ => None
      end
  end.

(** ** Who owns which buffer *)

(** [waiting]: only frames not yet picked; the rest of a slot's buffers are
    return data nobody collected. *)
Definition waiting (s : TxQueueSlot) : list TxBuffer :=
  match s with Pending f => [pf_frame f] | _ => [] end.

Definition ring_owned (w : TxQueueSlot -> list TxBuffer) q : list TxBuffer :=
  owned (w ∘ item_slot) (queue_items q).

Definition runner_buffers m : list TxBuffer :=
  match tm_runner m with Some (_, f) => [pf_frame f] | None => [] end.

Definition machine_owned (w : TxQueueSlot -> list TxBuffer) m : list TxBuffer :=
  ring_owned w (tm_queue m) ++ runner_buffers m.

Definition machine_buffers m : list TxBuffer := machine_owned slot_buffers m.

Definition in_flight (s : TxSystem) : list TxBuffer :=
  owned machine_buffers (sy_queues s).

(** ** A step of one queue conserves buffers *)

Lemma set_slot_owned w q i s old q' :
  set_slot q i s = Done (old, q') ->
  ring_owned w q' ++ w old ≡ₚ ring_owned w q ++ w s.
Proof.
  unfold set_slot. intros Hs. apply outcome_bind_Done in Hs as (it & Hi & [= <- <-]).
  apply expect_Done in Hi. unfold ring_owned. simpl.
  apply (owned_insert (w ∘ item_slot) _ _ it (MkItem s (return_data_expected it)) Hi).
Qed.

Lemma set_expected_owned w q i (e : bool) q' :
  set_expected q i e = Done q' -> ring_owned w q' ≡ₚ ring_owned w q.
Proof.
  unfold set_expected. intros Hs. apply outcome_bind_Done in Hs as (it & Hi & [= <-]).
  apply expect_Done in Hi. unfold ring_owned. simpl.
  pose proof (owned_insert (w ∘ item_slot) _ _ it (MkItem (item_slot it) e) Hi) as Hp.
  by apply (inj (fun l => l ++ w (item_slot it))) in Hp.
Qed.

(** Buffers are conserved under any weight that counts waiting frames. *)
Section Conservation.
Context (w : TxQueueSlot -> list TxBuffer).
Context (w_empty : w Empty = []) (w_in_progress : w InProgress = []).
Context (w_pending : forall f, w (Pending f) = [pf_frame f]).

Lemma enqueue_owned q f q' c dropped calls :
  enqueue_frame q f = Done (q', c, dropped, calls) ->
  ring_owned w q' ++ owned w dropped ≡ₚ ring_owned w q ++ [pf_frame f].
Proof.
  unfold enqueue_frame, increase_queue_counter. intros He.
  apply outcome_bind_Done in He as ([] & _ & He).
  apply outcome_bind_Done in He as ([c' q1] & Hq1 & He).
  apply outcome_bind_Done in Hq1 as (c2 & _ & [= <- <-]).
  apply outcome_bind_Done in He as (cap & _ & He).
  apply outcome_bind_Done in He as ([old q2] & Hs & He).
  apply outcome_bind_Done in He as (q3 & Hx & [= <- <- <- <-]).
  apply (set_slot_owned w) in Hs. apply (set_expected_owned w) in Hx.
  rewrite Hx. unfold owned. simpl. rewrite app_nil_r, Hs, w_pending. done.
Qed.

Lemma receive_owned q o q' :
  try_receive q = Done (o, q') ->
  ring_owned w q' ++ (match o with Some (_, f) => [pf_frame f] | None => [] end)
    ≡ₚ ring_owned w q.
Proof.
  unfold try_receive. destruct (is_empty q).
  { intros [= <- <-]. by rewrite app_nil_r. }
  intros Hr. apply outcome_bind_Done in Hr as (front & _ & Hr).
  apply outcome_bind_Done in Hr as (it & Hit & Hr). apply expect_Done in Hit.
  destruct (item_slot it) as [|f| |d] eqn:Hsl; try done.
  apply outcome_bind_Done in Hr as ([old q1] & Hs & [= <- <-]).
  assert (old = Pending f) as ->.
  { unfold set_slot in Hs. rewrite Hit in Hs. injection Hs as <- _. done. }
  apply (set_slot_owned w) in Hs.
  rewrite w_pending, w_in_progress, app_nil_r in Hs. done.
Qed.

Lemma finish_owned q i s q' dropped calls :
  finish q i s = Done (q', dropped, calls) ->
  ring_owned w q' ++ owned w dropped ≡ₚ ring_owned w q ++ w s.
Proof.
  unfold finish. intros Hf. apply outcome_bind_Done in Hf as (it & _ & Hf).
  destruct (return_data_expected it);
    apply outcome_bind_Done in Hf as ([old q1] & Hs & [= <- <- <-]);
    apply (set_slot_owned w) in Hs; unfold owned; simpl;
    rewrite app_nil_r, ?app_assoc, Hs, ?w_empty, ?app_nil_r; done.
Qed.

Lemma poll_owned q c p q' calls :
  wait_for_completion q c = Done (p, q', calls) ->
  exists s, ring_owned w q' ++ w s ≡ₚ ring_owned w q /\
    (match p with PollReady (Some d) => s = ReturnDataAvailable d | _ => s = Empty end).
Proof.
  unfold wait_for_completion. intros Hw.
  apply outcome_bind_Done in Hw as (oob & _ & Hw).
  destruct oob.
  { injection Hw as <- <- <-. exists Empty. by rewrite w_empty, app_nil_r. }
  apply outcome_bind_Done in Hw as (it & Hit & Hw). apply expect_Done in Hit.
  destruct (item_slot it) as [|f| |d] eqn:Hsl;
    try (injection Hw as <- <- <-; exists Empty; by rewrite w_empty, app_nil_r).
  apply outcome_bind_Done in Hw as ([old q1] & Hs & [= <- <- <-]).
  assert (old = ReturnDataAvailable d) as ->.
  { unfold set_slot in Hs. rewrite Hit in Hs. injection Hs as <- _. done. }
  apply (set_slot_owned w) in Hs. rewrite w_empty, app_nil_r in Hs. eauto.
Qed.

Lemma drop_owned q c q' dropped :
  pending_drop q c = Done (q', dropped) ->
  ring_owned w q' ++ owned w dropped ≡ₚ ring_owned w q.
Proof.
  unfold pending_drop. intros Hd. apply outcome_bind_Done in Hd as (oob & _ & Hd).
  destruct oob; [injection Hd as <- <-; by rewrite app_nil_r|].
  apply outcome_bind_Done in Hd as (q1 & Hx & Hd).
  apply (set_expected_owned w) in Hx. rewrite <- Hx.
  apply outcome_bind_Done in Hd as (it & _ & Hd).
  destruct (item_slot it); try (injection Hd as <- <-; by rewrite app_nil_r).
  apply outcome_bind_Done in Hd as ([old q2] & Hs & [= <- <-]).
  apply (set_slot_owned w) in Hs. rewrite w_empty in Hs.
  unfold owned. simpl. by rewrite app_nil_r, Hs, app_nil_r.
Qed.
End Conservation.

Lemma machine_step_owned m a m' o bufs :
  machine_step m a = Some (Done (m', (o, bufs))) ->
  machine_buffers m' ++ bufs ++ returned o ≡ₚ machine_buffers m ++ taken a.
Proof.
  unfold machine_buffers, machine_owned, runner_buffers, buffers_of.
  destruct a as [f| |r| |g|g|g]; simpl; intros Hs.
  - destruct (enqueue_frame _ _) as [[[[q c] dropped] calls]|] eqn:He; [|done].
    injection Hs as <- <- <-. simpl.
    apply (enqueue_owned slot_buffers) in He; [|done]. unfold buffers_of.
    rewrite app_nil_r, <- !app_assoc, (Permutation_app_comm _ [pf_frame f]).
    rewrite (Permutation_app_comm _ (owned _ _)), !app_assoc, He.
    by rewrite <- !app_assoc.
  - destruct (tm_runner m) as [|]; [done|].
    destruct (try_receive _) as [[o' q]|] eqn:Hr; [|done]. injection Hs as <- <- <-.
    apply (receive_owned slot_buffers) in Hr; [|done..]. simpl.
    rewrite !app_nil_r, <- Hr. by destruct o' as [[i f]|].
  - destruct (tm_runner m) as [[i f]|]; simpl in Hs; [|done].
    destruct (transmit_finish _ _ _ _) as [[[q dropped] calls]|] eqn:Hf; [|done].
    injection Hs as <- <- <-. apply (finish_owned slot_buffers) in Hf; [|done].
    simpl in *. by rewrite !app_nil_r.
  - destruct (tm_runner m) as [[i f]|]; simpl in Hs; [|done].
    unfold in_progress_drop in Hs.
    destruct (finish _ _ _) as [[[q dropped] calls]|] eqn:Hf; [|done].
    injection Hs as <- <- <-. apply (finish_owned slot_buffers) in Hf; [|done].
    simpl in *. rewrite !app_nil_r in *. unfold buffers_of, owned. simpl.
    rewrite <- Hf. unfold owned. solve_Permutation.
  - destruct (is_generation m g); [|done].
    destruct (wait_for_completion _ _) as [[[p q] calls]|] eqn:Hw; [|done].
    injection Hs as <- <- <-. apply (poll_owned slot_buffers) in Hw as (s & Hp & Hs);
      [|done]. simpl. rewrite app_nil_r, <- Hp.
    destruct p as [[d|]|]; subst s; simpl; rewrite ?app_nil_r; solve_Permutation.
  - destruct (is_generation m g); [|done].
    destruct (pending_drop _ _) as [[q dropped]|] eqn:Hd; [|done].
    injection Hs as <- <- <-. apply (drop_owned slot_buffers) in Hd; [|done].
    simpl. rewrite !app_nil_r, <- Hd. unfold buffers_of. solve_Permutation.
  - destruct (is_generation m g); [|done].
    destruct (status _ _); [|done]. by injection Hs as <- <- <-.
Qed.

(** ** The queue's capacity counts the frames it has not finished *)

Definition balanced m : Prop :=
  length (machine_owned waiting m) + capacity (tm_queue m) = N.

Lemma refines_live m sp :
  tx_refines m sp ->
  capacity (tm_queue m) + (length (sp_frames sp) - length (sp_results sp)) = N.
Proof. intros Hr. rewrite (tr_capacity _ _ Hr). pose proof (live_le _ _ Hr). lia. Qed.

Lemma enqueue_waiting m sp f q c dropped calls :
  tx_refines m sp -> enqueue_frame (tm_queue m) f = Done (q, c, dropped, calls) ->
  owned waiting dropped = [] /\ capacity q + 1 = capacity (tm_queue m).
Proof.
  intros Hr He. pose proof (so_results _ (tr_ok _ _ Hr)) as Hle.
  pose proof (enqueue_refines m sp f Hr) as Hs. simpl in Hs. rewrite He in Hs.
  case_decide as Hroom; [clear Hs|done].
  pose proof (ring_push_old N TX_BUFFER_COUNT_pos _ _ _ _ (tr_ring _ _ Hr)) as Hold.
  pose proof (refines_live _ _ Hr).
  erewrite enqueue_frame_at in He;
    [|lia|rewrite (tr_counter _ _ Hr); lia|rewrite (next_index _ _ Hr); exact Hold].
  injection He as <- <- <- <-. split; [|simpl; lia].
  case_decide; [|done]. rewrite spec_item_done by lia. simpl.
  by destruct (sp_store sp !! _).
Qed.

Lemma finish_waiting m sp i f s q dropped calls :
  tx_refines m sp -> tm_runner m = Some (i, f) ->
  finish (tm_queue m) i s = Done (q, dropped, calls) -> waiting s = [] ->
  owned waiting dropped = [] /\ capacity q = capacity (tm_queue m) + 1.
Proof.
  intros Hr Hrun Hf Hw. destruct (sp_active sp) eqn:Ha;
    [|rewrite (runner_inactive _ _ Hr Ha) in Hrun; done].
  destruct (runner_active _ _ Hr Ha) as (f' & Hcur & Hrun').
  rewrite Hrun in Hrun'. injection Hrun' as -> ->.
  pose proof (so_active _ (tr_ok _ _ Hr) Ha) as Hlt.
  pose proof (read_item _ _ Hr _ Hlt (current_not_expired _ _ Hr Hlt)) as Hit.
  rewrite (spec_item_active _ Ha) in Hit. rewrite (finish_at _ _ _ _ Hit) in Hf.
  injection Hf as <- <- <-. split; [|done].
  unfold owned. simpl. case_bool_decide; simpl; [done|by rewrite Hw].
Qed.

Lemma drop_waiting q c q' dropped :
  pending_drop q c = Done (q', dropped) -> owned waiting dropped = [].
Proof.
  unfold pending_drop. intros Hd. apply outcome_bind_Done in Hd as (oob & _ & Hd).
  destruct oob; [by injection Hd as _ <-|].
  apply outcome_bind_Done in Hd as (q1 & Hq1 & Hd).
  apply outcome_bind_Done in Hd as (it & Hit & Hd). apply expect_Done in Hit.
  destruct (item_slot it) eqn:Hsl; try by injection Hd as _ <-.
  unfold set_slot in Hd. rewrite Hit in Hd. injection Hd as _ <-. by rewrite Hsl.
Qed.

Lemma unfinished_capacity m a m' o sp :
  tx_refines m sp -> machine_step m a = Some (Done (m', o)) ->
  match a with AEnqueue _ | AFinish _ | AAbort => False | _ => True end ->
  capacity (tm_queue m') = capacity (tm_queue m).
Proof.
  intros Hr Hs Ha. pose proof (step_refines m sp a Hr) as Href. rewrite Hs in Href.
  destruct (spec_step sp a) as [[[sp' o']|]|] eqn:Hsp; simpl in Href; try done.
  destruct Href as [_ Href]. rewrite (tr_capacity _ _ Hr), (tr_capacity _ _ Href).
  destruct a; try done; simpl in Hsp;
    repeat case_match; simplify_eq/=; done.
Qed.

Lemma machine_step_balanced m sp a m' o :
  tx_refines m sp -> balanced m ->
  machine_step m a = Some (Done (m', o)) -> balanced m'.
Proof.
  unfold balanced, machine_owned, runner_buffers. intros Hr Hb Hs.
  pose proof (unfinished_capacity _ _ _ _ _ Hr Hs) as Hcap.
  rewrite length_app in *.
  destruct a as [f| |r| |g|g|g]; simpl in Hs.
  - destruct (enqueue_frame _ _) as [[[[q c] dropped] calls]|] eqn:He; [|done].
    destruct (enqueue_waiting _ _ _ _ _ _ _ Hr He) as [Hd Hc].
    apply (enqueue_owned waiting), Permutation_length in He; [|done].
    rewrite Hd, !length_app in He. injection Hs as <- <-. simpl in *. lia.
  - destruct (tm_runner m) as [|]; [done|].
    destruct (try_receive _) as [[o' q]|] eqn:Hq; [|done].
    apply (receive_owned waiting), Permutation_length in Hq; [|done..].
    injection Hs as <- <-. rewrite length_app in Hq. simpl in *.
    specialize (Hcap I). destruct o' as [[i f]|]; simpl in *; lia.
  - destruct (tm_runner m) as [[i f]|] eqn:Hrun; simpl in Hs; [|done].
    unfold transmit_finish in Hs.
    destruct (finish _ _ _) as [[[q dropped] calls]|] eqn:Hf; [|done].
    destruct (finish_waiting _ _ _ _ _ _ _ _ Hr Hrun Hf eq_refl) as [Hd Hc].
    apply (finish_owned waiting), Permutation_length in Hf; [|done].
    rewrite Hd, !length_app in Hf. injection Hs as <- <-. simpl in *. lia.
  - destruct (tm_runner m) as [[i f]|] eqn:Hrun; simpl in Hs; [|done].
    unfold in_progress_drop in Hs.
    destruct (finish _ _ _) as [[[q dropped] calls]|] eqn:Hf; [|done].
    destruct (finish_waiting _ _ _ _ _ _ _ _ Hr Hrun Hf eq_refl) as [Hd Hc].
    apply (finish_owned waiting), Permutation_length in Hf; [|done].
    rewrite Hd, !length_app in Hf. injection Hs as <- <-. simpl in *. lia.
  - destruct (is_generation m g); [|done].
    destruct (wait_for_completion _ _) as [[[p q] calls]|] eqn:Hw; [|done].
    apply (poll_owned waiting) in Hw as (s & Hp & Hs'); [|done].
    apply Permutation_length in Hp. rewrite length_app in Hp.
    assert (waiting s = []) as Hws by (destruct p as [[|]|]; by subst s).
    rewrite Hws in Hp. injection Hs as <- <-. specialize (Hcap I). simpl in *. lia.
  - destruct (is_generation m g); [|done].
    destruct (pending_drop _ _) as [[q dropped]|] eqn:Hd; [|done].
    pose proof (drop_waiting _ _ _ _ Hd) as Hw. apply (drop_owned waiting), Permutation_length in Hd; [|done].
    injection Hs as <- <-. specialize (Hcap I).
    rewrite Hw, length_app in Hd. simpl in *. lia.
  - destruct (is_generation m g); [|done]. destruct (status _ _); [|done].
    injection Hs as <- <-. done.
Qed.

(** ** The system's invariant *)

Record system_inv (s : TxSystem) : Prop := {
  si_pool : pool_inv (sy_pool s) (sy_held s ++ in_flight s);
  si_queues : length (sy_queues s) = 4;
  si_machines : forall i m, sy_queues s !! i = Some m ->
    (exists sp, tx_refines m sp) /\ balanced m;
}.

Lemma machine_new_owned w : w Empty = [] -> machine_owned w machine_new = [].
Proof.
  intros Hw. unfold machine_owned, runner_buffers, ring_owned. simpl.
  rewrite app_nil_r. apply owned_nil.
  intros i x Hx%lookup_replicate_eq. by subst.
Qed.

Lemma system_new_inv : system_inv system_new.
Proof.
  split; [|done|].
  - assert (in_flight system_new = []) as ->; [|apply manager_new_inv].
    apply owned_nil. intros i m Hi. change (replicate 4 machine_new !! i = Some m) in Hi.
    apply lookup_replicate_eq in Hi as ->. by apply machine_new_owned.
  - intros i m. change (sy_queues system_new) with (replicate 4 machine_new).
    intros ->%lookup_replicate_eq.
    split; [exists spec_new; apply machine_new_refines|].
    unfold balanced. by rewrite machine_new_owned.
Qed.

Lemma hand_over_Permutation held a held' :
  hand_over held a = Some held' -> held ≡ₚ taken a ++ held'.
Proof.
  destruct a; simpl; intros Hg; try by injection Hg as <-.
  by apply remove_one_Permutation.
Qed.

(** Before the dropped buffers go back, they are all still accounted for. *)
Lemma queue_step_held s i m m' a o bufs held' :
  system_inv s -> sy_queues s !! i = Some m -> hand_over (sy_held s) a = Some held' ->
  machine_step m a = Some (Done (m', (o, bufs))) ->
  pool_inv (sy_pool s) (bufs ++
    (returned o ++ held') ++ owned machine_buffers (<[i := m']> (sy_queues s))).
Proof.
  intros [Hp _ _] Hi Hg Hs.
  pose proof (owned_insert machine_buffers _ _ _ m' Hi) as Hins.
  pose proof (machine_step_owned _ _ _ _ _ Hs) as Hm.
  apply hand_over_Permutation in Hg. eapply pool_inv_proper; [|exact Hp].
  unfold in_flight. rewrite Hg. apply (inj (fun l => l ++ machine_buffers m)).
  rewrite <- !app_assoc, Hins.
  rewrite (Permutation_app_comm held' (owned _ _ ++ _)), <- app_assoc.
  transitivity ((machine_buffers m' ++ bufs ++ returned o) ++
    owned machine_buffers (sy_queues s) ++ held'); [solve_Permutation|].
  rewrite Hm. solve_Permutation.
Qed.

Lemma queue_step_pool s i m m' a o bufs held' :
  system_inv s -> sy_queues s !! i = Some m -> hand_over (sy_held s) a = Some held' ->
  machine_step m a = Some (Done (m', (o, bufs))) ->
  pool_inv (drop_buffers (sy_pool s) bufs)
    ((returned o ++ held') ++ owned machine_buffers (<[i := m']> (sy_queues s))).
Proof. intros. by eapply drop_buffers_inv, queue_step_held. Qed.

Lemma system_step_inv s a s' o :
  system_inv s -> system_step s a = Some (Done (s', o)) -> system_inv s'.
Proof.
  intros Hinv. pose proof Hinv as [Hp Hl Hm].
  destruct a as [|b bytes|b|i a]; simpl; intros Hs.
  - destruct (try_alloc (sy_pool s)) as [[b pool]|] eqn:Ha; simplify_eq; [|done].
    destruct (try_alloc_inv _ _ _ _ Hp Ha) as [Hp' _]. by split.
  - case_decide as Hb; [|done]. simplify_eq. split; [|done..].
    apply deref_mut_inv; [done|]. apply elem_of_app. naive_solver.
  - destruct (remove_one b (sy_held s)) as [held|] eqn:Hr; [|done]. simplify_eq.
    apply remove_one_Permutation in Hr. split; [|done..]. simpl.
    apply drop_buffer_inv. eapply pool_inv_proper; [|exact Hp]. by rewrite Hr.
  - destruct (sy_queues s !! i) as [m|] eqn:Hi; [|done].
    destruct (hand_over (sy_held s) a) as [held|] eqn:Hg; [|done].
    destruct (machine_step m a) as [[[m' [o' bufs]]|]|] eqn:Hst; simplify_eq.
    destruct (Hm _ _ Hi) as [[sp Href] Hbal]. split; simpl.
    + by eapply queue_step_pool.
    + by rewrite length_insert.
    + intros j mj [(-> & -> & _)|[_ Hj]]%list_lookup_insert_Some; [|by apply (Hm j)].
      split; [|by eapply machine_step_balanced].
      pose proof (step_refines m sp a Href) as Hag. rewrite Hst in Hag.
      destruct (spec_step sp a) as [[[sp' o1]|]|]; simpl in Hag; try done.
      exists sp'. by destruct Hag.
Qed.

Lemma system_reachable acts s os :
  run system_step system_new acts = Some (Done (s, os)) -> system_inv s.
Proof.
  apply (run_invariant system_step (fun s _ _ => system_inv s)).
  - apply system_new_inv.
  - intros. by eapply system_step_inv.
Qed.

(** A held buffer is one that no queue contains. *)
Lemma room_for_holder s i m :
  system_inv s -> sy_queues s !! i = Some m -> 0 < length (sy_held s) ->
  0 < capacity (tm_queue m).
Proof.
  intros [Hp _ Hm] Hi Hh. destruct (Hm _ _ Hi) as [_ Hb]. unfold balanced in Hb.
  pose proof (pool_inv_count _ _ Hp) as Hc. rewrite length_app in Hc.
  pose proof (owned_insert machine_buffers _ _ _ machine_new Hi) as Hins.
  apply Permutation_length in Hins. unfold machine_buffers in Hins at 4.
  rewrite machine_new_owned, !length_app in Hins by done. simpl in Hins.
  assert (length (machine_owned waiting m) <= length (machine_buffers m)) as Hw.
  { unfold machine_buffers, machine_owned, ring_owned. rewrite !length_app.
    apply Nat.add_le_mono_r, owned_length_le. intros it. simpl.
    destruct (item_slot it); simpl; lia. }
  unfold in_flight in Hc. lia.
Qed.

(** No step panics while the generation counters last. *)
Lemma system_step_safe s a :
  system_inv s ->
  (forall i m, sy_queues s !! i = Some m -> (counter (tm_queue m) < u_max 64)%Z) ->
  system_step s a <> Some Panic.
Proof.
  intros Hinv Hc Hs. destruct a as [|b bytes|b|i a]; simpl in Hs.
  - by destruct (try_alloc _) as [[]|].
  - by case_decide.
  - by destruct (remove_one _ _).
  - destruct (sy_queues s !! i) as [m|] eqn:Hi; [|done].
    destruct (hand_over (sy_held s) a) as [held|] eqn:Hg; [|done].
    destruct (machine_step m a) as [[[m' [o bufs]]|]|] eqn:Hst; try done.
    destruct (si_machines _ Hinv _ _ Hi) as [[sp Href] _].
    destruct (machine_panic_cause m sp a Href Hst) as (f & -> & Hcause).
    apply hand_over_Permutation, Permutation_length in Hg. simpl in Hg.
    pose proof (room_for_holder s i m Hinv Hi). specialize (Hc _ _ Hi). lia.
Qed.
End TxSystem.
Arguments TxSystem Ch {_}.

(** ** A run to compute with *)

Section Demo.
#[local] Existing Instances small_config unit_hal.

(** A buffer is allocated, enqueued, transmitted and comes back. *)
Definition demo_sys_acts : list sys_action :=
  [SAlloc; SQueue 1 (AEnqueue (demo_frame 0)); SQueue 1 AReceive;
   SQueue 1 (AFinish (Ok 0%Z)); SQueue 1 (APoll 0)].

Definition demo_system (acts : list sys_action) : TxSystem list_chan :=
  match run (St := TxSystem list_chan) system_step system_new acts with
  | Some (Done (s, _)) => s
  | _ => system_new
  end.
Definition demo_sys_outputs (acts : list sys_action) : list sys_output :=
  match run (St := TxSystem list_chan) system_step system_new acts with
  | Some (Done (_, os)) => os
  | _ => []
  end.
End Demo.

(** ** Properties *)

Section TransmitProperties.
Context {Ch : Type -> Type} `{FoaConfig, Hal, ChannelLaws Ch}.

(** C16 Buffers are neither lost nor duplicated: in every state reachable by
    allocating, writing, dropping, enqueueing, transmitting, aborting, polling
    and dropping handles, the free buffers, the buffers the callers hold and
    the buffers inside the queues are together exactly the buffers of the
    slab, each once, and every free buffer is all zeros. *)
Theorem buffers_conserved acts (s : TxSystem Ch) os :
  run system_step system_new acts = Some (Done (s, os)) ->
  ch_contents (buffer_queue (sy_pool s)) ++
    (buffer <$> sy_held s) ++ (buffer <$> in_flight s) ≡ₚ seq 0 TX_BUFFER_COUNT /\
  forall p, p ∈ ch_contents (buffer_queue (sy_pool s)) ->
    exists bytes, slab (sy_pool s) !! p = Some bytes /\ zeroed bytes.
Proof.
  intros Hr%system_reachable. destruct Hr as [[_ _ Hp Hz] _ _].
  rewrite <- fmap_app. done.
Qed.

(** The capacity assertion of [enqueue_frame] never fires: whatever the
    callers do with the buffers they hold, on any of the four queues that share
    the pool, no step panics before a queue used up its 64-bit generation
    counter. *)
Theorem transmit_never_panics acts (s : TxSystem Ch) os a :
  run system_step system_new acts = Some (Done (s, os)) ->
  (forall i m, sy_queues s !! i = Some m -> (counter (tm_queue m) < u_max 64)%Z) ->
  system_step s a <> Some Panic.
Proof. intros Hinv%system_reachable. by apply system_step_safe. Qed.
End TransmitProperties.

(** ** Witnesses *)

Section Witnesses.
#[local] Existing Instances small_config unit_hal.

Lemma buffers_conserved_witness :
  [1; 2] ++ [0] ++ [] ≡ₚ seq 0 3.
Proof.
  destruct (buffers_conserved (Ch := list_chan) demo_sys_acts (demo_system demo_sys_acts)
    (demo_sys_outputs demo_sys_acts)) as [Hp _]; [reflexivity|exact Hp].
Defined.

Lemma transmit_never_panics_witness :
  system_step (demo_system demo_sys_acts) (SQueue 1 (AEnqueue (demo_frame 0)))
    <> Some Panic.
Proof.
  apply (transmit_never_panics (Ch := list_chan) demo_sys_acts
    (demo_system demo_sys_acts) (demo_sys_outputs demo_sys_acts)); [reflexivity|].
  intros i m Hi. do 4 (destruct i; [injection Hi as <-; reflexivity|]). discriminate Hi.
Defined.
End Witnesses.
