(* ===== verification/Lmac.v ===== *)
(** * Lower MAC: foa/src/lmac/mod.rs and foa/src/lmac/off_channel.rs

    The channel lock the interfaces share, the request protocol for off-channel
    operations, and the operations themselves.  Each async function is split at
    its awaits: [begin_start] and [begin_poll] are the two halves of
    [try_begin_interface_off_channel_operation].  The [RefCell]s are borrowed
    only inside closures that do not nest, so a borrow never fails and the
    closures run as one step each. *)
From S2P Require Import Prelude Platform.

Inductive LMacError : Type :=
| InvalidChannel
| ChannelLockedByOtherInterface
| OffChannelRequestRejected
| OffChannelOperationAlreadyInProgress.

#[export] Instance LMacError_eq_dec : EqDecision LMacError.
Proof. solve_decision. Defined.

(** ** The channel lock *)

Section ChannelState.
Context `{Radio}.
Implicit Types (i : nat) (ch : Z).

Record ChannelState : Type := MkChannelState {
  locks : option (list bool * Z);
  off_channel_operation_interface : option nat;
  channel_controller : ChannelController;
}.

Definition channel_state_new (ctl : ChannelController) : ChannelState :=
  MkChannelState None None ctl.

Definition lock_count (interfaces : list bool) : nat := length (filter (.= true) interfaces).

Definition set_locks (cs : ChannelState) (l : option (list bool * Z)) : ChannelState :=
  MkChannelState l (off_channel_operation_interface cs) (channel_controller cs).

Definition set_operation (cs : ChannelState) (o : option nat) : ChannelState :=
  MkChannelState (locks cs) o (channel_controller cs).

Definition set_controller (cs : ChannelState) (c : ChannelController) : ChannelState :=
  MkChannelState (locks cs) (off_channel_operation_interface cs) c.

(** The [match] of [lock_channel]: the result and the new locks. *)
Definition lock_decision (cs : ChannelState) i ch
  : outcome (result LMacError bool * option (list bool * Z)) :=
  match locks cs with
  | Some (interfaces, locked_channel) =>
      already_locked_by_interface ← expect (interfaces !! i);
      let same_channel := bool_decide (locked_channel = ch) in
      let interface_lock_count := lock_count interfaces in
      if negb same_channel &&
         (negb already_locked_by_interface || bool_decide (1 < interface_lock_count))
      then mret (Err ChannelLockedByOtherInterface, locks cs)
      else if already_locked_by_interface && bool_decide (interface_lock_count = 1)
      then mret (Ok true, Some (interfaces, ch))
      else if negb already_locked_by_interface && same_channel
      then mret (Ok false, Some (<[i := true]> interfaces, locked_channel))
      else mret (Ok false, locks cs)
  | None =>
      mret (Ok true, Some ((fun j => bool_decide (j = i)) <$> seq 0 INTERFACE_COUNT, ch))
  end.

(** [ChannelState::lock_channel]. *)
Definition cs_lock_channel (cs : ChannelState) i ch
  : outcome (result LMacError bool * ChannelState) :=
  '(res, l) ← lock_decision cs i ch;
  let cs := set_locks cs l in
  match res with
  | Ok true =>
      match set_channel (channel_controller cs) ch with
      | Some ctl => mret (res, set_controller cs ctl)
      | None => mret (Err InvalidChannel, cs)
      end
  | _ => mret (res, cs)
  end.

(** [ChannelState::unlock_channel]. *)
Definition cs_unlock_channel (cs : ChannelState) i : outcome ChannelState :=
  match locks cs with
  | Some (interfaces, ch) =>
      locked ← expect (interfaces !! i);
      if (locked : bool) then
        let interfaces := <[i := false]> interfaces in
        mret (set_locks cs
          (if bool_decide (interfaces = replicate INTERFACE_COUNT false)
           then None else Some (interfaces, ch)))
      else mret cs
  | None => mret cs
  end.

(** [LMacInterfaceControl::lock_channel_internal]. *)
Definition lock_channel_internal (cs : ChannelState) i ch
  : outcome (result LMacError unit * ChannelState) :=
  '(res, cs) ← cs_lock_channel cs i ch;
  match res with
  | Err e => mret (Err e, cs)
  | Ok false => mret (Ok tt, cs)
  | Ok true =>
      match set_channel (channel_controller cs) ch with
      | Some ctl => mret (Ok tt, set_controller cs ctl)
      | None =>
          cs ← cs_unlock_channel cs i;
          mret (Err InvalidChannel, cs)
      end
  end.

Definition unlock_channel_internal (cs : ChannelState) i : outcome ChannelState :=
  cs_unlock_channel cs i.

(** [LMacInterfaceControl::lock_channel] and [unlock_channel]: logging aside, the
    internal operations. *)
Definition lock_channel (cs : ChannelState) i ch := lock_channel_internal cs i ch.
Definition unlock_channel (cs : ChannelState) i := unlock_channel_internal cs i.

Definition off_channel_operation_in_progress (cs : ChannelState) : bool :=
  bool_decide (is_Some (off_channel_operation_interface cs)).

Definition home_channel (cs : ChannelState) : option Z := snd <$> locks cs.

(** [get_factory_mac_for_interface], with the base address of the driver: the last octet is
    added to without a carry, and its overflow is checked in debug builds. *)
Definition get_factory_mac_for_interface (interface : nat) (base_mac : list Z) : outcome (list Z) :=
  octet ← expect (base_mac !! 5);
  octet ← expect (checked_add 8 octet (wrapping 8 (Z.of_nat interface)));
  mret (<[5 := octet]> base_mac).

(** [begin_interface_bringup_operation], [InterfaceBringupOperation::complete]
    and its [Drop]: [Some i] is the live operation. *)
Definition begin_interface_bringup_operation (cs : ChannelState) i ch
  : outcome (result LMacError nat * ChannelState) :=
  '(res, cs) ← lock_channel_internal cs i ch;
  match res with
  | Ok _ => mret (Ok i, cs)
  | Err e => mret (Err e, cs)
  end.

Definition bringup_complete (cs : ChannelState) (op : nat) : ChannelState := cs.

Definition bringup_drop (cs : ChannelState) (op : nat) : outcome ChannelState :=
  unlock_channel_internal cs op.

(** ** Who holds the lock *)

Definition holds (cs : ChannelState) i : Prop :=
  exists interfaces ch, locks cs = Some (interfaces, ch) /\ interfaces !! i = Some true.

Definition locked_elsewhere (cs : ChannelState) i : Prop := exists j, j <> i /\ holds cs j.

(** The locks are absent exactly when no interface holds one. *)
Definition locks_ok (cs : ChannelState) : Prop :=
  match locks cs with
  | Some (interfaces, _) => length interfaces = INTERFACE_COUNT /\ true ∈ interfaces
  | None => True
  end.
End ChannelState.

(** ** The request protocol *)

Inductive OffChannelRequestState : Type :=
| NotRequested
| Requested
| Granted
| Rejected.

#[export] Instance OffChannelRequestState_eq_dec : EqDecision OffChannelRequestState.
Proof. solve_decision. Defined.

Inductive RequesterCall : Type :=
| WakeRequest
| RegisterRequest
| WakeResponse
| RegisterResponse.

(** [OffChannelRequester::request] up to its first poll. *)
Definition request_start (_ : OffChannelRequestState)
  : OffChannelRequestState * list RequesterCall := (Requested, [WakeRequest]).

(** One poll of the future [request] returns. *)
Definition request_poll (s : OffChannelRequestState)
  : poll (result LMacError unit) * OffChannelRequestState * list RequesterCall :=
  match s with
  | Granted => (PollReady (Ok tt), NotRequested, [])
  | Rejected => (PollReady (Err OffChannelRequestRejected), s, [])
  | _ => (PollPending, s, [RegisterResponse])
  end.

(** One poll of [wait_for_request]; ready means an [OffChannelRequest] object. *)
Definition wait_for_request (s : OffChannelRequestState)
  : poll unit * list RequesterCall :=
  if decide (s = Requested) then (PollReady tt, []) else (PollPending, [RegisterRequest]).

(** [OffChannelRequest::grant]; [reject] and [Drop for OffChannelRequest]. *)
Definition request_grant (_ : OffChannelRequestState)
  : OffChannelRequestState * list RequesterCall := (Granted, [WakeResponse]).
Definition request_reject (_ : OffChannelRequestState)
  : OffChannelRequestState * list RequesterCall := (Rejected, [WakeResponse]).

(** ** Off-channel operations *)

(** The [ScanningMode]s and [RxFilterBank]s of the driver the source names, and
    the calls made on an interface's [RxInterfaceController]. *)
Inductive ScanningMode : Type :=
| ScanDisabled
| ScanBeaconsOnly.
Inductive RxFilterBank : Type :=
| Bssid
| ReceiverAddress.
Inductive InterfaceCall : Type :=
| SetScanningMode (i : nat) (mode : ScanningMode)
| ClearFilter (i : nat) (bank : RxFilterBank).

Section OffChannel.
Context {W : Type -> Type} `{Radio, Watch W}.
Implicit Types (i j : nat) (ch : Z).

(** [SharedLMacState], without the key slots (KeySlots.v). *)
Record LMac : Type := MkLMac {
  lm_channel : ChannelState;
  lm_requesters : list OffChannelRequestState;
  lm_completion : W unit;
}.
Implicit Types (lm : LMac).

Definition lmac_new (ctl : ChannelController) : LMac :=
  MkLMac (channel_state_new ctl) (replicate INTERFACE_COUNT NotRequested) wt_new.

Definition with_channel lm (cs : ChannelState) : LMac :=
  MkLMac cs (lm_requesters lm) (lm_completion lm).
Definition with_requesters lm (rs : list OffChannelRequestState) : LMac :=
  MkLMac (lm_channel lm) rs (lm_completion lm).

(** [wait_for_off_channel_completion]: whether it has to wait at all, and the
    poll of the listener's [get] if it does. *)
Definition completion_wait_needed lm : bool :=
  off_channel_operation_in_progress (lm_channel lm).
Definition completion_wait_poll lm : poll unit :=
  match wt_get (lm_completion lm) with Some _ => PollReady tt | None => PollPending end.

(** The value of a request future once it is ready. *)
Definition wait_slot : Type := option (result LMacError unit).

(** The start of [try_begin_interface_off_channel_operation]: an error, or the
    locks read and the requests under way. *)
Definition begin_start lm : result LMacError (list bool * list wait_slot * LMac) :=
  if off_channel_operation_in_progress (lm_channel lm)
  then Err OffChannelOperationAlreadyInProgress
  else match locks (lm_channel lm) with
       | Some (interfaces, _) =>
           Ok (interfaces,
               (fun locked : bool => if locked then None else Some (Ok tt)) <$> interfaces,
               with_requesters lm
                 (zip_with (fun (locked : bool) s =>
                    if locked then fst (request_start s) else s)
                    interfaces (lm_requesters lm)))
       | None => Ok ([], [], lm)
       end.

(** [begin_interface_off_channel_operation]: a poll of its waiting part, which
    starts the operation once nothing has to be waited for; [waiting] is
    [completion_wait_needed] at the call. *)
Definition begin_after_wait lm (waiting : bool)
  : poll (result LMacError (list bool * list wait_slot * LMac)) :=
  if waiting then
    match completion_wait_poll lm with
    | PollReady _ => PollReady (begin_start lm)
    | PollPending => PollPending
    end
  else PollReady (begin_start lm).

(** One poll of [join_array]: every request future that is not ready yet. *)
Fixpoint poll_requests (rs : list OffChannelRequestState) (waits : list wait_slot)
  : list OffChannelRequestState * list wait_slot :=
  match rs, waits with
  | s :: rs, w :: waits =>
      let '(rs', waits') := poll_requests rs waits in
      match w with
      | Some _ => (s :: rs', w :: waits')
      | None =>
          let '(p, s', _) := request_poll s in
          (s' :: rs', match p with PollReady r => Some r | PollPending => None end :: waits')
      end
  | _, _ => (rs, waits)
  end.

(** [for result in results { result?; }]. *)
Fixpoint first_error (waits : list wait_slot) : option LMacError :=
  match waits with
  | Some (Err e) :: _ => Some e
  | _ :: waits => first_error waits
  | [] => None
  end.

Record OffChannelOperation : Type := MkOperation {
  op_interface : nat;
  previously_locked_channel : option Z;
}.

(** A poll of the future and, when all requests were answered, its end. *)
Definition begin_poll lm i (waits : list wait_slot)
  : poll (result LMacError OffChannelOperation) * list wait_slot * LMac :=
  let '(rs, waits) := poll_requests (lm_requesters lm) waits in
  let lm := with_requesters lm rs in
  if bool_decide (Forall is_Some waits) then
    match first_error waits with
    | Some e => (PollReady (Err e), waits, lm)
    | None =>
        let lm := with_channel lm (set_operation (lm_channel lm) (Some i)) in
        (PollReady (Ok (MkOperation i (home_channel (lm_channel lm)))), waits, lm)
    end
  else (PollPending, waits, lm).

(** [OffChannelOperation::set_channel]. *)
Definition op_set_channel lm ch : result LMacError unit * LMac :=
  match set_channel (channel_controller (lm_channel lm)) ch with
  | Some ctl => (Ok tt, with_channel lm (set_controller (lm_channel lm) ctl))
  | None => (Err InvalidChannel, lm)
  end.

(** [OffChannelOperation::set_scanning_mode]. *)
Definition op_set_scanning_mode (op : OffChannelOperation) mode : list InterfaceCall :=
  [SetScanningMode (op_interface op) mode].

(** [Drop for OffChannelOperation]. *)
Definition op_drop lm (op : OffChannelOperation) : LMac * list InterfaceCall :=
  let lm :=
    match home_channel (lm_channel lm) with
    | Some ch => snd (op_set_channel lm ch)
    | None =>
        match previously_locked_channel op with
        | Some ch => snd (op_set_channel lm ch)
        | None => lm
        end
    end in
  let calls := op_set_scanning_mode op ScanDisabled in
  let lm := with_channel lm (set_operation (lm_channel lm) None) in
  (MkLMac (lm_channel lm) (lm_requesters lm) (wt_send tt (lm_completion lm)), calls).

(** ** All interfaces together *)

(** What interface [i] is doing with off-channel operations. *)
Inductive off_channel_task : Type :=
| TIdle
| TWaiting (asked : list bool) (waits : list wait_slot)
| TOperating (op : OffChannelOperation).

Record LSystem : Type := MkLSystem {
  ls_mac : LMac;
  ls_tasks : list off_channel_task;
  (** Whether the interface holds an [OffChannelRequest]. *)
  ls_requests : list bool;
}.

Inductive lmac_action : Type :=
| LLock i ch
| LUnlock i
| LBegin i
| LPollBegin i
| LCancelBegin i
| LAccept j
| LGrant j
| LReject j
| LSetChannel i ch
| LOpDrop i.

Inductive lmac_output : Type :=
| LOUnit
| LOResult (r : result LMacError unit)
| LOStarted (op : OffChannelOperation).

Definition lsystem_new (ctl : ChannelController) : LSystem :=
  MkLSystem (lmac_new ctl) (replicate INTERFACE_COUNT TIdle)
    (replicate INTERFACE_COUNT false).

Definition set_task (s : LSystem) lm i (t : off_channel_task) : LSystem :=
  MkLSystem lm (<[i := t]> (ls_tasks s)) (ls_requests s).

Definition respond (s : LSystem) j (st : OffChannelRequestState) : LSystem :=
  MkLSystem
    (with_requesters (ls_mac s) (<[j := st]> (lm_requesters (ls_mac s))))
    (ls_tasks s) (<[j := false]> (ls_requests s)).

Definition lmac_step (s : LSystem) (a : lmac_action)
  : option (outcome (LSystem * lmac_output)) :=
  let lm := ls_mac s in
  match a with
  | LLock i ch => Some (
      '(r, cs) ← lock_channel_internal (lm_channel lm) i ch;
      mret (MkLSystem (with_channel lm cs) (ls_tasks s) (ls_requests s), LOResult r))
  | LUnlock i => Some (
      cs ← unlock_channel_internal (lm_channel lm) i;
      mret (MkLSystem (with_channel lm cs) (ls_tasks s) (ls_requests s), LOUnit))
  | LBegin i =>
      match ls_tasks s !! i with
      | Some TIdle => Some (Done (
          match begin_start lm with
          | Ok (asked, waits, lm) => (set_task s lm i (TWaiting asked waits), LOUnit)
          | Err e => (s, LOResult (Err e))
          end))
      | _ => None
      end
  | LPollBegin i =>
      match ls_tasks s !! i with
      | Some (TWaiting asked waits) => Some (Done (
          match begin_poll lm i waits with
          | (PollReady (Ok op), _, lm) => (set_task s lm i (TOperating op), LOStarted op)
          | (PollReady (Err e), _, lm) => (set_task s lm i TIdle, LOResult (Err e))
          | (PollPending, waits, lm) => (set_task s lm i (TWaiting asked waits), LOUnit)
          end))
      | _ => None
      end
  | LCancelBegin i =>
      match ls_tasks s !! i with
      | Some (TWaiting _ _) => Some (Done (set_task s lm i TIdle, LOUnit))
      | _ => None
      end
  | LAccept j =>
      match lm_requesters lm !! j with
      | Some st =>
          match wait_for_request st with
          | (PollReady _, _) => Some (Done (
              MkLSystem lm (ls_tasks s) (<[j := true]> (ls_requests s)), LOUnit))
          | _ => None
          end
      | None => None
      end
  | LGrant j =>
      match ls_requests s !! j, lm_requesters lm !! j with
      | Some true, Some st => Some (Done (respond s j (fst (request_grant st)), LOUnit))
      | _, _ => None
      end
  | LReject j =>
      match ls_requests s !! j, lm_requesters lm !! j with
      | Some true, Some st => Some (Done (respond s j (fst (request_reject st)), LOUnit))
      | _, _ => None
      end
  | LSetChannel i ch =>
      match ls_tasks s !! i with
      | Some (TOperating _) => Some (Done (
          let '(r, lm) := op_set_channel lm ch in
          (MkLSystem lm (ls_tasks s) (ls_requests s), LOResult r)))
      | _ => None
      end
  | LOpDrop i =>
      match ls_tasks s !! i with
      | Some (TOperating op) => Some (Done (set_task s (fst (op_drop lm op)) i TIdle, LOUnit))
      | _ => None
      end
  end.

End OffChannel.

(** ** Facts about the lock *)

Section LockFacts.
Context `{RadioLaws}.
Implicit Types (i j : nat) (ch : Z) (cs : ChannelState).

Lemma lock_count_cons (b : bool) l : lock_count (b :: l) = Nat.b2n b + lock_count l.
Proof. unfold lock_count. rewrite filter_cons. by destruct b; case_decide. Qed.

Lemma lock_count_zero (l : list bool) : lock_count l = 0 <-> true ∉ l.
Proof.
  induction l as [|b l IH]; [set_solver|].
  rewrite lock_count_cons, not_elem_of_cons. destruct b; simpl; naive_solver lia.
Qed.

Lemma lock_count_insert (l : list bool) i b b' :
  l !! i = Some b ->
  lock_count (<[i := b']> l) + Nat.b2n b = lock_count l + Nat.b2n b'.
Proof.
  revert i. induction l as [|x l IH]; intros [|i] Hi; simplify_eq/=;
    rewrite !lock_count_cons; [lia|]. rewrite <- Nat.add_assoc, (IH _ Hi). lia.
Qed.

(** [i] is the only holder, or no holder at all. *)
Definition none_but (l : list bool) i : Prop := forall j, j <> i -> l !! j <> Some true.

Lemma lock_count_other (l : list bool) i b :
  l !! i = Some b -> (none_but l i <-> lock_count l = Nat.b2n b).
Proof.
  intros Hi. pose proof (lock_count_insert _ _ _ false Hi) as Hc. simpl in Hc.
  pose proof (lock_count_zero (<[i := false]> l)) as Hz.
  assert (none_but l i <-> true ∉ <[i := false]> l) as ->; [|rewrite <- Hz; lia].
  rewrite list_elem_of_lookup. setoid_rewrite list_lookup_insert_Some.
  unfold none_but. naive_solver.
Qed.

Lemma lock_count_nonzero (l : list bool) : true ∈ l -> lock_count l <> 0.
Proof. intros Ht Hz. by apply lock_count_zero in Hz. Qed.

Lemma all_false (l : list bool) n :
  length l = n -> true ∉ l -> l = replicate n false.
Proof.
  intros <- Ht. induction l as [|[] l IH]; simpl; [done|set_solver|].
  f_equal. apply IH. set_solver.
Qed.

Definition fresh_locks i : list bool :=
  (fun j => bool_decide (j = i)) <$> seq 0 INTERFACE_COUNT.

Lemma fresh_locks_lookup i j :
  j < INTERFACE_COUNT -> fresh_locks i !! j = Some (bool_decide (j = i)).
Proof.
  intros Hj. unfold fresh_locks. rewrite list_lookup_fmap, lookup_seq_lt by done. done.
Qed.

Lemma fresh_locks_length i : length (fresh_locks i) = INTERFACE_COUNT.
Proof. unfold fresh_locks. by rewrite length_fmap, length_seq. Qed.

(** The decision on well-formed locks, by who holds them. *)
Lemma lock_decision_spec cs i ch :
  locks_ok cs -> i < INTERFACE_COUNT ->
  lock_decision cs i ch = Done
    match locks cs with
    | None => (Ok true, Some (fresh_locks i, ch))
    | Some (l, c) =>
        if decide (lock_count l = 1 /\ l !! i = Some true) then (Ok true, Some (l, ch))
        else if decide (c = ch) then (Ok false, Some (<[i := true]> l, c))
        else (Err ChannelLockedByOtherInterface, Some (l, c))
    end.
Proof.
  unfold locks_ok, lock_decision. intros Hok Hi.
  destruct (locks cs) as [[l c]|]; [|done]. destruct Hok as [Hlen Ht].
  destruct (lookup_lt_is_Some_2 l i) as [b Hb]; [lia|]. rewrite Hb. simpl.
  pose proof (lock_count_nonzero _ Ht).
  destruct b; simpl.
  - destruct (decide (lock_count l = 1)) as [Hone|Hone].
    + rewrite (decide_True _ _ (conj Hone eq_refl)).
      rewrite (bool_decide_false (1 < _)) by lia. rewrite andb_false_r. simpl.
      by rewrite bool_decide_true.
    + rewrite decide_False by naive_solver.
      rewrite (bool_decide_true (1 < _)) by lia. rewrite andb_true_r.
      rewrite (bool_decide_false (_ = 1)) by done.
      case_decide; [rewrite bool_decide_true by done|by rewrite bool_decide_false].
      simpl. by rewrite list_insert_id.
  - rewrite decide_False by naive_solver. rewrite andb_true_r.
    case_decide; [by rewrite bool_decide_true|by rewrite bool_decide_false].
Qed.

(** Locking with nobody else in the way tunes the radio. *)
Lemma cs_lock_true cs i ch l :
  lock_decision cs i ch = Done (Ok true, l) -> valid_channel ch = true ->
  exists ctl, current_channel ctl = Some ch /\
    lock_channel_internal cs i ch =
      Done (Ok tt, MkChannelState l (off_channel_operation_interface cs) ctl).
Proof.
  intros Hd Hv. unfold lock_channel_internal, cs_lock_channel. rewrite Hd. simpl.
  destruct (set_channel_valid (channel_controller cs) ch Hv) as (c1 & Hc1 & _).
  rewrite Hc1. simpl. destruct (set_channel_valid c1 ch Hv) as (c2 & Hc2 & Hcur).
  rewrite Hc2. simpl. eauto.
Qed.

Lemma cs_lock_invalid cs i ch l :
  lock_decision cs i ch = Done (Ok true, l) -> valid_channel ch = false ->
  lock_channel_internal cs i ch = Done (Err InvalidChannel, set_locks cs l).
Proof.
  intros Hd Hv. unfold lock_channel_internal, cs_lock_channel. rewrite Hd. simpl.
  by rewrite set_channel_invalid.
Qed.

Lemma cs_lock_false cs i ch l :
  lock_decision cs i ch = Done (Ok false, l) ->
  lock_channel_internal cs i ch = Done (Ok tt, set_locks cs l).
Proof. intros Hd. unfold lock_channel_internal, cs_lock_channel. by rewrite Hd. Qed.

Lemma cs_lock_err cs i ch e l :
  lock_decision cs i ch = Done (Err e, l) ->
  lock_channel_internal cs i ch = Done (Err e, set_locks cs l).
Proof. intros Hd. unfold lock_channel_internal, cs_lock_channel. by rewrite Hd. Qed.

Lemma set_locks_id cs : set_locks cs (locks cs) = cs.
Proof. by destruct cs. Qed.

Lemma locked_elsewhere_count cs i l c b :
  locks cs = Some (l, c) -> l !! i = Some b ->
  (locked_elsewhere cs i <-> lock_count l <> Nat.b2n b).
Proof.
  intros Hl Hb. rewrite <- (lock_count_other _ _ _ Hb).
  unfold locked_elsewhere, holds, none_but. rewrite Hl. split.
  - intros (j & Hj & l' & c' & [= <- <-] & Ht) Hn. by apply (Hn j).
  - intros Hn. assert (true ∈ <[i := false]> l) as Ht.
    { destruct (decide (true ∈ <[i := false]> l)) as [|Hf]; [done|].
      exfalso. apply Hn. intros j Hj Hlj. apply Hf, list_elem_of_lookup.
      exists j. by rewrite list_lookup_insert_ne. }
    apply list_elem_of_lookup in Ht as [j Hj].
    apply list_lookup_insert_Some in Hj as [(_ & [=] & _)|[Hne Hj]]. eauto 10.
Qed.

Lemma lock_alone cs i ch :
  locks_ok cs -> i < INTERFACE_COUNT -> ~ locked_elsewhere cs i ->
  exists l, lock_decision cs i ch = Done (Ok true, Some (l, ch)) /\
    length l = INTERFACE_COUNT /\ l !! i = Some true /\ none_but l i.
Proof.
  intros Hok Hi Hno. rewrite (lock_decision_spec _ _ _ Hok Hi).
  pose proof Hok as Hok'. unfold locks_ok in Hok'.
  destruct (locks cs) as [[l c]|] eqn:Hl.
  - destruct Hok' as [Hlen Ht]. destruct (lookup_lt_is_Some_2 l i) as [b Hb]; [lia|].
    pose proof (locked_elsewhere_count _ _ _ _ _ Hl Hb) as Hel.
    pose proof (lock_count_nonzero _ Ht).
    assert (lock_count l = Nat.b2n b) as Hcnt
      by (destruct (decide (lock_count l = Nat.b2n b)); tauto).
    destruct b; simpl in Hcnt; [|done]. rewrite decide_True by done.
    exists l. split_and!; try done. by apply (lock_count_other _ _ true).
  - exists (fresh_locks i). split_and!; [done|apply fresh_locks_length| |].
    + rewrite fresh_locks_lookup by done. by rewrite bool_decide_true.
    + intros j Hj Hf. pose proof (lookup_lt_Some _ _ _ Hf) as Hlt.
      rewrite fresh_locks_length in Hlt. rewrite fresh_locks_lookup in Hf by done.
      by rewrite bool_decide_false in Hf.
Qed.

Lemma lock_shared cs i ch l c :
  locks_ok cs -> i < INTERFACE_COUNT -> locked_elsewhere cs i -> locks cs = Some (l, c) ->
  lock_decision cs i ch = Done
    (if decide (c = ch) then (Ok false, Some (<[i := true]> l, c))
     else (Err ChannelLockedByOtherInterface, Some (l, c))).
Proof.
  intros Hok Hi Hel Hl. rewrite (lock_decision_spec _ _ _ Hok Hi), Hl.
  unfold locks_ok in Hok. rewrite Hl in Hok. destruct Hok as [Hlen _].
  destruct (lookup_lt_is_Some_2 l i) as [b Hb]; [lia|].
  apply (locked_elsewhere_count _ _ _ _ _ Hl Hb) in Hel.
  rewrite decide_False; [done|]. intros [Hone Htrue]. rewrite Hb in Htrue.
  injection Htrue as ->. done.
Qed.

(** Unlocking: [i] no longer holds, the others are untouched. *)
Lemma unlock_spec cs i :
  locks_ok cs -> i < INTERFACE_COUNT ->
  exists cs', unlock_channel_internal cs i = Done cs' /\ locks_ok cs' /\
    channel_controller cs' = channel_controller cs /\
    off_channel_operation_interface cs' = off_channel_operation_interface cs /\
    ~ holds cs' i /\ (forall j, j <> i -> holds cs' j <-> holds cs j) /\
    (home_channel cs' = home_channel cs \/ home_channel cs' = None).
Proof.
  intros Hok Hi. unfold unlock_channel_internal, cs_unlock_channel.
  pose proof Hok as Hok'. unfold locks_ok in Hok'. unfold holds, home_channel.
  destruct (locks cs) as [[l c]|] eqn:Hl.
  - destruct Hok' as [Hlen Ht]. destruct (lookup_lt_is_Some_2 l i) as [b Hb]; [lia|].
    rewrite Hb. simpl. destruct b.
    + eexists. split; [done|]. case_bool_decide as Hall.
      * unfold locks_ok. simpl. split_and!; try done; [naive_solver| |by right].
        intros j Hj. split; [naive_solver|]. intros (? & ? & [= <- <-] & Hjt). exfalso.
        assert (<[i := false]> l !! j = Some true) as Hjf by by rewrite list_lookup_insert_ne.
        rewrite Hall in Hjf. by apply lookup_replicate_eq in Hjf.
      * unfold locks_ok. simpl. split_and!; try done; [| | | |by left].
        -- by rewrite length_insert.
        -- destruct (decide (true ∈ <[i := false]> l)) as [|Hf]; [done|].
           exfalso. apply Hall, all_false; [by rewrite length_insert|done].
        -- intros (? & ? & [= <- <-] & Hit).
           rewrite list_lookup_insert_eq in Hit by lia. done.
        -- intros j Hj. split; intros (? & ? & [= <- <-] & Hjt); eexists _, _;
             (split; [done|]); by rewrite list_lookup_insert_ne in *.
    + exists cs. unfold locks_ok. rewrite Hl. split_and!; try done; [|by left].
      intros (? & ? & [= <- <-] & Hit). congruence.
  - exists cs. unfold locks_ok. rewrite Hl. split_and!; try done; [naive_solver|by left].
Qed.

Lemma holds_locks cs l c i :
  locks cs = Some (l, c) -> (holds cs i <-> l !! i = Some true).
Proof. intros Hl. unfold holds. rewrite Hl. naive_solver. Qed.

(** What a lock attempt does when no other interface holds the channel. *)
Lemma lock_alone_effect cs i ch :
  locks_ok cs -> i < INTERFACE_COUNT -> ~ locked_elsewhere cs i ->
  exists r cs', lock_channel_internal cs i ch = Done (r, cs') /\
    locks_ok cs' /\ off_channel_operation_interface cs' = off_channel_operation_interface cs /\
    holds cs' i /\ home_channel cs' = Some ch /\ ~ locked_elsewhere cs' i /\
    (if valid_channel ch
     then r = Ok tt /\ current_channel (channel_controller cs') = Some ch
     else r = Err InvalidChannel /\ channel_controller cs' = channel_controller cs).
Proof.
  intros Hok Hi Hno. destruct (lock_alone cs i ch Hok Hi Hno) as (l & Hd & Hlen & Hit & Hn).
  assert (true ∈ l) as Ht by (apply list_elem_of_lookup; eauto).
  assert (forall op ctl, ~ locked_elsewhere (MkChannelState (Some (l, ch)) op ctl) i) as Hne.
  { intros op ctl (j & Hj & Hh). apply (holds_locks _ l ch) in Hh; [|done]. by apply (Hn j). }
  destruct (valid_channel ch) eqn:Hv.
  - destruct (cs_lock_true _ _ _ _ Hd Hv) as (ctl & Hcur & ->).
    eexists _, _. split; [done|]. split_and!; try done. by exists l, ch.
  - rewrite (cs_lock_invalid _ _ _ _ Hd Hv).
    eexists _, _. split; [done|]. split_and!; try done; [by exists l, ch|apply Hne].
Qed.

(** And when another one does. *)
Lemma lock_shared_effect cs i ch :
  locks_ok cs -> i < INTERFACE_COUNT -> locked_elsewhere cs i ->
  exists r cs', lock_channel_internal cs i ch = Done (r, cs') /\
    locks_ok cs' /\ off_channel_operation_interface cs' = off_channel_operation_interface cs /\
    home_channel cs' = home_channel cs /\
    channel_controller cs' = channel_controller cs /\
    (forall j, j <> i -> holds cs' j <-> holds cs j) /\
    (if decide (home_channel cs = Some ch) then r = Ok tt /\ holds cs' i
     else r = Err ChannelLockedByOtherInterface /\ cs' = cs).
Proof.
  intros Hok Hi Hel. pose proof Hok as Hok'. unfold locks_ok in Hok'.
  destruct (locks cs) as [[l c]|] eqn:Hl; cycle 1.
  { destruct Hel as (j & _ & l & c & Hc & _). congruence. }
  destruct Hok' as [Hlen Ht]. pose proof (lock_shared _ _ ch _ _ Hok Hi Hel Hl) as Hd.
  destruct (lookup_lt_is_Some_2 l i) as [b Hb]; [lia|].
  assert (home_channel cs = Some c) as Hhome by (unfold home_channel; by rewrite Hl).
  rewrite Hhome. destruct (decide (c = ch)) as [<-|Hne].
  - rewrite (cs_lock_false _ _ _ _ Hd). eexists _, _. split; [done|].
    rewrite decide_True by done. unfold locks_ok. simpl.
    assert (holds (set_locks cs (Some (<[i := true]> l, c))) i) as Hit.
    { apply (holds_locks _ (<[i := true]> l) c); [done|]. apply list_lookup_insert_eq. lia. }
    split_and!; try done.
    + by rewrite length_insert.
    + apply list_elem_of_lookup. exists i. apply list_lookup_insert_eq. lia.
    + intros j Hj. rewrite (holds_locks _ _ _ j Hl).
      rewrite (holds_locks _ (<[i := true]> l) c) by done. by rewrite list_lookup_insert_ne.
  - rewrite (cs_lock_err _ _ _ _ _ Hd), <- Hl, set_locks_id.
    eexists _, _. split; [done|]. rewrite decide_False by congruence.
    split_and!; try done.
Qed.

Lemma locked_elsewhere_dec cs i :
  locks_ok cs -> i < INTERFACE_COUNT -> locked_elsewhere cs i \/ ~ locked_elsewhere cs i.
Proof.
  unfold locks_ok. intros Hok Hi. destruct (locks cs) as [[l c]|] eqn:Hl.
  - destruct Hok as [Hlen _]. destruct (lookup_lt_is_Some_2 l i) as [b Hb]; [lia|].
    rewrite (locked_elsewhere_count _ _ _ _ _ Hl Hb).
    destruct (decide (lock_count l = Nat.b2n b)); tauto.
  - right. intros (j & _ & l & c & Hc & _). congruence.
Qed.
End LockFacts.

(** ** Invariants of all interfaces together *)

Section SystemFacts.
Context {W : Type -> Type} `{RadioLaws, WatchLaws W}.
Implicit Types (i j : nat) (ch : Z) (s : LSystem (W := W)).

Definition action_channel (a : lmac_action) : option Z :=
  match a with LLock _ ch => Some ch | LSetChannel _ ch => Some ch | _ => None end.
Definition action_interface (a : lmac_action) : nat :=
  match a with
  | LLock i _ | LUnlock i | LBegin i | LPollBegin i | LCancelBegin i
  | LAccept i | LGrant i | LReject i | LSetChannel i _ | LOpDrop i => i
  end.

(** The actions name existing interfaces and valid channels only. *)
Definition action_ok (a : lmac_action) : Prop :=
  action_interface a < INTERFACE_COUNT /\
  match action_channel a with Some ch => valid_channel ch = true | None => True end.

Definition operating s : Prop :=
  exists i op, ls_tasks s !! i = Some (TOperating op).

Record lsystem_ok s : Prop := {
  lo_locks : locks_ok (lm_channel (ls_mac s));
  lo_tasks : length (ls_tasks s) = INTERFACE_COUNT;
  lo_home : forall ch, home_channel (lm_channel (ls_mac s)) = Some ch ->
    valid_channel ch = true;
  lo_tuned : forall ch, home_channel (lm_channel (ls_mac s)) = Some ch ->
    ~ operating s -> current_channel (channel_controller (lm_channel (ls_mac s))) = Some ch;
}.

Lemma lsystem_new_ok ctl : lsystem_ok (lsystem_new ctl).
Proof. split; simpl; try done. by rewrite length_replicate. Qed.

(** Steps that leave the channel state alone and end no operation. *)
Lemma lsystem_ok_same s s' :
  lsystem_ok s -> lm_channel (ls_mac s') = lm_channel (ls_mac s) ->
  length (ls_tasks s') = length (ls_tasks s) -> (operating s -> operating s') ->
  lsystem_ok s'.
Proof.
  intros [Hl Ht Hh Hc] Hch Hlen Hop. split; rewrite ?Hch, ?Hlen; try done.
  intros ch Hhome Hno. apply Hc; [done|tauto].
Qed.

Lemma operating_insert s lm i t :
  (forall op, ls_tasks s !! i <> Some (TOperating op)) ->
  operating s -> operating (set_task s lm i t).
Proof.
  intros Hi (j & op & Hj). exists j, op. simpl.
  rewrite list_lookup_insert_ne; [done|]. intros ->. by apply (Hi op).
Qed.

Lemma lock_step_ok s i ch s' o :
  lsystem_ok s -> action_ok (LLock i ch) ->
  lmac_step s (LLock i ch) = Some (Done (s', o)) -> lsystem_ok s'.
Proof.
  intros [Hl Ht Hh Hc] [Hi Hv]. simpl in Hi, Hv. simpl.
  destruct (locked_elsewhere_dec _ i Hl Hi) as [Hel|Hno].
  - destruct (lock_shared_effect _ i ch Hl Hi Hel) as (r & cs & -> & Hok & _ & Hhome & Hctl & _).
    intros [= <- <-]. split; simpl; rewrite ?Hhome, ?Hctl; done.
  - destruct (lock_alone_effect _ i ch Hl Hi Hno)
      as (r & cs & -> & Hok & _ & _ & Hhome & _ & Hcur). rewrite Hv in Hcur.
    destruct Hcur as [_ Hcur]. intros [= <- <-].
    split; simpl; rewrite ?Hhome, ?Hcur; try done; congruence.
Qed.

Lemma unlock_step_ok s i s' o :
  lsystem_ok s -> i < INTERFACE_COUNT ->
  lmac_step s (LUnlock i) = Some (Done (s', o)) -> lsystem_ok s'.
Proof.
  intros [Hl Ht Hh Hc] Hi. simpl.
  destruct (unlock_spec _ i Hl Hi) as (cs & -> & Hok & Hctl & _ & _ & _ & Hhome).
  intros [= <- <-]. split; simpl; try done; rewrite ?Hctl;
    destruct Hhome as [-> | ->]; done.
Qed.

Lemma op_drop_home lm op ch :
  home_channel (lm_channel lm) = Some ch -> valid_channel ch = true ->
  locks (lm_channel (fst (op_drop lm op))) = locks (lm_channel lm) /\
  off_channel_operation_interface (lm_channel (fst (op_drop lm op))) = None /\
  current_channel (channel_controller (lm_channel (fst (op_drop (W := W) lm op)))) = Some ch.
Proof.
  intros Hh Hv. unfold op_drop, op_set_channel. simpl. rewrite Hh. simpl.
  destruct (set_channel_valid (channel_controller (lm_channel lm)) ch Hv) as (c & -> & Hc).
  done.
Qed.

Lemma op_drop_locks lm op :
  locks (lm_channel (fst (op_drop (W := W) lm op))) = locks (lm_channel lm).
Proof.
  unfold op_drop, op_set_channel. simpl. by repeat case_match; simplify_eq/=.
Qed.

Lemma drop_step_ok s i s' o :
  lsystem_ok s -> lmac_step s (LOpDrop i) = Some (Done (s', o)) -> lsystem_ok s'.
Proof.
  intros [Hl Ht Hh Hc]. simpl. destruct (ls_tasks s !! i) as [[|asked waits|op]|]; try done.
  intros [= <- <-]. pose proof (op_drop_locks (ls_mac s) op) as Hlk.
  assert (forall c, home_channel (lm_channel (fst (op_drop (ls_mac s) op))) = c ->
    home_channel (lm_channel (ls_mac s)) = c) as Hhome.
  { unfold home_channel. by rewrite Hlk. }
  split.
  - assert (locks_ok (lm_channel (fst (op_drop (ls_mac s) op)))) as Hok; [|exact Hok].
    unfold locks_ok. by rewrite Hlk.
  - simpl. by rewrite length_insert.
  - intros ch Hch. apply Hh, Hhome, Hch.
  - intros ch Hch _. apply Hhome in Hch.
    destruct (op_drop_home (ls_mac s) op ch Hch (Hh _ Hch)) as (_ & _ & Hcur). apply Hcur.
Qed.

Lemma begin_start_channel (lm : LMac (W := W)) asked waits lm' :
  begin_start lm = Ok (asked, waits, lm') -> lm_channel lm' = lm_channel lm.
Proof. unfold begin_start. intros Hb. by repeat case_match; simplify_eq/=. Qed.

Lemma begin_poll_channel (lm : LMac (W := W)) i waits p waits' lm' :
  begin_poll lm i waits = (p, waits', lm') ->
  locks (lm_channel lm') = locks (lm_channel lm) /\
  channel_controller (lm_channel lm') = channel_controller (lm_channel lm) /\
  (p = PollPending \/ (exists e, p = PollReady (Err e)) -> lm_channel lm' = lm_channel lm).
Proof.
  unfold begin_poll. destruct (poll_requests _ _) as [rs ws].
  repeat case_match; intros [= <- <- <-]; simpl; split_and!; try done.
  intros [?|[? ?]]; done.
Qed.

Lemma poll_step_ok s i s' o :
  lsystem_ok s -> lmac_step s (LPollBegin i) = Some (Done (s', o)) -> lsystem_ok s'.
Proof.
  intros Hok. pose proof Hok as [Hl Ht Hh Hc]. simpl.
  destruct (ls_tasks s !! i) as [[|asked waits|op]|] eqn:Hi; try done.
  destruct (begin_poll _ _ _) as [[p waits'] lm] eqn:Hb.
  apply begin_poll_channel in Hb as (Hlk & Hctl & Hsame).
  assert (forall t, lm_channel lm = lm_channel (ls_mac s) -> lsystem_ok (set_task s lm i t))
    as Hkeep.
  { intros t Hch. apply (lsystem_ok_same s); [done|done| |].
    - simpl. by rewrite length_insert.
    - apply operating_insert. intros op'. congruence. }
  destruct p as [[op|e]|]; intros [= <- <-]; try (solve [apply Hkeep, Hsame; eauto]).
  split; simpl; rewrite ?length_insert; try done.
  - unfold locks_ok. by rewrite Hlk.
  - unfold home_channel. by rewrite Hlk.
  - intros ch _ []. exists i, op. simpl. apply list_lookup_insert_eq.
    by apply lookup_lt_Some in Hi.
Qed.

Lemma lmac_step_ok s a s' o :
  lsystem_ok s -> action_ok a -> lmac_step s a = Some (Done (s', o)) -> lsystem_ok s'.
Proof.
  intros Hok Ha Hs.
  destruct a as [i ch|i|i|i|i|j|j|j|i ch|i]; try by eauto using lock_step_ok, poll_step_ok,
    drop_step_ok.
  - eapply unlock_step_ok; [done|apply Ha|done].
  - simpl in Hs. destruct (ls_tasks s !! i) as [[| |]|] eqn:Hi; try done.
    destruct (begin_start _) as [[[asked waits] lm]|e] eqn:Hb; simplify_eq; [|done].
    apply (lsystem_ok_same s); [done|by apply begin_start_channel in Hb| |].
    + simpl. by rewrite length_insert.
    + apply operating_insert. intros op. congruence.
  - simpl in Hs. destruct (ls_tasks s !! i) as [[| |]|] eqn:Hi; try done. simplify_eq.
    apply (lsystem_ok_same s); [done..| |].
    + simpl. by rewrite length_insert.
    + apply operating_insert. intros op. congruence.
  - simpl in Hs. repeat case_match; simplify_eq. by apply (lsystem_ok_same s).
  - simpl in Hs. repeat case_match; simplify_eq. by apply (lsystem_ok_same s).
  - simpl in Hs. repeat case_match; simplify_eq. by apply (lsystem_ok_same s).
  - simpl in Hs. destruct (ls_tasks s !! i) as [[| |op]|] eqn:Hi; try done.
    unfold op_set_channel in Hs. destruct Hok as [Hl Ht Hh Hc].
    destruct (set_channel _ _); simplify_eq; split; try done;
      intros ch2 _ []; by exists i, op.
Qed.

(** No step panics. *)
Lemma lmac_step_safe s a : lsystem_ok s -> action_ok a -> lmac_step s a <> Some Panic.
Proof.
  intros Hok [Hi Hch] Hs. pose proof (lo_locks _ Hok) as Hl.
  destruct a as [i ch|i|i|i|i|j|j|j|i ch|i]; simpl in *.
  - destruct (locked_elsewhere_dec _ i Hl Hi) as [Hel|Hno].
    + by destruct (lock_shared_effect _ i ch Hl Hi Hel) as (r & cs & He & _); rewrite He in Hs.
    + by destruct (lock_alone_effect _ i ch Hl Hi Hno) as (r & cs & He & _); rewrite He in Hs.
  - by destruct (unlock_spec _ i Hl Hi) as (cs & He & _); rewrite He in Hs.
  - by repeat case_match.
  - by repeat case_match.
  - by repeat case_match.
  - by repeat case_match.
  - by repeat case_match.
  - by repeat case_match.
  - by repeat case_match.
  - by repeat case_match.
Qed.

(** ** Grants *)

Lemma poll_requests_spec rs ws rs' ws' :
  poll_requests rs ws = (rs', ws') ->
  length ws' = length ws /\
  (forall j, ws' !! j = Some (Some (Ok tt)) ->
     ws !! j = Some (Some (Ok tt)) \/ (ws !! j = Some None /\ rs !! j = Some Granted)) /\
  (forall j, ws' !! j = Some None -> ws !! j = Some None) /\
  (forall j, rs' !! j = Some Granted -> rs !! j = Some Granted).
Proof.
  revert ws rs' ws'. induction rs as [|st rs IH]; intros [|w ws] rs' ws' Hp;
    simpl in Hp; try (injection Hp as <- <-; naive_solver).
  destruct (poll_requests rs ws) as [rs1 ws1] eqn:Hp1.
  destruct (IH _ _ _ Hp1) as (Hlen & Hok & Hno & Hgr).
  destruct w as [r|]; [|destruct st]; simpl in Hp; injection Hp as <- <-; simpl;
    (split; [by rewrite Hlen|]); split_and!; intros [|j]; simpl; eauto; naive_solver.
Qed.

Lemma first_error_None ws :
  first_error ws = None -> Forall is_Some ws ->
  forall j w, ws !! j = Some w -> w = Some (Ok tt).
Proof.
  intros Hf Hs. induction Hs as [|w ws [r Hr] Hs IH]; intros [|j] w' Hj; simplify_eq/=.
  - destruct r as [[]|e]; done.
  - destruct r as [[]|e]; [|done]. by apply (IH Hf j).
Qed.

Definition grants_inv i (asked : list bool) s (acts : list lmac_action) : Prop :=
  forall asked' waits, LBegin i ∉ acts -> ls_tasks s !! i = Some (TWaiting asked' waits) ->
  asked' = asked /\ length waits = length asked /\
  forall j, asked !! j = Some true ->
    (waits !! j = Some (Some (Ok tt)) -> LGrant j ∈ acts) /\
    (lm_requesters (ls_mac s) !! j = Some Granted -> LGrant j ∈ acts).

(** Requests start as [Requested], whatever they were. *)
Lemma begin_start_requests (lm : LMac (W := W)) asked waits lm' :
  begin_start lm = Ok (asked, waits, lm') ->
  length waits = length asked /\
  (forall j, asked !! j = Some true -> waits !! j = Some None /\
     lm_requesters lm' !! j <> Some Granted) /\
  (forall j, lm_requesters lm' !! j = Some Granted -> lm_requesters lm !! j = Some Granted).
Proof.
  unfold begin_start. case_match; [done|].
  destruct (locks (lm_channel lm)) as [[l c]|]; [|intros [= <- <- <-]; done]. intros [= <- <- <-]. rewrite length_fmap. simpl. split; [done|].
  split.
  - intros j Hj. rewrite list_lookup_fmap, Hj. split; [done|].
    rewrite lookup_zip_with, Hj. simpl. by destruct (lm_requesters lm !! j).
  - intros j. rewrite lookup_zip_with. destruct (l !! j) as [[]|]; simpl; try done;
      by destruct (lm_requesters lm !! j).
Qed.

Lemma begin_poll_requests (lm : LMac (W := W)) i waits p waits' lm' :
  begin_poll lm i waits = (p, waits', lm') ->
  poll_requests (lm_requesters lm) waits = (lm_requesters lm', waits') /\
  (forall op, p = PollReady (Ok op) -> op = MkOperation i (home_channel (lm_channel lm)) /\
     forall j w, waits' !! j = Some w -> w = Some (Ok tt)).
Proof.
  unfold begin_poll. destruct (poll_requests _ _) as [rs ws].
  case_bool_decide as Hall; cycle 1.
  { intros [= <- <- <-]. by split. }
  destruct (first_error ws) eqn:Hf; intros [= <- <- <-]; split; try done.
  intros op [= <-]. split; [done|]. by apply first_error_None.
Qed.

Lemma lookup_set_task s lm i k t t' :
  ls_tasks (set_task s lm k t) !! i = Some t' ->
  (k = i /\ t' = t) \/ (k <> i /\ ls_tasks s !! i = Some t').
Proof. simpl. rewrite list_lookup_insert_Some. naive_solver. Qed.

(** A step that keeps what interface [i] waits for. *)
Lemma grants_inv_keep i asked s acts a s' asked' (waits ws : list wait_slot) :
  grants_inv i asked s acts -> LBegin i ∉ acts ->
  ls_tasks s !! i = Some (TWaiting asked' ws) -> length waits = length ws ->
  (forall j, waits !! j = Some (Some (Ok tt)) ->
    ws !! j = Some (Some (Ok tt)) \/ lm_requesters (ls_mac s) !! j = Some Granted) ->
  (forall j, lm_requesters (ls_mac s') !! j = Some Granted ->
    lm_requesters (ls_mac s) !! j = Some Granted \/ a = LGrant j) ->
  asked' = asked /\ length waits = length asked /\
  forall j, asked !! j = Some true ->
    (waits !! j = Some (Some (Ok tt)) -> LGrant j ∈ acts ++ [a]) /\
    (lm_requesters (ls_mac s') !! j = Some Granted -> LGrant j ∈ acts ++ [a]).
Proof.
  intros Hinv Hb Hws Hlen Hok Hgr. destruct (Hinv asked' ws Hb Hws) as (-> & Hl & Hg).
  assert (forall j, LGrant j ∈ acts -> LGrant j ∈ acts ++ [a]) as Hmono
    by (intros j; rewrite elem_of_app; by left).
  split_and!; [done|congruence|]. intros j Hj. destruct (Hg j Hj) as [Hg1 Hg2].
  split; [intros [?| ?]%Hok; auto|]. intros [?| ->]%Hgr; [auto|set_solver].
Qed.

(** A poll of interface [k]'s future, whatever its outcome. *)
Lemma poll_begin_task s k s' o :
  lmac_step s (LPollBegin k) = Some (Done (s', o)) ->
  exists asked ws ws' lm t, ls_tasks s !! k = Some (TWaiting asked ws) /\
    poll_requests (lm_requesters (ls_mac s)) ws = (lm_requesters lm, ws') /\
    s' = set_task s lm k t /\
    (forall a w, t = TWaiting a w -> a = asked /\ w = ws').
Proof.
  simpl. destruct (ls_tasks s !! k) as [[|asked ws|]|] eqn:Hk; try done.
  destruct (begin_poll _ _ _) as [[p ws'] lm] eqn:Hbp. intros Hs.
  apply begin_poll_requests in Hbp as [Hpr _].
  destruct p as [[op|e]|]; simplify_eq; eexists _, _, _, _, _;
    (split_and!; [done|done|done|]); naive_solver.
Qed.

(** The steps other than a poll only ever make a requester granted by a grant,
    and they start waiting only by a begin. *)
Lemma other_step_requests i s a s' o asked waits :
  a <> LBegin i -> (forall k, a <> LPollBegin k) ->
  lmac_step s a = Some (Done (s', o)) ->
  ls_tasks s' !! i = Some (TWaiting asked waits) ->
  ls_tasks s !! i = Some (TWaiting asked waits) /\
  forall j, lm_requesters (ls_mac s') !! j = Some Granted ->
    lm_requesters (ls_mac s) !! j = Some Granted \/ a = LGrant j.
Proof.
  intros Hb Hp Hs Hw. destruct a as [k ch|k|k|k|k|j|j|j|k ch|k]; simpl in Hs.
  - destruct (lock_channel_internal _ _ _) as [[r cs]|]; [|done].
    injection Hs as <- <-. simpl in *. by auto.
  - destruct (unlock_channel_internal _ _) as [cs|]; [|done].
    injection Hs as <- <-. simpl in *. by auto.
  - destruct (ls_tasks s !! k) as [[| |]|] eqn:Hk; try done.
    destruct (begin_start _) as [[[asked2 waits2] lm]|e] eqn:Hst; simplify_eq; [|by auto].
    apply begin_start_requests in Hst as (_ & _ & Hgr).
    apply lookup_set_task in Hw as [[-> ?]|[Hne Hw]]; [done|].
    split; [done|]. intros j Hj. left. by apply Hgr.
  - by destruct (Hp k).
  - destruct (ls_tasks s !! k) as [[| |]|] eqn:Hk; try done. simplify_eq.
    apply lookup_set_task in Hw as [[-> ?]|[Hne Hw]]; [done|]. simpl. by auto.
  - repeat case_match; simplify_eq/=. by auto.
  - repeat case_match; simplify_eq/=. split; [done|].
    intros j'. rewrite list_lookup_insert_Some. naive_solver.
  - repeat case_match; simplify_eq/=. split; [done|].
    intros j'. rewrite list_lookup_insert_Some. naive_solver.
  - destruct (ls_tasks s !! k) as [[| |]|] eqn:Hk; try done.
    unfold op_set_channel in Hs. destruct (set_channel _ _); simplify_eq/=; by auto.
  - destruct (ls_tasks s !! k) as [[| |op]|] eqn:Hk; try done. simplify_eq.
    apply lookup_set_task in Hw as [[-> ?]|[Hne Hw]]; [done|]. split; [done|].
    simpl. intros j. unfold op_set_channel. repeat case_match; simplify_eq/=; by auto.
Qed.

Lemma grants_inv_step i asked s acts a s' o :
  grants_inv i asked s acts -> lmac_step s a = Some (Done (s', o)) ->
  grants_inv i asked s' (acts ++ [a]).
Proof.
  intros Hinv Hs asked' waits Hb Hw.
  rewrite elem_of_app, list_elem_of_singleton in Hb.
  assert ((exists k, a = LPollBegin k) \/ (forall k, a <> LPollBegin k)) as [[k ->]|Hnp]
    by (destruct a; naive_solver).
  - apply poll_begin_task in Hs as (asked2 & ws & ws' & lm & t & Hk & Hpr & -> & Ht).
    apply poll_requests_spec in Hpr as (Hlen & Hok & _ & Hgr).
    apply lookup_set_task in Hw as [[-> <-]|[Hne Hw]].
    + destruct (Ht _ _ eq_refl) as [-> ->].
      apply (grants_inv_keep i _ s _ _ _ _ _ ws); auto.
      intros j [?|[? ?]]%Hok; auto.
    + apply (grants_inv_keep i _ s _ _ _ _ _ waits); auto.
  - destruct (other_step_requests i s a s' o asked' waits) as [Hw' Hgr]; auto.
    apply (grants_inv_keep i _ s _ _ _ _ _ waits); auto.
Qed.
End SystemFacts.
