(* ===== verification/LmacProps.v ===== *)
(** * Lower MAC: what interfaces rely on

    The channel lock (who may tune the radio), the grants an off-channel
    operation needs, the return to the home channel, and three ways in which
    the code falls short of its documentation. *)
From S2P Require Import Prelude Platform Lmac.

Section LmacRuns.
Context {W : Type -> Type} `{RadioLaws, WatchLaws W}.
Implicit Types (s : LSystem (W := W)).

Lemma lmac_reachable ctl acts s os :
  run lmac_step (lsystem_new (W := W) ctl) acts = Some (Done (s, os)) ->
  Forall action_ok acts -> lsystem_ok s.
Proof.
  revert s os. induction acts as [|a acts IH] using rev_ind; intros s os Hr Hf.
  - apply run_nil in Hr as [-> ->]. apply lsystem_new_ok.
  - apply run_snoc in Hr as (s1 & os1 & o & Hr & Hs & ->).
    apply Forall_app in Hf as [Hf [Ha _]%Forall_cons].
    apply (lmac_step_ok s1 a s o); [by apply (IH s1 os1)|done..].
Qed.

Lemma completion_step s a s' o :
  lmac_step s a = Some (Done (s', o)) ->
  match a with
  | LOpDrop _ => wt_get (lm_completion (ls_mac s')) = Some tt
  | _ => lm_completion (ls_mac s') = lm_completion (ls_mac s)
  end.
Proof.
  intros Hs. destruct a as [k ch|k|k|k|k|j|j|j|k ch|k]; simpl in Hs.
  - destruct (lock_channel_internal _ _ _) as [[r cs]|]; [|done]. by injection Hs as <- <-.
  - destruct (unlock_channel_internal _ _) as [cs|]; [|done]. by injection Hs as <- <-.
  - unfold begin_start in Hs. by repeat case_match; simplify_eq.
  - unfold begin_poll in Hs. destruct (ls_tasks s !! k) as [[]|]; try done.
    destruct (poll_requests _ _). by repeat case_match; simplify_eq.
  - by repeat case_match; simplify_eq.
  - by repeat case_match; simplify_eq.
  - by repeat case_match; simplify_eq.
  - by repeat case_match; simplify_eq.
  - unfold op_set_channel in Hs. by repeat case_match; simplify_eq.
  - destruct (ls_tasks s !! k) as [[| |op]|]; try done. injection Hs as <- <-.
    simpl. apply wt_get_send.
Qed.

(** Once an operation has ended, the completion watch stays ready. *)
Lemma completion_sent ctl acts s os i :
  run lmac_step (lsystem_new (W := W) ctl) acts = Some (Done (s, os)) ->
  LOpDrop i ∈ acts -> wt_get (lm_completion (ls_mac s)) = Some tt.
Proof.
  revert s os. induction acts as [|a acts IH] using rev_ind; intros s os Hr Hin;
    [set_solver|].
  apply run_snoc in Hr as (s1 & os1 & o & Hr & Hs & ->).
  apply completion_step in Hs. apply elem_of_app in Hin as [Hin|Hin].
  - destruct a; rewrite ?Hs; try done; by eapply IH.
  - apply list_elem_of_singleton in Hin as <-. done.
Qed.

(** The state right after a begin satisfies the grants invariant. *)
Lemma grants_after_begin s i s1 o :
  lmac_step s (LBegin i) = Some (Done (s1, o)) ->
  grants_inv i (match locks (lm_channel (ls_mac s)) with Some (l, _) => l | None => [] end)
    s1 [].
Proof.
  simpl. destruct (ls_tasks s !! i) as [[| |]|] eqn:Hi; try done.
  destruct (begin_start _) as [[[asked waits] lm]|e] eqn:Hb; intros [= <- <-];
    intros asked' waits' _ Hw; [|congruence].
  apply lookup_set_task in Hw as [[_ [= -> ->]]|[Hne _]]; [|done].
  assert (asked = match locks (lm_channel (ls_mac s)) with Some (l, _) => l | None => [] end)
    as <-.
  { unfold begin_start in Hb. by repeat case_match; simplify_eq. }
  apply begin_start_requests in Hb as (Hlen & Hno & _). split_and!; [done..|].
  intros j Hj. destruct (Hno j Hj) as [Hnone Hgr]. split; [congruence|done].
Qed.
End LmacRuns.

(** ** Properties *)

Section LmacProperties.
Context {W : Type -> Type} `{RadioLaws, WatchLaws W}.
Implicit Types (i j : nat) (ch : Z) (cs : ChannelState).

(** C20 The channel lock, on every branch: for a valid channel, an interface
    that no other one keeps from it gets the lock and the radio is tuned to the
    channel; if others hold the lock, it joins them exactly when it asks for their
    channel, without retuning, and otherwise gets an error and nothing changes.
    No lock of another interface is ever affected. *)
Theorem lock_channel_spec cs i ch :
  locks_ok cs -> i < INTERFACE_COUNT -> valid_channel ch = true ->
  exists r cs', lock_channel_internal cs i ch = Done (r, cs') /\ locks_ok cs' /\
    (forall j, j <> i -> holds cs' j <-> holds cs j) /\
    (~ locked_elsewhere cs i -> r = Ok tt /\ holds cs' i /\ home_channel cs' = Some ch /\
       current_channel (channel_controller cs') = Some ch) /\
    (locked_elsewhere cs i ->
       if decide (home_channel cs = Some ch)
       then r = Ok tt /\ holds cs' i /\ home_channel cs' = Some ch /\
            channel_controller cs' = channel_controller cs
       else r = Err ChannelLockedByOtherInterface /\ cs' = cs).
Proof.
  intros Hok Hi Hv. destruct (locked_elsewhere_dec cs i Hok Hi) as [Hel|Hno].
  - destruct (lock_shared_effect cs i ch Hok Hi Hel)
      as (r & cs' & Hl & Hok' & _ & Hhome & Hctl & Hj & Hcase).
    exists r, cs'. split_and!; [done..| |]; [done|]. intros _.
    case_decide as Hsame; [|done]. destruct Hcase. split_and!; congruence || done.
  - destruct (lock_alone_effect cs i ch Hok Hi Hno)
      as (r & cs' & Hl & Hok' & _ & Hh & Hhome & Hno' & Hcase). rewrite Hv in Hcase.
    destruct Hcase as [-> Hcur]. exists (Ok tt), cs'. split_and!; [done..| | |]; try done.
    intros j Hj. split; intros Hhj; exfalso; [apply Hno'|apply Hno]; by exists j.
Qed.

(** While no off-channel operation runs, the radio is on the home channel:
    after any sequence of locks, unlocks, requests, grants and operations of all
    interfaces on valid channels, if the channel is locked and no interface is
    operating off channel then the locked channel is the tuned one. *)
Theorem home_channel_tuned ctl acts (s : LSystem (W := W)) os ch :
  run lmac_step (lsystem_new ctl) acts = Some (Done (s, os)) ->
  Forall action_ok acts -> ~ operating s ->
  home_channel (lm_channel (ls_mac s)) = Some ch ->
  current_channel (channel_controller (lm_channel (ls_mac s))) = Some ch.
Proof. intros Hr Hf Hno Hh. by apply (lo_tuned s (lmac_reachable _ _ _ _ Hr Hf)). Qed.

(** C21 An off-channel operation needs every holder's grant: when interface
    [i]'s [try_begin_interface_off_channel_operation] succeeds, each interface
    that held the channel lock when it was called has granted a request since
    then. *)
Theorem off_channel_needs_grants (s : LSystem (W := W)) i acts s1 os s2 op j :
  run lmac_step s (LBegin i :: acts) = Some (Done (s1, os)) -> LBegin i ∉ acts ->
  lmac_step s1 (LPollBegin i) = Some (Done (s2, LOStarted op)) ->
  holds (lm_channel (ls_mac s)) j -> LGrant j ∈ acts.
Proof.
  intros Hr Hnb Hp (l & c & Hl & Hj). apply run_cons in Hr as (s0 & o & os' & Hb & Hr & ->).
  apply grants_after_begin in Hb. rewrite Hl in Hb.
  assert (grants_inv i l s1 acts) as Hinv.
  { revert Hr. apply (run_invariant lmac_step (fun s acts _ => grants_inv i l s acts)); [done|].
    intros. by eapply grants_inv_step. }
  simpl in Hp. destruct (ls_tasks s1 !! i) as [[|asked waits|]|] eqn:Hi; try done.
  destruct (Hinv asked waits Hnb Hi) as (-> & Hlen & Hg).
  destruct (begin_poll _ _ _) as [[p waits'] lm] eqn:Hbp.
  apply begin_poll_requests in Hbp as [Hpr Hok].
  destruct p as [[op'|e]|]; simplify_eq. destruct (Hok op eq_refl) as [_ Hall].
  apply poll_requests_spec in Hpr as (Hlen' & Hw & _ & _).
  destruct (Hg j Hj) as [Hg1 Hg2]. pose proof (lookup_lt_Some _ _ _ Hj) as Hlt.
  destruct (lookup_lt_is_Some_2 waits' j) as [w Hwj]; [lia|].
  rewrite (Hall _ _ Hwj) in Hwj. apply Hw in Hwj as [?|[_ ?]]; auto.
Qed.

(** A rejected channel keeps the lock: when the driver rejects the channel
    an unobstructed interface asks for, [lock_channel] returns
    [InvalidChannel], but the interface now holds the lock and the invalid
    channel is the home channel, since the [?] on the inner result leaves before
    the [unlock_channel_internal] meant for this case. *)
Theorem invalid_channel_keeps_lock cs i ch :
  locks_ok cs -> i < INTERFACE_COUNT -> ~ locked_elsewhere cs i ->
  valid_channel ch = false ->
  exists cs', lock_channel_internal cs i ch = Done (Err InvalidChannel, cs') /\
    holds cs' i /\ home_channel cs' = Some ch /\
    channel_controller cs' = channel_controller cs.
Proof.
  intros Hok Hi Hno Hv. destruct (lock_alone_effect cs i ch Hok Hi Hno)
    as (r & cs' & Hl & Hok' & _ & Hh & Hhome & _ & Hcase). rewrite Hv in Hcase.
  destruct Hcase as [-> Hctl]. eauto 10.
Qed.

(** Waiting for completion stops waiting: once any off-channel operation has
    ended, [wait_for_off_channel_completion] returns at once for ever after, even
    while another operation is in progress, because the watch it reads keeps its
    last value. *)
Theorem completion_wait_stale ctl acts (s : LSystem (W := W)) os i :
  run lmac_step (lsystem_new ctl) acts = Some (Done (s, os)) ->
  LOpDrop i ∈ acts -> completion_wait_poll (ls_mac s) = PollReady tt.
Proof.
  intros Hr Hin. unfold completion_wait_poll. by rewrite (completion_sent _ _ _ _ _ Hr Hin).
Qed.
End LmacProperties.

(** ** A race between two operations *)

(** Interface 0 holds the lock; 1 asks for an off-channel operation and is
    granted it; before 1 is polled again, 0 unlocks and 2 begins. *)
Definition race_acts : list lmac_action :=
  [LLock 0 6; LBegin 1; LAccept 0; LGrant 0; LUnlock 0; LBegin 2; LPollBegin 2;
   LPollBegin 1].

Definition demo_lmac (acts : list lmac_action) : LSystem (W := option) :=
  match run lmac_step (lsystem_new (W := option) radio_off) acts with
  | Some (Done (s, _)) => s
  | _ => lsystem_new radio_off
  end.
Definition demo_lmac_outputs (acts : list lmac_action) : list lmac_output :=
  match run lmac_step (lsystem_new (W := option) radio_off) acts with
  | Some (Done (_, os)) => os
  | _ => []
  end.

(** Two interfaces can both end up with an off-channel operation, since
    [try_begin_interface_off_channel_operation] checks for one only before it
    awaits the grants; and when the first of them ends, none is reported in
    progress although the other still tunes the radio. *)
Theorem concurrent_operations :
  exists s os op1 op2 s' o,
    run lmac_step (lsystem_new (W := option) radio_off) race_acts = Some (Done (s, os)) /\
    ls_tasks s !! 1 = Some (TOperating op1) /\ ls_tasks s !! 2 = Some (TOperating op2) /\
    lmac_step s (LOpDrop 2) = Some (Done (s', o)) /\
    ls_tasks s' !! 1 = Some (TOperating op1) /\
    off_channel_operation_in_progress (lm_channel (ls_mac s')) = false.
Proof. eexists _, _, _, _, _, _. split_and!; reflexivity. Qed.

(** ** Witnesses *)

Definition demo_begin : list lmac_action := [LAccept 0; LGrant 0].
Definition demo_operation : list lmac_action :=
  [LLock 0 6; LBegin 1; LAccept 0; LGrant 0; LPollBegin 1; LSetChannel 1 11; LOpDrop 1].

Lemma lock_channel_spec_witness :
  exists r cs', lock_channel_internal (channel_state_new radio_off) 2 6 = Done (r, cs') /\
    locks_ok cs' /\ r = Ok tt /\ home_channel cs' = Some 6%Z.
Proof.
  destruct (lock_channel_spec (channel_state_new radio_off) 2 6)
    as (r & cs' & Hl & Hok & _ & Hfree & _); [done|simpl; lia|done|].
  exists r, cs'. destruct Hfree as (-> & _ & Hh & _); [|done].
  intros (j & _ & l & c & Hc & _). discriminate Hc.
Defined.

Lemma home_channel_tuned_witness :
  current_channel (channel_controller (lm_channel (ls_mac (demo_lmac demo_operation))))
    = Some 6%Z.
Proof.
  apply (home_channel_tuned radio_off demo_operation (demo_lmac demo_operation)
    (demo_lmac_outputs demo_operation) 6); [reflexivity| | |reflexivity].
  - repeat (apply Forall_cons; split; [split; [simpl; lia|reflexivity || exact I]|]).
    by apply Forall_nil.
  - intros (i & op & Hi). do 4 (destruct i; [discriminate Hi|]). discriminate Hi.
Defined.

Lemma off_channel_needs_grants_witness : LGrant 0 ∈ demo_begin.
Proof.
  eapply (off_channel_needs_grants (demo_lmac [LLock 0 6]) 1 demo_begin);
    [reflexivity|set_solver|reflexivity|].
  eexists _, _. split; reflexivity.
Defined.

Lemma invalid_channel_keeps_lock_witness :
  exists cs', lock_channel_internal (channel_state_new radio_off) 0 99 =
      Done (Err InvalidChannel, cs') /\ home_channel cs' = Some 99%Z.
Proof.
  destruct (invalid_channel_keeps_lock (channel_state_new radio_off) 0 99)
    as (cs' & Hl & _ & Hh & _); [done|simpl; lia| |done|by exists cs'].
  intros (j & _ & l & c & Hc & _). discriminate Hc.
Defined.

Lemma completion_wait_stale_witness :
  completion_wait_poll (ls_mac (demo_lmac demo_operation)) = PollReady tt.
Proof.
  apply (completion_wait_stale radio_off demo_operation (demo_lmac demo_operation)
    (demo_lmac_outputs demo_operation) 1); [reflexivity|set_solver].
Defined.
