(* ===== verification/Locks.v ===== *)
(** * One interface's view of the state all interfaces share

    What interfaces do to the channel lock and to off-channel operations, what that leaves
    of one's own lock, and how an interface bring-up begins. *)
From S2P Require Import Prelude Platform Lmac.

(** What an interface does to the state all interfaces share: its lock, its answer to a
    request, an off-channel operation. *)
Inductive mac_action : Type :=
| OLock (i : nat) (ch : Z)
| OUnlock (i : nat)
| OGrant (i : nat)
| OReject (i : nat)
| OBegin
| OPollBegin (i : nat) (waits : list wait_slot)
| OTune (ch : Z)
| OEnd (op : OffChannelOperation).

Section Actions.
Context {W : Type -> Type} `{Radio, Watch W}.
Context (interface : nat).
Implicit Types (lm : LMac (W := W)) (o : mac_action).

(** The answer of an interface to a request, as it stands. *)
Definition answer_request lm i (answer : OffChannelRequestState -> OffChannelRequestState) : LMac :=
  with_requesters lm (alter answer i (lm_requesters lm)).

Definition mac_apply lm o : outcome LMac :=
  match o with
  | OLock i ch => '(_, cs) ← lock_channel (lm_channel lm) i ch; mret (with_channel lm cs)
  | OUnlock i => cs ← unlock_channel (lm_channel lm) i; mret (with_channel lm cs)
  | OGrant i => mret (answer_request lm i (fun r => fst (request_grant r)))
  | OReject i => mret (answer_request lm i (fun r => fst (request_reject r)))
  | OBegin => mret (match begin_start lm with Ok (_, _, lm) => lm | Err _ => lm end)
  | OPollBegin i waits => let '(_, _, lm) := begin_poll lm i waits in mret lm
  | OTune ch => mret (snd (op_set_channel lm ch))
  | OEnd op => mret (fst (op_drop lm op))
  end.

(** Locks and answers belong to an interface that exists. *)
Definition mac_allowed (P : nat -> Prop) `{forall i, Decision (P i)} o : bool :=
  match o with
  | OLock i _ | OUnlock i | OGrant i | OReject i => bool_decide (P i /\ i < INTERFACE_COUNT)
  | _ => true
  end.

(** What others do, for our interface; the rest does not happen. *)
Definition mac_step lm o : outcome LMac :=
  if mac_allowed (fun i => i <> interface) o then mac_apply lm o else mret lm.

(** ** Sequences of actions *)

Fixpoint mac_runs lm (os : list mac_action) : outcome LMac :=
  match os with
  | [] => mret lm
  | o :: os => lm ← mac_apply lm o; mac_runs lm os
  end.

(** From one state to another by actions of the interfaces in [P]. *)
Definition mac_reach (P : nat -> Prop) `{forall i, Decision (P i)} lm lm' : Prop :=
  exists os, Forall (fun o => mac_allowed P o = true) os /\ mac_runs lm os = Done lm'.

Lemma mac_reach_refl P `{forall i, Decision (P i)} lm : mac_reach P lm lm.
Proof. by exists []. Qed.

Lemma mac_reach_one P `{forall i, Decision (P i)} lm o lm' :
  mac_allowed P o = true -> mac_apply lm o = Done lm' -> mac_reach P lm lm'.
Proof. intros Ho Hs. exists [o]. split; [by constructor|]. simpl. by rewrite Hs. Qed.

Lemma mac_runs_app lm os1 os2 : mac_runs lm (os1 ++ os2) = (lm ← mac_runs lm os1; mac_runs lm os2).
Proof.
  revert lm. induction os1 as [|o os1 IH]; intros lm; [done|]. simpl.
  destruct (mac_apply lm o) as [lm1|]; [apply IH|done].
Qed.

Lemma mac_reach_trans P `{forall i, Decision (P i)} lm1 lm2 lm3 :
  mac_reach P lm1 lm2 -> mac_reach P lm2 lm3 -> mac_reach P lm1 lm3.
Proof.
  intros (os1 & Ho1 & Hr1) (os2 & Ho2 & Hr2). exists (os1 ++ os2).
  split; [by apply Forall_app|]. by rewrite mac_runs_app, Hr1.
Qed.

(** Arrays have one element per interface. *)
Definition locks_width (cs : ChannelState) : Prop :=
  match locks cs with Some (l, _) => length l = INTERFACE_COUNT | None => True end.
Definition mac_width lm : Prop :=
  locks_width (lm_channel lm) /\ length (lm_requesters lm) = INTERFACE_COUNT.

Lemma locks_ok_width lm :
  locks_ok (lm_channel lm) -> length (lm_requesters lm) = INTERFACE_COUNT -> mac_width lm.
Proof.
  unfold mac_width, locks_width, locks_ok. by destruct (locks (lm_channel lm)) as [[l c]|]; [intros []|].
Qed.

Lemma length_poll_requests rs waits : length (fst (poll_requests rs waits)) = length rs.
Proof.
  revert waits. induction rs as [|r rs IH]; intros [|w waits]; simpl; [done..|]. specialize (IH waits).
  destruct (poll_requests rs waits) as [rs' ws']. simpl in IH.
  destruct w; [by simpl; rewrite IH|]. destruct (request_poll r) as [[? ?] ?]. simpl. by rewrite IH.
Qed.

Lemma tuned_locks lm ch :
  locks (lm_channel (snd (op_set_channel lm ch))) = locks (lm_channel lm) /\
  lm_requesters (snd (op_set_channel lm ch)) = lm_requesters lm.
Proof. unfold op_set_channel. by destruct (set_channel _ _). Qed.

Lemma op_drop_requesters lm op : lm_requesters (fst (op_drop lm op)) = lm_requesters lm.
Proof.
  unfold op_drop. cbn [fst lm_requesters with_channel].
  destruct (home_channel _) as [ch|]; [apply tuned_locks|].
  destruct (previously_locked_channel op) as [ch|]; [apply tuned_locks|done].
Qed.

(** Actions on requests and operations do not panic and leave the locks as they are. *)
Lemma quiet_action lm o :
  match o with OLock _ _ | OUnlock _ => False | _ => True end ->
  exists lm', mac_apply lm o = Done lm' /\ locks (lm_channel lm') = locks (lm_channel lm) /\
    (mac_width lm -> mac_width lm').
Proof.
  assert (forall lm', locks (lm_channel lm') = locks (lm_channel lm) ->
    (mac_width lm -> length (lm_requesters lm') = INTERFACE_COUNT) -> mac_width lm -> mac_width lm') as Hw.
  { unfold mac_width, locks_width. intros lm' -> Hr [Hl Hlen]. split; [done|]. by apply Hr. }
  intros Ho. destruct o as [i ch|i|i|i| |i waits|ch|op]; try done; simpl.
  1-2: eexists; (split; [done|]); (split; [done|]); apply Hw; [done|]; intros [_ Hlen];
    simpl; by rewrite length_alter.
  - destruct (begin_start lm) as [[[asked waits] lm']|err] eqn:Hb; [|by exists lm].
    pose proof (begin_start_channel _ _ _ _ Hb) as Hc. exists lm'. split; [done|].
    split; [by rewrite Hc|]. apply Hw; [by rewrite Hc|]. intros [Hl Hlen].
    unfold locks_width in Hl. unfold begin_start in Hb. destruct (off_channel_operation_in_progress _); [done|].
    destruct (locks (lm_channel lm)) as [[l c]|]; injection Hb as _ _ <-; [|done].
    cbn [lm_requesters with_requesters]. rewrite length_zip_with. lia.
  - destruct (begin_poll lm i waits) as [[p ws] lm'] eqn:Hb. exists lm'. split; [done|].
    destruct (begin_poll_channel _ _ _ _ _ _ Hb) as [Hlk _]. split; [done|]. apply Hw; [done|].
    intros [_ Hlen]. apply begin_poll_requests in Hb as [Hp _]. apply (f_equal fst) in Hp.
    cbn [fst] in Hp. by rewrite <- Hp, length_poll_requests.
  - destruct (tuned_locks lm ch) as [Hlk Hrs]. eexists. split; [done|]. split; [done|].
    apply Hw; [done|]. intros [_ Hlen]. by rewrite Hrs.
  - eexists. split; [done|]. pose proof (op_drop_locks lm op) as Hlk. split; [done|].
    apply Hw; [done|]. intros [_ Hlen].
    exact (eq_trans (f_equal length (op_drop_requesters lm op)) Hlen).
Qed.

Lemma unlock_channel_width cs i cs' :
  cs_unlock_channel cs i = Done cs' -> locks_width cs -> locks_width cs'.
Proof.
  unfold cs_unlock_channel, locks_width. intros Hu.
  destruct (locks cs) as [[l c]|] eqn:Hl; [|injection Hu as <-; by rewrite Hl].
  apply outcome_bind_Done in Hu as ([] & _ & Hu); injection Hu as <-; [|by rewrite Hl].
  simpl. case_bool_decide; [done|]. by rewrite length_insert.
Qed.

Lemma cs_lock_width cs i ch r cs' :
  cs_lock_channel cs i ch = Done (r, cs') -> locks_width cs -> locks_width cs'.
Proof.
  intros Hc Hw. apply outcome_bind_Done in Hc as ([res l] & Hd & Hc).
  assert (locks_width (set_locks cs l)) as Hl.
  { unfold lock_decision, locks_width in *. simpl.
    destruct (locks cs) as [[ls c]|]; [|injection Hd as _ <-; by rewrite length_fmap, length_seq].
    apply outcome_bind_Done in Hd as (mine & _ & Hd).
    destruct (negb _ && _); [|destruct (mine && _); [|destruct (_ && _)]];
      injection Hd as _ <-; simpl; by rewrite ?length_insert. }
  cbv zeta in Hc. destruct res as [[]|]; [destruct (set_channel _ _)|..]; by injection Hc as _ <-.
Qed.

Lemma lock_channel_width cs i ch r cs' :
  lock_channel cs i ch = Done (r, cs') -> locks_width cs -> locks_width cs'.
Proof.
  intros Hc Hw. apply outcome_bind_Done in Hc as ([res cs1] & Hd & Hc).
  apply cs_lock_width in Hd as Hw1; [|done].
  destruct res as [[]|]; [destruct (set_channel _ _)|..]; try by injection Hc as _ <-.
  apply outcome_bind_Done in Hc as (cs2 & Hu & Hc). injection Hc as _ <-.
  by eapply unlock_channel_width.
Qed.

Lemma mac_apply_width lm o lm' : mac_apply lm o = Done lm' -> mac_width lm -> mac_width lm'.
Proof.
  intros Hs. assert (match o with OLock _ _ | OUnlock _ => False | _ => True end \/
    match o with OLock _ _ | OUnlock _ => True | _ => False end) as [Hq|Hq] by (destruct o; auto).
  { destruct (quiet_action lm o Hq) as (lm2 & Hs2 & _ & Hw). rewrite Hs in Hs2. by injection Hs2 as <-. }
  destruct o as [i ch|i| | | | | | ]; try done; simpl in Hs; intros [Hl Hr].
  - apply outcome_bind_Done in Hs as ([r cs] & Hk & [= <-]). split; [by eapply lock_channel_width|done].
  - apply outcome_bind_Done in Hs as (cs & Hk & [= <-]). split; [by eapply unlock_channel_width|done].
Qed.
End Actions.

Section Locks.
Context `{RadioLaws}.
Context (interface : nat).

Lemma holds_home (cs : ChannelState) i : holds cs i -> is_Some (home_channel cs).
Proof. intros (l & c & Hl & _). unfold home_channel. rewrite Hl. by eexists. Qed.

(** What another interface's lock or unlock does to ours. *)
Definition other_lock_step (cs cs' : ChannelState) : Prop :=
  locks_ok cs' /\ (~ holds cs interface -> ~ holds cs' interface) /\
  (holds cs interface -> holds cs' interface /\ home_channel cs' = home_channel cs).

Lemma lock_by_other (cs : ChannelState) i ch :
  locks_ok cs -> i <> interface -> i < INTERFACE_COUNT ->
  exists r cs', lock_channel cs i ch = Done (r, cs') /\ other_lock_step cs cs'.
Proof.
  intros Hok Hne Hi. unfold lock_channel, other_lock_step.
  destruct (locked_elsewhere_dec cs i Hok Hi) as [Hel|Hno].
  - destruct (lock_shared_effect cs i ch Hok Hi Hel) as (r & cs' & -> & Hok' & _ & Hh & _ & Hj & _).
    exists r, cs'. specialize (Hj interface (not_eq_sym Hne)). tauto.
  - destruct (lock_alone_effect cs i ch Hok Hi Hno) as (r & cs' & -> & Hok' & _ & _ & _ & Hno' & _).
    exists r, cs'. split; [done|]. split; [done|].
    assert (forall c : ChannelState, ~ locked_elsewhere c i -> ~ holds c interface) as Hnh.
    { intros c Hc Hh. apply Hc. by exists interface. }
    split; [by intros _; apply Hnh|]. intros Hh. by destruct (Hnh cs Hno).
Qed.

Lemma unlock_by_other (cs : ChannelState) i :
  locks_ok cs -> i <> interface -> i < INTERFACE_COUNT ->
  exists cs', unlock_channel cs i = Done cs' /\ other_lock_step cs cs'.
Proof.
  intros Hok Hne Hi. destruct (unlock_spec cs i Hok Hi) as (cs' & Hu & Hok' & _ & _ & _ & Hj & Hh).
  exists cs'. split; [exact Hu|]. specialize (Hj interface (not_eq_sym Hne)).
  split; [done|]. split; [tauto|]. intros Hown. apply Hj in Hown. split; [done|].
  destruct Hh as [->|Hn]; [done|]. apply holds_home in Hown as [c Hc]. congruence.
Qed.

(** ** Actions of others *)

Context {W : Type -> Type} `{!Watch W}.
Implicit Types (lm : LMac (W := W)) (o : mac_action).

Lemma same_locks (cs cs' : ChannelState) :
  locks_ok cs -> locks cs' = locks cs -> other_lock_step cs cs'.
Proof. intros Hok Hl. unfold other_lock_step, locks_ok, holds, home_channel. by rewrite Hl. Qed.

(** Nothing others do panics, or takes our lock or its channel. *)
Lemma mac_step_spec lm o :
  locks_ok (lm_channel lm) ->
  exists lm', mac_step interface lm o = Done lm' /\ other_lock_step (lm_channel lm) (lm_channel lm') /\
    (length (lm_requesters lm) = INTERFACE_COUNT -> length (lm_requesters lm') = INTERFACE_COUNT).
Proof.
  intros Hl. pose proof (locks_ok_width lm Hl) as Hw.
  unfold mac_step.
  destruct (mac_allowed _ o) eqn:Ho; [|exists lm; split; [done|]; split; [by apply same_locks|done]].
  assert (match o with OLock _ _ | OUnlock _ => False | _ => True end \/
    match o with OLock _ _ | OUnlock _ => True | _ => False end) as [Hq|Hq] by (destruct o; auto).
  { destruct (quiet_action lm o Hq) as (lm' & Hs & Hlk & Hr). exists lm'.
    split; [done|]. split; [by apply same_locks|]. intros Hlen. by apply Hr, Hw. }
  destruct o as [i ch|i| | | | | | ]; try done; simpl in *; apply bool_decide_eq_true in Ho as [Hne Hi].
  - destruct (lock_by_other (lm_channel lm) i ch Hl) as (r & cs & -> & Hst); [done..|]. by eexists.
  - destruct (unlock_by_other (lm_channel lm) i Hl) as (cs & -> & Hst); [done..|]. by eexists.
Qed.

(** Actions of interfaces that exist keep the locks sound. *)
Lemma mac_reach_locks P `{forall i, Decision (P i)} lm lm' :
  mac_reach P lm lm' -> locks_ok (lm_channel lm) -> locks_ok (lm_channel lm').
Proof.
  intros (os & Ho & Hr). revert lm Ho Hr. induction os as [|o os IH]; intros lm Ho Hr Hl.
  { by injection Hr as <-. }
  apply Forall_cons in Ho as [Ho Hos]. apply outcome_bind_Done in Hr as (lm1 & Hs & Hr).
  apply (IH lm1 Hos Hr). clear IH Hos Hr.
  assert (match o with OLock _ _ | OUnlock _ => False | _ => True end \/
    match o with OLock _ _ | OUnlock _ => True | _ => False end) as [Hq|Hq] by (destruct o; auto).
  { destruct (quiet_action lm o Hq) as (lm2 & Hs2 & Hlk & _). rewrite Hs in Hs2. injection Hs2 as <-.
    unfold locks_ok. by rewrite Hlk. }
  destruct o as [i ch|i| | | | | | ]; try done; simpl in *; apply bool_decide_eq_true in Ho as [_ Hi].
  - apply outcome_bind_Done in Hs as ([r cs] & Hk & [= <-]).
    destruct (locked_elsewhere_dec (lm_channel lm) i Hl Hi) as [Hel|Hno].
    + destruct (lock_shared_effect (lm_channel lm) i ch Hl Hi Hel) as (r' & cs' & Hk' & Hok & _).
      unfold lock_channel in Hk. rewrite Hk in Hk'. by injection Hk' as _ <-.
    + destruct (lock_alone_effect (lm_channel lm) i ch Hl Hi Hno) as (r' & cs' & Hk' & Hok & _).
      unfold lock_channel in Hk. rewrite Hk in Hk'. by injection Hk' as _ <-.
  - apply outcome_bind_Done in Hs as (cs & Hk & [= <-]).
    destruct (unlock_spec (lm_channel lm) i Hl Hi) as (cs' & Hk' & Hok & _).
    unfold unlock_channel in Hk. rewrite Hk in Hk'. by injection Hk' as <-.
Qed.

Context (interface_ok : interface < INTERFACE_COUNT).

Lemma begin_bringup (cs : ChannelState) ch :
  locks_ok cs -> valid_channel ch = true -> ~ holds cs interface ->
  exists r cs', begin_interface_bringup_operation cs interface ch = Done (r, cs') /\ locks_ok cs' /\
    match r with
    | Ok op => op = interface /\ holds cs' interface /\ home_channel cs' = Some ch
    | Err e => e = ChannelLockedByOtherInterface /\ cs' = cs
    end.
Proof.
  intros Hok Hv Hn. unfold begin_interface_bringup_operation.
  destruct (locked_elsewhere_dec cs interface Hok interface_ok) as [Hel|Hno].
  - destruct (lock_shared_effect cs interface ch Hok interface_ok Hel)
      as (r & cs' & -> & Hok' & _ & Hh & _ & _ & Hr). simpl.
    case_decide; destruct Hr as [-> Hr]; eexists _, _; (split; [done|]); (split; [done|]); [|done].
    split_and!; [done|done|congruence].
  - destruct (lock_alone_effect cs interface ch Hok interface_ok Hno)
      as (r & cs' & -> & Hok' & _ & Hh & Hc & _ & Hr). rewrite Hv in Hr. destruct Hr as [-> _]. simpl.
    by eexists _, _.
Qed.

Lemma begin_locks_ok (cs cs' : ChannelState) ch r :
  locks_ok cs -> begin_interface_bringup_operation cs interface ch = Done (r, cs') -> locks_ok cs'.
Proof.
  intros Hok. unfold begin_interface_bringup_operation.
  destruct (locked_elsewhere_dec cs interface Hok interface_ok) as [Hel|Hno].
  - destruct (lock_shared_effect cs interface ch Hok interface_ok Hel)
      as (r' & cs2 & -> & Hok' & _). simpl. by destruct r'; intros [= <- <-].
  - destruct (lock_alone_effect cs interface ch Hok interface_ok Hno)
      as (r' & cs2 & -> & Hok' & _). simpl. by destruct r'; intros [= <- <-].
Qed.

(** A bring-up never panics, and leaves others' locks alone. *)
Lemma begin_total (cs : ChannelState) ch :
  locks_ok cs -> exists r cs', begin_interface_bringup_operation cs interface ch = Done (r, cs') /\
    locks_ok cs' /\ forall op, r = Ok op ->
      holds cs' interface /\ home_channel cs' = Some ch.
Proof.
  intros Hok. unfold begin_interface_bringup_operation.
  destruct (locked_elsewhere_dec cs interface Hok interface_ok) as [Hel|Hno].
  - destruct (lock_shared_effect cs interface ch Hok interface_ok Hel)
      as (r & cs' & -> & Hok' & _ & Hh & _ & _ & Hr). simpl.
    case_decide; destruct Hr as [-> Hr]; eexists _, _; (split; [done|]); (split; [done|]);
      intros op [=]. split; [done|congruence].
  - destruct (lock_alone_effect cs interface ch Hok interface_ok Hno)
      as (r & cs' & -> & Hok' & _ & Hh & Hc & _ & Hr). simpl.
    destruct (valid_channel ch); destruct Hr as [-> _]; eexists _, _; (split; [done|]);
      (split; [done|]); intros op [=]; by split.
Qed.
End Locks.
