(* ===== verification/KeySlots.v ===== *)
(** * Key slots: foa/src/lmac/crypto.rs

    The hardware key slots and the 32-bit mask of the free ones.  The bit macros
    come from [ieee80211::macro_bits] and the key memory from the driver's
    [CryptoController]; [KeyHal] and [KeyHalLaws] state what the code uses of
    them. *)
From S2P Require Import Prelude.

Class KeyHal : Type := {
  KEY_SLOT_COUNT : nat;
  CryptoController : Type;
  CipherParameters : Type;
  CryptoError : Type;
  crypto_set_key : CryptoController -> nat -> nat -> Z -> list Z -> CipherParameters ->
    result CryptoError unit * CryptoController;
  (** Its result is ignored everywhere. *)
  crypto_delete_key : CryptoController -> nat -> CryptoController;
  bit : nat -> Z;
  check_bit : Z -> Z -> bool;
}.

Class KeyHalLaws `{KeyHal} : Type := {
  KEY_SLOT_COUNT_mask : KEY_SLOT_COUNT <= 32;
  bit_shift : forall i, bit i = Z.shiftl 1 (Z.of_nat i);
  check_bit_single : forall s i, check_bit s (bit i) = Z.testbit s (Z.of_nat i);
  (** Whether a key is installed in a slot. *)
  installed : CryptoController -> nat -> bool;
  delete_installed : forall c k j,
    installed (crypto_delete_key c k) j = if decide (j = k) then false else installed c j;
  set_key_others : forall c k iface id addr par j, j <> k ->
    installed (snd (crypto_set_key c k iface id addr par)) j = installed c j;
}.

Section KeySlots.
Context `{KeyHal}.
Implicit Types (k : nat).

(** ** Operations *)

(** [KeySlot]; its reference to the manager is the manager of the system. *)
Record KeySlot : Type := MkKeySlot {
  key_slot : Z;
  ks_interface : Z;
}.

Record KeySlotManager : Type := MkKeySlotManager {
  key_slot_state : Z;
  crypto_controller : CryptoController;
}.
Implicit Types (m : KeySlotManager).

Definition key_slots_new (c : CryptoController) : KeySlotManager :=
  MkKeySlotManager (u_max 32) c.

Definition acquire_key_slot m : option (nat * KeySlotManager) :=
  match list_find (fun i => check_bit (key_slot_state m) (bit i) = true)
          (seq 0 KEY_SLOT_COUNT) with
  | Some (_, k) =>
      Some (k, MkKeySlotManager
        (Z.land (key_slot_state m) (wrapping 32 (Z.lnot (bit k)))) (crypto_controller m))
  | None => None
  end.

Definition release_key_slot m k : KeySlotManager :=
  MkKeySlotManager (Z.lor (key_slot_state m) (wrapping 32 (bit k)))
    (crypto_delete_key (crypto_controller m) k).

(** [KeySlot::key_slot]. *)
Definition key_slot_index (s : KeySlot) : nat := Z.to_nat (key_slot s).

Definition set_key m (s : KeySlot) (id : Z) (address : list Z) (par : CipherParameters)
  : result CryptoError unit * KeySlotManager :=
  let '(r, c) := crypto_set_key (crypto_controller m) (key_slot_index s)
    (Z.to_nat (ks_interface s)) id address par in
  (r, MkKeySlotManager (key_slot_state m) c).

(** [Drop for KeySlot]. *)
Definition key_slot_drop m (s : KeySlot) : KeySlotManager :=
  let m := MkKeySlotManager (key_slot_state m)
    (crypto_delete_key (crypto_controller m) (key_slot_index s)) in
  release_key_slot m (key_slot_index s).

(** [LMacInterfaceControl::acquire_key_slot]. *)
Definition lmac_acquire_key_slot m (interface : nat) : option (KeySlot * KeySlotManager) :=
  match acquire_key_slot m with
  | Some (k, m) =>
      Some (MkKeySlot (wrapping 8 (Z.of_nat k)) (wrapping 8 (Z.of_nat interface)), m)
  | None => None
  end.

(** ** The manager with the live [KeySlot]s *)

Record KSystem : Type := MkKSystem {
  ks_manager : KeySlotManager;
  ks_held : list KeySlot;
}.

Inductive ks_action : Type :=
| KAcquire (interface : nat)
| KSetKey (n : nat) (id : Z) (address : list Z) (par : CipherParameters)
| KDrop (n : nat).

Inductive ks_output : Type :=
| KOAcquired (s : option KeySlot)
| KOSet (r : result CryptoError unit)
| KODropped.

Definition ksystem_new (c : CryptoController) : KSystem := MkKSystem (key_slots_new c) [].

(** A live slot is named by its position. *)
Definition ks_step (s : KSystem) (a : ks_action) : option (outcome (KSystem * ks_output)) :=
  match a with
  | KAcquire i => Some (Done
      match lmac_acquire_key_slot (ks_manager s) i with
      | Some (slot, m) => (MkKSystem m (slot :: ks_held s), KOAcquired (Some slot))
      | None => (s, KOAcquired None)
      end)
  | KSetKey n id address par =>
      match ks_held s !! n with
      | Some slot =>
          let '(r, m) := set_key (ks_manager s) slot id address par in
          Some (Done (MkKSystem m (ks_held s), KOSet r))
      | None => None
      end
  | KDrop n =>
      match ks_held s !! n with
      | Some slot => Some (Done (MkKSystem (key_slot_drop (ks_manager s) slot)
          (delete n (ks_held s)), KODropped))
      | None => None
      end
  end.

Definition held_slots (s : KSystem) : list nat := key_slot_index <$> ks_held s.
End KeySlots.

(** ** The invariant *)

Section KeySlotFacts.
Context `{KeyHalLaws}.
Implicit Types (k j : nat) (m : KeySlotManager) (s : KSystem).

Definition is_free m k : Prop := Z.testbit (key_slot_state m) (Z.of_nat k) = true.

Record ks_inv s : Prop := {
  ki_nodup : NoDup (held_slots s);
  ki_range : forall k, k ∈ held_slots s -> k < KEY_SLOT_COUNT;
  ki_free : forall k, k < KEY_SLOT_COUNT -> is_free (ks_manager s) k <-> k ∉ held_slots s;
  ki_empty : forall k, k < KEY_SLOT_COUNT -> k ∉ held_slots s ->
    installed (crypto_controller (ks_manager s)) k = false;
}.

Lemma testbit_mask k j :
  k < 32 -> j < 32 ->
  Z.testbit (wrapping 32 (Z.lnot (bit k))) (Z.of_nat j) = bool_decide (j <> k).
Proof.
  intros Hk Hj. unfold wrapping. rewrite Z.mod_pow2_bits_low by lia.
  rewrite Z.lnot_spec, bit_shift, Z.shiftl_1_l, Z.pow2_bits_eqb by lia.
  destruct (decide (j = k)) as [->|Hne].
  - by rewrite Z.eqb_refl, bool_decide_false by tauto.
  - rewrite bool_decide_true by done. apply negb_true_iff, Z.eqb_neq. lia.
Qed.

Lemma testbit_bit k j :
  k < 32 -> j < 32 -> Z.testbit (wrapping 32 (bit k)) (Z.of_nat j) = bool_decide (j = k).
Proof.
  intros Hk Hj. unfold wrapping. rewrite Z.mod_pow2_bits_low by lia.
  rewrite bit_shift, Z.shiftl_1_l, Z.pow2_bits_eqb by lia.
  destruct (decide (j = k)) as [->|Hne].
  - by rewrite Z.eqb_refl, bool_decide_true.
  - rewrite bool_decide_false by done. apply Z.eqb_neq. lia.
Qed.

Lemma acquired_free m k m' j :
  acquire_key_slot m = Some (k, m') -> j < KEY_SLOT_COUNT ->
  (is_free m' j <-> is_free m j /\ j <> k) /\ crypto_controller m' = crypto_controller m.
Proof.
  unfold acquire_key_slot. destruct (list_find _ _) as [[n k']|] eqn:Hf; [|done].
  intros [= <- <-] Hj. apply list_find_Some in Hf as (Hk & _ & _).
  apply lookup_seq in Hk as [-> Hk]. pose proof KEY_SLOT_COUNT_mask.
  unfold is_free. simpl. rewrite Z.land_spec, testbit_mask by lia.
  by rewrite andb_true_iff, bool_decide_eq_true.
Qed.

(** The acquired slot is the lowest free one. *)
Lemma acquire_lowest m k m' :
  acquire_key_slot m = Some (k, m') ->
  k < KEY_SLOT_COUNT /\ is_free m k /\ forall j, j < k -> ~ is_free m j.
Proof.
  unfold acquire_key_slot. destruct (list_find _ _) as [[n k']|] eqn:Hf; [|done].
  intros [= <- <-]. apply list_find_Some in Hf as (Hk & Hfree & Hlow).
  apply lookup_seq in Hk as [-> Hk]. simpl in *. rewrite check_bit_single in Hfree.
  split_and!; [done|done|]. intros j Hj Hfj. apply (Hlow j j); [|lia|].
  - apply lookup_seq. lia.
  - by rewrite check_bit_single.
Qed.

Lemma acquire_None m :
  acquire_key_slot m = None <-> forall j, j < KEY_SLOT_COUNT -> ~ is_free m j.
Proof.
  unfold acquire_key_slot, is_free. destruct (list_find _ _) as [[n k]|] eqn:Hf.
  - split; [done|]. intros Hno. apply list_find_Some in Hf as (Hk & Hfree & _).
    apply lookup_seq in Hk as [-> Hk]. rewrite check_bit_single in Hfree.
    exfalso. by apply (Hno _ Hk).
  - split; [intros _ j Hj Hfj|done]. apply list_find_None in Hf.
    rewrite Forall_forall in Hf. apply (Hf j); [apply elem_of_seq; lia|].
    by rewrite check_bit_single.
Qed.

Lemma released_free m k j :
  k < KEY_SLOT_COUNT -> j < KEY_SLOT_COUNT ->
  is_free (release_key_slot m k) j <-> is_free m j \/ j = k.
Proof.
  intros Hk Hj. pose proof KEY_SLOT_COUNT_mask. unfold is_free. simpl.
  rewrite Z.lor_spec, testbit_bit by lia.
  by rewrite orb_true_iff, bool_decide_eq_true.
Qed.

Lemma dropped_slot m slot j :
  key_slot_index slot < KEY_SLOT_COUNT -> j < KEY_SLOT_COUNT ->
  is_free (key_slot_drop m slot) j <-> is_free m j \/ j = key_slot_index slot.
Proof. intros Hk Hj. unfold key_slot_drop. by rewrite released_free. Qed.

Lemma ksystem_new_inv c :
  (forall k, installed c k = false) -> ks_inv (ksystem_new c).
Proof.
  intros Hc. pose proof KEY_SLOT_COUNT_mask.
  split; simpl; try done; [apply NoDup_nil_2|set_solver|].
  intros k Hk. split; [set_solver|intros _].
  unfold is_free. simpl. unfold u_max.
  change (2 ^ 32 - 1)%Z with (Z.ones 32). apply Z.ones_spec_low. lia.
Qed.

Lemma acquired_index k i :
  k < KEY_SLOT_COUNT -> key_slot_index (MkKeySlot (wrapping 8 (Z.of_nat k)) i) = k.
Proof.
  intros Hk. pose proof KEY_SLOT_COUNT_mask. unfold key_slot_index. simpl.
  rewrite wrapping_small; [lia|]. unfold in_width. lia.
Qed.

Lemma ks_step_inv s a s' o :
  ks_inv s -> ks_step s a = Some (Done (s', o)) -> ks_inv s'.
Proof.
  intros [Hnd Hr Hf He] Hs. destruct a as [i|n id address par|n]; simpl in Hs.
  - unfold lmac_acquire_key_slot in Hs.
    destruct (acquire_key_slot _) as [[k m]|] eqn:Ha; simplify_eq; [|by split].
    destruct (acquire_lowest _ _ _ Ha) as (Hk & Hfree & _).
    assert (held_slots (MkKSystem m (MkKeySlot (wrapping 8 (Z.of_nat k))
      (wrapping 8 (Z.of_nat i)) :: ks_held s)) = k :: held_slots s) as Hh.
    { unfold held_slots. simpl. by rewrite acquired_index. }
    split; rewrite ?Hh; simpl.
    + apply NoDup_cons. split; [by apply Hf|done].
    + intros j [->|?]%elem_of_cons; auto.
    + intros j Hj. destruct (acquired_free _ _ _ j Ha Hj) as [-> _].
      rewrite not_elem_of_cons, (Hf j Hj). tauto.
    + intros j Hj Hn. rewrite not_elem_of_cons in Hn.
      destruct (acquired_free _ _ _ j Ha Hj) as [_ ->]. apply He; tauto.
  - destruct (ks_held s !! n) as [slot|] eqn:Hn; [|done].
    destruct (set_key _ _ _ _ _) as [r m] eqn:Hset. simplify_eq.
    unfold set_key in Hset. destruct (crypto_set_key _ _ _ _ _ _) as [r' c] eqn:Hc.
    simplify_eq. split; try done. simpl. intros k Hk Hnk.
    pose proof (set_key_others (crypto_controller (ks_manager s)) (key_slot_index slot)
      (Z.to_nat (ks_interface slot)) id address par k) as Ho.
    rewrite Hc in Ho. simpl in Ho. rewrite Ho; [by apply He|].
    intros ->. apply Hnk. apply list_elem_of_fmap_2. by eapply list_elem_of_lookup_2.
  - destruct (ks_held s !! n) as [slot|] eqn:Hn; simplify_eq.
    pose proof (delete_Permutation _ _ _ Hn) as Hp.
    assert (held_slots s ≡ₚ key_slot_index slot :: (key_slot_index <$> delete n (ks_held s)))
      as Hh by (unfold held_slots; by rewrite Hp at 1).
    rewrite Hh in Hnd. apply NoDup_cons in Hnd as [Hni Hnd].
    assert (key_slot_index slot < KEY_SLOT_COUNT) as Hlt
      by (apply Hr; rewrite Hh; by left).
    split; unfold held_slots in *; simpl in *; [done| | |].
    + intros k Hk. apply Hr. rewrite Hh. by right.
    + intros k Hk. pose proof (dropped_slot (ks_manager s) slot k Hlt Hk) as Hd.
      rewrite Hd.
      rewrite (Hf k Hk), Hh, not_elem_of_cons.
      destruct (decide (k = key_slot_index slot)) as [->|]; tauto.
    + intros k Hk Hnk. rewrite !delete_installed. repeat case_decide; try done.
      apply He; [done|]. rewrite Hh, not_elem_of_cons. tauto.
Qed.
End KeySlotFacts.

(** ** Properties *)

Section KeySlotProperties.
Context `{KeyHalLaws}.

(** Key slots are exclusive: starting from an empty key memory, the live
    [KeySlot]s always have different hardware slots in range, a slot's mask bit is
    set exactly when no [KeySlot] owns it, and a slot nobody owns has no key
    installed. *)
Theorem key_slots_exclusive c acts (s : KSystem) os :
  run ks_step (ksystem_new c) acts = Some (Done (s, os)) ->
  (forall k, installed c k = false) ->
  NoDup (held_slots s) /\ (forall k, k ∈ held_slots s -> k < KEY_SLOT_COUNT) /\
  forall k, k < KEY_SLOT_COUNT ->
    (is_free (ks_manager s) k <-> k ∉ held_slots s) /\
    (k ∉ held_slots s -> installed (crypto_controller (ks_manager s)) k = false).
Proof.
  intros Hr Hc. assert (ks_inv s) as [].
  { revert Hr. apply (run_invariant ks_step (fun s _ _ => ks_inv s));
      [by apply ksystem_new_inv|]. intros. by eapply ks_step_inv. }
  split_and!; [done..|]. intros k Hk. split; auto.
Qed.

(** Acquiring takes the lowest slot nobody owns, and fails exactly when all
    [KEY_SLOT_COUNT] slots are owned. *)
Theorem acquire_takes_lowest c acts (s : KSystem) os i :
  run ks_step (ksystem_new c) acts = Some (Done (s, os)) ->
  (forall k, installed c k = false) ->
  match lmac_acquire_key_slot (ks_manager s) i with
  | Some (slot, _) =>
      key_slot_index slot < KEY_SLOT_COUNT /\ key_slot_index slot ∉ held_slots s /\
      (forall j, j < key_slot_index slot -> j ∈ held_slots s)
  | None => length (ks_held s) = KEY_SLOT_COUNT
  end.
Proof.
  intros Hr Hc. assert (ks_inv s) as [Hnd Hrange Hf _].
  { revert Hr. apply (run_invariant ks_step (fun s _ _ => ks_inv s));
      [by apply ksystem_new_inv|]. intros. by eapply ks_step_inv. }
  unfold lmac_acquire_key_slot.
  destruct (acquire_key_slot _) as [[k m]|] eqn:Ha.
  - destruct (acquire_lowest _ _ _ Ha) as (Hk & Hfree & Hlow).
    rewrite acquired_index by done. split_and!; [done|by apply Hf|].
    intros j Hj. destruct (decide (j ∈ held_slots s)) as [|Hn]; [done|].
    exfalso. apply (Hlow j Hj), Hf; [lia|done].
  - rewrite acquire_None in Ha.
    assert (held_slots s ≡ₚ seq 0 KEY_SLOT_COUNT) as Hp.
    { apply NoDup_Permutation; [done|apply NoDup_seq|]. intros k. rewrite elem_of_seq.
      split; [intros Hk%Hrange; lia|]. intros [_ Hk]. simpl in Hk.
      destruct (decide (k ∈ held_slots s)) as [|Hn]; [done|].
      exfalso. apply (Ha k Hk), Hf; done. }
    apply Permutation_length in Hp. unfold held_slots in Hp.
    by rewrite length_fmap, length_seq in Hp.
Qed.
End KeySlotProperties.

(** ** Witnesses *)

(** Twenty-five slots; a key memory that remembers which slots have a key. *)
#[export] Instance list_keys : KeyHal := {
  KEY_SLOT_COUNT := 25;
  CryptoController := list nat;
  CipherParameters := unit;
  CryptoError := unit;
  crypto_set_key := fun c k _ _ _ _ => (Ok tt, k :: c);
  crypto_delete_key := fun c k => filter (fun j => j <> k) c;
  bit := fun i => Z.shiftl 1 (Z.of_nat i);
  check_bit := fun s m => negb (Z.land s m =? 0)%Z;
}.

#[export] Program Instance list_keys_laws : KeyHalLaws := {
  installed := fun c k => bool_decide (k ∈ c);
}.
Next Obligation. simpl. lia. Qed.
Next Obligation. done. Qed.
Next Obligation.
  intros s i. simpl. rewrite Z.shiftl_1_l. apply eq_true_iff_eq.
  rewrite negb_true_iff, Z.eqb_neq. split.
  - intros Hn. destruct (Z.testbit s (Z.of_nat i)) eqn:Hb; [done|]. exfalso.
    apply Hn, Z.bits_inj'. intros n Hnn. rewrite Z.land_spec, Z.bits_0.
    rewrite Z.pow2_bits_eqb by lia. destruct (Z.eqb_spec (Z.of_nat i) n) as [<-|];
      [by rewrite Hb|by rewrite andb_false_r].
  - intros Hb Hz. assert (Z.testbit (Z.land s (2 ^ Z.of_nat i)) (Z.of_nat i) = true) as Ht.
    { rewrite Z.land_spec, Hb, Z.pow2_bits_true by lia. done. }
    by rewrite Hz, Z.bits_0 in Ht.
Qed.
Next Obligation.
  intros c k j. simpl. case_decide as Hj.
  - apply bool_decide_eq_false. rewrite list_elem_of_filter. tauto.
  - apply bool_decide_ext. rewrite list_elem_of_filter. tauto.
Qed.
Next Obligation.
  intros c k iface id addr par j Hj. simpl. apply bool_decide_ext. set_solver.
Qed.

Definition demo_keys : list ks_action :=
  [KAcquire 0; KAcquire 1; KSetKey 0 0 [] tt; KAcquire 0; KDrop 1].
Definition demo_ksystem : KSystem :=
  match run ks_step (ksystem_new (H := list_keys) []) demo_keys with
  | Some (Done (s, _)) => s
  | _ => ksystem_new (H := list_keys) []
  end.
Definition demo_ks_outputs : list ks_output :=
  match run ks_step (ksystem_new (H := list_keys) []) demo_keys with
  | Some (Done (_, os)) => os
  | _ => []
  end.

Lemma key_slots_exclusive_witness : NoDup (held_slots demo_ksystem).
Proof.
  destruct (key_slots_exclusive (H := list_keys) [] demo_keys demo_ksystem demo_ks_outputs)
    as [Hnd _]; [reflexivity|reflexivity|exact Hnd].
Defined.

Lemma acquire_takes_lowest_witness :
  exists m, lmac_acquire_key_slot (ks_manager demo_ksystem) 3 = Some (MkKeySlot 1 3, m) /\
    key_slot_index (MkKeySlot 1 3) ∉ held_slots demo_ksystem.
Proof.
  eexists. split; [vm_compute; reflexivity|].
  pose proof (acquire_takes_lowest (H := list_keys) [] demo_keys demo_ksystem
    demo_ks_outputs 3) as Ha.
  destruct (lmac_acquire_key_slot (ks_manager demo_ksystem) 3) as [[slot m]|] eqn:He;
    vm_compute in He; [|discriminate He].
  injection He as <- _. apply Ha; [vm_compute; reflexivity|reflexivity].
Defined.
