(* ===== verification/RxPath.v ===== *)
(** * Receive path: foa/src/bg_task.rs, foa/src/rx_arc_pool.rs, RxEndpoint

    The background runner hands each received frame to the queues of the
    interfaces it is meant for.  Without the [arc_buffers] feature a frame goes to
    one queue ([process_packet]); with it, one pool slot is shared by counted
    handles ([arc_process_packet]).  A handle is the index of its slot, and
    [usize] has the 32 bits of the ESP32. *)
From S2P Require Import Prelude Platform Lmac.

Section RxQueues.
Context {Ch : Type -> Type} `{FoaConfig, Radio, Channel Ch} {Frame : Type}.

(** A queue and whether an [RxEndpoint] keeps it active. *)
Notation rx_queue := (Ch Frame * bool)%type.

Definition rx_queues_new : list rx_queue :=
  replicate INTERFACE_COUNT (ch_new RX_QUEUE_LEN, false).

(** [RxEndpoint::new], its [Drop], and a poll of [receive]. *)
Definition rx_endpoint_new (q : rx_queue) : rx_queue := (fst q, true).
Definition rx_endpoint_drop (q : rx_queue) : rx_queue := (fst q, false).
Definition rx_receive (q : rx_queue) : poll Frame * rx_queue :=
  match ch_try_receive (fst q) with
  | Some (f, c) => (PollReady f, (c, snd q))
  | None => (PollPending, q)
  end.

(** [RxRunner::process_packet] without [arc_buffers]; [interface_iterator] of the
    frame is a list. *)
Definition process_packet (qs : list rx_queue) (frame : Frame) (interfaces : list nat)
  : outcome (list rx_queue) :=
  match interfaces with
  | [] => mret qs
  | [interface] =>
      q ← expect (qs !! interface);
      if (snd q : bool) then
        mret match ch_try_send (fst q) frame with
             | Some c => <[interface := (c, true)]> qs
             | None => qs
             end
      else mret qs
  | _ :: _ :: _ => mret qs
  end.

(** [VirtualInterface::reset]. *)
Definition vif_reset (q : rx_queue) (cs : ChannelState) (interface : nat)
  : outcome (rx_queue * ChannelState * list InterfaceCall) :=
  cs ← unlock_channel cs interface;
  mret ((ch_clear (fst q), snd q), cs,
    [SetScanningMode interface ScanDisabled; ClearFilter interface Bssid;
     ClearFilter interface ReceiverAddress]).
End RxQueues.

(** ** The pool of counted buffers *)

Section ArcPool.
Context `{FoaConfig} {Frame : Type}.
Implicit Types (i : nat).

Record RxArcBufferInner : Type := MkInner {
  arc_buffer : Frame;
  refs : Z;
  arc_index : nat;
}.

Notation RxArcPool := (list (option RxArcBufferInner)).
Implicit Types (pool : RxArcPool).

Definition arc_pool_new : RxArcPool := replicate RX_BUFFER_COUNT None.

(** [increment_refs] and [decrement_refs]: the previous value and the new pool. *)
Definition fetch_refs (delta : Z) pool i : outcome (Z * RxArcPool) :=
  slot ← expect (pool !! i);
  inner ← expect slot;
  mret (refs inner,
    <[i := Some (MkInner (arc_buffer inner) (wrapping 32 (refs inner + delta))
      (arc_index inner))]> pool).
Definition increment_refs pool i : outcome (Z * RxArcPool) := fetch_refs 1 pool i.
Definition decrement_refs pool i : outcome (Z * RxArcPool) := fetch_refs (-1) pool i.

(** [state.iter_mut().enumerate().find(|inner| inner.1.is_none())]. *)
Fixpoint first_unused pool : option nat :=
  match pool with
  | [] => None
  | None :: _ => Some 0
  | Some _ :: pool => S <$> first_unused pool
  end.

(** [RxArcPool::try_alloc]: the first unused slot, with a count of zero. *)
Definition arc_try_alloc pool (buffer : Frame) : option (nat * RxArcPool) :=
  match first_unused pool with
  | Some i => Some (i, <[i := Some (MkInner buffer 0 i)]> pool)
  | None => None
  end.

(** [RxArcPool::free], through the index stored in the slot. *)
Definition arc_free pool i : outcome RxArcPool :=
  slot ← expect (pool !! i);
  inner ← expect slot;
  mret (<[arc_index inner := None]> pool).

(** [Clone], [Deref] and [Drop] for [RxArcBuffer]. *)
Definition arc_clone pool i : outcome (nat * RxArcPool) :=
  '(_, pool) ← increment_refs pool i;
  mret (i, pool).
Definition arc_deref pool i : outcome Frame :=
  slot ← expect (pool !! i);
  inner ← expect slot;
  mret (arc_buffer inner).
Definition arc_drop pool i : outcome RxArcPool :=
  '(previous, pool) ← decrement_refs pool i;
  if decide (previous = 0%Z) then arc_free pool i else mret pool.
End ArcPool.
Arguments RxArcBufferInner Frame : clear implicits.
Notation RxArcPool Frame := (list (option (RxArcBufferInner Frame))).

(** ** The runner with [arc_buffers] *)

Section ArcRunner.
Context {Ch : Type -> Type} `{FoaConfig, Radio, ChannelLaws Ch} {Frame : Type}.
Notation queue := (Ch nat * bool)%type.
Implicit Types (i k : nat) (pool : RxArcPool Frame) (qs : list queue).

(** The loop over the frame's interfaces; a failed [try_send] drops its clone. *)
Fixpoint arc_deliver qs pool i (interfaces : list nat)
  : outcome (list queue * RxArcPool Frame) :=
  match interfaces with
  | [] => mret (qs, pool)
  | k :: interfaces =>
      q ← expect (qs !! k);
      if (snd q : bool) then
        '(h, pool) ← arc_clone pool i;
        match ch_try_send (fst q) h with
        | Some c => arc_deliver (<[k := (c, true)]> qs) pool i interfaces
        | None => pool ← arc_drop pool h; arc_deliver qs pool i interfaces
        end
      else arc_deliver qs pool i interfaces
  end.

Definition arc_process_packet qs pool (frame : Frame) (interfaces : list nat)
  : outcome (list queue * RxArcPool Frame) :=
  match arc_try_alloc pool frame with
  | None => mret (qs, pool)
  | Some (i, pool) =>
      '(qs, pool) ← arc_deliver qs pool i interfaces;
      pool ← arc_drop pool i;
      mret (qs, pool)
  end.

(** ** The pool with everything that holds a handle *)

Record RxSystem : Type := MkRxSystem {
  rx_pool : RxArcPool Frame;
  rx_queues : list queue;
  (** Handles the interfaces took out of their queues. *)
  rx_held : list nat;
}.

Inductive rx_action : Type :=
| RPacket (frame : Frame) (interfaces : list nat)
| RActivate k (active : bool)
| RReceive k
| RClone (n : nat)
| RDrop (n : nat).

Inductive rx_output : Type :=
| RODone
| ROReceived (r : option (nat * Frame)).

Definition rx_system_new : RxSystem := MkRxSystem arc_pool_new rx_queues_new [].

(** Everything that holds a handle: the queues and the interfaces. *)
Definition queued qs : list nat := owned (fun q => ch_contents (fst q)) qs.
Definition handles (s : RxSystem) : list nat := queued (rx_queues s) ++ rx_held s.

(** A handle is eight bytes of the 32-bit address space, so there are never
    [2^32] of them: the guard of [RPacket] and [RClone]. *)
Definition room_for_handles (s : RxSystem) (n : nat) : bool :=
  bool_decide (Z.of_nat (length (handles s) + n) <= u_max 32)%Z.

Definition rx_step (s : RxSystem) (a : rx_action) : option (outcome (RxSystem * rx_output)) :=
  match a with
  | RPacket frame interfaces =>
      if room_for_handles s (S (length interfaces)) then Some (
        '(qs, pool) ← arc_process_packet (rx_queues s) (rx_pool s) frame interfaces;
        mret (MkRxSystem pool qs (rx_held s), RODone))
      else None
  | RActivate k active =>
      match rx_queues s !! k with
      | Some q => Some (Done (MkRxSystem (rx_pool s)
          (<[k := if active then rx_endpoint_new q else rx_endpoint_drop q]> (rx_queues s))
          (rx_held s), RODone))
      | None => None
      end
  | RReceive k =>
      match rx_queues s !! k with
      | Some q =>
          match rx_receive q with
          | (PollReady h, q) => Some (
              frame ← arc_deref (rx_pool s) h;
              mret (MkRxSystem (rx_pool s) (<[k := q]> (rx_queues s)) (h :: rx_held s),
                ROReceived (Some (h, frame))))
          | (PollPending, _) => Some (Done (s, ROReceived None))
          end
      | None => None
      end
  | RClone n =>
      match rx_held s !! n with
      | Some i =>
          if room_for_handles s 1 then Some (
            '(h, pool) ← arc_clone (rx_pool s) i;
            mret (MkRxSystem pool (rx_queues s) (h :: rx_held s), RODone))
          else None
      | None => None
      end
  | RDrop n =>
      match rx_held s !! n with
      | Some i => Some (
          pool ← arc_drop (rx_pool s) i;
          mret (MkRxSystem pool (rx_queues s) (delete n (rx_held s)), RODone))
      | None => None
      end
  end.
End ArcRunner.

(** ** The counts are the handles *)

Section ArcFacts.
Context `{FoaConfig} {Frame : Type}.
Implicit Types (i j : nat) (pool : RxArcPool Frame) (hs : list nat).

Definition count i hs : nat := length (filter (fun j => j = i) hs).

#[export] Instance count_proper i : Proper ((≡ₚ) ==> eq) (count i).
Proof. intros h1 h2 Hp. unfold count. by rewrite Hp. Qed.

Lemma count_cons i j hs : count i (j :: hs) = (if decide (j = i) then 1 else 0) + count i hs.
Proof. unfold count. rewrite filter_cons. by case_decide. Qed.

Lemma count_pos i hs : 0 < count i hs <-> i ∈ hs.
Proof.
  induction hs as [|j hs IH].
  - split; [|set_solver]. unfold count. simpl. lia.
  - rewrite count_cons, elem_of_cons. case_decide; naive_solver lia.
Qed.

Lemma count_length i hs : count i hs <= length hs.
Proof. apply length_filter. Qed.

Record pool_ok pool hs : Prop := {
  po_length : length pool = RX_BUFFER_COUNT;
  po_slots : forall i slot, pool !! i = Some slot ->
    match slot with
    | None => i ∉ hs
    | Some inner => arc_index inner = i /\ i ∈ hs /\
        refs inner = (Z.of_nat (count i hs) - 1)%Z
    end;
  po_range : forall i, i ∈ hs -> i < RX_BUFFER_COUNT;
  po_room : (Z.of_nat (length hs) <= u_max 32)%Z;
}.

#[export] Instance pool_ok_proper pool : Proper ((≡ₚ) ==> iff) (pool_ok pool).
Proof.
  assert (forall h1 h2, h1 ≡ₚ h2 -> pool_ok pool h1 -> pool_ok pool h2) as Himp.
  { intros h1 h2 Hp [Hl Hs Hr Hm]. split; [done| | |by rewrite <- Hp].
    - intros i slot Hi. specialize (Hs i slot Hi). destruct slot; by rewrite <- Hp.
    - intros i. rewrite <- Hp. apply Hr. }
  intros h1 h2 Hp. split; by apply Himp.
Qed.

(** A live handle's slot. *)
Lemma pool_ok_live pool hs i :
  pool_ok pool hs -> i ∈ hs ->
  exists f, pool !! i = Some (Some (MkInner f (Z.of_nat (count i hs) - 1) i)).
Proof.
  intros [Hl Hs Hr Hm] Hi. destruct (lookup_lt_is_Some_2 pool i) as [slot Hsl].
  { rewrite Hl. by apply Hr. }
  specialize (Hs _ _ Hsl). destruct slot as [[f r k]|]; [|done].
  destruct Hs as (Hk & _ & Hrefs). simpl in *. subst. eauto.
Qed.

Lemma arc_pool_new_ok : pool_ok arc_pool_new [].
Proof.
  split; simpl; try done; [apply length_replicate| |set_solver].
  intros i slot ->%lookup_replicate_eq. set_solver.
Qed.

Lemma first_unused_spec pool :
  match first_unused pool with
  | Some i => pool !! i = Some None
  | None => Forall is_Some pool
  end.
Proof.
  induction pool as [|[inner|] pool IH]; simpl; [done| |done].
  destruct (first_unused pool); simpl; [done|]. by constructor.
Qed.

Lemma alloc_ok pool hs f i pool' :
  pool_ok pool hs -> (Z.of_nat (length hs + 1) <= u_max 32)%Z ->
  arc_try_alloc pool f = Some (i, pool') ->
  pool_ok pool' (i :: hs) /\ i ∉ hs /\ arc_deref pool' i = Done f /\
  forall j, j ∈ hs -> arc_deref pool' j = arc_deref pool j.
Proof.
  unfold arc_try_alloc. intros [Hl Hs Hr Hm] Hroom Ha.
  pose proof (first_unused_spec pool) as Hf.
  destruct (first_unused pool) as [k|]; [|done]. injection Ha as <- <-.
  pose proof (Hs _ _ Hf) as Hni. pose proof (lookup_lt_Some _ _ _ Hf) as Hlt.
  assert (count k hs = 0) as Hc.
  { destruct (decide (0 < count k hs)) as [Hp|]; [by apply count_pos in Hp|lia]. }
  split_and!; [split|done| |].
  - by rewrite length_insert.
  - intros j slot [(-> & <- & _)|[Hne Hj]]%list_lookup_insert_Some.
    + simpl. split_and!; [done|set_solver|].
      rewrite count_cons, decide_True, Hc by done. lia.
    + specialize (Hs j slot Hj). destruct slot as [inner|].
      * rewrite count_cons, decide_False by done. set_solver.
      * rewrite elem_of_cons. naive_solver.
  - intros j [->|?]%elem_of_cons; [lia|auto].
  - simpl. lia.
  - unfold arc_deref. by rewrite list_lookup_insert_eq by done.
  - intros j Hj. unfold arc_deref. rewrite list_lookup_insert_ne; [done|].
    intros ->. done.
Qed.

Lemma clone_ok pool hs i :
  pool_ok pool hs -> i ∈ hs -> (Z.of_nat (length hs + 1) <= u_max 32)%Z ->
  exists pool', arc_clone pool i = Done (i, pool') /\ pool_ok pool' (i :: hs) /\
    forall j, arc_deref pool' j = arc_deref pool j.
Proof.
  intros Hok Hi Hroom. destruct (pool_ok_live _ _ _ Hok Hi) as [f Hf].
  pose proof Hok as [Hl Hs Hr Hm]. pose proof (count_length i hs).
  pose proof (lookup_lt_Some _ _ _ Hf) as Hlt.
  assert (0 < count i hs) as Hpos by by apply count_pos.
  unfold arc_clone, increment_refs, fetch_refs. rewrite Hf. simpl.
  eexists. split; [done|]. split.
  - rewrite wrapping_small by (unfold in_width, u_max in *; lia). split.
    + by rewrite length_insert.
    + intros j slot [(-> & <- & _)|[Hne Hj]]%list_lookup_insert_Some.
      * simpl. split_and!; [done|set_solver|]. rewrite count_cons, decide_True by done. lia.
      * specialize (Hs j slot Hj). destruct slot as [inner|].
        -- rewrite count_cons, decide_False by done. set_solver.
        -- rewrite elem_of_cons. naive_solver.
    + intros j [->|?]%elem_of_cons; [|auto]. lia.
    + simpl. lia.
  - intros j. unfold arc_deref. destruct (decide (j = i)) as [->|Hne].
    + by rewrite list_lookup_insert_eq, Hf by done.
    + by rewrite list_lookup_insert_ne.
Qed.

Lemma drop_ok pool hs i :
  pool_ok pool (i :: hs) ->
  exists pool', arc_drop pool i = Done pool' /\ pool_ok pool' hs /\
    forall j, j ∈ hs -> arc_deref pool' j = arc_deref pool j.
Proof.
  intros Hok. destruct (pool_ok_live _ _ i Hok) as [f Hf]; [by left|].
  pose proof Hok as [Hl Hs Hr Hm]. pose proof (lookup_lt_Some _ _ _ Hf) as Hlt.
  rewrite count_cons, decide_True in Hf by done. simpl in Hf, Hm.
  unfold arc_drop, decrement_refs, fetch_refs. rewrite Hf. simpl.
  pose proof (count_length i hs).
  assert (forall pool' slot, pool' = <[i := slot]> pool ->
    match slot with
    | None => i ∉ hs
    | Some inner => arc_index inner = i /\ i ∈ hs /\
        refs inner = (Z.of_nat (count i hs) - 1)%Z /\ arc_buffer inner = f
    end -> pool_ok pool' hs /\ forall j, j ∈ hs -> arc_deref pool' j = arc_deref pool j)
    as Hset.
  { intros pool' slot -> Hslot. split; [split|].
    - by rewrite length_insert.
    - intros j slot' [(-> & <- & _)|[Hne Hj]]%list_lookup_insert_Some.
      + destruct slot; tauto.
      + specialize (Hs j slot' Hj). destruct slot' as [inner|].
        * rewrite count_cons, decide_False in Hs by done. set_solver.
        * set_solver.
    - intros j Hj. apply Hr. by right.
    - lia.
    - intros j Hj. unfold arc_deref. destruct (decide (j = i)) as [->|Hne].
      + rewrite list_lookup_insert_eq, Hf by done. destruct slot as [inner|]; [|done].
        simpl. destruct Hslot as (_ & _ & _ & ->). done.
      + by rewrite list_lookup_insert_ne. }
  case_decide as Hz.
  - unfold arc_free. rewrite list_lookup_insert_eq by done. simpl.
    eexists. split; [done|]. apply (Hset _ None); [by rewrite list_insert_insert_eq|].
    intros Hi%count_pos. lia.
  - eexists. split; [done|]. apply (Hset _ _ eq_refl). simpl.
    assert (0 < count i hs) as Hpos by lia.
    split_and!; [done|by apply count_pos| |done].
    rewrite wrapping_small; [lia|]. unfold in_width, u_max in *. lia.
Qed.
End ArcFacts.

Section DeliveryFacts.
Context {Ch : Type -> Type} `{FoaConfig, Radio, ChannelLaws Ch} {Frame : Type}.
Implicit Types (i j k : nat) (pool : RxArcPool Frame) (hs : list nat).
Notation queue := (Ch nat * bool)%type.
Implicit Types (q : queue) (qs : list queue).

Lemma queued_insert qs k q q' :
  qs !! k = Some q ->
  queued (<[k := q']> qs) ++ ch_contents (fst q) ≡ₚ queued qs ++ ch_contents (fst q').
Proof. apply (owned_insert (fun q : queue => ch_contents (fst q))). Qed.

(** Appending a handle to one queue. *)
Lemma queued_push qs k q c i :
  qs !! k = Some q -> ch_try_send (fst q) i = Some c ->
  queued (<[k := (c, true)]> qs) ≡ₚ i :: queued qs.
Proof.
  intros Hk Hs. pose proof (queued_insert _ _ _ (c, true) Hk) as Hp. simpl in Hp.
  rewrite (ch_try_send_contents _ _ _ _ Hs) in Hp.
  apply (inj (fun l => l ++ ch_contents (fst q))). rewrite Hp. solve_Permutation.
Qed.

(** What a delivery leaves in a queue. *)
Definition delivered (interfaces : list nat) i k q : list nat :=
  ch_contents (fst q) ++
  (if decide (k ∈ interfaces /\ snd q = true /\
              length (ch_contents (fst q)) < ch_capacity (fst q))
   then [i] else []).

Definition delivered_to (interfaces : list nat) i qs qs' : Prop :=
  length qs' = length qs /\
  forall k q, qs !! k = Some q -> exists q', qs' !! k = Some q' /\
    snd q' = snd q /\ ch_capacity (fst q') = ch_capacity (fst q) /\
    ch_contents (fst q') = delivered interfaces i k q.

Lemma delivered_nil i qs : delivered_to [] i qs qs.
Proof.
  split; [done|]. intros k q Hk. exists q. unfold delivered.
  rewrite decide_False by set_solver. by rewrite app_nil_r.
Qed.

(** Going on after interface [k]'s queue was handled. *)
Lemma delivered_cons k interfaces i qs qs1 qs' q :
  k ∉ interfaces -> qs !! k = Some q -> delivered_to interfaces i qs1 qs' ->
  length qs1 = length qs -> (forall j, j <> k -> qs1 !! j = qs !! j) ->
  (exists q1, qs1 !! k = Some q1 /\ snd q1 = snd q /\
     ch_capacity (fst q1) = ch_capacity (fst q) /\
     ch_contents (fst q1) = delivered [k] i k q) ->
  delivered_to (k :: interfaces) i qs qs'.
Proof.
  intros Hni Hk [Hlen Hd] Hlen1 Hother (q1 & Hq1 & Hsnd & Hcap & Hc).
  split; [congruence|]. intros j qj Hj.
  destruct (decide (j = k)) as [->|Hne].
  - simplify_eq. destruct (Hd k q1 Hq1) as (q' & Hq' & Hs' & Hcap' & Hc').
    exists q'. split_and!; [done|congruence..|]. rewrite Hc'.
    unfold delivered at 1. rewrite decide_False, app_nil_r, Hc by tauto.
    unfold delivered. f_equal. repeat case_decide; set_solver.
  - rewrite <- (Hother j Hne) in Hj. destruct (Hd j qj Hj) as (q' & Hq' & Hs' & Hcap' & Hc').
    exists q'. split_and!; [done..|]. rewrite Hc'. unfold delivered. f_equal.
    repeat case_decide; set_solver.
Qed.

(** One interface of the loop. *)
Lemma deliver_one qs pool i k hs q :
  pool_ok pool (queued qs ++ hs) -> i ∈ hs -> qs !! k = Some q ->
  (Z.of_nat (length (queued qs ++ hs) + 1) <= u_max 32)%Z ->
  exists qs1 pool1,
    (forall interfaces, arc_deliver qs pool i (k :: interfaces) =
       arc_deliver qs1 pool1 i interfaces) /\
    pool_ok pool1 (queued qs1 ++ hs) /\ length (queued qs1) <= S (length (queued qs)) /\
    (forall j, j ∈ queued qs ++ hs -> arc_deref pool1 j = arc_deref pool j) /\
    (forall j, j ∈ queued qs -> j ∈ queued qs1) /\
    length qs1 = length qs /\ (forall j, j <> k -> qs1 !! j = qs !! j) /\
    exists q1, qs1 !! k = Some q1 /\ snd q1 = snd q /\
      ch_capacity (fst q1) = ch_capacity (fst q) /\
      ch_contents (fst q1) = delivered [k] i k q.
Proof.
  intros Hok Hi Hk Hroom. unfold delivered. destruct (snd q) eqn:Hact; cycle 1.
  { exists qs, pool. split; [intros; simpl; rewrite Hk; simpl; by rewrite Hact|].
    split_and!; try done; [lia|]. exists q.
    rewrite decide_False by naive_solver. by rewrite app_nil_r. }
  destruct (clone_ok _ _ i Hok) as (pool1 & Hcl & Hok1 & Hde1);
    [apply elem_of_app; by right|done|].
  destruct (ch_try_send (fst q) i) as [c|] eqn:Hs.
  - pose proof (queued_push _ _ _ _ _ Hk Hs) as Hp.
    exists (<[k := (c, true)]> qs), pool1.
    split; [intros; simpl; rewrite Hk; simpl; rewrite Hact, Hcl; simpl; by rewrite Hs|].
    split_and!; [by rewrite Hp|by rewrite Hp|by intros; apply Hde1| | | |].
    + intros j Hj. rewrite Hp. by right.
    + by rewrite length_insert.
    + intros j Hj. by rewrite list_lookup_insert_ne.
    + exists (c, true). simpl. split_and!.
      * apply list_lookup_insert_eq. by eapply lookup_lt_Some.
      * done.
      * by eapply ch_try_send_capacity.
      * rewrite (ch_try_send_contents _ _ _ _ Hs), decide_True; [done|].
        split_and!; [set_solver|done|].
        destruct (decide (length (ch_contents (fst q)) < ch_capacity (fst q))); [done|].
        assert (ch_try_send (fst q) i = None) as Hf by (apply ch_try_send_full; lia).
        congruence.
  - destruct (drop_ok _ _ _ Hok1) as (pool2 & Hdr & Hok2 & Hde2).
    exists qs, pool2.
    split; [intros; simpl; rewrite Hk; simpl; rewrite Hact, Hcl; simpl;
            rewrite Hs; by rewrite Hdr|].
    split_and!; [done|lia| |done..|].
    + intros j Hj. by rewrite Hde2, Hde1.
    + exists q. split_and!; [done..|]. apply ch_try_send_full in Hs.
      rewrite decide_False by lia. by rewrite app_nil_r.
Qed.

Lemma deliver_ok qs pool i hs interfaces :
  pool_ok pool (queued qs ++ hs) -> i ∈ hs ->
  Forall (fun k => k < length qs) interfaces ->
  (Z.of_nat (length (queued qs ++ hs) + length interfaces) <= u_max 32)%Z ->
  exists qs' pool', arc_deliver qs pool i interfaces = Done (qs', pool') /\
    pool_ok pool' (queued qs' ++ hs) /\ length qs' = length qs /\
    (forall j, j ∈ queued qs ++ hs -> arc_deref pool' j = arc_deref pool j) /\
    (forall j, j ∈ queued qs -> j ∈ queued qs') /\
    (NoDup interfaces -> delivered_to interfaces i qs qs').
Proof.
  revert qs pool. induction interfaces as [|k interfaces IH]; intros qs pool Hok Hi Hf Hroom.
  - exists qs, pool. split_and!; try done. intros _. apply delivered_nil.
  - apply Forall_cons in Hf as [Hk Hf]. rewrite length_app in Hroom. simpl in Hroom.
    pose proof Hk as [q Hq]%lookup_lt_is_Some_2.
    destruct (deliver_one qs pool i k hs q) as
      (qs1 & pool1 & Heq & Hok1 & Hlen1 & Hde1 & Hin1 & Hl1 & Ho1 & Hq1);
      [done..|rewrite length_app; lia|].
    destruct (IH qs1 pool1) as (qs' & pool' & Hd & Hok' & Hl' & Hde' & Hin' & Hdel);
      [done|done|by rewrite Hl1|rewrite length_app; lia|].
    exists qs', pool'. split_and!; [by rewrite Heq|done|congruence| |auto|].
    + intros j Hj. rewrite Hde'; [by apply Hde1|].
      rewrite elem_of_app in *. naive_solver.
    + intros Hnd. apply NoDup_cons in Hnd as [Hnk Hnd].
      by apply (delivered_cons k interfaces i qs qs1 qs' q); auto.
Qed.

Lemma arc_packet_ok qs pool hs frame interfaces :
  pool_ok pool (queued qs ++ hs) -> Forall (fun k => k < length qs) interfaces ->
  (Z.of_nat (length (queued qs ++ hs) + S (length interfaces)) <= u_max 32)%Z ->
  exists qs' pool', arc_process_packet qs pool frame interfaces = Done (qs', pool') /\
    pool_ok pool' (queued qs' ++ hs) /\ length qs' = length qs /\
    (forall j, j ∈ queued qs ++ hs -> arc_deref pool' j = arc_deref pool j) /\
    (forall j, j ∈ queued qs -> j ∈ queued qs') /\
    (NoDup interfaces -> qs' = qs \/ exists i, i ∉ queued qs ++ hs /\
       delivered_to interfaces i qs qs' /\
       (i ∈ queued qs' -> arc_deref pool' i = Done frame)).
Proof.
  intros Hok Hf Hroom. unfold arc_process_packet.
  destruct (arc_try_alloc pool frame) as [[i pool1]|] eqn:Ha; cycle 1.
  { exists qs, pool. split_and!; try done. by left. }
  rewrite length_app in Hroom.
  destruct (alloc_ok pool (queued qs ++ hs) frame i pool1 Hok) as (Hok1 & Hni & Hfr & Hde1);
    [rewrite length_app; lia|done|].
  destruct (deliver_ok qs pool1 i (i :: hs) interfaces)
    as (qs' & pool2 & -> & Hok2 & Hl2 & Hde2 & Hin2 & Hdel); [|by left|done| |].
  { eapply pool_ok_proper; [|exact Hok1]. solve_Permutation. }
  { rewrite length_app. simpl. lia. }
  assert (pool_ok pool2 (i :: queued qs' ++ hs)) as Hok3.
  { eapply pool_ok_proper; [|exact Hok2]. solve_Permutation. }
  destruct (drop_ok _ _ _ Hok3) as (pool3 & Hd3 & Hok4 & Hde3). simpl. rewrite Hd3.
  assert (forall j, j ∈ queued qs -> j ∈ queued qs') as Hin by done.
  exists qs', pool3. split_and!; [done..| |done|].
  - intros j Hj. rewrite Hde3, Hde2, Hde1; try done; rewrite !elem_of_app in *;
      rewrite ?elem_of_cons; naive_solver.
  - intros Hnd. right. exists i. split_and!; [done|by apply Hdel|]. intros Hiq.
    rewrite Hde3, Hde2; [done|..]; rewrite !elem_of_app, ?elem_of_cons; tauto.
Qed.

(** ** The whole receive path *)

Definition packet_ok (a : rx_action (Frame := Frame)) : Prop :=
  match a with
  | RPacket _ interfaces => Forall (fun k => k < INTERFACE_COUNT) interfaces
  | _ => True
  end.

Definition rx_inv (s : RxSystem (Ch := Ch) (Frame := Frame)) : Prop :=
  pool_ok (rx_pool s) (handles s) /\ length (rx_queues s) = INTERFACE_COUNT.

Lemma rx_system_new_inv : rx_inv rx_system_new.
Proof.
  split; [|apply length_replicate]. unfold handles, queued. simpl.
  rewrite owned_nil; [apply arc_pool_new_ok|].
  intros k q ->%lookup_replicate_eq. simpl. apply ch_new_contents.
Qed.

Lemma queued_flag qs k q b :
  qs !! k = Some q -> queued (<[k := (fst q, b)]> qs) ≡ₚ queued qs.
Proof.
  intros Hk. pose proof (queued_insert _ _ _ (fst q, b) Hk) as Hp. simpl in Hp.
  by apply (inj (fun l => l ++ ch_contents (fst q))).
Qed.

(** Every possible step succeeds, keeps the invariant and leaves the frames of
    the handles that stay alone. *)
Lemma rx_step_ok s a :
  rx_inv s -> packet_ok a ->
  match rx_step s a with
  | Some (Done (s', _)) => rx_inv s' /\
      forall j, j ∈ handles s -> j ∈ handles s' ->
        arc_deref (rx_pool s') j = arc_deref (rx_pool s) j
  | Some Panic => False
  | None => True
  end.
Proof.
  intros [Hok Hlen] Ha. destruct a as [frame interfaces|k active|k|n|n]; simpl.
  - unfold room_for_handles. case_bool_decide as Hroom; [|done]. simpl in Ha.
    destruct (arc_packet_ok (rx_queues s) (rx_pool s) (rx_held s) frame interfaces)
      as (qs' & pool' & -> & Hok' & Hl' & Hde & Hin & _); [done|by rewrite Hlen|done|].
    simpl. split; [split; simpl; [done|congruence]|auto].
  - destruct (rx_queues s !! k) as [q|] eqn:Hk; [|done].
    assert (queued (<[k := if active then rx_endpoint_new q else rx_endpoint_drop q]>
      (rx_queues s)) ≡ₚ queued (rx_queues s)) as Hp by (destruct active; by apply queued_flag).
    split; [|done]. split; [|simpl; by rewrite length_insert].
    unfold handles. simpl. by rewrite Hp.
  - destruct (rx_queues s !! k) as [q|] eqn:Hk; [|done]. unfold rx_receive.
    destruct (ch_try_receive (fst q)) as [[h c]|] eqn:Hr; [|done].
    pose proof (queued_insert _ _ _ (c, snd q) Hk) as Hp. simpl in Hp.
    rewrite (ch_try_receive_contents _ _ _ _ Hr) in Hp.
    assert (queued (rx_queues s) ≡ₚ h :: queued (<[k := (c, snd q)]> (rx_queues s))) as Hq.
    { apply (inj (fun l => l ++ ch_contents c)). rewrite <- Hp. solve_Permutation. }
    unfold handles in Hok. rewrite Hq in Hok.
    destruct (pool_ok_live _ _ h Hok) as [f Hf]; [simpl; by left|].
    unfold arc_deref at 1. rewrite Hf. simpl. split; [|done].
    split; [|simpl; by rewrite length_insert]. unfold handles. simpl.
    eapply pool_ok_proper; [|exact Hok]. solve_Permutation.
  - destruct (rx_held s !! n) as [i|] eqn:Hn; [|done].
    unfold room_for_handles. case_bool_decide as Hroom; [|done].
    destruct (clone_ok _ _ i Hok) as (pool' & -> & Hok' & Hde); [|done|].
    { unfold handles. apply elem_of_app. right. by eapply list_elem_of_lookup_2. }
    simpl. split; [|auto]. split; [|done]. unfold handles. simpl.
    eapply pool_ok_proper; [|exact Hok']. unfold handles. solve_Permutation.
  - destruct (rx_held s !! n) as [i|] eqn:Hn; [|done].
    pose proof (delete_Permutation _ _ _ Hn) as Hp. unfold handles in Hok.
    assert (pool_ok (rx_pool s) (i :: queued (rx_queues s) ++ delete n (rx_held s))) as Hok2.
    { eapply pool_ok_proper; [|exact Hok]. rewrite Hp at 2. solve_Permutation. }
    destruct (drop_ok _ _ _ Hok2) as (pool' & -> & Hok' & Hde). simpl.
    split; [by split|]. intros j _ Hj. by apply Hde.
Qed.

Lemma rx_reachable acts s os :
  run rx_step rx_system_new acts = Some (Done (s, os)) ->
  Forall packet_ok acts -> rx_inv s.
Proof.
  revert s os. induction acts as [|a acts IH] using rev_ind; intros s os Hr Hf.
  - apply run_nil in Hr as [-> ->]. apply rx_system_new_inv.
  - apply run_snoc in Hr as (s1 & os1 & o & Hr & Hs & ->).
    apply Forall_app in Hf as [Hf [Ha _]%Forall_cons].
    pose proof (rx_step_ok s1 a (IH _ _ Hr Hf) Ha) as Hok. rewrite Hs in Hok. apply Hok.
Qed.
End DeliveryFacts.

(** ** Properties *)

Section RxProperties.
Context {Ch : Type -> Type} `{FoaConfig, Radio, ChannelLaws Ch} {Frame : Type}.
Implicit Types (s : RxSystem (Ch := Ch) (Frame := Frame)).

(** C24 A pool slot is in use exactly as long as some handle to it exists, in a
    queue or with an interface, and its counter is one less than their number:
    nothing leaks, nothing is freed under a live handle, and no step of the
    receive path panics. *)
Theorem arc_counts_handles acts s os a :
  run rx_step rx_system_new acts = Some (Done (s, os)) ->
  Forall packet_ok (acts ++ [a]) ->
  rx_step s a <> Some Panic /\
  forall i slot, rx_pool s !! i = Some slot ->
    match slot with
    | None => i ∉ handles s
    | Some inner => i ∈ handles s /\ arc_index inner = i /\
        refs inner = (Z.of_nat (count i (handles s)) - 1)%Z
    end.
Proof.
  intros Hr [Hf [Ha _]%Forall_cons]%Forall_app. pose proof (rx_reachable _ _ _ Hr Hf) as Hinv.
  split.
  - intros Hp. pose proof (rx_step_ok s a Hinv Ha) as Hok. by rewrite Hp in Hok.
  - intros i slot Hi. pose proof (po_slots _ _ (proj1 Hinv) i slot Hi) as Hs.
    destruct slot; tauto.
Qed.

(** The frame behind a live handle never changes: whatever step is taken, a
    handle that existed before and exists after it still reads the same
    frame, and it can be read. *)
Theorem live_frame_stable acts s os a s' o i :
  run rx_step rx_system_new acts = Some (Done (s, os)) ->
  Forall packet_ok (acts ++ [a]) -> rx_step s a = Some (Done (s', o)) ->
  i ∈ handles s -> i ∈ handles s' ->
  exists frame, arc_deref (rx_pool s) i = Done frame /\ arc_deref (rx_pool s') i = Done frame.
Proof.
  intros Hr [Hf [Ha _]%Forall_cons]%Forall_app Hs Hi Hi'.
  pose proof (rx_reachable _ _ _ Hr Hf) as Hinv.
  pose proof (rx_step_ok s a Hinv Ha) as Hok. rewrite Hs in Hok. destruct Hok as [_ Hde].
  destruct (pool_ok_live _ _ _ (proj1 Hinv) Hi) as [f Hfr].
  exists f. rewrite (Hde i Hi Hi'). unfold arc_deref. by rewrite Hfr.
Qed.

(** Delivery of a frame with [arc_buffers]: unless the pool is full, every
    interface the frame names gets one new handle at the back of its queue
    exactly if the queue is active and has room, the handle reads the frame, and
    the other queues keep their contents. *)
Theorem arc_packet_delivered acts s os frame interfaces s' o :
  run rx_step rx_system_new acts = Some (Done (s, os)) ->
  Forall packet_ok (acts ++ [RPacket frame interfaces]) -> NoDup interfaces ->
  rx_step s (RPacket frame interfaces) = Some (Done (s', o)) ->
  rx_queues s' = rx_queues s \/
  exists i, i ∉ handles s /\ delivered_to interfaces i (rx_queues s) (rx_queues s') /\
    (i ∈ queued (rx_queues s') -> arc_deref (rx_pool s') i = Done frame).
Proof.
  intros Hr [Hf [Ha _]%Forall_cons]%Forall_app Hnd Hs.
  destruct (rx_reachable _ _ _ Hr Hf) as [Hok Hlen]. simpl in Hs, Ha.
  unfold room_for_handles in Hs. case_bool_decide as Hroom; [|done].
  destruct (arc_packet_ok (rx_queues s) (rx_pool s) (rx_held s) frame interfaces)
    as (qs' & pool' & Heq & _ & _ & _ & _ & Hdel); [done|by rewrite Hlen|done|].
  rewrite Heq in Hs. injection Hs as <- <-. by apply Hdel.
Qed.

(** Without [arc_buffers] a frame for exactly one interface is appended to
    that interface's queue if it is active and has room; a frame for none or for
    several interfaces is dropped. *)
Theorem process_packet_spec (qs : list (Ch Frame * bool)) frame interfaces :
  Forall (fun k => k < length qs) interfaces ->
  exists qs', process_packet qs frame interfaces = Done qs' /\ length qs' = length qs /\
    forall k q, qs !! k = Some q -> exists q', qs' !! k = Some q' /\
      ch_contents (fst q') = ch_contents (fst q) ++
        (if decide (interfaces = [k] /\ snd q = true /\
                    length (ch_contents (fst q)) < ch_capacity (fst q))
         then [frame] else []).
Proof.
  intros Hf. assert (forall k q, qs !! k = Some q -> length interfaces <> 1 ->
    exists q', qs !! k = Some q' /\ ch_contents (fst q') = ch_contents (fst q) ++
        (if decide (interfaces = [k] /\ snd q = true /\
                    length (ch_contents (fst q)) < ch_capacity (fst q))
         then [frame] else [])) as Hskip.
  { intros k q Hk Hl. exists q. rewrite decide_False, app_nil_r; [done|].
    intros [-> _]. done. }
  destruct interfaces as [|i [|i2 interfaces]]; simpl; [by eauto 10| |by eauto 10].
  apply Forall_cons in Hf as [[q Hq]%lookup_lt_is_Some_2 _]. rewrite Hq. simpl.
  assert (forall q', qs !! i = Some q' -> q' = q) as Hi by congruence.
  destruct (snd q) eqn:Hact; [destruct (ch_try_send (fst q) frame) as [c|] eqn:Hs|].
  - eexists. split; [done|]. split; [by rewrite length_insert|].
    intros k q' Hk. destruct (decide (k = i)) as [->|Hne].
    + apply Hi in Hk as ->. exists (c, true).
      split; [apply list_lookup_insert_eq; by eapply lookup_lt_Some|].
      simpl. rewrite (ch_try_send_contents _ _ _ _ Hs), decide_True; [done|].
      split_and!; [done..|].
      destruct (decide (length (ch_contents (fst q)) < ch_capacity (fst q))); [done|].
      assert (ch_try_send (fst q) frame = None) as Hn by (apply ch_try_send_full; lia).
      congruence.
    + exists q'. rewrite list_lookup_insert_ne by done.
      rewrite decide_False, app_nil_r by naive_solver. done.
  - exists qs. split_and!; [done..|]. intros k q' Hk. exists q'. split; [done|].
    rewrite decide_False, app_nil_r; [done|]. intros ([= <-] & _ & Hlt).
    apply Hi in Hk as ->. apply ch_try_send_full in Hs. lia.
  - exists qs. split_and!; [done..|]. intros k q' Hk. exists q'. split; [done|].
    rewrite decide_False, app_nil_r; [done|]. intros ([= <-] & Ht & _).
    apply Hi in Hk as ->. congruence.
Qed.
End RxProperties.

(** ** Witnesses *)

Section Witnesses.
#[local] Existing Instance small_config.

(** Two active interfaces share a frame, which the first one takes. *)
Definition demo_rx : list (rx_action (Frame := nat)) :=
  [RActivate 0 true; RActivate 1 true; RPacket 42 [0; 1]; RReceive 0].
Definition demo_rx_system (acts : list (rx_action (Frame := nat)))
  : RxSystem (Ch := list_chan) (Frame := nat) :=
  match run rx_step rx_system_new acts with
  | Some (Done (s, _)) => s
  | _ => rx_system_new
  end.
Definition demo_rx_outputs (acts : list (rx_action (Frame := nat)))
  : list (rx_output (Frame := nat)) :=
  match run rx_step (rx_system_new (Ch := list_chan)) acts with
  | Some (Done (_, os)) => os
  | _ => []
  end.

Definition demo_active_queues : list (list_chan nat * bool) :=
  fmap (M := list) (rx_endpoint_new (Ch := list_chan) (Frame := nat)) rx_queues_new.

Lemma demo_packets_ok (acts : list (rx_action (Frame := nat))) :
  forallb (fun a => match a with
                    | RPacket _ l => forallb (fun k => k <? 4) l
                    | _ => true end) acts = true ->
  Forall packet_ok acts.
Proof.
  rewrite forallb_forall, Forall_forall. intros Hf a Ha.
  apply list_elem_of_In, Hf in Ha. destruct a as [f l| | | |]; try done.
  simpl. rewrite forallb_forall in Ha. apply Forall_forall.
  intros k Hk. apply list_elem_of_In, Ha, Nat.ltb_lt in Hk. done.
Qed.

Lemma arc_counts_handles_witness :
  0 ∈ handles (demo_rx_system demo_rx) /\
  forall inner, rx_pool (demo_rx_system demo_rx) !! 0 = Some (Some inner) ->
    refs inner = 1%Z.
Proof.
  destruct (arc_counts_handles (Ch := list_chan) demo_rx (demo_rx_system demo_rx)
    (demo_rx_outputs demo_rx) (RDrop 0)) as [_ Hs]; [reflexivity|by apply demo_packets_ok|].
  split; [vm_compute; left|]. intros inner Hi. apply Hs in Hi as (_ & _ & ->).
  reflexivity.
Defined.

Lemma live_frame_stable_witness :
  exists frame, arc_deref (rx_pool (demo_rx_system demo_rx)) 0 = Done frame /\
    arc_deref (rx_pool (demo_rx_system (demo_rx ++ [RDrop 0]))) 0 = Done frame.
Proof.
  apply (live_frame_stable (Ch := list_chan) demo_rx (demo_rx_system demo_rx)
    (demo_rx_outputs demo_rx) (RDrop 0) _ RODone);
    [reflexivity|by apply demo_packets_ok|reflexivity|vm_compute; left|vm_compute; left].
Defined.

Lemma arc_packet_delivered_witness :
  let s := demo_rx_system demo_rx in
  let s' := demo_rx_system (demo_rx ++ [RPacket 43 [0; 1]]) in
  rx_queues s' = rx_queues s \/
  exists i, i ∉ handles s /\ delivered_to [0; 1] i (rx_queues s) (rx_queues s') /\
    (i ∈ queued (rx_queues s') -> arc_deref (rx_pool s') i = Done 43).
Proof.
  apply (arc_packet_delivered (Ch := list_chan) demo_rx (demo_rx_system demo_rx)
    (demo_rx_outputs demo_rx) 43 [0; 1] _ RODone);
    [reflexivity|by apply demo_packets_ok| |reflexivity].
  repeat (apply NoDup_cons; split; [set_solver|]). apply NoDup_nil_2.
Defined.

Lemma process_packet_spec_witness :
  exists qs', process_packet demo_active_queues 7 [2] = Done qs' /\
    length qs' = 4.
Proof.
  destruct (process_packet_spec demo_active_queues 7 [2]) as (qs' & Hp & Hl & _).
  - apply Forall_cons. split; [simpl; lia|by apply Forall_nil].
  - exists qs'. split; [exact Hp|exact Hl].
Defined.
End Witnesses.
