(* ===== verification/Stack.v ===== *)
(** * The stack: foa/src/lib.rs, the wiring of bg_task.rs and [TxEndpoint]

    [init] connects the parts: one receive queue per virtual interface, four EDCA
    queues shared by all interfaces, and one runner per EDCA endpoint of the
    driver.  A runner and an access category find each other through the
    hardware slot they have in common.  [stack_step] is transmission,
    reception and the channel as one machine: the interfaces' calls, the two background
    runners and the radio.  Foa.v adds the key slots, the factory addresses and the
    receive routers. *)
From S2P Require Import Prelude Platform TxBuffers TxQueue TxQueueSpec TxSystem Lmac RxPath.

(** ** The driver's transmit queues

    [hardware_slot] is [EdcaAccessCategory::hardware_slot], [edca_endpoint_slots]
    the slots of the endpoints that [WiFi::split] returns after the beacon
    endpoint, and [rx_interface_controllers] the interfaces of its controllers. *)
Class TxDriver : Type := {
  EdcaAccessCategory : Type;
  hardware_slot : EdcaAccessCategory -> nat;
  edca_endpoint_slots : list nat;
  rx_interface_controllers : list nat;
}.

(** The beacon queue has slot 0, the EDCA queues the four after it. *)
Class TxDriverLaws `{Radio} `{TxDriver} : Prop := {
  edca_slots : edca_endpoint_slots ≡ₚ [1; 2; 3; 4];
  category_slot : forall ac, hardware_slot ac ∈ edca_endpoint_slots;
  controllers : rx_interface_controllers ≡ₚ seq 0 INTERFACE_COUNT;
}.

Section Stack.
Context {W Ch : Type -> Type} {Frame : Type}.
Context `{FoaConfig, Hal, Radio, Watch W, Channel Ch, TxDriver}.

(** ** [init] *)

(** A [VirtualInterface]: the interface its control acts on, and its receive
    queue.  The transmit endpoint is the shared queues with [vif_interface]. *)
Record VirtualInterface : Type := MkVirtualInterface {
  vif_interface : nat;
  vif_rx_queue : nat;
}.

(** A [TxQueueRunner]: the software queue it serves and its driver endpoint. *)
Record TxQueueRunner : Type := MkTxQueueRunner {
  tr_queue : nat;
  tr_slot : nat;
}.

Record Stack : Type := MkStack {
  st_lmac : LSystem (W := W);
  st_rx_queues : list (Ch Frame * bool);
  st_tx : TxSystem Ch;
  st_tx_runners : list TxQueueRunner;
  st_interfaces : list VirtualInterface;
  (** Who transmits with the beacon endpoint, behind its mutex. *)
  st_beacon : option nat;
}.

(** [queues[hardware_slot - 1]]. *)
Definition edca_index (slot : nat) : outcome nat :=
  i ← usize_sub slot 1;
  _ ← assert_that (bool_decide (i < 4));
  mret i.

(** [SharedLMacState::split] keeps the order of the controllers. *)
Definition lmac_split (controllers : list nat) : list nat := controllers.

Definition tx_queue_runner (slot : nat) : outcome TxQueueRunner :=
  i ← edca_index slot; mret (MkTxQueueRunner i slot).

Definition virtual_interface (interface : nat) : outcome VirtualInterface :=
  _ ← assert_that (bool_decide (interface < INTERFACE_COUNT));
  mret (MkVirtualInterface interface interface).

Definition init (channel_controller : ChannelController) : outcome Stack :=
  interfaces ← mapM virtual_interface (lmac_split rx_interface_controllers);
  runners ← mapM tx_queue_runner edca_endpoint_slots;
  mret (MkStack (lsystem_new channel_controller) rx_queues_new system_new runners interfaces None).

(** ** Transmission *)

Definition with_lmac s (l : LSystem (W := W)) : Stack :=
  MkStack l (st_rx_queues s) (st_tx s) (st_tx_runners s) (st_interfaces s) (st_beacon s).
Definition with_rx_queues s qs : Stack :=
  MkStack (st_lmac s) qs (st_tx s) (st_tx_runners s) (st_interfaces s) (st_beacon s).
Definition with_tx s (t : TxSystem Ch) : Stack :=
  MkStack (st_lmac s) (st_rx_queues s) t (st_tx_runners s) (st_interfaces s) (st_beacon s).
Definition with_beacon s b : Stack :=
  MkStack (st_lmac s) (st_rx_queues s) (st_tx s) (st_tx_runners s) (st_interfaces s) b.

(** What the radio is asked to send if [f] is transmitted now. *)
Definition request_of (pool : TxBufferManager Ch) (f : PendingFrame) : outcome TxRequest :=
  bytes ← expect (deref pool (pf_frame f));
  transmit_request bytes f.

(** Beacon transmissions: with the driver's retries, or once, after a hook that
    may still change the frame.  Both wait for the mutex of the endpoint; what
    follows up to the transmission itself is one step. *)
Inductive beacon_call : Type :=
| TransmitBeacon (retry : RetryBehaviour)
| TransmitBeaconWithHook (hook : list Z -> outcome (list Z)).

Record BeaconRequest : Type := MkBeaconRequest {
  br_interface : nat;
  br_plcp_parameters : TxPlcpParameters;
  br_mac_parameters : TxMacParameters;
  (** [None]: [transmit_oneshot]. *)
  br_behaviour : option TxErrorBehaviour;
  br_frame : list Z;
}.

Definition transmit_beacon (interface : nat) (frame_buf : list Z) (plcp : TxPlcpParameters)
  (mac : TxMacParameters) (c : beacon_call) : outcome BeaconRequest :=
  match c with
  | TransmitBeacon retry =>
      mret (MkBeaconRequest interface plcp mac (Some (as_driver_behaviour retry)) frame_buf)
  | TransmitBeaconWithHook hook =>
      frame_buf ← hook frame_buf;
      mret (MkBeaconRequest interface plcp mac None frame_buf)
  end.

(** ** Steps *)

Inductive stack_action : Type :=
| KLmac (a : lmac_action)
| KFrame (frame : Frame) (interfaces : list nat)
| KSplit (v : nat)
| KDropEndpoint (v : nat)
| KReceive (v : nat)
| KReset (v : nat)
| KAlloc
| KWrite (b : TxBuffer) (bytes : list Z)
| KRelease (b : TxBuffer)
| KTransmit (v : nat) (ac : EdcaAccessCategory) (b : TxBuffer) (frame_length : nat)
    (plcp : TxPlcpParameters) (mac : TxMacParameters) (retry : RetryBehaviour)
| KPoll (ac : EdcaAccessCategory) (g : nat)
| KDropHandle (ac : EdcaAccessCategory) (g : nat)
| KStatus (ac : EdcaAccessCategory) (g : nat)
| KPick (j : nat)
| KRadioWrite (j : nat) (bytes : list Z)
| KRadioDone (j : nat) (r : result TxError Z)
| KRunnerDropped (j : nat)
| KBeacon (v : nat) (frame_buf : list Z) (plcp : TxPlcpParameters) (mac : TxMacParameters)
    (c : beacon_call)
| KBeaconEnd.

Inductive stack_output : Type :=
| KOUnit
| KOLmac (o : lmac_output)
| KOFrame (p : poll Frame)
| KOReset (calls : list InterfaceCall)
| KOTx (o : sys_output)
(** A frame was accepted for a slot; [req] is the request for its bytes at that
    moment. *)
| KOSubmitted (slot : nat) (req : outcome TxRequest)
(** The endpoint of a slot was given a frame. *)
| KOStarted (slot : nat) (req : TxRequest)
| KOBeacon (p : poll BeaconRequest).

(** A step of the pool and the queues. *)
Definition tx_step s (a : sys_action) : option (outcome (Stack * stack_output)) :=
  match system_step (st_tx s) a with
  | Some (Done (t, o)) => Some (Done (with_tx s t, KOTx o))
  | Some Panic => Some Panic
  | None => None
  end.

(** A step of a caller on the queue of an access category. *)
Definition category_step s (ac : EdcaAccessCategory) (a : tx_action) :=
  match edca_index (hardware_slot ac) with
  | Done i => tx_step s (SQueue i a)
  | Panic => Some Panic
  end.

(** A step on the receive queue of an interface. *)
Definition rx_queue_step s (v : nat) (k : Ch Frame * bool -> stack_output * (Ch Frame * bool))
  : option (outcome (Stack * stack_output)) :=
  vif ← st_interfaces s !! v;
  Some (
    q ← expect (st_rx_queues s !! vif_rx_queue vif);
    let '(o, q) := k q in
    mret (with_rx_queues s (<[vif_rx_queue vif := q]> (st_rx_queues s)), o)).

(** The frame that runner [j] is transmitting. *)
Definition in_transmission s (j : nat) : option PendingFrame :=
  r ← st_tx_runners s !! j;
  m ← sy_queues (st_tx s) !! tr_queue r;
  snd <$> tm_runner m.

(** [VirtualInterface::split] activates the receive queue, the endpoint's drop
    deactivates it. *)
Definition vif_split s (v : nat) := rx_queue_step s v (fun q => (KOUnit, rx_endpoint_new q)).
Definition endpoint_drop s (v : nat) := rx_queue_step s v (fun q => (KOUnit, rx_endpoint_drop q)).
Definition endpoint_receive s (v : nat) :=
  rx_queue_step s v (fun q => let '(p, q) := rx_receive q in (KOFrame p, q)).

(** [VirtualInterface::reset] on the shared state. *)
Definition interface_reset s (v : nat) : option (outcome (Stack * stack_output)) :=
  vif ← st_interfaces s !! v;
  let l := st_lmac s in
  Some (
    q ← expect (st_rx_queues s !! vif_rx_queue vif);
    '(q, cs, calls) ← vif_reset q (lm_channel (ls_mac l)) (vif_interface vif);
    mret (with_lmac (with_rx_queues s (<[vif_rx_queue vif := q]> (st_rx_queues s)))
            (MkLSystem (with_channel (ls_mac l) cs) (ls_tasks l) (ls_requests l)),
          KOReset calls)).

(** A round of [RxRunner::run]. *)
Definition run_rx s (frame : Frame) (interfaces : list nat) : outcome (Stack * stack_output) :=
  qs ← process_packet (st_rx_queues s) frame interfaces;
  mret (with_rx_queues s qs, KOUnit).

(** [TxEndpoint::transmit_edca] of an interface. *)
Definition interface_transmit s (v : nat) (ac : EdcaAccessCategory) (b : TxBuffer)
  (frame_length : nat) (plcp : TxPlcpParameters) (mac : TxMacParameters) (retry : RetryBehaviour)
  : option (outcome (Stack * stack_output)) :=
  vif ← st_interfaces s !! v;
  let f := MkPendingFrame b frame_length plcp mac
             (wrapping 8 (Z.of_nat (vif_interface vif))) retry in
  match category_step s ac (AEnqueue f) with
  | Some (Done (s', _)) => Some (Done (s',
      KOSubmitted (hardware_slot ac) (request_of (sy_pool (st_tx s)) f)))
  | r => r
  end.

(** Runner [j] takes the next frame of its queue and hands it to its endpoint. *)
Definition run_tx s (j : nat) : option (outcome (Stack * stack_output)) :=
  r ← st_tx_runners s !! j;
  match system_step (st_tx s) (SQueue (tr_queue r) AReceive) with
  | Some (Done (t, SOQueue (OPicked (Some f)))) => Some (
      req ← request_of (sy_pool t) f;
      mret (with_tx s t, KOStarted (tr_slot r) req))
  | Some (Done (t, _)) => Some (Done (with_tx s t, KOUnit))
  | Some Panic => Some Panic
  | None => None
  end.

(** The endpoint was lent the frame mutably. *)
Definition radio_write s (j : nat) (bytes : list Z) : option (outcome (Stack * stack_output)) :=
  f ← in_transmission s j;
  let pool := sy_pool (st_tx s) in
  old ← deref pool (pf_frame f);
  if decide (length bytes = pf_frame_length f /\ pf_frame_length f <= length old) then
    Some (Done (with_tx s (MkTxSystem
      (deref_mut pool (pf_frame f) (bytes ++ drop (length bytes) old))
      (sy_queues (st_tx s)) (sy_held (st_tx s))), KOUnit))
  else None.

(** A poll of [transmit_beacon] or [transmit_beacon_with_hook] up to the radio. *)
Definition beacon_poll s (v : nat) (frame_buf : list Z) (plcp : TxPlcpParameters)
  (mac : TxMacParameters) (c : beacon_call) : option (outcome (Stack * stack_output)) :=
  vif ← st_interfaces s !! v;
  Some match st_beacon s with
       | Some _ => mret (s, KOBeacon PollPending)
       | None =>
           req ← transmit_beacon (vif_interface vif) frame_buf plcp mac c;
           mret (with_beacon s (Some (vif_interface vif)), KOBeacon (PollReady req))
       end.

Definition stack_step s (a : stack_action) : option (outcome (Stack * stack_output)) :=
  match a with
  | KLmac a =>
      match lmac_step (st_lmac s) a with
      | Some (Done (l, o)) => Some (Done (with_lmac s l, KOLmac o))
      | Some Panic => Some Panic
      | None => None
      end
  | KFrame frame interfaces => Some (run_rx s frame interfaces)
  | KSplit v => vif_split s v
  | KDropEndpoint v => endpoint_drop s v
  | KReceive v => endpoint_receive s v
  | KReset v => interface_reset s v
  | KAlloc => tx_step s SAlloc
  | KWrite b bytes => tx_step s (SWrite b bytes)
  | KRelease b => tx_step s (SRelease b)
  | KTransmit v ac b frame_length plcp mac retry =>
      interface_transmit s v ac b frame_length plcp mac retry
  | KPoll ac g => category_step s ac (APoll g)
  | KDropHandle ac g => category_step s ac (ADropHandle g)
  | KStatus ac g => category_step s ac (AStatus g)
  | KPick j => run_tx s j
  | KRadioWrite j bytes => radio_write s j bytes
  | KRadioDone j r => q ← tr_queue <$> st_tx_runners s !! j; tx_step s (SQueue q (AFinish r))
  | KRunnerDropped j => q ← tr_queue <$> st_tx_runners s !! j; tx_step s (SQueue q AAbort)
  | KBeacon v frame_buf plcp mac c => beacon_poll s v frame_buf plcp mac c
  | KBeaconEnd =>
      _ ← st_beacon s;
      Some (Done (with_beacon s None, KOUnit))
  end.

(** ** Histories *)

(** What was accepted for a slot, and what its endpoint was given, in order. *)
Definition submitted (slot : nat) (os : list stack_output) : list (outcome TxRequest) :=
  omap (fun o => match o with
                 | KOSubmitted slot' req => if decide (slot' = slot) then Some req else None
                 | _ => None
                 end) os.
Definition started (slot : nat) (os : list stack_output) : list TxRequest :=
  omap (fun o => match o with
                 | KOStarted slot' req => if decide (slot' = slot) then Some req else None
                 | _ => None
                 end) os.
End Stack.
