(* ===== verification/StackProps.v ===== *)
(** * The stack: what reaches the radio

    The frames an access category accepts and the frames its endpoint transmits,
    over the whole machine of Stack.v. *)
From S2P Require Import Prelude Platform TxBuffers TxQueue TxQueueSpec TxQueueRefine TxSystem Lmac RxPath Stack.

(** ** The frames of a queue that no runner has picked yet *)

Section Waiting.
Context `{FoaConfig, Hal}.
Implicit Types (f : PendingFrame) (m : TxMachine) (sp : TxSpec).
Notation N := TX_BUFFER_COUNT.

Definition picked_count sp : nat := length (sp_results sp) + if sp_active sp then 1 else 0.
Definition waiting_frames sp : list PendingFrame := drop (picked_count sp) (sp_frames sp).

Lemma picked_count_le sp : spec_ok sp -> picked_count sp <= length (sp_frames sp).
Proof.
  intros Hok. pose proof (so_results _ Hok). pose proof (so_active _ Hok).
  unfold picked_count. destruct (sp_active sp); [specialize (H2 eq_refl)|]; lia.
Qed.

(** Accepting a frame appends it, picking one takes the oldest, and nothing else
    changes them. *)
Lemma spec_step_waiting sp a sp' o bufs :
  spec_ok sp -> spec_step sp a = Some (Done (sp', (o, bufs))) ->
  match a, o with
  | AEnqueue f, _ => waiting_frames sp' = waiting_frames sp ++ [f]
  | AReceive, OPicked (Some f) => waiting_frames sp = f :: waiting_frames sp'
  | _, _ => waiting_frames sp' = waiting_frames sp
  end.
Proof.
  intros Hok Hs. pose proof (picked_count_le _ Hok) as Hle. unfold waiting_frames.
  destruct a as [f| |r| |g|g|g]; simpl in Hs.
  - case_decide; [|done]. destruct (enqueued_fields sp f) as (Hf & Hr & Ha & _).
    unfold enqueued in *. destruct (spec_enqueue sp f) as [sp1 b]. simplify_eq/=.
    unfold picked_count. rewrite Hf, Hr, Ha. by apply drop_app_le.
  - destruct (sp_active sp) eqn:Ha; [done|]. unfold picked_count in *. rewrite Ha in *.
    rewrite Nat.add_0_r in *. destruct (sp_frames sp !! _) as [f|] eqn:Hf; simplify_eq/=.
    + by rewrite (drop_S _ _ _ Hf), Nat.add_1_r.
    + by rewrite Ha, Nat.add_0_r.
  - destruct (sp_active sp) eqn:Ha; [|done].
    destruct (sp_frames sp !! _) as [f|]; [|done]. simpl in Hs.
    unfold picked_count. rewrite Ha.
    case_decide; simplify_eq/=; by rewrite length_app, Nat.add_0_r.
  - destruct (sp_active sp) eqn:Ha; [|done].
    destruct (sp_frames sp !! _) as [f|]; [|done]. simplify_eq/=.
    unfold picked_count. simpl. by rewrite Ha, length_app, Nat.add_0_r.
  - by repeat case_match; simplify_eq/=.
  - by repeat case_match; simplify_eq/=.
  - by repeat case_match; simplify_eq/=.
Qed.

Lemma waiting_in_ring m sp f :
  tx_refines m sp -> f ∈ waiting_frames sp -> pf_frame f ∈ ring_owned waiting (tm_queue m).
Proof.
  intros Hr [k Hk]%list_elem_of_lookup. unfold waiting_frames in Hk.
  rewrite lookup_drop in Hk. pose proof (lookup_lt_Some _ _ _ Hk) as Hlt.
  pose proof (so_live _ (tr_ok _ _ Hr)).
  pose proof (read_item m sp Hr (picked_count sp + k) Hlt) as Hit.
  assert (expired sp (picked_count sp + k) = false) as He.
  { apply bool_decide_eq_false. unfold picked_count in *. lia. }
  specialize (Hit He). unfold ring_owned, owned.
  apply list_elem_of_bind. exists (spec_item sp (picked_count sp + k)).
  split; [|by eapply list_elem_of_lookup_2]. simpl. unfold spec_slot, picked_count in *.
  rewrite decide_False by lia.
  replace (sp_active sp && _) with false.
  - rewrite Hk. left.
  - destruct (sp_active sp); [|done]. symmetry. apply bool_decide_eq_false. lia.
Qed.

Lemma waiting_in_slots q b : b ∈ ring_owned waiting q -> b ∈ ring_owned slot_buffers q.
Proof.
  unfold ring_owned, owned. rewrite !list_elem_of_bind. intros (it & Hb & Hit).
  exists it. split; [|done]. simpl in *. by destruct (item_slot it); simpl in *; set_solver.
Qed.

Lemma waiting_in_machine m sp f :
  tx_refines m sp -> f ∈ waiting_frames sp -> pf_frame f ∈ machine_buffers m.
Proof.
  intros Hr Hf. apply elem_of_app. left. by eapply waiting_in_slots, waiting_in_ring.
Qed.

(** A frame being transmitted does not wait. *)
Lemma runner_not_waiting m sp f i f0 :
  tx_refines m sp -> NoDup (machine_buffers m) -> f ∈ waiting_frames sp ->
  tm_runner m = Some (i, f0) -> pf_frame f <> pf_frame f0.
Proof.
  intros Hr Hnd Hf Hrun Heq. unfold machine_buffers, machine_owned, runner_buffers in Hnd.
  rewrite Hrun in Hnd. apply NoDup_app in Hnd as (_ & Hd & _). apply (Hd (pf_frame f)).
  - by eapply waiting_in_slots, waiting_in_ring.
  - rewrite Heq. left.
Qed.
End Waiting.

(** ** Steps of the pool and the queues, seen from the buffers in flight *)

Section Transmissions.
Context {Ch : Type -> Type} `{FoaConfig, Hal, ChannelLaws Ch}.
Implicit Types (s : TxSystem Ch) (f : PendingFrame) (m : TxMachine) (pool : TxBufferManager Ch).

Definition same_bytes pool pool' (bs : list TxBuffer) : Prop :=
  forall b, b ∈ bs -> deref pool' b = deref pool b.

Lemma request_same pool pool' f :
  deref pool' (pf_frame f) = deref pool (pf_frame f) -> request_of pool' f = request_of pool f.
Proof. intros Hd. unfold request_of. by rewrite Hd. Qed.

(** Callers write and drop only what they hold. *)
Lemma caller_step_bytes s a s' o :
  system_inv s -> system_step s a = Some (Done (s', o)) -> (forall i b, a <> SQueue i b) ->
  sy_queues s' = sy_queues s /\ same_bytes (sy_pool s) (sy_pool s') (in_flight s).
Proof.
  intros Hinv Hs Ha. pose proof (pool_inv_NoDup _ _ (si_pool _ Hinv)) as Hnd.
  apply NoDup_app in Hnd as (_ & Hd & _).
  destruct a as [|b bytes|b|i a]; simpl in Hs; [| | |by destruct (Ha i a)].
  - destruct (try_alloc (sy_pool s)) as [[b pool]|] eqn:Hal; simplify_eq; [|done].
    split; [done|]. intros b' _. unfold deref. simpl. by rewrite (try_alloc_slab _ _ _ Hal).
  - case_decide as Hb; [|done]. destruct Hb as [Hb _]. simplify_eq. split; [done|]. intros b' Hb'.
    apply deref_mut_other. intros <-. by apply (Hd b).
  - destruct (remove_one b (sy_held s)) as [held|] eqn:Hr; [|done]. simplify_eq.
    split; [done|]. intros b' Hb'. apply (deref_mut_other _ b b').
    intros <-. apply remove_one_Permutation in Hr. apply (Hd b); [|done]. rewrite Hr. left.
Qed.

(** A queue step returns its dropped buffers and touches no other. *)
Lemma queue_step_bytes s i a s' o :
  system_inv s -> system_step s (SQueue i a) = Some (Done (s', o)) ->
  exists m m' qo bufs, sy_queues s !! i = Some m /\ o = SOQueue qo /\
    machine_step m a = Some (Done (m', (qo, bufs))) /\
    sy_queues s' = <[i := m']> (sy_queues s) /\
    sy_pool s' = drop_buffers (sy_pool s) bufs /\
    same_bytes (sy_pool s) (sy_pool s') (in_flight s').
Proof.
  intros Hinv Hs. simpl in Hs. destruct (sy_queues s !! i) as [m|] eqn:Hi; [|done].
  destruct (hand_over (sy_held s) a) as [held|] eqn:Hg; [|done].
  destruct (machine_step m a) as [[[m' [qo bufs]]|]|] eqn:Hst; simplify_eq.
  exists m, m', qo, bufs. split_and!; [done..|]. intros b Hb. simpl.
  apply drop_buffers_other. intros Hin.
  pose proof (pool_inv_NoDup _ _ (queue_step_held s i m m' a qo bufs held Hinv Hi Hg Hst)) as Hnd.
  apply NoDup_app in Hnd as (_ & Hd & _). apply (Hd b Hin), elem_of_app. by right.
Qed.

Lemma system_step_sized s a s' o :
  slab_sized (sy_pool s) -> system_step s a = Some (Done (s', o)) -> slab_sized (sy_pool s').
Proof.
  intros Hz Hs. destruct a as [|b bytes|b|i a]; simpl in Hs.
  - destruct (try_alloc (sy_pool s)) as [[b pool]|] eqn:Hal; simplify_eq; [|done].
    unfold slab_sized. simpl. by rewrite (try_alloc_slab _ _ _ Hal).
  - case_decide as Hb; [|done]. destruct Hb as [_ Hb]. simplify_eq. by apply deref_mut_sized.
  - destruct (remove_one b (sy_held s)) as [held|]; [|done]. simplify_eq.
    by apply (drop_buffers_sized _ [b]).
  - destruct (sy_queues s !! i) as [m|]; [|done].
    destruct (hand_over (sy_held s) a) as [held|]; [|done].
    destruct (machine_step m a) as [[[m' [qo bufs]]|]|]; simplify_eq. by apply drop_buffers_sized.
Qed.

(** The radio rewrites the frame it transmits. *)
Lemma radio_write_inv s b bytes :
  system_inv s -> b ∈ in_flight s ->
  system_inv (MkTxSystem (deref_mut (sy_pool s) b bytes) (sy_queues s) (sy_held s)).
Proof.
  intros [Hp Hl Hm] Hb. split; [|done..]. simpl. apply deref_mut_inv; [done|].
  apply elem_of_app. by right.
Qed.

Lemma runner_in_flight s q m i f :
  sy_queues s !! q = Some m -> tm_runner m = Some (i, f) -> pf_frame f ∈ in_flight s.
Proof.
  intros Hq Hrun. apply (owned_elem_of machine_buffers _ q m); [done|].
  unfold machine_buffers, machine_owned, runner_buffers. rewrite Hrun.
  apply elem_of_app. right. left.
Qed.

Lemma radio_write_bytes s q m i f sp q' m' f' bytes :
  system_inv s -> sy_queues s !! q = Some m -> tm_runner m = Some (i, f) ->
  sy_queues s !! q' = Some m' -> tx_refines m' sp -> f' ∈ waiting_frames sp ->
  deref (deref_mut (sy_pool s) (pf_frame f) bytes) (pf_frame f') =
    deref (sy_pool s) (pf_frame f').
Proof.
  intros Hinv Hq Hrun Hq' Hr Hf. apply deref_mut_other.
  pose proof (pool_inv_NoDup _ _ (si_pool _ Hinv)) as Hnd.
  apply NoDup_app in Hnd as (_ & _ & Hnd).
  destruct (decide (q' = q)) as [->|Hne].
  - simplify_eq. intros Heq. symmetry in Heq. revert Heq.
    apply (runner_not_waiting m sp f' i f); [done| |done..].
    by apply (owned_NoDup machine_buffers _ _ _ Hnd Hq).
  - intros Heq. apply (owned_disjoint machine_buffers _ q q' m m' (pf_frame f) Hnd);
      [done|done|congruence| |].
    + unfold machine_buffers, machine_owned, runner_buffers. rewrite Hrun.
      apply elem_of_app. right. left.
    + rewrite Heq. by eapply waiting_in_machine.
Qed.
End Transmissions.

(** ** What was accepted is what was started and what still waits *)

Tactic Notation "unfold_stack" := unfold stack_step, run_rx, vif_split, endpoint_drop, endpoint_receive, interface_reset, interface_transmit, run_tx,
    radio_write, beacon_poll.
Tactic Notation "unfold_stack" "in" hyp(H) := unfold stack_step, run_rx, vif_split, endpoint_drop, endpoint_receive, interface_reset, interface_transmit, run_tx,
    radio_write, beacon_poll in H.

Section Log.
Context {W Ch : Type -> Type} {Frame : Type}.
Context `{FoaConfig, Hal, Radio, Watch W, ChannelLaws Ch, TxDriver}.
Implicit Types (s : Stack (W := W) (Ch := Ch) (Frame := Frame)) (m : TxMachine).
Implicit Types (f : PendingFrame) (pool : TxBufferManager Ch).
Implicit Types (o : stack_output (Frame := Frame)) (os : list (stack_output (Frame := Frame))).

Definition queue_log pool i m os : Prop := exists sp, tx_refines m sp /\
  submitted (S i) os = (Done <$> started (S i) os) ++ (request_of pool <$> waiting_frames sp).

Record tx_inv s os : Prop := {
  ti_system : system_inv (st_tx s);
  ti_sized : slab_sized (sy_pool (st_tx s));
  ti_runners : Forall (fun r => tr_queue r < 4 /\ tr_slot r = S (tr_queue r)) (st_tx_runners s);
  ti_log : forall i m, sy_queues (st_tx s) !! i = Some m ->
    queue_log (sy_pool (st_tx s)) i m os;
}.

Lemma submitted_snoc slot os o : submitted slot (os ++ [o]) = submitted slot os ++ submitted slot [o].
Proof. apply omap_app. Qed.
Lemma started_snoc slot os o : started slot (os ++ [o]) = started slot os ++ started slot [o].
Proof. apply omap_app. Qed.

Lemma submit_event slot req (o := KOSubmitted (Frame := Frame) slot req) :
  submitted slot [o] = [req] /\ started slot [o] = [].
Proof. unfold submitted. simpl. by rewrite decide_True. Qed.
Lemma start_event slot req (o := KOStarted (Frame := Frame) slot req) :
  submitted slot [o] = [] /\ started slot [o] = [req].
Proof. unfold started. simpl. by rewrite decide_True. Qed.

(** The output is no event of the transmit path. *)
Definition silent o : Prop := forall slot, submitted slot [o] = [] /\ started slot [o] = [].

Lemma queue_log_silent pool pool' i m os o :
  queue_log pool i m os -> silent o ->
  (forall sp f, tx_refines m sp -> f ∈ waiting_frames sp ->
     deref pool' (pf_frame f) = deref pool (pf_frame f)) ->
  queue_log pool' i m (os ++ [o]).
Proof.
  intros (sp & Hr & Hlog) Ho Hd. destruct (Ho (S i)) as [Hs Ht]. exists sp. split; [done|].
  rewrite submitted_snoc, started_snoc, Hs, Ht, !app_nil_r, Hlog. f_equal.
  apply list_fmap_ext. intros k f Hf. symmetry.
  apply request_same, (Hd sp); [done|by eapply list_elem_of_lookup_2].
Qed.

(** The event of the stack that a step of queue [i] must be. *)
Definition event_of pool i (a : tx_action) (qo : tx_output) o : Prop :=
  match a, qo with
  | AEnqueue f, _ => o = KOSubmitted (S i) (request_of pool f)
  | AReceive, OPicked (Some f) => exists req, request_of pool f = Done req /\ o = KOStarted (S i) req
  | _, _ => silent o
  end.

Lemma event_elsewhere pool i a qo o j :
  event_of pool i a qo o -> j <> i -> submitted (S j) [o] = [] /\ started (S j) [o] = [].
Proof.
  unfold event_of, submitted, started. intros He Hne.
  destruct a; [|destruct qo as [|[f|]| | |]|..]; try apply (He (S j)).
  - subst o. simpl. rewrite decide_False by congruence. done.
  - destruct He as (req & _ & ->). simpl. rewrite decide_False by congruence. done.
Qed.

Lemma queue_log_step pool pool' i m a m' qo bufs os o :
  queue_log pool i m os -> machine_step m a = Some (Done (m', (qo, bufs))) ->
  same_bytes pool pool' (machine_buffers m') -> event_of pool i a qo o ->
  queue_log pool' i m' (os ++ [o]).
Proof.
  intros (sp & Hr & Hlog) Hs Hsame He. pose proof (step_refines m sp a Hr) as Hag.
  rewrite Hs in Hag. destruct (spec_step sp a) as [[[sp' o']|]|] eqn:Hsp; simpl in Hag; try done.
  destruct Hag as [<- Hr']. pose proof (spec_step_waiting _ _ _ _ _ (tr_ok _ _ Hr) Hsp) as Hw.
  exists sp'. split; [done|].
  assert (request_of pool' <$> waiting_frames sp' = request_of pool <$> waiting_frames sp') as ->.
  { apply list_fmap_ext. intros k f Hf. apply request_same, Hsame.
    eapply waiting_in_machine; [done|by eapply list_elem_of_lookup_2]. }
  rewrite submitted_snoc, started_snoc, Hlog.
  destruct a; [|destruct qo as [|[f'|]| | |]|..]; simpl in He;
    try (destruct (He (S i)) as [-> ->]; by rewrite !app_nil_r, Hw).
  - subst o. destruct (submit_event (S i) (request_of pool f)) as [-> ->].
    by rewrite app_nil_r, Hw, fmap_app, <- app_assoc.
  - destruct He as (req & Hreq & ->). destruct (start_event (S i) req) as [-> ->].
    rewrite app_nil_r, Hw, fmap_app, <- app_assoc. simpl. by rewrite Hreq.
Qed.

(** A step of queue [i] together with its event. *)
Lemma queue_event s i a t qo os o :
  tx_inv s os -> system_step (st_tx s) (SQueue i a) = Some (Done (t, SOQueue qo)) ->
  event_of (sy_pool (st_tx s)) i a qo o -> tx_inv (with_tx s t) (os ++ [o]).
Proof.
  intros [Hinv Hz Hrun Hlog] Hs He.
  destruct (queue_step_bytes _ _ _ _ _ Hinv Hs)
    as (m & m' & qo' & bufs & Hi & [= <-] & Hst & Hq & Hp & Hsame).
  split; simpl; [by eapply system_step_inv|by eapply system_step_sized|done|].
  assert (forall j mj, sy_queues t !! j = Some mj ->
    same_bytes (sy_pool (st_tx s)) (sy_pool t) (machine_buffers mj)) as Hsj.
  { intros j mj Hj b Hb. apply Hsame. by apply (owned_elem_of machine_buffers _ j mj). }
  intros j mj Hj. specialize (Hsj j mj Hj). rewrite Hq in Hj.
  apply list_lookup_insert_Some in Hj as [(<- & <- & _)|[Hne Hj]].
  - by eapply queue_log_step; [apply Hlog| | |].
  - destruct (Hlog j mj Hj) as (sp & Hr & Heq). exists sp. split; [done|].
    destruct (event_elsewhere _ _ _ _ _ j He) as [Hs1 Hs2]; [congruence|].
    rewrite submitted_snoc, started_snoc, Hs1, Hs2, !app_nil_r, Heq. f_equal.
    apply list_fmap_ext. intros k f Hf. symmetry. apply request_same, Hsj.
    eapply waiting_in_machine; [done|by eapply list_elem_of_lookup_2].
Qed.

(** Steps outside the queues. *)
Lemma tx_inv_silent s s' os o :
  tx_inv s os -> silent o -> st_tx s' = st_tx s -> st_tx_runners s' = st_tx_runners s ->
  tx_inv s' (os ++ [o]).
Proof.
  intros [Hinv Hz Hrun Hlog] Ho Ht Hr. split; rewrite ?Ht, ?Hr; try done.
  intros i m Hi. by eapply queue_log_silent; [apply Hlog| |].
Qed.

Lemma caller_event s a t so os o :
  tx_inv s os -> system_step (st_tx s) a = Some (Done (t, so)) -> (forall i b, a <> SQueue i b) ->
  silent o -> tx_inv (with_tx s t) (os ++ [o]).
Proof.
  intros [Hinv Hz Hrun Hlog] Hs Ha Ho.
  destruct (caller_step_bytes _ _ _ _ Hinv Hs Ha) as [Hq Hb].
  split; simpl; [by eapply system_step_inv|by eapply system_step_sized|done|].
  intros i m Hi. rewrite Hq in Hi. eapply queue_log_silent; [by apply Hlog|done|].
  intros sp f Hr Hf. apply Hb. apply (owned_elem_of machine_buffers _ i m); [done|].
  by eapply waiting_in_machine.
Qed.

(** ** Every step of the stack *)

Lemma edca_index_Done slot i : edca_index slot = Done i <-> slot = S i /\ i < 4.
Proof.
  unfold edca_index. rewrite outcome_bind_Done. setoid_rewrite usize_sub_Done. split.
  - intros (k & [Hle ->] & Hk). apply outcome_bind_Done in Hk as (? & Hk & [= <-]).
    apply assert_that_Done, bool_decide_eq_true in Hk. lia.
  - intros [-> Hi]. exists i. split; [lia|]. by rewrite bool_decide_true.
Qed.

Lemma tx_step_Done s a s' o :
  tx_step s a = Some (Done (s', o)) <->
  exists t so, system_step (st_tx s) a = Some (Done (t, so)) /\ s' = with_tx s t /\ o = KOTx so.
Proof. unfold tx_step. destruct (system_step _ _) as [[[t so]|]|]; naive_solver. Qed.

Lemma category_step_Done s ac a s' o :
  system_inv (st_tx s) -> category_step s ac a = Some (Done (s', o)) ->
  exists i t qo, hardware_slot ac = S i /\
    system_step (st_tx s) (SQueue i a) = Some (Done (t, SOQueue qo)) /\
    s' = with_tx s t /\ o = KOTx (SOQueue qo).
Proof.
  intros Hinv. unfold category_step. destruct (edca_index _) as [i|] eqn:Hi; [|done].
  apply edca_index_Done in Hi as [Hi _].
  intros (t & so & Hs & -> & ->)%tx_step_Done.
  destruct (queue_step_bytes _ _ _ _ _ Hinv Hs) as (m & m' & qo & bufs & _ & -> & _). eauto 10.
Qed.

Lemma category_event s ac a s' o os :
  tx_inv s os -> category_step s ac a = Some (Done (s', o)) ->
  match a with APoll _ | ADropHandle _ | AStatus _ => True | _ => False end ->
  tx_inv s' (os ++ [o]).
Proof.
  intros Hinv Hs Ha. destruct (category_step_Done _ _ _ _ _ (ti_system _ _ Hinv) Hs)
    as (i & t & qo & _ & Hst & -> & ->).
  eapply queue_event; [done..|]. by destruct a.
Qed.

Lemma rx_queue_step_tx s v k s' o os :
  tx_inv s os -> rx_queue_step s v k = Some (Done (s', o)) -> (forall q, silent (fst (k q))) ->
  tx_inv s' (os ++ [o]).
Proof.
  intros Hinv. unfold rx_queue_step. destruct (st_interfaces s !! v) as [vif|]; [|done]. simpl.
  destruct (st_rx_queues s !! _) as [q|]; [|done]. simpl. intros [= Hs] Hk. specialize (Hk q).
  destruct (k q) as [o' q']. injection Hs as <- <-. by eapply tx_inv_silent.
Qed.

Lemma pick_event s j s' o os :
  tx_inv s os -> stack_step s (KPick j) = Some (Done (s', o)) -> tx_inv s' (os ++ [o]).
Proof.
  intros Hinv. unfold_stack.
  destruct (st_tx_runners s !! j) as [r|] eqn:Hj; [|done]. cbn [mbind option_bind].
  assert (tr_slot r = S (tr_queue r)) as Hslot.
  { by destruct (proj1 (Forall_lookup _ _) (ti_runners _ _ Hinv) j r Hj). }
  destruct (system_step (st_tx s) (SQueue (tr_queue r) AReceive)) as [[[t so]|]|] eqn:Hst; [|done..].
  destruct (queue_step_bytes _ _ _ _ _ (ti_system _ _ Hinv) Hst)
    as (m & m' & qo & bufs & Hi & -> & Hm & _ & Hp & _).
  assert (sy_pool t = sy_pool (st_tx s)) as Hpool.
  { rewrite Hp. simpl in Hm. destruct (tm_runner m); [done|].
    destruct (try_receive (tm_queue m)) as [[]|]; [|done]. by injection Hm as _ _ <-. }
  pose proof (fun o => queue_event s (tr_queue r) AReceive t qo os o Hinv Hst) as He.
  destruct qo as [|[f|]| | |]; try (intros [= <- <-]; by apply He).
  intros [= Hreq]. apply outcome_bind_Done in Hreq as (req & Hreq & [= <- <-]).
  rewrite Hpool in Hreq. rewrite Hslot. apply He. by exists req.
Qed.

Lemma radio_write_event s j bytes s' o os :
  tx_inv s os -> stack_step s (KRadioWrite j bytes) = Some (Done (s', o)) ->
  tx_inv s' (os ++ [o]).
Proof.
  intros [Hinv Hz Hrun Hlog]. unfold_stack. unfold in_transmission.
  destruct (st_tx_runners s !! j) as [r|]; [|done]. simpl.
  destruct (sy_queues (st_tx s) !! tr_queue r) as [m|] eqn:Hq; [|done]. simpl.
  destruct (tm_runner m) as [[i f]|] eqn:Hm; [|done]. simpl.
  destruct (deref _ (pf_frame f)) as [old|] eqn:Hold; [|done]. simpl.
  case_decide as Hlen; [|done]. intros [= <- <-].
  assert (length old = TX_BUFFER_SIZE) as Hsz
    by (by apply (proj1 (Forall_lookup _ _) Hz (buffer (pf_frame f)))).
  split; simpl.
  - apply radio_write_inv; [done|]. by eapply runner_in_flight.
  - apply deref_mut_sized; [done|]. rewrite length_app, length_drop. lia.
  - done.
  - intros q' m' Hq'. eapply queue_log_silent; [by apply Hlog|done|].
    intros sp f' Hr Hf.
    by apply (radio_write_bytes _ (tr_queue r) m i f sp q' m').
Qed.

Lemma runner_event s j a s' o os :
  tx_inv s os -> (q ← tr_queue <$> st_tx_runners s !! j; tx_step s (SQueue q a)) = Some (Done (s', o)) ->
  match a with AFinish _ | AAbort => True | _ => False end -> tx_inv s' (os ++ [o]).
Proof.
  intros Hinv. destruct (st_tx_runners s !! j) as [r|]; [|done]. simpl.
  intros (t & so & Hs & -> & ->)%tx_step_Done Ha.
  destruct (queue_step_bytes _ _ _ _ _ (ti_system _ _ Hinv) Hs) as (m & m' & qo & bufs & _ & -> & _).
  eapply queue_event; [done..|]. by destruct a.
Qed.

Lemma transmit_event s v ac b len plcp mac retry s' o os :
  tx_inv s os -> stack_step s (KTransmit v ac b len plcp mac retry) = Some (Done (s', o)) ->
  tx_inv s' (os ++ [o]).
Proof.
  intros Hinv. unfold_stack. destruct (st_interfaces s !! v) as [vif|]; [|done]. simpl.
  destruct (category_step s ac _) as [[[s1 o1]|]|] eqn:Hs; [|done..]. intros [= <- <-].
  destruct (category_step_Done _ _ _ _ _ (ti_system _ _ Hinv) Hs)
    as (i & t & qo & -> & Hst & -> & _).
  by eapply queue_event.
Qed.

Lemma stack_step_tx s a s' o os :
  tx_inv s os -> stack_step s a = Some (Done (s', o)) -> tx_inv s' (os ++ [o]).
Proof.
  intros Hinv. destruct a as [a|frame interfaces|v|v|v|v| |b bytes|b|v ac b len plcp mac retry|
    ac g|ac g|ac g|j|j bytes|j r|j|v frame_buf plcp mac c|].
  - unfold_stack. destruct (lmac_step _ a) as [[[l lo]|]|]; [|done..]. intros [= <- <-].
    by eapply tx_inv_silent.
  - intros [= (qs & _ & [= <- <-])%outcome_bind_Done]. by eapply tx_inv_silent.
  - intros Hs. by eapply rx_queue_step_tx.
  - intros Hs. by eapply rx_queue_step_tx.
  - intros Hs. eapply rx_queue_step_tx; [done..|]. intros q slot. cbn beta.
    by destruct (rx_receive q).
  - unfold_stack. destruct (st_interfaces s !! v) as [vif|]; [|done]. simpl.
    intros [= (q & _ & ([[q' cs] calls] & _ & [= <- <-])%outcome_bind_Done)%outcome_bind_Done].
    by eapply tx_inv_silent.
  - intros (t & so & Hs & -> & ->)%tx_step_Done. by eapply caller_event.
  - intros (t & so & Hs & -> & ->)%tx_step_Done. by eapply caller_event.
  - intros (t & so & Hs & -> & ->)%tx_step_Done. by eapply caller_event.
  - by apply transmit_event.
  - intros Hs. by eapply category_event.
  - intros Hs. by eapply category_event.
  - intros Hs. by eapply category_event.
  - by apply pick_event.
  - by apply radio_write_event.
  - intros Hs. by eapply runner_event.
  - intros Hs. by eapply runner_event.
  - unfold_stack. destruct (st_interfaces s !! v) as [vif|]; [|done]. simpl.
    destruct (st_beacon s); [intros [= <- <-]|intros [= (req & _ & [= <- <-])%outcome_bind_Done]];
      by eapply tx_inv_silent.
  - unfold_stack. destruct (st_beacon s); [|done]. intros [= <- <-]. by eapply tx_inv_silent.
Qed.
End Log.

(** ** From [init] on *)

Section Init.
Context {W Ch : Type -> Type} {Frame : Type}.
Context `{FoaConfig, Hal, RadioLaws, WatchLaws W, ChannelLaws Ch, !TxDriver, !TxDriverLaws}.
Implicit Types (s : Stack (W := W) (Ch := Ch) (Frame := Frame)).
Implicit Types (os : list (stack_output (Frame := Frame))).

Lemma endpoint_slot slot : slot ∈ edca_endpoint_slots <-> 1 <= slot <= 4.
Proof. rewrite edca_slots. set_solver by lia. Qed.

Lemma edca_index_slot slot : slot ∈ edca_endpoint_slots -> edca_index slot = Done (slot - 1).
Proof. intros Hs%endpoint_slot. apply edca_index_Done. lia. Qed.

(** What [init] hands out. *)
Record initial ctl s : Prop := {
  in_lmac : st_lmac s = lsystem_new ctl;
  in_rx : st_rx_queues s = rx_queues_new;
  in_tx : st_tx s = system_new;
  in_runners : Forall2 (fun slot r => slot = tr_slot r /\ tr_slot r = S (tr_queue r) /\ tr_queue r < 4)
    edca_endpoint_slots (st_tx_runners s);
  in_interfaces : Forall (fun vif => vif_interface vif < INTERFACE_COUNT /\
    vif_rx_queue vif = vif_interface vif) (st_interfaces s);
}.

Lemma init_total ctl : exists s, init ctl = Done s /\ initial ctl s.
Proof.
  assert (exists vifs, mapM virtual_interface (lmac_split rx_interface_controllers) = Done vifs /\
    Forall (fun vif => vif_interface vif < INTERFACE_COUNT /\
      vif_rx_queue vif = vif_interface vif) vifs) as (vifs & Hv & Hvok).
  { exists ((fun i => MkVirtualInterface i i) <$> rx_interface_controllers).
    rewrite mapM_outcome_Done, Forall2_fmap_r, Forall_fmap, Forall_forall. unfold lmac_split.
    assert (forall i, i ∈ rx_interface_controllers -> i < INTERFACE_COUNT) as Hi.
    { intros i. rewrite controllers, elem_of_seq. lia. }
    split; [|by intros i Hin; split; [apply Hi|]].
    apply Forall_Forall2_diag, Forall_forall. intros i Hin%Hi.
    unfold virtual_interface. by rewrite bool_decide_true. }
  assert (exists rs, mapM tx_queue_runner edca_endpoint_slots = Done rs /\
    Forall2 (fun slot r => slot = tr_slot r /\ tr_slot r = S (tr_queue r) /\ tr_queue r < 4)
      edca_endpoint_slots rs) as (rs & Hr & Hrok).
  { exists ((fun slot => MkTxQueueRunner (slot - 1) slot) <$> edca_endpoint_slots).
    rewrite mapM_outcome_Done, !Forall2_fmap_r. split; apply Forall_Forall2_diag, Forall_forall;
      intros slot Hs; simpl.
    - unfold tx_queue_runner. by rewrite edca_index_slot.
    - apply endpoint_slot in Hs. lia. }
  eexists. split; [unfold init; by rewrite Hv; simpl; rewrite Hr|]. by split.
Qed.

Lemma init_initial ctl s : init ctl = Done s -> initial ctl s.
Proof. intros Hi. destruct (init_total ctl) as (s' & Hs & Hok). congruence. Qed.

Lemma initial_tx_inv ctl s : initial ctl s -> tx_inv s [].
Proof.
  intros [_ _ Htx Hrun _]. split; rewrite ?Htx.
  - apply system_new_inv.
  - apply manager_new_sized.
  - apply Forall_lookup. intros j r Hj.
    destruct (Forall2_lookup_r _ _ _ _ _ Hrun Hj) as (slot & _ & _ & ? & ?). done.
  - intros i m. change (sy_queues system_new) with (replicate 4 machine_new).
    intros ->%lookup_replicate_eq. exists spec_new. split; [apply machine_new_refines|done].
Qed.

Lemma stack_reachable ctl s0 acts s os :
  initial ctl s0 -> run stack_step s0 acts = Some (Done (s, os)) -> tx_inv s os.
Proof.
  intros Hi. apply (run_invariant stack_step (fun s _ os => tx_inv s os)).
  - by eapply initial_tx_inv.
  - intros. by eapply stack_step_tx.
Qed.

(** The runners never change, and only [KTransmit] accepts frames. *)
Definition keeps_wiring s s' : Prop :=
  st_tx_runners s' = st_tx_runners s /\ st_interfaces s' = st_interfaces s.
Definition accepts_nothing (o : stack_output (Frame := Frame)) : Prop :=
  forall slot, submitted slot [o] = [].

Lemma tx_step_wiring s a s' o :
  tx_step s a = Some (Done (s', o)) -> keeps_wiring s s' /\ accepts_nothing o.
Proof. intros (t & so & _ & -> & ->)%tx_step_Done. done. Qed.

Lemma category_step_wiring s ac b s' o :
  category_step s ac b = Some (Done (s', o)) -> keeps_wiring s s' /\ accepts_nothing o.
Proof. unfold category_step. destruct (edca_index _); [apply tx_step_wiring|done]. Qed.

Lemma rx_queue_step_wiring s v k s' o :
  rx_queue_step s v k = Some (Done (s', o)) -> (forall q, accepts_nothing (fst (k q))) ->
  keeps_wiring s s' /\ accepts_nothing o.
Proof.
  unfold rx_queue_step. destruct (st_interfaces s !! v); [|done]. simpl.
  destruct (st_rx_queues s !! _) as [q|]; [|done]. simpl. intros Hs Hk. specialize (Hk q).
  destruct (k q). by injection Hs as <- <-.
Qed.

Lemma step_wiring s a s' o :
  stack_step s a = Some (Done (s', o)) ->
  keeps_wiring s s' /\ match a with KTransmit _ _ _ _ _ _ _ => True | _ => accepts_nothing o end.
Proof.
  unfold_stack. destruct a as [a|frame interfaces|v|v|v|v| |b bytes|b|v ac b len plcp mac retry|
    ac g|ac g|ac g|j|j bytes|j r|j|v frame_buf plcp mac c|];
    try solve [apply tx_step_wiring|apply category_step_wiring]; intros Hs.
  - destruct (lmac_step _ _) as [[[]|]|]; by simplify_eq.
  - injection Hs as Hs. by apply outcome_bind_Done in Hs as (qs & _ & [= <- <-]).
  - by apply rx_queue_step_wiring in Hs.
  - by apply rx_queue_step_wiring in Hs.
  - apply rx_queue_step_wiring in Hs; [done|]. intros q slot. cbn beta.
    by destruct (rx_receive q).
  - destruct (st_interfaces s !! v); [|done]. cbn [mbind option_bind] in Hs. injection Hs as Hs.
    apply outcome_bind_Done in Hs as (q & _ & Hs).
    by apply outcome_bind_Done in Hs as ([[q' cs] calls] & _ & [= <- <-]).
  - destruct (st_interfaces s !! v); [|done]. cbn [mbind option_bind] in Hs.
    destruct (category_step _ _ _) as [[[]|]|] eqn:Hcs; simplify_eq.
    by apply category_step_wiring in Hcs as [? _].
  - destruct (st_tx_runners s !! j); [|done]. cbn [mbind option_bind] in Hs.
    destruct (system_step _ _) as [[[t1 so]|]|]; [|done..].
    destruct so as [| |[|[f|]| | |]]; try by simplify_eq. injection Hs as Hs.
    by apply outcome_bind_Done in Hs as (req & _ & [= <- <-]).
  - destruct (in_transmission s j); [|done]. cbn [mbind option_bind] in Hs.
    destruct (deref _ _); [|done]. cbn [mbind option_bind] in Hs. case_decide; by simplify_eq.
  - destruct (st_tx_runners s !! j); [|done]. by apply (tx_step_wiring _ _ _ _ Hs).
  - destruct (st_tx_runners s !! j); [|done]. by apply (tx_step_wiring _ _ _ _ Hs).
  - destruct (st_interfaces s !! v); [|done]. cbn [mbind option_bind] in Hs.
    destruct (st_beacon s); revert Hs;
      [by intros [= <- <-]|by intros [= (req & _ & [= <- <-])%outcome_bind_Done]].
  - destruct (st_beacon s); [|done]. by simplify_eq/=.
Qed.

(** ** Which frame a free runner picks *)

Lemma pick_next s os j r :
  tx_inv s os -> st_tx_runners s !! j = Some r -> in_transmission s j = None ->
  exists m t qo, sy_queues (st_tx s) !! tr_queue r = Some m /\ sy_pool t = sy_pool (st_tx s) /\
    system_step (st_tx s) (SQueue (tr_queue r) AReceive) = Some (Done (t, SOQueue (OPicked qo))) /\
    request_of (sy_pool (st_tx s)) <$> qo =
      submitted (tr_slot r) os !! length (started (tr_slot r) os).
Proof.
  intros [Hinv _ Hrun Hlog] Hj. unfold in_transmission. rewrite Hj. simpl.
  destruct (proj1 (Forall_lookup _ _) Hrun j r Hj) as [Hlt ->].
  destruct (sy_queues (st_tx s) !! tr_queue r) as [m|] eqn:Hm.
  2:{ apply lookup_ge_None in Hm. rewrite (si_queues _ Hinv) in Hm. lia. }
  simpl. intros Hidle. destruct (Hlog _ _ Hm) as (sp & Hr & Heq).
  assert (sp_active sp = false) as Ha.
  { destruct (sp_active sp) eqn:Ha; [|done]. destruct (runner_active _ _ Hr Ha) as (f & _ & Hf).
    by rewrite Hf in Hidle. }
  pose proof (step_refines m sp AReceive Hr) as Hag. simpl in Hag. rewrite Ha in Hag.
  rewrite Heq. rewrite lookup_app_r, length_fmap, Nat.sub_diag by (by rewrite length_fmap).
  unfold waiting_frames, picked_count. rewrite Ha, Nat.add_0_r, list_lookup_fmap, lookup_drop,
    Nat.add_0_r.
  rewrite (runner_inactive _ _ Hr Ha) in Hag.
  cbn [system_step hand_over machine_step].
  rewrite (runner_inactive _ _ Hr Ha). cbn beta iota.
  destruct (try_receive (tm_queue m)) as [[o q]|]; simpl in Hag |- *.
  - exists m, (MkTxSystem (sy_pool (st_tx s)) (<[tr_queue r := MkTxMachine q o]>
      (sy_queues (st_tx s))) (sy_held (st_tx s))), (snd <$> o).
    split_and!; [done..|]. destruct (sp_frames sp !! _); destruct Hag as [[= ->] _]; done.
  - by destruct (sp_frames sp !! _).
Qed.

Lemma initial_runner ctl s0 acts s os slot :
  initial ctl s0 -> run stack_step s0 acts = Some (Done (s, os)) -> slot ∈ edca_endpoint_slots ->
  exists j r, st_tx_runners s !! j = Some r /\ tr_slot r = slot.
Proof.
  intros Hi Hr [j Hj]%list_elem_of_lookup.
  destruct (Forall2_lookup_l _ _ _ _ _ (in_runners _ _ Hi) Hj) as (r & Hr0 & -> & _).
  exists j, r. split; [|done]. rewrite <- Hr0.
  apply (run_invariant stack_step (fun s _ _ => st_tx_runners s !! j = st_tx_runners s0 !! j)
    s0 eq_refl) with (acts := acts) (s' := s) (os := os); [|done].
  intros s1 l os1 a s2 o <- Hs. by destruct (step_wiring _ _ _ _ Hs) as [[-> _] _].
Qed.
End Init.

(** ** Nothing panics *)

Section Safety.
Context {W Ch : Type -> Type} {Frame : Type}.
Context `{FoaConfig, Hal, RadioLaws, WatchLaws W, ChannelLaws Ch, !TxDriver, !TxDriverLaws}.
Implicit Types (s : Stack (W := W) (Ch := Ch) (Frame := Frame)).
Implicit Types (os : list (stack_output (Frame := Frame))).

(** Callers name existing interfaces and valid channels, a frame fits its buffer, and a
    hook does not panic on the frame it is given. *)
Definition stack_action_ok (a : stack_action (Frame := Frame)) : Prop :=
  match a with
  | KLmac a => action_ok a
  | KFrame _ interfaces => Forall (fun i => i < INTERFACE_COUNT) interfaces
  | KTransmit _ _ _ frame_length _ _ _ => frame_length <= TX_BUFFER_SIZE
  | KBeacon _ frame_buf _ _ (TransmitBeaconWithHook hook) => hook frame_buf <> Panic
  | _ => True
  end.

(** No queue has used up its 64-bit generations. *)
Definition generations_left s : Prop := forall i m,
  sy_queues (st_tx s) !! i = Some m -> (counter (tm_queue m) < u_max 64)%Z.

Record stack_inv s os : Prop := {
  ki_tx : tx_inv s os;
  ki_lmac : lsystem_ok (st_lmac s);
  ki_rx : length (st_rx_queues s) = INTERFACE_COUNT;
  ki_interfaces : Forall (fun vif => vif_interface vif < INTERFACE_COUNT /\
    vif_rx_queue vif = vif_interface vif) (st_interfaces s);
  ki_frames : forall slot, Panic ∉ submitted slot os;
}.

Lemma initial_stack_inv ctl s : initial ctl s -> stack_inv s [].
Proof.
  intros Hi. split; [by eapply initial_tx_inv|..|apply (in_interfaces _ _ Hi)|].
  - rewrite (in_lmac _ _ Hi). apply lsystem_new_ok.
  - rewrite (in_rx _ _ Hi). apply length_replicate.
  - intros slot. apply not_elem_of_nil.
Qed.

Lemma held_request s os b f :
  tx_inv s os -> b ∈ sy_held (st_tx s) -> pf_frame f = b ->
  pf_frame_length f <= TX_BUFFER_SIZE -> request_of (sy_pool (st_tx s)) f <> Panic.
Proof.
  intros [Hinv Hz _ _] Hb <- Hlen. unfold request_of.
  destruct (pool_inv_deref _ _ (pf_frame f) (si_pool _ Hinv)) as [bytes Hd].
  { apply elem_of_app. by left. }
  rewrite Hd. simpl. assert (length bytes = TX_BUFFER_SIZE) as Hsz.
  { by apply (proj1 (Forall_lookup _ _) Hz (buffer (pf_frame f))). }
  unfold transmit_request. by rewrite bool_decide_true by lia.
Qed.

Lemma hand_over_held held f held' :
  hand_over held (AEnqueue f) = Some held' -> pf_frame f ∈ held.
Proof. simpl. intros Hr%remove_one_Permutation. rewrite Hr. left. Qed.

(** The requests a step adds to the log are those of frames that fit. *)
Lemma step_frames s a s' o os slot :
  tx_inv s os -> stack_action_ok a -> stack_step s a = Some (Done (s', o)) ->
  Panic ∉ submitted slot [o].
Proof.
  intros Htx Ha Hs. destruct (step_wiring _ _ _ _ Hs) as [_ Ho].
  destruct a as [| | | | | | | | |v ac b len plcp mac retry| | | | | | | | |];
    try (rewrite (Ho slot); apply not_elem_of_nil).
  unfold_stack in Hs. destruct (st_interfaces s !! v) as [vif|]; [|done].
  cbn [mbind option_bind] in Hs.
  destruct (category_step s ac _) as [[[s1 o1]|]|] eqn:Hc; [|done..]. injection Hs as _ <-.
  destruct (category_step_Done _ _ _ _ _ (ti_system _ _ Htx) Hc) as (i & t & qo & _ & Hst & _).
  set (f := MkPendingFrame _ _ _ _ _ _) in *. cbn [system_step] in Hst.
  destruct (sy_queues (st_tx s) !! i); [|done].
  destruct (hand_over (sy_held (st_tx s)) (AEnqueue f)) as [held|] eqn:Hr; [|done].
  unfold submitted. simpl. case_decide; [|apply not_elem_of_nil].
  intros Hin%list_elem_of_singleton. symmetry in Hin. revert Hin.
  apply (held_request s os b); [done| |done|done]. by eapply (hand_over_held _ f).
Qed.

Lemma reset_total s v vif :
  lsystem_ok (st_lmac s) -> length (st_rx_queues s) = INTERFACE_COUNT ->
  Forall (fun vif => vif_interface vif < INTERFACE_COUNT /\
    vif_rx_queue vif = vif_interface vif) (st_interfaces s) ->
  st_interfaces s !! v = Some vif ->
  exists s' o, stack_step s (KReset v) = Some (Done (s', o)) /\ lsystem_ok (st_lmac s') /\
    length (st_rx_queues s') = INTERFACE_COUNT.
Proof.
  intros Hl Hrx Hv Hvif. destruct (proj1 (Forall_lookup _ _) Hv v vif Hvif) as [Hi Hq].
  unfold_stack. rewrite Hvif. cbn [mbind option_bind].
  destruct (lookup_lt_is_Some_2 (st_rx_queues s) (vif_rx_queue vif)) as [q ->]; [congruence|].
  cbn [expect]. unfold vif_reset, unlock_channel.
  destruct (unlock_spec _ _ (lo_locks _ Hl) Hi) as (cs & Hu & _). cbn [mbind outcome_bind].
  rewrite Hu. eexists _, _. split; [done|]. simpl. rewrite length_insert. split; [|done].
  eapply (unlock_step_ok _ (vif_interface vif) _ LOUnit Hl Hi). cbn [lmac_step]. by rewrite Hu.
Qed.

(** A step of the pool or the queues leaves the rest of the stack alone. *)
Lemma tx_step_rest s a s' o :
  tx_step s a = Some (Done (s', o)) ->
  st_lmac s' = st_lmac s /\ st_rx_queues s' = st_rx_queues s.
Proof. by intros (t & so & _ & -> & ->)%tx_step_Done. Qed.

Lemma category_step_rest s ac b s' o :
  category_step s ac b = Some (Done (s', o)) ->
  st_lmac s' = st_lmac s /\ st_rx_queues s' = st_rx_queues s.
Proof. unfold category_step. destruct (edca_index _); [apply tx_step_rest|done]. Qed.

Lemma rx_queue_step_rest s v k s' o :
  rx_queue_step s v k = Some (Done (s', o)) ->
  st_lmac s' = st_lmac s /\ length (st_rx_queues s') = length (st_rx_queues s).
Proof.
  unfold rx_queue_step. destruct (st_interfaces s !! v); [|done]. simpl.
  destruct (st_rx_queues s !! _) as [q|]; [|done]. simpl.
  destruct (k q). intros [= <- <-]. simpl. by rewrite length_insert.
Qed.

Lemma process_packet_length (qs qs' : list (Ch Frame * bool)) frame interfaces :
  process_packet qs frame interfaces = Done qs' -> length qs' = length qs.
Proof.
  destruct interfaces as [|i [|]]; simpl; [by intros [= <-]| |by intros [= <-]].
  destruct (qs !! i) as [[c []]|]; simpl; [|by intros [= <-]|done].
  destruct (ch_try_send c frame); intros [= <-]; by rewrite ?length_insert.
Qed.

(** The lower MAC and the number of receive queues. *)
Lemma stack_step_rest s a s' o os :
  stack_inv s os -> stack_action_ok a -> stack_step s a = Some (Done (s', o)) ->
  lsystem_ok (st_lmac s') /\ length (st_rx_queues s') = INTERFACE_COUNT.
Proof.
  intros [_ Hl Hrx Hv _] Ha Hs.
  assert (forall s1, st_lmac s1 = st_lmac s /\ length (st_rx_queues s1) = length (st_rx_queues s) ->
    lsystem_ok (st_lmac s1) /\ length (st_rx_queues s1) = INTERFACE_COUNT) as Hkeep.
  { intros s1 [-> ->]. done. }
  assert (forall s1, st_lmac s1 = st_lmac s /\ st_rx_queues s1 = st_rx_queues s ->
    lsystem_ok (st_lmac s1) /\ length (st_rx_queues s1) = INTERFACE_COUNT) as Hsame.
  { intros s1 [-> ->]. done. }
  destruct a as [a|frame interfaces|v|v|v|v| |b bytes|b|v ac b len plcp mac retry|
    ac g|ac g|ac g|j|j bytes|j r|j|v frame_buf plcp mac c|];
    try solve [eapply Hkeep, rx_queue_step_rest, Hs|eapply Hsame, tx_step_rest, Hs
              |eapply Hsame, category_step_rest, Hs]; unfold_stack in Hs.
  - destruct (lmac_step (st_lmac s) a) as [[[l lo]|]|] eqn:Hst; [|done..].
    injection Hs as <- <-. split; [|done]. by eapply lmac_step_ok.
  - injection Hs as Hs. apply outcome_bind_Done in Hs as (qs & Hqs & [= <- <-]).
    apply Hkeep. split; [done|]. by eapply process_packet_length.
  - destruct (st_interfaces s !! v) as [vif|] eqn:Hvif; [|done].
    destruct (reset_total s v vif Hl Hrx Hv Hvif) as (s1 & o1 & Hs1 & Hok).
    unfold_stack in Hs1. rewrite Hvif in Hs1. rewrite Hs1 in Hs. by simplify_eq.
  - destruct (st_interfaces s !! v) as [vif|]; [|done]. cbn [mbind option_bind] in Hs.
    destruct (category_step s ac _) as [[[s1 o1]|]|] eqn:Hc; [|done..]. injection Hs as <- <-.
    eapply Hsame, category_step_rest, Hc.
  - destruct (st_tx_runners s !! j); [|done]. cbn [mbind option_bind] in Hs.
    destruct (system_step _ _) as [[[t1 so]|]|]; [|done..].
    destruct so as [| |[|[f|]| | |]]; try by simplify_eq. injection Hs as Hs.
    by apply outcome_bind_Done in Hs as (req & _ & [= <- <-]).
  - destruct (in_transmission s j); [|done]. cbn [mbind option_bind] in Hs.
    destruct (deref _ _); [|done]. cbn [mbind option_bind] in Hs. case_decide; by simplify_eq.
  - destruct (st_tx_runners s !! j); [|done]. eapply Hsame, tx_step_rest, Hs.
  - destruct (st_tx_runners s !! j); [|done]. eapply Hsame, tx_step_rest, Hs.
  - destruct (st_interfaces s !! v); [|done]. cbn [mbind option_bind] in Hs.
    destruct (st_beacon s); revert Hs;
      [by intros [= <- <-]|by intros [= (req & _ & [= <- <-])%outcome_bind_Done]].
  - destruct (st_beacon s); [|done]. by simplify_eq/=.
Qed.

Lemma stack_step_inv s a s' o os :
  stack_inv s os -> stack_action_ok a -> stack_step s a = Some (Done (s', o)) ->
  stack_inv s' (os ++ [o]).
Proof.
  intros Hinv Ha Hs. destruct (stack_step_rest _ _ _ _ _ Hinv Ha Hs).
  pose proof (ki_tx _ _ Hinv) as Htx. split; [by eapply stack_step_tx|done..| |].
  - destruct (step_wiring _ _ _ _ Hs) as [[_ ->] _]. apply (ki_interfaces _ _ Hinv).
  - intros slot. rewrite submitted_snoc, not_elem_of_app. split; [apply (ki_frames _ _ Hinv)|].
    by eapply step_frames.
Qed.

Lemma queue_step_safe s os i a :
  tx_inv s os -> generations_left s -> tx_step s (SQueue i a) <> Some Panic.
Proof.
  intros Htx Hg. unfold tx_step. pose proof (system_step_safe _ (SQueue i a) (ti_system _ _ Htx) Hg).
  by destruct (system_step _ _) as [[[]|]|].
Qed.

Lemma caller_step_safe s a : (forall i b, a <> SQueue i b) -> tx_step s a <> Some Panic.
Proof.
  intros Ha. unfold tx_step. destruct a as [|b bytes|b|i a]; simpl; [| | |by destruct (Ha i a)].
  - by destruct (try_alloc _) as [[]|].
  - by case_decide.
  - by destruct (remove_one _ _).
Qed.

Lemma category_step_safe s os ac a :
  tx_inv s os -> generations_left s -> category_step s ac a <> Some Panic.
Proof.
  intros Htx Hg. unfold category_step. rewrite (edca_index_slot _ (category_slot ac)).
  by eapply queue_step_safe.
Qed.

Lemma rx_queue_step_safe s v k : (exists os, stack_inv s os) ->
  rx_queue_step s v k <> Some Panic.
Proof.
  intros [os [_ _ Hrx Hv _]]. unfold rx_queue_step. destruct (st_interfaces s !! v) as [vif|] eqn:Hvif; [|done].
  destruct (proj1 (Forall_lookup _ _) Hv v vif Hvif) as [Hi Hq]. cbn [mbind option_bind].
  destruct (lookup_lt_is_Some_2 (st_rx_queues s) (vif_rx_queue vif)) as [q ->]; [congruence|].
  simpl. by destruct (k q).
Qed.

(** A frame that a runner picks has its bytes: it was accepted with them. *)
Lemma pick_safe s os j :
  stack_inv s os -> generations_left s -> stack_step s (KPick j) <> Some Panic.
Proof.
  intros Hinv Hg. pose proof (ki_tx _ _ Hinv) as Htx. unfold_stack.
  destruct (st_tx_runners s !! j) as [r|] eqn:Hj; [|done]. cbn [mbind option_bind].
  destruct (in_transmission s j) as [f|] eqn:Hrun.
  - unfold in_transmission in Hrun. rewrite Hj in Hrun. simpl in Hrun.
    destruct (sy_queues (st_tx s) !! tr_queue r) as [m|] eqn:Hm; [|done]. simpl in Hrun.
    cbn [system_step]. rewrite Hm. cbn [hand_over machine_step].
    by destruct (tm_runner m).
  - destruct (pick_next s os j r Htx Hj Hrun) as (m & t & qo & _ & Hp & -> & Hnext).
    destruct qo as [f|]; [|done]. rewrite Hp. simpl in Hnext.
    destruct (request_of _ f) eqn:Hreq; [done|]. exfalso.
    apply (ki_frames _ _ Hinv (tr_slot r)). symmetry in Hnext. by eapply list_elem_of_lookup_2.
Qed.

Lemma stack_step_safe s os a :
  stack_inv s os -> stack_action_ok a -> generations_left s -> stack_step s a <> Some Panic.
Proof.
  intros Hinv Ha Hg. pose proof (ki_tx _ _ Hinv) as Htx.
  destruct a as [a|frame interfaces|v|v|v|v| |b bytes|b|v ac b len plcp mac retry|
    ac g|ac g|ac g|j|j bytes|j r|j|v frame_buf plcp mac c|];
    try solve [by eapply pick_safe|by eapply category_step_safe|by apply caller_step_safe
              |apply rx_queue_step_safe; eauto]; unfold_stack.
  - pose proof (lmac_step_safe _ a (ki_lmac _ _ Hinv) Ha).
    by destruct (lmac_step _ _) as [[[]|]|].
  - simpl in Ha. destruct interfaces as [|i [|]]; simpl; [done| |done].
    apply Forall_cons in Ha as [Hi _].
    destruct (lookup_lt_is_Some_2 (st_rx_queues s) i) as [[c b] ->].
    { by rewrite (ki_rx _ _ Hinv). }
    simpl. by destruct b.
  - destruct (st_interfaces s !! v) as [vif|] eqn:Hvif; [|done].
    destruct (reset_total s v vif (ki_lmac _ _ Hinv) (ki_rx _ _ Hinv) (ki_interfaces _ _ Hinv) Hvif)
      as (s1 & o1 & Hs1 & _).
    unfold_stack in Hs1. rewrite Hvif in Hs1. by rewrite Hs1.
  - destruct (st_interfaces s !! v) as [vif|]; [|done]. cbn [mbind option_bind].
    pose proof (category_step_safe s os ac (AEnqueue (MkPendingFrame b len plcp mac
      (wrapping 8 (Z.of_nat (vif_interface vif))) retry)) Htx Hg).
    by destruct (category_step _ _ _) as [[[]|]|].
  - destruct (in_transmission s j); [|done]. cbn [mbind option_bind].
    destruct (deref _ _); [|done]. cbn [mbind option_bind]. by case_decide.
  - destruct (st_tx_runners s !! j); [|done]. by eapply queue_step_safe.
  - destruct (st_tx_runners s !! j); [|done]. by eapply queue_step_safe.
  - destruct (st_interfaces s !! v); [|done]. cbn [mbind option_bind].
    destruct (st_beacon s); [done|]. destruct c as [retry|hook]; [done|]. simpl in *.
    by destruct (hook frame_buf).
  - by destruct (st_beacon s).
Qed.

Lemma stack_inv_reachable ctl s0 acts s os :
  initial ctl s0 -> run stack_step s0 acts = Some (Done (s, os)) ->
  Forall stack_action_ok acts -> stack_inv s os.
Proof.
  intros Hi. revert s os. induction acts as [|a acts IH] using rev_ind; intros s os Hr Hf.
  - apply run_nil in Hr as [-> ->]. by eapply initial_stack_inv.
  - apply run_snoc in Hr as (s1 & os1 & o & Hr & Hs & ->).
    apply Forall_app in Hf as [Hf [Ha _]%Forall_cons]. eapply stack_step_inv; [|done..]. by apply IH.
Qed.
End Safety.

(** ** Properties *)

Section StackProperties.
Context {W Ch : Type -> Type} {Frame : Type}.
Context `{FoaConfig, Hal, RadioLaws, WatchLaws W, ChannelLaws Ch, !TxDriver, !TxDriverLaws}.
Implicit Types (s : Stack (W := W) (Ch := Ch) (Frame := Frame)).
Implicit Types (os : list (stack_output (Frame := Frame))).

(** C2 What is written is what is sent: take any interleaving of all interfaces,
    the runners and the radio, and any access category.  The frames that the
    driver's endpoint for this category was given are exactly the first of the
    frames that the interfaces enqueued for it, in the order in which they
    enqueued them, each with the bytes, the interface, the parameters and the
    retries it had when it was enqueued; no write to another buffer, no dropped
    buffer and no header rewritten by the radio gets into them.  And the endpoint's
    runner is never stuck: when it is free, its next poll starts precisely the
    next such frame, or finds that there is none. *)
Theorem frames_sent_as_written ctl s0 acts s os ac (slot := hardware_slot ac) :
  init ctl = Done s0 -> run stack_step s0 acts = Some (Done (s, os)) ->
  (Done <$> started slot os) `prefix_of` submitted slot os /\
  exists j r, st_tx_runners s !! j = Some r /\ tr_slot r = slot /\
    (in_transmission s j = None -> exists s',
      match submitted slot os !! length (started slot os) with
      | Some (Done req) => stack_step s (KPick j) = Some (Done (s', KOStarted slot req))
      | Some Panic => stack_step s (KPick j) = Some Panic
      | None => stack_step s (KPick j) = Some (Done (s', KOUnit))
      end).
Proof.
  intros Hi%init_initial Hr. pose proof (stack_reachable _ _ _ _ _ Hi Hr) as Hinv.
  destruct (initial_runner _ _ _ _ _ slot Hi Hr (category_slot ac)) as (j & r & Hj & Hslot).
  split.
  - assert (exists i, slot = S i /\ i < 4) as (i & -> & Hlt).
    { pose proof (category_slot ac) as Hs%endpoint_slot. exists (slot - 1). lia. }
    destruct (lookup_lt_is_Some_2 (sy_queues (st_tx s)) i) as [m Hm].
    { by rewrite (si_queues _ (ti_system _ _ Hinv)). }
    destruct (ti_log _ _ Hinv i m Hm) as (sp & _ & ->). by apply prefix_app_r.
  - exists j, r. split_and!; [done..|]. intros Hidle.
    destruct (pick_next s os j r Hinv Hj Hidle) as (m & t & qo & Hm & Hp & Hs & Hnext).
    rewrite Hslot in Hnext. exists (with_tx s t). rewrite <- Hnext. unfold_stack.
    rewrite Hj. cbn [mbind option_bind]. rewrite Hs, Hp, Hslot.
    destruct qo as [f|]; [|done]. simpl. by destruct (request_of _ f).
Qed.

End StackProperties.

(** ** Witnesses *)

Inductive demo_category : Type := Background | BestEffort | Video | Voice.

(** The four access categories; the driver lists its endpoints from the highest
    slot down. *)
#[local] Instance demo_driver : TxDriver := {
  EdcaAccessCategory := demo_category;
  hardware_slot ac :=
    match ac with Background => 1 | BestEffort => 2 | Video => 3 | Voice => 4 end;
  edca_endpoint_slots := [4; 3; 2; 1];
  rx_interface_controllers := [0; 1; 2; 3];
}.

#[local] Instance demo_driver_laws : TxDriverLaws (H := wifi_radio).
Proof.
  split; [apply (reverse_Permutation [1; 2; 3; 4])|by intros []; repeat constructor|done].
Qed.

Section Witnesses.
#[local] Existing Instances small_config unit_hal.

(** Interface 2 writes a frame and enqueues it as voice, interface 0 writes and
    enqueues another one, the runner picks the first, and the radio sets a byte of
    it. *)
Definition demo_calls : list (stack_action (Frame := nat)) :=
  [KAlloc; KWrite (MkTxBuffer 0) (replicate TX_BUFFER_SIZE 7%Z);
   KTransmit 2 Voice (MkTxBuffer 0) 2 tt tt (RetryUntil 3);
   KAlloc; KWrite (MkTxBuffer 1) (replicate TX_BUFFER_SIZE 9%Z);
   KTransmit 0 Voice (MkTxBuffer 1) 1 tt tt Drop;
   KPick 0; KRadioWrite 0 [7; 255]%Z; KRadioDone 0 (Ok 0%Z)].

Lemma demo_stack_run : exists (s0 s : Stack (W := option) (Ch := list_chan)) os,
  init radio_off = Done s0 /\ run stack_step s0 demo_calls = Some (Done (s, os)) /\
  submitted 4 os = [Done (MkTxRequest 2 tt tt (DriverRetryUntil 3) [7; 7]%Z);
                    Done (MkTxRequest 0 tt tt DriverDrop [9]%Z)] /\
  started 4 os = [MkTxRequest 2 tt tt (DriverRetryUntil 3) [7; 7]%Z] /\
  (forall j r, st_tx_runners s !! j = Some r -> in_transmission s j = None) /\
  generations_left s.
Proof.
  eexists _, _, _. split_and!; [vm_compute; reflexivity..| |].
  { intros j r Hj. do 4 (destruct j; [vm_compute; reflexivity|]). discriminate Hj. }
  intros i m Hi. do 4 (destruct i; [injection Hi as <-; vm_compute; reflexivity|]).
  discriminate Hi.
Qed.

(** The second frame is next. *)
Lemma frames_sent_as_written_witness :
  exists (s0 s : Stack (W := option) (Ch := list_chan)) os j,
  run stack_step s0 demo_calls = Some (Done (s, os)) /\
  exists s', stack_step s (KPick j) = Some (Done (s',
    KOStarted 4 (MkTxRequest 0 tt tt DriverDrop [9]%Z))).
Proof.
  destruct demo_stack_run as (s0 & s & os & Hi & Hr & Hsub & Hst & Hidle & _).
  destruct (frames_sent_as_written radio_off s0 demo_calls s os Voice Hi Hr)
    as (_ & j & r & Hj & _ & Hnext).
  exists s0, s, os, j. split; [exact Hr|]. specialize (Hnext (Hidle j r Hj)).
  simpl in Hnext. by rewrite Hsub, Hst in Hnext.
Defined.

End Witnesses.
