(* ===== verification/RxRouter.v ===== *)
(** * RX router: foa/src/util/rx_router.rs

    Two frame queues, the operation each endpoint runs, and the completion signal.
    The interface implementation's operation type is the class
    [RxRouterOperation]; parsing a frame ([GenericFrame::new]) is a parameter. *)
From S2P Require Import Prelude Platform.

Inductive RxRouterQueue : Type :=
| Foreground
| Background.

#[export] Instance RxRouterQueue_eq_dec : EqDecision RxRouterQueue.
Proof. solve_decision. Defined.

Definition opposite (q : RxRouterQueue) : RxRouterQueue :=
  match q with Foreground => Background | Background => Foreground end.

Lemma opposite_ne q : opposite q <> q.
Proof. by destruct q. Qed.
Lemma opposite_involutive q : opposite (opposite q) = q.
Proof. by destruct q. Qed.

Inductive RxRouterOperationError : Type :=
| OperationAlreadyInProgress
| IncompatibleOperations.

Inductive RxRouterRoutingError : Type :=
| QueueFull
| InvalidFrame.

Inductive TransitionNotPossibleError : Type := TransitionNotPossible.

(** The trait [RxRouterOperation] over the parsed frames [GenericFrame]. *)
Class RxRouterOperation (Op GenericFrame : Type) : Type := {
  CONCORRUENT_OPERATIONS_SUPPORTED : bool;
  op_relevant : Op -> GenericFrame -> bool;
  compatible_with : Op -> Op -> bool;
}.

(** The trait [HasScanOperation]. *)
Class HasScanOperation (Op : Type) : Type := SCAN_OPERATION : Op.

Section RxRouter.
Context {Ch Sg : Type -> Type} `{Channel Ch, Signal Sg}.
Context {Frame GenericFrame Op : Type} {ops : RxRouterOperation Op GenericFrame}.
Context (parse : Frame -> option GenericFrame) (QUEUE_DEPTH : nat).
Implicit Types (q : RxRouterQueue) (op : Op) (frame : Frame).

(** ** State *)

Record QueueState : Type := MkQueueState {
  queue : Ch Frame;
  operation_state : option Op;
}.

Record RxRouter : Type := MkRxRouter {
  foreground_queue_state : QueueState;
  background_queue_state : QueueState;
  completion_signal : Sg unit;
}.
Implicit Types (r : RxRouter).

Definition queue_state_new : QueueState := MkQueueState (ch_new QUEUE_DEPTH) None.

Definition router_new : RxRouter := MkRxRouter queue_state_new queue_state_new sg_new.

Definition queue_state r q : QueueState :=
  match q with
  | Foreground => foreground_queue_state r
  | Background => background_queue_state r
  end.

(** Writing back a queue's state; [Cell]s and channels are shared references in
    the code. *)
Definition set_queue_state r q (s : QueueState) : RxRouter :=
  match q with
  | Foreground => MkRxRouter s (background_queue_state r) (completion_signal r)
  | Background => MkRxRouter (foreground_queue_state r) s (completion_signal r)
  end.

Definition operation r q : option Op := operation_state (queue_state r q).

Definition set_operation r q (o : option Op) : RxRouter :=
  set_queue_state r q (MkQueueState (queue (queue_state r q)) o).

Definition set_signal r (s : Sg unit) : RxRouter :=
  MkRxRouter (foreground_queue_state r) (background_queue_state r) s.

(** ** Routing *)

Definition frame_relevant_for_operation (s : QueueState) (g : GenericFrame) : bool :=
  match operation_state s with
  | Some op => op_relevant op g
  | None => false
  end.

Definition operation_active (s : QueueState) : bool := bool_decide (is_Some (operation_state s)).

(** The queue a frame is for; [None] drops it. *)
Definition route_choice r (g : GenericFrame) : option RxRouterQueue :=
  if frame_relevant_for_operation (foreground_queue_state r) g then Some Foreground
  else if negb CONCORRUENT_OPERATIONS_SUPPORTED
          || negb (operation_active (background_queue_state r))
          || frame_relevant_for_operation (background_queue_state r) g
  then Some Background
  else None.

Definition route_frame r frame : result RxRouterRoutingError unit * RxRouter :=
  match parse frame with
  | None => (Err InvalidFrame, r)
  | Some g =>
      match route_choice r g with
      | None => (Ok tt, r)
      | Some q =>
          match ch_try_send (queue (queue_state r q)) frame with
          | Some c => (Ok tt, set_queue_state r q (MkQueueState c (operation r q)))
          | None => (Err QueueFull, r)
          end
      end
  end.

(** A poll of [receive]. *)
Definition receive r q : poll Frame * RxRouter :=
  match ch_try_receive (queue (queue_state r q)) with
  | Some (f, c) => (PollReady f, set_queue_state r q (MkQueueState c (operation r q)))
  | None => (PollPending, r)
  end.

Definition queue_lengths r : nat * nat :=
  (ch_len (queue (foreground_queue_state r)), ch_len (queue (background_queue_state r))).

(** ** Operations of an endpoint *)

Definition can_start_operation r q op : result RxRouterOperationError unit :=
  match operation r (opposite q) with
  | Some opposing =>
      if negb CONCORRUENT_OPERATIONS_SUPPORTED then Err OperationAlreadyInProgress
      else if negb (compatible_with opposing op) then Err IncompatibleOperations
      else Ok tt
  | None => Ok tt
  end.

Definition start_operation_internal r q op : RxRouter :=
  set_operation (set_signal r (sg_reset (completion_signal r))) q (Some op).

Definition stop_operation_internal r q : option Op * RxRouter :=
  (operation r q, set_operation r q None).

Definition signal_completion_internal r : RxRouter :=
  set_signal r (sg_signal tt (completion_signal r)).

Definition try_start_operation r q op : result RxRouterOperationError unit * RxRouter :=
  match can_start_operation r q op with
  | Ok _ => (Ok tt, start_operation_internal r q op)
  | Err e => (Err e, r)
  end.

(** [start_operation]: whether it has to wait, and the part after the wait. *)
Definition start_must_wait r q op : bool := negb (is_ok (can_start_operation r q op)).
Definition start_poll r q op : poll unit * RxRouter :=
  match sg_wait (completion_signal r) with
  | Some (_, s) => (PollReady tt, start_operation_internal (set_signal r s) q op)
  | None => (PollPending, r)
  end.

(** ** [RxRouterScopedOperation] *)

Definition scoped_operation r q : outcome Op := expect (operation r q).

Definition transition r q op : outcome (result TransitionNotPossibleError unit * RxRouter) :=
  let '(previous, r) := stop_operation_internal r q in
  previous ← expect previous;
  if is_ok (can_start_operation r q op)
  then mret (Ok tt, start_operation_internal r q op)
  else mret (Err TransitionNotPossible, start_operation_internal r q previous).

(** [complete] and [Drop]. *)
Definition scoped_drop r q : RxRouter :=
  signal_completion_internal (snd (stop_operation_internal r q)).

(** ** Both endpoints *)

(** An endpoint is borrowed by its scoped operation, or by the pending
    [start_operation]. *)
Inductive endpoint_task : Type :=
| EIdle
| EWaiting op
| EActive.

Record RSystem : Type := MkRSystem {
  rs_router : RxRouter;
  rs_foreground : endpoint_task;
  rs_background : endpoint_task;
}.
Implicit Types (s : RSystem).

Definition task s q : endpoint_task :=
  match q with Foreground => rs_foreground s | Background => rs_background s end.
Definition with_task r s q (t : endpoint_task) : RSystem :=
  match q with
  | Foreground => MkRSystem r t (rs_background s)
  | Background => MkRSystem r (rs_foreground s) t
  end.

Inductive router_action : Type :=
| PRoute frame
| PReceive q
| PTryStart q op
| PStart q op
| PPollStart q
| PCancelStart q
| POperation q
| PTransition q op
| PDrop q.

Inductive router_output : Type :=
| PORouted (res : result RxRouterRoutingError unit)
| POReceived (p : poll Frame)
| POStarted (res : result RxRouterOperationError unit)
| POWaiting
| POOperation op
| POTransition (res : result TransitionNotPossibleError unit)
| PODone.

Definition rsystem_new : RSystem := MkRSystem router_new EIdle EIdle.

Definition router_step s (a : router_action) : option (outcome (RSystem * router_output)) :=
  let r := rs_router s in
  match a with
  | PRoute frame =>
      let '(res, r) := route_frame r frame in
      Some (Done (MkRSystem r (rs_foreground s) (rs_background s), PORouted res))
  | PReceive q =>
      let '(p, r) := receive r q in
      Some (Done (MkRSystem r (rs_foreground s) (rs_background s), POReceived p))
  | PTryStart q op =>
      match task s q with
      | EIdle =>
          match try_start_operation r q op with
          | (Ok _, r) => Some (Done (with_task r s q EActive, POStarted (Ok tt)))
          | (Err e, _) => Some (Done (s, POStarted (Err e)))
          end
      | _ => None
      end
  | PStart q op =>
      match task s q with
      | EIdle =>
          if start_must_wait r q op
          then Some (Done (with_task r s q (EWaiting op), POWaiting))
          else Some (Done (with_task (start_operation_internal r q op) s q EActive,
                           POStarted (Ok tt)))
      | _ => None
      end
  | PPollStart q =>
      match task s q with
      | EWaiting op =>
          match start_poll r q op with
          | (PollReady _, r) => Some (Done (with_task r s q EActive, POStarted (Ok tt)))
          | (PollPending, _) => Some (Done (s, POWaiting))
          end
      | _ => None
      end
  | PCancelStart q =>
      match task s q with
      | EWaiting _ => Some (Done (with_task r s q EIdle, PODone))
      | _ => None
      end
  | POperation q =>
      match task s q with
      | EActive => Some (op ← scoped_operation r q; mret (s, POOperation op))
      | _ => None
      end
  | PTransition q op =>
      match task s q with
      | EActive => Some (
          '(res, r) ← transition r q op;
          mret (with_task r s q EActive, POTransition res))
      | _ => None
      end
  | PDrop q =>
      match task s q with
      | EActive => Some (Done (with_task (scoped_drop r q) s q EIdle, PODone))
      | _ => None
      end
  end.
End RxRouter.

(** ** Facts *)

Section RouterFacts.
Context {Ch Sg : Type -> Type} `{ChannelLaws Ch, SignalLaws Sg}.
Context {Frame GenericFrame Op : Type} {ops : RxRouterOperation Op GenericFrame}.
Context (parse : Frame -> option GenericFrame) (QUEUE_DEPTH : nat).
Notation router := (RxRouter (Ch := Ch) (Sg := Sg) (Frame := Frame) (Op := Op)).
Notation system := (RSystem (Ch := Ch) (Sg := Sg) (Frame := Frame) (Op := Op)).
Implicit Types (q : RxRouterQueue) (op : Op) (r : router) (s : system).

Lemma operation_set r q o q' :
  operation (set_operation r q o) q' = if decide (q' = q) then o else operation r q'.
Proof. by destruct q, q'. Qed.

Lemma operation_start r q op q' :
  operation (start_operation_internal r q op) q' =
    if decide (q' = q) then Some op else operation r q'.
Proof. by destruct q, q'. Qed.

Lemma signal_start r q op :
  sg_value (completion_signal (start_operation_internal r q op)) = None.
Proof. destruct q; simpl; apply sg_reset_value. Qed.

Lemma operation_drop r q q' :
  operation (scoped_drop r q) q' = if decide (q' = q) then None else operation r q'.
Proof. by destruct q, q'. Qed.

Lemma signal_drop r q : sg_value (completion_signal (scoped_drop r q)) = Some tt.
Proof. destruct q; simpl; apply sg_signal_value. Qed.

Lemma task_with r s q t q' :
  task (with_task r s q t) q' = if decide (q' = q) then t else task s q'.
Proof. by destruct q, q'. Qed.

Lemma router_with r s q t : rs_router (with_task r s q t) = r.
Proof. by destruct q. Qed.

(** A started operation meets no obstacle; without concurrency, no other
    operation at all. *)
Lemma can_start_alone r q op :
  CONCORRUENT_OPERATIONS_SUPPORTED = false ->
  is_ok (can_start_operation r q op) = bool_decide (operation r (opposite q) = None).
Proof. unfold can_start_operation. intros ->. by destruct (operation r (opposite q)). Qed.

Lemma route_frame_state r frame res r' :
  route_frame parse r frame = (res, r') ->
  completion_signal r' = completion_signal r /\ forall q, operation r' q = operation r q.
Proof.
  unfold route_frame. destruct (parse frame) as [g|]; [|by intros [= <- <-]].
  destruct (route_choice r g) as [q|]; [|by intros [= <- <-]].
  destruct (ch_try_send _ _); intros [= <- <-]; [|done].
  split; [by destruct q|]. intros []; by destruct q.
Qed.

Lemma receive_state r q p r' :
  receive r q = (p, r') ->
  completion_signal r' = completion_signal r /\ forall q', operation r' q' = operation r q'.
Proof.
  unfold receive. destruct (ch_try_receive _) as [[f c]|]; intros [= <- <-]; [|done].
  split; [by destruct q|]. intros []; by destruct q.
Qed.

Record router_inv s : Prop := {
  ri_task : forall q, task s q = EActive <-> is_Some (operation (rs_router s) q);
  ri_alone : CONCORRUENT_OPERATIONS_SUPPORTED = false ->
    forall q, task s q = EActive -> operation (rs_router s) (opposite q) = None /\
      sg_value (completion_signal (rs_router s)) = None;
  ri_waiting : CONCORRUENT_OPERATIONS_SUPPORTED = false ->
    forall q op, task s q = EWaiting op -> task s (opposite q) = EActive \/
      sg_value (completion_signal (rs_router s)) = Some tt;
}.

Lemma rsystem_new_inv : router_inv (rsystem_new QUEUE_DEPTH).
Proof.
  split.
  - intros []; simpl; (split; [done|intros [? ?]; done]).
  - intros _ []; done.
  - intros _ [] ? ?; done.
Qed.

(** Steps that change neither the tasks nor what an operation depends on. *)
Lemma router_inv_same s r' :
  router_inv s -> completion_signal r' = completion_signal (rs_router s) ->
  (forall q, operation r' q = operation (rs_router s) q) ->
  router_inv (MkRSystem r' (rs_foreground s) (rs_background s)).
Proof.
  intros [Ht Ha Hw] Hs Ho. split.
  - intros q. simpl. rewrite Ho. apply (Ht q).
  - intros Hc q Hq. simpl. rewrite Ho, Hs. by apply (Ha Hc q).
  - intros Hc q op Hq. simpl. rewrite Hs. by apply (Hw Hc q op).
Qed.

(** Starting when nothing else runs. *)
Lemma router_inv_start s r q op :
  router_inv s -> task s q <> EActive ->
  (forall q', operation r q' = operation (rs_router s) q') ->
  (CONCORRUENT_OPERATIONS_SUPPORTED = false -> operation r (opposite q) = None) ->
  router_inv (with_task (start_operation_internal r q op) s q EActive).
Proof.
  intros [Ht Ha Hw] Hnq Ho Halone. split.
  - intros q'. rewrite task_with, router_with, operation_start, Ho.
    case_decide; [done|apply Ht].
  - intros Hc q'. rewrite task_with, router_with, signal_start, operation_start.
    specialize (Halone Hc). rewrite Ho in Halone. rewrite Ho.
    destruct (decide (q' = q)) as [->|Hne].
    + intros _. by rewrite decide_False by apply opposite_ne.
    + intros Hq'. apply Ht in Hq'. destruct q, q'; simpl in *; try done;
        rewrite Halone in Hq'; by destruct Hq'.
  - intros Hc q' op'. rewrite !task_with. destruct q, q'; simpl; try done; by left.
Qed.

Lemma router_inv_idle s q :
  router_inv s -> task s q <> EActive -> router_inv (with_task (rs_router s) s q EIdle).
Proof.
  intros [Ht Ha Hw] Hnq. split.
  - intros q'. rewrite task_with, router_with. case_decide as Hd; [|apply Ht].
    subst. split; [done|]. intros Ho. by apply Ht in Ho.
  - intros Hc q'. rewrite task_with, router_with. case_decide; [done|]. by apply Ha.
  - intros Hc q' op. rewrite !task_with, router_with. case_decide as Hd; [done|].
    intros Hq'. destruct (Hw Hc q' op Hq') as [Hact|]; [|by right].
    rewrite decide_False; [by left|]. intros Hd2. by rewrite Hd2 in Hact.
Qed.

Lemma router_inv_drop s q :
  router_inv s -> task s q = EActive ->
  router_inv (with_task (scoped_drop (rs_router s) q) s q EIdle).
Proof.
  intros [Ht Ha Hw] Hq. split.
  - intros q'. rewrite task_with, router_with, operation_drop.
    case_decide; [split; [done|intros [? ?]; done]|apply Ht].
  - intros Hc q'. rewrite task_with, router_with. case_decide as Hd; [done|].
    intros Hq'. destruct (Ha Hc q Hq) as [Hn _]. apply Ht in Hq'.
    destruct q, q'; simpl in *; try done; rewrite Hn in Hq'; by destruct Hq'.
  - intros Hc q' op. rewrite !task_with, router_with, signal_drop. by right.
Qed.

Lemma transition_result r q op :
  is_Some (operation r q) ->
  exists res op', transition r q op =
    Done (res, start_operation_internal (set_operation r q None) q op') /\
    (op' = op /\ res = Ok tt \/ Some op' = operation r q /\ res = Err TransitionNotPossible).
Proof.
  intros [prev Hp]. unfold transition, stop_operation_internal. rewrite Hp. simpl.
  destruct (is_ok _); eexists _, _; (split; [done|]); [by left|by right].
Qed.

Lemma router_inv_transition s q op :
  router_inv s -> task s q = EActive ->
  router_inv (with_task (start_operation_internal
    (set_operation (rs_router s) q None) q op) s q EActive).
Proof.
  intros [Ht Ha Hw] Hq. split.
  - intros q'. rewrite task_with, router_with, operation_start, operation_set.
    case_decide; [done|apply Ht].
  - intros Hc q'. rewrite task_with, router_with, signal_start, operation_start, operation_set.
    destruct (Ha Hc q Hq) as [Hn _]. case_decide as Hd.
    + intros _. subst. rewrite !(decide_False (P := opposite q = q)) by apply opposite_ne.
      done.
    + intros Hq'. apply Ht in Hq'. destruct q, q'; simpl in *; try done;
        rewrite Hn in Hq'; by destruct Hq'.
  - intros Hc q' op'. rewrite !task_with. destruct q, q'; simpl; try done; by left.
Qed.

(** An operation that cannot start yet waits. *)
Lemma router_inv_wait s q op e :
  router_inv s -> task s q = EIdle -> can_start_operation (rs_router s) q op = Err e ->
  router_inv (with_task (rs_router s) s q (EWaiting op)).
Proof.
  intros [Ht Ha Hw] Hq Hc. split.
  - intros q'. rewrite task_with, router_with. case_decide; [|apply Ht]. subst.
    rewrite <- Ht. split; congruence.
  - intros Hconc q'. rewrite task_with, router_with. case_decide; [done|by apply Ha].
  - intros Hconc q' op'. rewrite !task_with, router_with. case_decide as Hd.
    + intros _. left. subst. rewrite decide_False by apply opposite_ne. apply Ht.
      pose proof (can_start_alone (rs_router s) q op Hconc) as Hal.
      rewrite Hc in Hal. apply eq_sym, bool_decide_eq_false in Hal.
      by destruct (operation (rs_router s) (opposite q)).
    + intros Hq'. destruct (Hw Hconc q' op' Hq') as [Hact|]; [|by right].
      left. case_decide; [|done]. subst. congruence.
Qed.

(** Every possible step succeeds and keeps the invariant. *)
Lemma router_step_inv s a :
  router_inv s ->
  match router_step parse s a with
  | Some (Done (s', _)) => router_inv s'
  | Some Panic => False
  | None => True
  end.
Proof.
  intros Hinv. pose proof Hinv as [Ht Ha Hw].
  destruct a as [frame|q|q op|q op|q|q|q|q op|q]; simpl.
  - destruct (route_frame parse _ _) as [res r'] eqn:Hr.
    apply route_frame_state in Hr as [? ?]. by apply router_inv_same.
  - destruct (receive _ _) as [p r'] eqn:Hr.
    apply receive_state in Hr as [? ?]. by apply router_inv_same.
  - destruct (task s q) eqn:Hq; try done. unfold try_start_operation.
    destruct (can_start_operation _ _ _) as [[]|e] eqn:Hc; [|done].
    apply router_inv_start; [done|congruence|done|]. intros Hconc.
    pose proof (can_start_alone (rs_router s) q op Hconc) as Hal.
    rewrite Hc in Hal. by apply eq_sym, bool_decide_eq_true in Hal.
  - destruct (task s q) eqn:Hq; try done. unfold start_must_wait.
    destruct (can_start_operation _ _ _) as [[]|e] eqn:Hc; simpl.
    + apply router_inv_start; [done|congruence|done|]. intros Hconc.
      pose proof (can_start_alone (rs_router s) q op Hconc) as Hal.
      rewrite Hc in Hal. by apply eq_sym, bool_decide_eq_true in Hal.
    + by eapply router_inv_wait.
  - destruct (task s q) as [|op|] eqn:Hq; try done. unfold start_poll.
    destruct (sg_wait _) as [[[] sg]|] eqn:Hwt; [|done].
    apply sg_wait_Some in Hwt as [Hv _].
    apply router_inv_start; [done|congruence|by intros []|]. intros Hconc.
    assert (operation (rs_router s) (opposite q) = None) as Hn; [|by destruct q].
    destruct (operation (rs_router s) (opposite q)) eqn:Ho; [|done].
    destruct (Ha Hconc (opposite q)) as [_ Hs]; [apply Ht; by rewrite Ho|congruence].
  - destruct (task s q) as [|op|] eqn:Hq; try done. apply router_inv_idle; [done|congruence].
  - destruct (task s q) as [|op|] eqn:Hq; try done. apply Ht in Hq as [op Ho].
    unfold scoped_operation. by rewrite Ho.
  - destruct (task s q) as [|op'|] eqn:Hq; try done.
    destruct (transition_result (rs_router s) q op) as (res & op' & -> & _); [by apply Ht|].
    simpl. by apply router_inv_transition.
  - destruct (task s q) as [|op|] eqn:Hq; try done. by apply router_inv_drop.
Qed.

Lemma router_reachable acts s os :
  run (router_step parse) (rsystem_new QUEUE_DEPTH) acts = Some (Done (s, os)) ->
  router_inv s.
Proof.
  apply (run_invariant (router_step parse) (fun s _ _ => router_inv s));
    [apply rsystem_new_inv|].
  intros s1 acts1 os1 a s2 o Hinv Hs. pose proof (router_step_inv s1 a Hinv) as Hi.
  by rewrite Hs in Hi.
Qed.
End RouterFacts.

(** ** An operation type to compute with *)

(** Frames are numbers, an operation is relevant for the frames below it, and
    two operations are compatible if they are equal. *)
Definition demo_operations (concurrent : bool) : RxRouterOperation nat nat := {|
  CONCORRUENT_OPERATIONS_SUPPORTED := concurrent;
  op_relevant := fun op g => g <? op;
  compatible_with := fun op1 op2 => op1 =? op2;
|}.

Definition demo_parse (frame : nat) : option nat := if frame <? 100 then Some frame else None.

Definition demo_router_run (concurrent : bool) (acts : list (router_action (Frame := nat) (Op := nat)))
  : RSystem (Ch := list_chan) (Sg := option) (Frame := nat) (Op := nat) :=
  match run (router_step (ops := demo_operations concurrent) demo_parse) (rsystem_new 4) acts with
  | Some (Done (s, _)) => s
  | _ => rsystem_new 4
  end.
Definition demo_router_outputs (concurrent : bool)
  (acts : list (router_action (Frame := nat) (Op := nat)))
  : list (router_output (Frame := nat) (Op := nat)) :=
  match run (router_step (ops := demo_operations concurrent) demo_parse)
          (rsystem_new (Ch := list_chan) (Sg := option) 4) acts with
  | Some (Done (_, os)) => os
  | _ => []
  end.

(** The foreground connects while the background waits to start. *)
Definition demo_waiting : list (router_action (Frame := nat) (Op := nat)) :=
  [PTryStart Foreground 10; PStart Background 20; PRoute 5].

(** Both run the same operation, the foreground ends its own and asks for an
    incompatible one. *)
Definition demo_incompatible : list (router_action (Frame := nat) (Op := nat)) :=
  [PTryStart Background 1; PTryStart Foreground 1; PDrop Foreground;
   PStart Foreground 2; PPollStart Foreground].

(** ** Properties *)

Section RouterProperties.
Context {Ch Sg : Type -> Type} `{ChannelLaws Ch, SignalLaws Sg}.
Context {Frame GenericFrame Op : Type} {ops : RxRouterOperation Op GenericFrame}.
Context (parse : Frame -> option GenericFrame) (QUEUE_DEPTH : nat).
Notation router := (RxRouter (Ch := Ch) (Sg := Sg) (Frame := Frame) (Op := Op)).
Notation system := (RSystem (Ch := Ch) (Sg := Sg) (Frame := Frame) (Op := Op)).
Implicit Types (q : RxRouterQueue) (op : Op) (r : router) (s : system).

(** C25 Operations exclude each other: without support for concurrent
    operations, whatever both endpoints do, never are two operations active, an
    endpoint has an operation exactly while it holds a scoped operation, and no
    step panics (the [expect]s on a live operation never fail). *)
Theorem router_exclusive acts s os a :
  run (router_step parse) (rsystem_new QUEUE_DEPTH) acts = Some (Done (s, os)) ->
  router_step parse s a <> Some Panic /\
  (forall q, task s q = EActive <-> is_Some (operation (rs_router s) q)) /\
  (CONCORRUENT_OPERATIONS_SUPPORTED = false ->
   operation (rs_router s) Foreground = None \/ operation (rs_router s) Background = None).
Proof.
  intros Hr. pose proof (router_reachable parse QUEUE_DEPTH _ _ _ Hr) as Hinv.
  pose proof Hinv as [Ht Ha _]. split_and!; [|done|].
  - intros Hp. pose proof (router_step_inv parse s a Hinv) as Hi. by rewrite Hp in Hi.
  - intros Hc. destruct (operation (rs_router s) Foreground) eqn:Hf; [|by left].
    right. apply (Ha Hc Foreground), Ht. by rewrite Hf.
Qed.

(** C26 No lost completion: an endpoint that waits in [start_operation] starts
    at its next poll as soon as the other endpoint has no operation, however the
    other one started, transitioned and ended operations in between. *)
Theorem router_no_lost_completion acts s os q op :
  run (router_step parse) (rsystem_new QUEUE_DEPTH) acts = Some (Done (s, os)) ->
  CONCORRUENT_OPERATIONS_SUPPORTED = false -> task s q = EWaiting op ->
  operation (rs_router s) (opposite q) = None ->
  exists s', router_step parse s (PPollStart q) = Some (Done (s', POStarted (Ok tt))) /\
    operation (rs_router s') q = Some op.
Proof.
  intros Hr Hc Hq Ho. pose proof (router_reachable parse QUEUE_DEPTH _ _ _ Hr) as [Ht _ Hw].
  destruct (Hw Hc q op Hq) as [Hact|Hs]; [apply Ht in Hact; rewrite Ho in Hact; by destruct Hact|].
  simpl. rewrite Hq. unfold start_poll.
  destruct (sg_wait_ready _ _ Hs) as (sg & -> & _).
  eexists. split; [done|]. by rewrite router_with, operation_start, decide_True.
Qed.

(** Routing: a frame goes to the foreground queue exactly if the foreground
    operation wants it; otherwise to the background queue, except that with
    concurrent operations a background operation that does not want it drops it.
    It is appended to that queue if there is room, and a full queue or a frame
    that does not parse changes nothing. *)
Theorem route_frame_spec r frame :
  let '(res, r') := route_frame parse r frame in
  (forall q, operation r' q = operation r q) /\
  match parse frame with
  | None => res = Err InvalidFrame /\ r' = r
  | Some g =>
      let wanted q := match operation r q with Some op => op_relevant op g | None => false end in
      let deliver q :=
        if decide (length (ch_contents (queue (queue_state r q))) <
                   ch_capacity (queue (queue_state r q)))
        then res = Ok tt /\
          ch_contents (queue (queue_state r' q)) =
            ch_contents (queue (queue_state r q)) ++ [frame] /\
          queue_state r' (opposite q) = queue_state r (opposite q)
        else res = Err QueueFull /\ r' = r in
      if wanted Foreground then deliver Foreground
      else if CONCORRUENT_OPERATIONS_SUPPORTED &&
              bool_decide (is_Some (operation r Background)) && negb (wanted Background)
      then res = Ok tt /\ r' = r
      else deliver Background
  end.
Proof.
  destruct (route_frame parse r frame) as [res r'] eqn:Hr.
  pose proof (route_frame_state _ _ _ _ _ Hr) as [_ Hop]. split; [done|].
  unfold route_frame in Hr. destruct (parse frame) as [g|]; [|by injection Hr as <- <-].
  assert (forall q, match ch_try_send (queue (queue_state r q)) frame with
      | Some c => (Ok tt, set_queue_state r q (MkQueueState c (operation r q)))
      | None => (Err QueueFull, r)
      end = (res, r') ->
    if decide (length (ch_contents (queue (queue_state r q))) <
               ch_capacity (queue (queue_state r q)))
    then res = Ok tt /\
      ch_contents (queue (queue_state r' q)) = ch_contents (queue (queue_state r q)) ++ [frame] /\
      queue_state r' (opposite q) = queue_state r (opposite q)
    else res = Err QueueFull /\ r' = r) as Hdel.
  { intros q. destruct (ch_try_send _ frame) as [c|] eqn:Hs; intros [= <- <-].
    - rewrite decide_True.
      + apply ch_try_send_contents in Hs. by destruct q.
      + destruct (decide (length (ch_contents (queue (queue_state r q))) <
          ch_capacity (queue (queue_state r q)))); [done|].
        assert (ch_try_send (queue (queue_state r q)) frame = None) as Hn
          by (apply ch_try_send_full; lia). congruence.
    - apply ch_try_send_full in Hs. by rewrite decide_False by lia. }
  cbv zeta beta. change (match operation r Foreground with Some op => op_relevant op g | None => false end)
    with (frame_relevant_for_operation (foreground_queue_state r) g).
  change (match operation r Background with Some op => op_relevant op g | None => false end)
    with (frame_relevant_for_operation (background_queue_state r) g).
  unfold route_choice, operation_active in Hr.
  destruct (frame_relevant_for_operation (foreground_queue_state r) g);
    [apply (Hdel Foreground Hr)|].
  change (operation_state (background_queue_state r)) with (operation r Background) in Hr.
  destruct CONCORRUENT_OPERATIONS_SUPPORTED, (bool_decide (is_Some (operation r Background))),
    (frame_relevant_for_operation (background_queue_state r) g); cbn [negb orb andb] in Hr |- *;
    solve [apply (Hdel Background Hr)|by injection Hr as <- <-].
Qed.

(** A transition either changes the endpoint's operation or restores the
    previous one; the endpoint keeps an operation, and the other endpoint's
    operation stays. *)
Theorem transition_spec r q op previous :
  operation r q = Some previous ->
  exists res r', transition r q op = Done (res, r') /\
    operation r' (opposite q) = operation r (opposite q) /\
    match res with
    | Ok _ => operation r' q = Some op
    | Err _ => operation r' q = Some previous /\ operation r (opposite q) <> None
    end.
Proof.
  intros Hp. unfold transition, stop_operation_internal. rewrite Hp. simpl.
  assert (operation (set_operation r q None) (opposite q) = operation r (opposite q)) as Ho.
  { rewrite operation_set, decide_False; [done|apply opposite_ne]. }
  unfold can_start_operation. rewrite Ho.
  assert (forall op', operation (start_operation_internal (set_operation r q None) q op') q
    = Some op' /\ operation (start_operation_internal (set_operation r q None) q op')
    (opposite q) = operation r (opposite q)) as Hst.
  { intros op'. rewrite !operation_start, Ho. split; [by rewrite decide_True|].
    rewrite decide_False; [done|apply opposite_ne]. }
  destruct (Hst op) as [Hs1 Hs2], (Hst previous) as [Hp1 Hp2].
  destruct (is_ok _) eqn:Hok; simpl; eexists _, _; (split; [done|]); split; try done.
  split; [done|]. intros Hn. by rewrite Hn in Hok.
Qed.
End RouterProperties.

(** With concurrent operations, [start_operation] can start an operation that
    is incompatible with the active one: it waits for one completion signal and
    does not check again, and the signal may be that of the endpoint's own earlier
    operation. *)
Theorem concurrent_start_incompatible :
  let s := demo_router_run true demo_incompatible in
  length (demo_router_outputs true demo_incompatible) = length demo_incompatible /\
  operation (rs_router s) Background = Some 1 /\
  operation (rs_router s) Foreground = Some 2 /\
  compatible_with (RxRouterOperation := demo_operations true) 1 2 = false.
Proof. split_and!; reflexivity. Qed.

(** ** Witnesses *)

Lemma router_exclusive_witness :
  operation (rs_router (demo_router_run false demo_waiting)) Foreground = None \/
  operation (rs_router (demo_router_run false demo_waiting)) Background = None.
Proof.
  apply (router_exclusive (ops := demo_operations false) demo_parse 4 demo_waiting _
    (demo_router_outputs false demo_waiting) (PDrop Foreground)); reflexivity.
Defined.

Lemma router_no_lost_completion_witness :
  let s := demo_router_run false (demo_waiting ++ [PDrop Foreground]) in
  exists s', router_step (ops := demo_operations false) demo_parse s (PPollStart Background) =
      Some (Done (s', POStarted (Ok tt))) /\
    operation (rs_router s') Background = Some 20.
Proof.
  apply (router_no_lost_completion (ops := demo_operations false) demo_parse 4
    (demo_waiting ++ [PDrop Foreground]) _
    (demo_router_outputs false (demo_waiting ++ [PDrop Foreground]))); reflexivity.
Defined.

Lemma transition_spec_witness :
  exists res r', transition (ops := demo_operations false)
      (rs_router (demo_router_run false demo_waiting)) Foreground 30 = Done (res, r').
Proof.
  destruct (transition_spec (ops := demo_operations false)
    (rs_router (demo_router_run false demo_waiting)) Foreground 30 10)
    as (res & r' & Ht & _); [reflexivity|by exists res, r'].
Defined.
