(* ===== verification/Foa.v ===== *)
(** * The crate foa as one machine

    [Stack] of Stack.v with the rest of what the crate keeps: the key slots of the lower MAC
    (lmac/crypto.rs), the factory address of an interface (lmac/mod.rs), and the receive
    router that an interface makes of its endpoint (util/rx_router.rs).  A scan and
    a deauthentication are sequences of these calls: StaScan.v, Connect.v.  The frames of
    received packets are the handles of RxPath.v, whose counts have a machine of their own. *)
From S2P Require Import Prelude Platform TxBuffers TxQueue TxQueueSpec TxSystem Lmac KeySlots RxPath Stack StackProps RxRouter.

Section Foa.
Context {W Ch Sg : Type -> Type} {Frame GenericFrame Op : Type} {ops : RxRouterOperation Op GenericFrame}.
Context `{FoaConfig, Hal, Radio, Watch W, Channel Ch, Signal Sg, TxDriver, KeyHal}.
(** The frame parser, the depth of the routers, and the address in the efuses. *)
Context (parse : Frame -> option GenericFrame) (QUEUE_DEPTH : nat) (base_mac_address : list Z).
Notation Stack := (Stack (W := W) (Ch := Ch) (Frame := Frame)).
Notation RSystem := (RSystem (Ch := Ch) (Sg := Sg) (Frame := Frame) (Op := Op)).

Record Foa : Type := MkFoa {
  fo_stack : Stack;
  fo_keys : KSystem;
  fo_routers : list RSystem;
}.
Implicit Types (f : Foa).

(** [SharedLMacState::new] within [init], and a router for every interface. *)
Definition foa_init (channel_controller : ChannelController) (crypto : CryptoController) : outcome Foa :=
  s ← init channel_controller;
  mret (MkFoa s (ksystem_new crypto) ((fun _ => rsystem_new QUEUE_DEPTH) <$> st_interfaces s)).

(** A call of interface [v], or a step of the stack. *)
Inductive foa_action : Type :=
| CStack (a : stack_action (Frame := Frame))
| CAcquireKeySlot (v : nat)
| CSetKey (n : nat) (id : Z) (address : list Z) (par : CipherParameters)
| CDropKeySlot (n : nat)
| CFactoryMac (v : nat)
| CRouter (v : nat) (a : router_action (Frame := Frame) (Op := Op)).

Inductive foa_output : Type :=
| COStack (o : stack_output (Frame := Frame))
| COKey (o : ks_output)
| COFactoryMac (mac : list Z)
| CORouter (o : router_output (Frame := Frame) (Op := Op)).

Definition key_step f (a : ks_action) : option (outcome (Foa * foa_output)) :=
  match ks_step (fo_keys f) a with
  | Some (Done (k, o)) => Some (Done (MkFoa (fo_stack f) k (fo_routers f), COKey o))
  | Some Panic => Some Panic
  | None => None
  end.

Definition foa_step f (a : foa_action) : option (outcome (Foa * foa_output)) :=
  match a with
  | CStack a =>
      match stack_step (fo_stack f) a with
      | Some (Done (s, o)) => Some (Done (MkFoa s (fo_keys f) (fo_routers f), COStack o))
      | Some Panic => Some Panic
      | None => None
      end
  | CAcquireKeySlot v =>
      vif ← st_interfaces (fo_stack f) !! v;
      key_step f (KAcquire (vif_interface vif))
  | CSetKey n id address par => key_step f (KSetKey n id address par)
  | CDropKeySlot n => key_step f (KDrop n)
  | CFactoryMac v =>
      vif ← st_interfaces (fo_stack f) !! v;
      Some (mac ← get_factory_mac_for_interface (vif_interface vif) base_mac_address;
            mret (f, COFactoryMac mac))
  | CRouter v a =>
      r ← fo_routers f !! v;
      match router_step parse r a with
      | Some (Done (r, o)) => Some (Done (MkFoa (fo_stack f) (fo_keys f) (<[v := r]> (fo_routers f)), CORouter o))
      | Some Panic => Some Panic
      | None => None
      end
  end.
End Foa.

(** ** Facts *)

Section FoaFacts.
Context {W Ch Sg : Type -> Type} {Frame GenericFrame Op : Type} {ops : RxRouterOperation Op GenericFrame}.
Context `{FoaConfig, Hal, RadioLaws, WatchLaws W, ChannelLaws Ch, SignalLaws Sg, !TxDriver, !TxDriverLaws, KeyHal}.
Context (parse : Frame -> option GenericFrame) (QUEUE_DEPTH : nat) (base_mac_address : list Z).
Notation Foa := (Foa (W := W) (Ch := Ch) (Sg := Sg) (Frame := Frame) (Op := Op)).
Notation step := (foa_step (W := W) (Ch := Ch) (Sg := Sg) (Op := Op) parse base_mac_address).
Implicit Types (f : Foa).

Definition foa_action_ok (a : foa_action (Frame := Frame) (Op := Op)) : Prop :=
  match a with CStack a => stack_action_ok a | _ => True end.

Record foa_inv f : Prop := {
  fi_stack : exists os, stack_inv (fo_stack f) os;
  fi_routers : Forall router_inv (fo_routers f);
}.

Lemma foa_init_total ctl crypto : exists f,
  foa_init (W := W) (Ch := Ch) (Sg := Sg) (Frame := Frame) (Op := Op) QUEUE_DEPTH ctl crypto = Done f /\ foa_inv f.
Proof.
  destruct (init_total (W := W) (Ch := Ch) (Frame := Frame) ctl) as (s & Hi & Hok).
  unfold foa_init. rewrite Hi. eexists. split; [done|]. split.
  - exists []. by eapply initial_stack_inv.
  - apply Forall_fmap, Forall_true. intros vif. simpl. apply (rsystem_new_inv QUEUE_DEPTH).
Qed.

Lemma foa_step_inv f a f' o :
  foa_inv f -> foa_action_ok a -> step f a = Some (Done (f', o)) -> foa_inv f'.
Proof.
  intros [[os Hs] Hr] Ha Hst. unfold foa_step, key_step in Hst. destruct a as [a|v|n id address par|n|v|v a].
  - destruct (stack_step (fo_stack f) a) as [[[s o']|]|] eqn:Hk; [|done..]. injection Hst as <- <-.
    split; [|done]. eexists. by eapply stack_step_inv.
  - destruct (st_interfaces _ !! v); [|done]. cbn [mbind option_bind] in Hst.
    destruct (ks_step _ _) as [[[k o']|]|]; [|done..]. injection Hst as <- <-. split; [by exists os|done].
  - destruct (ks_step _ _) as [[[k o']|]|]; [|done..]. injection Hst as <- <-. split; [by exists os|done].
  - destruct (ks_step _ _) as [[[k o']|]|]; [|done..]. injection Hst as <- <-. split; [by exists os|done].
  - destruct (st_interfaces _ !! v); [|done]. apply (inj Some) in Hst.
    apply outcome_bind_Done in Hst as (mac & _ & Hst). injection Hst as <- <-. split; [by exists os|done].
  - destruct (fo_routers f !! v) as [r|] eqn:Hv; [|done]. cbn [mbind option_bind] in Hst.
    pose proof (router_step_inv parse r a (proj1 (Forall_lookup _ _) Hr v r Hv)) as Hi.
    destruct (router_step parse r a) as [[[r' o']|]|]; [|done..]. injection Hst as <- <-.
    split; [by exists os|]. by apply Forall_insert.
Qed.

(** Key slots never make a step panic. *)
Lemma key_step_safe f a : key_step f a <> Some Panic.
Proof.
  unfold key_step, ks_step. destruct a as [i|n id address par|n].
  - by destruct (lmac_acquire_key_slot _ _) as [[]|].
  - destruct (ks_held (fo_keys f) !! n); [|done]. by destruct (set_key _ _ _ _ _).
  - by destruct (ks_held (fo_keys f) !! n).
Qed.

Lemma foa_step_panic f a :
  foa_inv f -> foa_action_ok a -> generations_left (fo_stack f) ->
  step f a = Some Panic <-> exists v vif, a = CFactoryMac v /\
    st_interfaces (fo_stack f) !! v = Some vif /\
    get_factory_mac_for_interface (vif_interface vif) base_mac_address = Panic.
Proof.
  intros [[os Hs] Hr] Ha Hg. split.
  2: { intros (v & vif & -> & Hv & Hp). unfold foa_step. rewrite Hv. cbn [mbind option_bind]. by rewrite Hp. }
  unfold foa_step. destruct a as [a|v|n id address par|n|v|v a]; intros Hst; try by apply key_step_safe in Hst.
  - pose proof (stack_step_safe _ _ _ Hs Ha Hg). by destruct (stack_step (fo_stack f) a) as [[[]|]|].
  - destruct (st_interfaces _ !! v); [|done]. by apply key_step_safe in Hst.
  - destruct (st_interfaces _ !! v) as [vif|] eqn:Hv; [|done]. exists v, vif. split_and!; [done..|].
    apply (inj Some) in Hst. by destruct (get_factory_mac_for_interface _ _).
  - destruct (fo_routers f !! v) as [r|] eqn:Hv; [|done]. cbn [mbind option_bind] in Hst.
    pose proof (router_step_inv parse r a (proj1 (Forall_lookup _ _) Hr v r Hv)) as Hi.
    by destruct (router_step parse r a) as [[[]|]|].
Qed.
End FoaFacts.

(** ** Properties *)

Section FoaProperties.
Context {W Ch Sg : Type -> Type} {Frame GenericFrame Op : Type} {ops : RxRouterOperation Op GenericFrame}.
Context `{FoaConfig, Hal, RadioLaws, WatchLaws W, ChannelLaws Ch, SignalLaws Sg, !TxDriver, !TxDriverLaws, KeyHal}.
Context (parse : Frame -> option GenericFrame) (QUEUE_DEPTH : nat) (base_mac_address : list Z).

(** C4 The one call of the crate foa that panics: [init] succeeds, and from then on the
    next step panics exactly if it asks for the factory address of an interface whose number
    carries out of the last octet of the base address.  The steps are, in any
    interleaving of the interfaces: transmission (buffers, the EDCA queues, the beacon
    endpoint, the runners and the radio's answers), received packets and their queues, the
    channel locks and off-channel operations, resets, the key slots, whatever the
    driver answers, and the receive routers.  Callers name existing interfaces and valid
    channels, pass a frame length that fits a transmit buffer and a hook that does
    not panic itself, and no transmit queue has used up its 64-bit generations. *)
Theorem foa_panics_only_on_carry ctl crypto : length base_mac_address = 6 ->
  exists f0, foa_init (W := W) (Ch := Ch) (Sg := Sg) (Op := Op) QUEUE_DEPTH ctl crypto = Done f0 /\
  forall acts f os a, run (foa_step parse base_mac_address) f0 acts = Some (Done (f, os)) ->
    Forall foa_action_ok (acts ++ [a]) -> generations_left (fo_stack f) ->
    foa_step parse base_mac_address f a = Some Panic <->
    exists v vif octet, a = CFactoryMac v /\ st_interfaces (fo_stack f) !! v = Some vif /\
      base_mac_address !! 5 = Some octet /\
      (u_max 8 < octet + wrapping 8 (Z.of_nat (vif_interface vif)))%Z.
Proof.
  intros Hlen. destruct (foa_init_total (Frame := Frame) QUEUE_DEPTH ctl crypto) as (f0 & Hi & Hinv).
  exists f0. split; [done|]. intros acts f os a Hr [Hf [Ha _]%Forall_cons]%Forall_app Hg.
  assert (foa_inv f) as Hf'.
  { clear Ha Hg. revert f os Hr. induction acts as [|b acts IH] using rev_ind; intros f os Hr.
    - by apply run_nil in Hr as [-> ->].
    - apply run_snoc in Hr as (f1 & os1 & o & Hr & Hs & ->). apply Forall_app in Hf as [Hf [Hb _]%Forall_cons].
      eapply foa_step_inv; [by eapply IH|exact Hb|exact Hs]. }
  rewrite foa_step_panic by done.
  destruct (lookup_lt_is_Some_2 base_mac_address 5) as [octet Ho]; [lia|].
  split; intros (v & vif & H0').
  - destruct H0' as (-> & Hv & Hp). exists v, vif, octet. split_and!; [done..|].
    unfold get_factory_mac_for_interface in Hp. rewrite Ho in Hp. cbn [expect mbind outcome_bind] in Hp.
    destruct (checked_add 8 octet _) eqn:Hc; [done|]. by apply checked_add_None in Hc.
  - destruct H0' as (octet' & -> & Hv & Ho' & Hlt). exists v, vif. split_and!; [done..|].
    unfold get_factory_mac_for_interface. rewrite Ho'. cbn [expect mbind outcome_bind].
    by apply checked_add_None in Hlt as ->.
Qed.
End FoaProperties.

(** ** Witness *)

Section Witness.
#[local] Existing Instances small_config unit_hal demo_driver demo_driver_laws list_keys.

(** The efuses hold an address whose last octet is 254: interfaces 2 and 3 carry. *)
Definition demo_base_mac : list Z := [2; 0; 0; 0; 0; 254]%Z.
Definition demo_no_keys : CryptoController := [].
Definition demo_foa_calls : list (foa_action (Frame := nat) (Op := nat)) :=
  [CAcquireKeySlot 1; CStack KAlloc; CStack (KSplit 1); CRouter 1 (PTryStart RxRouter.Foreground 10); CFactoryMac 1].

Lemma demo_foa_run : exists (f0 f : Foa (W := option) (Ch := list_chan) (Sg := option)) os,
  foa_init 4 radio_off demo_no_keys = Done f0 /\
  run (foa_step (ops := demo_operations false) demo_parse demo_base_mac) f0 demo_foa_calls = Some (Done (f, os)) /\
  last os = Some (COFactoryMac [2; 0; 0; 0; 0; 255]%Z) /\ generations_left (fo_stack f).
Proof.
  eexists _, _, _. split_and!; [vm_compute; reflexivity..|].
  intros i m Hi. do 4 (destruct i; [injection Hi as <-; vm_compute; reflexivity|]). discriminate Hi.
Qed.

Lemma foa_panics_only_on_carry_witness :
  exists (f : Foa (W := option) (Ch := list_chan) (Sg := option)),
  foa_step (ops := demo_operations false) demo_parse demo_base_mac f (CFactoryMac 2) = Some Panic /\
  foa_step (ops := demo_operations false) demo_parse demo_base_mac f (CAcquireKeySlot 2) <> Some Panic.
Proof.
  destruct demo_foa_run as (f0 & f & os & Hi & Hr & _ & Hg).
  destruct (foa_panics_only_on_carry (W := option) (Ch := list_chan) (Sg := option) (ops := demo_operations false)
    demo_parse 4 demo_base_mac radio_off demo_no_keys) as (f1 & Hi1 & Hp); [reflexivity|].
  assert (f1 = f0) as -> by congruence. exists f. split.
  - apply (Hp demo_foa_calls f os); [exact Hr|by repeat constructor|exact Hg|].
    exists 2, (MkVirtualInterface 2 2), 254%Z. split_and!; [reflexivity| |reflexivity|reflexivity].
    vm_compute in Hi. injection Hi as <-. vm_compute in Hr. by injection Hr as <- _.
  - intros Hk. apply (Hp demo_foa_calls f os) in Hk as (v & vif & octet & Hv & _);
      [discriminate Hv|exact Hr|by repeat constructor|exact Hg].
Defined.
End Witness.
