(* ===== verification/Eapol.v ===== *)
(** * EAPOL-Key frames: foa_sta/src/rsn_retransmit.rs, rsn_initial.rs, rsn_group.rs

    The checks a received key frame passes before the [ieee80211] crate decodes
    it, the replay counters of the exchanges, and the CCMP framing of EAPOL data.
    The crate's parsers and decoder are the class [Ieee80211]; indexing and slicing
    are explicit and can panic, and so can the crate's decoder and its view of a CCMP
    header.  [Ieee80211Laws] says on which bytes they do not.  Buffers are lists of
    bytes. *)
From S2P Require Import Prelude Bytes.

(** ** The [ieee80211] crate *)

Record SubFrame : Type := MkSubFrame {
  sf_destination : list Z;
  sf_source : list Z;
  sf_payload : list Z;
}.

(** An aggregated payload is what its iterator yields. *)
Inductive ReadPayload : Type :=
| Single (bytes : list Z)
| AMSDU (sub_frames : list SubFrame).

Inductive WrappedPayload : Type :=
| Unwrapped (payload : ReadPayload)
| CryptoWrapped (payload : ReadPayload) (packet_number : Z).

(** What the code reads of a parsed data frame. *)
Record DataFrame : Type := MkDataFrame {
  address_1 : list Z;
  address_2 : list Z;
  (** Destination and source address, which not every combination of flags has. *)
  destination_address : option (list Z);
  source_address : option (list Z);
  from_ds : bool;
  to_ds : bool;
  protected : bool;
  length_in_bytes : nat;
  df_payload : option (list Z);
  (** Called with [MicState::NotPresent]; it panics on some CCMP headers. *)
  potentially_wrapped_payload : outcome (option WrappedPayload);
}.

(** What the code reads of a decoded EAPOL-Key frame: the first GTK element is
    its key and key id. *)
Record EapolKey : Type := MkEapolKey {
  key_nonce : list Z;
  key_replay_counter : Z;
  first_gtk : option (list Z * Z);
}.

Class Ieee80211 : Type := {
  (** [GenericFrame::new(..)] and [parse_to_typed::<DataFrame>()]. *)
  parse_data_frame : list Z -> option DataFrame;
  (** [deserialize_eapol_data_frame] with both keys; the length is the scratch
      buffer's.  It reaches unchecked slices. *)
  deserialize_eapol : list Z -> list Z -> list Z -> nat -> outcome (option EapolKey);
  MAX_PN : Z;
  (** [CryptoHeader::new] and its eight serialized bytes. *)
  crypto_header : Z -> Z -> option (list Z);
}.

Section Eapol.
Context `{Ieee80211}.
Implicit Types (buffer own bssid kck kek : list Z).

(** ** The envelope (rsn_retransmit.rs) *)

Definition EAPOL_LLC : list Z := [0xaa; 0xaa; 3; 0; 0; 0; 0x88; 0x8e]%Z.

(** The conditions on the bytes of the EAPOL frame, in the code's order. *)
Definition envelope_header_ok (eapol : list Z) (group : bool) : outcome bool :=
  if decide (length eapol < 99) then mret false else
  b0 ← byte_at eapol 0;
  if decide (b0 <> 1 /\ b0 <> 2)%Z then mret false else
  b1 ← byte_at eapol 1;
  if decide (b1 <> 3)%Z then mret false else
  b4 ← byte_at eapol 4;
  if decide (b4 <> 2)%Z then mret false else
  b7 ← byte_at eapol 7;
  b8 ← byte_at eapol 8;
  mret (bool_decide (u16_be b7 b8 = 16)%Z || (group && bool_decide (b7 = 0 /\ b8 = 0)%Z)).

Definition key_envelope buffer own bssid (group : bool) : outcome (option (list Z)) :=
  match parse_data_frame buffer with
  | None => mret None
  | Some frame =>
      if bool_decide (address_1 frame <> own) || bool_decide (address_2 frame <> bssid)
         || negb (from_ds frame) || to_ds frame || protected frame
      then mret None
      else match df_payload frame with
      | None => mret None
      | Some payload =>
          match get_range payload 0 8 with
          | None => mret None
          | Some llc =>
              if decide (llc <> EAPOL_LLC) then mret None
              else match get_range payload 8 (length payload) with
              | None => mret None
              | Some eapol =>
                  ok ← envelope_header_ok eapol group;
                  if negb ok then mret None else
                  b2 ← byte_at eapol 2;
                  b3 ← byte_at eapol 3;
                  b97 ← byte_at eapol 97;
                  b98 ← byte_at eapol 98;
                  if decide (u16_be b2 b3 + 4 <> Z.of_nat (length eapol) \/
                             u16_be b97 b98 + 99 <> Z.of_nat (length eapol))%Z
                  then mret None else mret (Some eapol)
              end
          end
      end
  end.

Definition key_payload buffer own bssid : outcome (option (list Z)) :=
  key_envelope buffer own bssid false.
Definition group_key_payload buffer own bssid : outcome (option (list Z)) :=
  key_envelope buffer own bssid true.

Record Message3 : Type := MkMessage3 {
  m3_nonce : list Z;
  m3_counter : Z;
  m3_gtk : list Z;
  m3_gtk_id : Z;
}.

(** The decoder's GTK, if it has the sixteen bytes of CCMP. *)
Definition gtk_16 (key : EapolKey) : option (list Z * Z) :=
  '(gtk, id) ← first_gtk key;
  if decide (length gtk = 16) then Some (gtk, id) else None.

(** The length conditions on encrypted key data. *)
Definition key_data_ok (data_len scratch_len : nat) : bool :=
  negb (bool_decide (data_len < 24) || bool_decide (data_len mod 8 <> 0)
        || bool_decide (scratch_len < data_len - 8)).

Definition decrypt_message_3 buffer (scratch_len : nat) kck kek own bssid
  : outcome (option Message3) :=
  envelope ← key_payload buffer own bssid;
  match envelope with
  | None => mret None
  | Some eapol =>
      data_len ← usize_sub (length eapol) 99;
      b5 ← byte_at eapol 5;
      b6 ← byte_at eapol 6;
      if decide (u16_be b5 b6 <> 0x13ca)%Z then mret None
      else if negb (key_data_ok data_len scratch_len) then mret None
      else
        decoded ← deserialize_eapol kck kek buffer scratch_len;
        mret (
          key ← decoded;
          '(gtk, id) ← gtk_16 key;
          Some (MkMessage3 (key_nonce key) (key_replay_counter key) gtk id))
  end.

(** [Message3Replay]. *)
Record Message3Replay : Type := MkMessage3Replay {
  authenticator_nonce : list Z;
  supplicant_nonce : list Z;
  replay_counter : Z;
}.

Definition message3_replay_new (anonce snonce : list Z) (counter : Z) : Message3Replay :=
  MkMessage3Replay anonce snonce counter.

Definition replay_advance (r : Message3Replay) (counter : Z) : Message3Replay :=
  MkMessage3Replay (authenticator_nonce r) (supplicant_nonce r) counter.

Definition replay_accept (r : Message3Replay) buffer (scratch_len : nat) kck kek
  (gtk : list Z) (gtk_id : Z) own bssid : outcome (option Z * Message3Replay) :=
  key ← decrypt_message_3 buffer scratch_len kck kek own bssid;
  match key with
  | None => mret (None, r)
  | Some key =>
      if decide (m3_nonce key <> authenticator_nonce r \/ (m3_counter key <= replay_counter r)%Z)
      then mret (None, r)
      else if decide (m3_gtk key <> gtk \/ m3_gtk_id key <> gtk_id) then mret (None, r)
      else mret (Some (m3_counter key), replay_advance r (m3_counter key))
  end.

(** ** The pending exchange (rsn_initial.rs) *)

Record InitialHandshake : Type := MkInitialHandshake {
  ih_authenticator_nonce : list Z;
  ih_replay_counter : Z;
}.

Definition from_message_1 buffer own bssid : outcome (option InitialHandshake) :=
  payload ← key_payload buffer own bssid;
  match payload with
  | None => mret None
  | Some key =>
      b5 ← byte_at key 5;
      b6 ← byte_at key 6;
      if decide (u16_be b5 b6 <> 0x008a)%Z then mret None else
      nonce ← slice key 17 49;
      counter ← slice key 9 17;
      mret (Some (MkInitialHandshake nonce (u64_be counter)))
  end.

Definition message_1_retry (h : InitialHandshake) buffer own bssid
  : outcome (option Z * InitialHandshake) :=
  retry ← from_message_1 buffer own bssid;
  match retry with
  | None => mret (None, h)
  | Some retry =>
      if decide (ih_authenticator_nonce retry <> ih_authenticator_nonce h \/
                 (ih_replay_counter retry < ih_replay_counter h)%Z)
      then mret (None, h)
      else mret (Some (ih_replay_counter retry),
             MkInitialHandshake (ih_authenticator_nonce h) (ih_replay_counter retry))
  end.

Definition message_3 (h : InitialHandshake) buffer (scratch_len : nat) kck kek own bssid
  : outcome (option Message3 * InitialHandshake) :=
  key ← decrypt_message_3 buffer scratch_len kck kek own bssid;
  match key with
  | None => mret (None, h)
  | Some key =>
      if decide (m3_nonce key <> ih_authenticator_nonce h \/
                 (m3_counter key <= ih_replay_counter h)%Z)
      then mret (None, h)
      else mret (Some key, MkInitialHandshake (ih_authenticator_nonce h) (m3_counter key))
  end.

(** ** Group messages and CCMP framing (rsn_group.rs) *)

(** [protect_eapol]: the new buffer with the protected length, or [None] with the
    buffer as the code leaves it. *)
Definition protect_eapol buffer (len : nat) (pn : Z) : outcome (option (list Z * nat)) :=
  if decide (pn = 0 \/ MAX_PN < pn)%Z then mret None
  else match checked_add 32 (Z.of_nat len) 16 with
  | None => mret None
  | Some total =>
      if decide (Z.of_nat (length buffer) < total)%Z then mret None
      else match get_range buffer 0 len with
      | None => mret None
      | Some prefix =>
          match parse_data_frame prefix with
          | None => mret None
          | Some frame =>
              if protected frame then mret None else
              let header := length_in_bytes frame in
              buffer ← copy_within buffer header len (header + 8);
              match crypto_header pn 0 with
              | None => mret None
              | Some bytes =>
                  let buffer := take header buffer ++ bytes ++ drop (header + 8) buffer in
                  b1 ← byte_at buffer 1;
                  let buffer := <[1 := Z.lor b1 0x40]> buffer in
                  if decide (len + 16 <= length buffer)
                  then mret (Some (take (len + 8) buffer ++ replicate 8 0%Z ++
                                   drop (len + 16) buffer, len + 16))
                  else Panic
              end
          end
      end
  end.

Definition is_key_frame buffer : outcome bool :=
  match parse_data_frame buffer with
  | None => mret false
  | Some frame =>
      payload ← potentially_wrapped_payload frame;
      mret match payload with
        | Some (Unwrapped (Single bytes)) | Some (CryptoWrapped (Single bytes) _) =>
            bool_decide (get_range bytes 0 8 = Some EAPOL_LLC) &&
            bool_decide (bytes !! 9 = Some 3%Z)
        | _ => false
        end
  end.

(** The part of [normalize] that removes the CCMP header. *)
Definition strip_ccmp buffer (header_len : nat) (pn : Z)
  : outcome (option (list Z * nat * option Z)) :=
  match get_range buffer header_len (header_len + 8) with
  | None => mret None
  | Some crypto =>
      c2 ← byte_at crypto 2;
      if decide (c2 <> 0)%Z then mret None else
      c3 ← byte_at crypto 3;
      if decide (c3 <> 0x20)%Z then mret None else
      buffer ← copy_within buffer (header_len + 8) (length buffer) header_len;
      b1 ← byte_at buffer 1;
      let buffer := <[1 := Z.land b1 (Z.lnot 0x40)]> buffer in
      n ← usize_sub (length buffer) 8;
      mret (Some (buffer, n, Some pn))
  end.

(** [normalize]: the buffer, the frame's length in it, and its packet number. *)
Definition normalize buffer own bssid : outcome (option (list Z * nat * option Z)) :=
  match parse_data_frame buffer with
  | None => mret None
  | Some frame =>
      if bool_decide (address_1 frame <> own) || bool_decide (address_2 frame <> bssid)
         || negb (from_ds frame) || to_ds frame
      then mret None
      else
        key ← is_key_frame buffer;
        if negb key then mret None
        else
          payload ← potentially_wrapped_payload frame;
          match payload with
          | None => mret None
          | Some (Unwrapped _) => mret (Some (buffer, length buffer, None))
          | Some (CryptoWrapped _ pn) => strip_ccmp buffer (length_in_bytes frame) pn
          end
  end.

Record GroupMessage1 : Type := MkGroupMessage1 {
  g1_counter : Z;
  g1_nonce : list Z;
  g1_key : list Z;
  g1_key_id : Z;
  g1_rsc : Z;
}.

#[export] Instance GroupMessage1_eq_dec : EqDecision GroupMessage1.
Proof. solve_decision. Defined.

Definition decode_group_message_1 buffer (scratch_len : nat) kck kek own bssid
  : outcome (option GroupMessage1) :=
  payload ← group_key_payload buffer own bssid;
  match payload with
  | None => mret None
  | Some envelope =>
      b5 ← byte_at envelope 5;
      b6 ← byte_at envelope 6;
      if decide (u16_be b5 b6 <> 0x1382)%Z then mret None else
      data_len ← usize_sub (length envelope) 99;
      if negb (key_data_ok data_len scratch_len) then mret None else
      high ← slice envelope 71 73;
      if decide (high <> [0; 0]%Z) then mret None else
      rsc_bytes ← slice envelope 65 71;
      let rsc := u64_le (rsc_bytes ++ [0; 0]%Z) in
      decoded ← deserialize_eapol kck kek buffer scratch_len;
      mret (
        key ← decoded;
        '(gtk, id) ← gtk_16 key;
        Some (MkGroupMessage1 (key_replay_counter key) (key_nonce key) gtk id rsc))
  end.

(** ** What the crate's decoders need *)

(** The payload of a protected frame begins with the eight bytes of a CCMP header: the
    reserved byte zero, the extended-IV flag set, the reserved flags clear. *)
Definition ccmp_header_ok (frame : DataFrame) : bool :=
  negb (protected frame) ||
  match df_payload frame ≫= fun payload => get_range payload 0 8 with
  | Some iv => bool_decide (iv !! 2 = Some 0%Z) &&
      bool_decide ((fun b => Z.land b 0x3f) <$> iv !! 3 = Some 0x20%Z)
  | None => false
  end.

(** A buffer whose data frame, if it is one, has no broken CCMP header. *)
Definition ccmp_ok buffer : bool :=
  match parse_data_frame buffer with Some frame => ccmp_header_ok frame | None => true end.

(** An EAPOL-Key frame whose body and key data have exactly the lengths it states, with
    encrypted key data of whole blocks that fits the scratch buffer. *)
Definition key_data_in_bounds (eapol : list Z) (scratch_len : nat) : Prop :=
  99 <= length eapol /\
  (exists b2 b3 b97 b98, eapol !! 2 = Some b2 /\ eapol !! 3 = Some b3 /\
     eapol !! 97 = Some b97 /\ eapol !! 98 = Some b98 /\
     (u16_be b2 b3 + 4 = Z.of_nat (length eapol) /\ u16_be b97 b98 + 99 = Z.of_nat (length eapol))%Z) /\
  24 <= length eapol - 99 /\ (length eapol - 99) mod 8 = 0 /\ length eapol - 99 - 8 <= scratch_len.
End Eapol.

(** What the code relies on in the crate: a parsed header lies in the buffer and
    holds the two frame-control bytes, the protected flag is bit 6 of the second
    one, and a CCMP header has eight bytes with the reserved byte zero and the
    extended-IV flag set for key id zero.  A payload is read without a panic if the
    frame is not protected or has a valid CCMP header, and a key frame is decoded
    without one if its lengths are exact and its key data is whole.  A decoded GTK has a
    two-bit id. *)
Class Ieee80211Laws `{Ieee80211} : Prop := {
  header_in_buffer : forall buffer frame,
    parse_data_frame buffer = Some frame -> 2 <= length_in_bytes frame <= length buffer;
  protected_bit : forall buffer frame b,
    parse_data_frame buffer = Some frame -> buffer !! 1 = Some b ->
    protected frame = Z.testbit b 6;
  crypto_header_length : forall pn id bytes,
    crypto_header pn id = Some bytes -> length bytes = 8;
  crypto_header_flags : forall pn bytes,
    crypto_header pn 0 = Some bytes -> bytes !! 2 = Some 0%Z /\ bytes !! 3 = Some 0x20%Z;
  wrapped_payload_safe : forall buffer frame,
    parse_data_frame buffer = Some frame -> ccmp_header_ok frame = true ->
    potentially_wrapped_payload frame <> Panic;
  deserialize_safe : forall kck kek buffer n frame eapol,
    parse_data_frame buffer = Some frame -> protected frame = false ->
    df_payload frame = Some (EAPOL_LLC ++ eapol) -> key_data_in_bounds eapol n ->
    deserialize_eapol kck kek buffer n <> Panic;
  gtk_id_bits : forall kck kek buffer n key gtk id,
    deserialize_eapol kck kek buffer n = Done (Some key) -> first_gtk key = Some (gtk, id) ->
    (0 <= id < 4)%Z;
}.

Section EapolFacts.
Context `{Ieee80211}.
Implicit Types (buffer own bssid kck kek : list Z).

Lemma envelope_header_Done (eapol : list Z) group :
  exists ok, envelope_header_ok eapol group = Done ok /\ (ok = true -> 99 <= length eapol).
Proof.
  unfold envelope_header_ok. case_decide; [by exists false|]. read_bytes.
  repeat (case_decide; [by exists false|]). eexists. split; [done|lia].
Qed.

(** The envelope check never panics, and what it lets through is a complete
    EAPOL-Key frame whose two length fields are exact. *)
Lemma key_envelope_spec buffer own bssid group :
  exists r, key_envelope buffer own bssid group = Done r /\
    forall eapol, r = Some eapol ->
      99 <= length eapol /\
      exists frame, parse_data_frame buffer = Some frame /\
        address_1 frame = own /\ address_2 frame = bssid /\ from_ds frame = true /\
        to_ds frame = false /\ protected frame = false /\
        df_payload frame = Some (EAPOL_LLC ++ eapol).
Proof.
  unfold key_envelope. destruct (parse_data_frame buffer) as [frame|]; [|by eexists].
  destruct (_ || protected frame) eqn:Hflags; [by eexists|].
  rewrite !orb_false_iff, !bool_decide_eq_false, negb_false_iff in Hflags.
  destruct (df_payload frame) as [payload|] eqn:Hpay; [|by eexists].
  unfold get_range. case_decide as H8; [|by eexists].
  case_decide as Hllc; [by eexists|]. rewrite decide_True by lia. simpl in *.
  rewrite drop_0 in Hllc.
  rewrite (take_ge (drop 8 payload)) by (rewrite length_drop; lia).
  destruct (envelope_header_Done (drop 8 payload) group) as (ok & -> & Hok). simpl.
  destruct ok; simpl; [|by eexists]. specialize (Hok eq_refl). read_bytes.
  case_decide; [by eexists|]. eexists. split; [done|]. intros eapol [= <-].
  split; [done|]. exists frame. destruct Hflags as ((((H1 & H2) & H3) & H4) & H5).
  apply dec_stable in H1, H2. split_and!; try done.
  rewrite Hpay. f_equal. change (payload = EAPOL_LLC ++ drop 8 payload).
  by rewrite <- Hllc, take_drop.
Qed.

Lemma key_envelope_Done buffer own bssid group :
  exists r, key_envelope buffer own bssid group = Done r /\
    (forall eapol, r = Some eapol -> 99 <= length eapol).
Proof.
  destruct (key_envelope_spec buffer own bssid group) as (r & Hr & Hs).
  exists r. split; [done|]. intros eapol He. by apply Hs.
Qed.

Lemma copy_within_Done (l : list Z) a b d :
  a <= b -> b <= length l -> d + (b - a) <= length l ->
  exists l', copy_within l a b d = Done l' /\ length l' = length l.
Proof.
  intros Hab Hb Hd. unfold copy_within. rewrite slice_Done by lia. simpl.
  rewrite decide_True by done. eexists. split; [done|].
  rewrite !length_app, !length_take, !length_drop. lia.
Qed.

Lemma from_message_1_Done buffer own bssid :
  exists r, from_message_1 buffer own bssid = Done r.
Proof.
  unfold from_message_1, key_payload.
  destruct (key_envelope_Done buffer own bssid false) as ([eapol|] & -> & Hl); simpl; [|by eexists].
  specialize (Hl eapol eq_refl). read_bytes. case_decide; [by eexists|].
  rewrite !slice_Done by lia. by eexists.
Qed.

(** What the envelope check lets through has the lengths it states. *)
Lemma key_envelope_lengths buffer own bssid group eapol :
  key_envelope buffer own bssid group = Done (Some eapol) ->
  (exists b2 b3 b97 b98, eapol !! 2 = Some b2 /\ eapol !! 3 = Some b3 /\
     eapol !! 97 = Some b97 /\ eapol !! 98 = Some b98 /\
     (u16_be b2 b3 + 4 = Z.of_nat (length eapol) /\ u16_be b97 b98 + 99 = Z.of_nat (length eapol))%Z).
Proof.
  unfold key_envelope. intros He. destruct (parse_data_frame buffer) as [frame|]; [|done].
  destruct (_ || protected frame); [done|]. destruct (df_payload frame) as [payload|]; [|done].
  destruct (get_range payload 0 8); [|done]. case_decide; [done|].
  destruct (get_range payload 8 _) as [e|]; [|done].
  apply outcome_bind_Done in He as (ok & _ & He). destruct ok; [|done]. simpl in He.
  apply outcome_bind_Done in He as (b2 & H2 & He). apply outcome_bind_Done in He as (b3 & H3 & He).
  apply outcome_bind_Done in He as (b97 & H97 & He). apply outcome_bind_Done in He as (b98 & H98 & He).
  case_decide as Hl; [done|]. injection He as <-. unfold byte_at in *.
  apply expect_Done in H2, H3, H97, H98. exists b2, b3, b97, b98. split_and!; [done..|lia|lia].
Qed.

(** [normalize] panics only with the recognition of a key frame, and the length it returns
    is one of the buffer. *)
Lemma normalize_Done buffer own bssid :
  is_key_frame buffer <> Panic -> exists r, normalize buffer own bssid = Done r /\
    forall b n pn, r = Some (b, n, pn) -> n <= length b.
Proof.
  unfold normalize, is_key_frame. destruct (parse_data_frame buffer) as [frame|]; [|by eexists].
  destruct (_ || to_ds frame); [by eexists|].
  destruct (potentially_wrapped_payload frame) as [payload|]; [intros _|done].
  cbn [mbind outcome_bind mret outcome_ret]. destruct (negb _); [by eexists|].
  destruct payload as [[]|]; [eexists; split; [done|]| |by eexists].
  { by intros b n pn [= <- <- <-]. }
  unfold strip_ccmp, get_range. case_decide as Hlen; [|by eexists].
  assert (length (take (length_in_bytes frame + 8 - length_in_bytes frame)
    (drop (length_in_bytes frame) buffer)) = 8) as Hl
    by (rewrite length_take, length_drop; lia).
  read_bytes. case_decide; [by eexists|]. read_bytes. case_decide; [by eexists|].
  unfold copy_within. rewrite slice_Done by lia. simpl. rewrite decide_True by lia. simpl.
  match goal with |- context [byte_at ?l 1] => set (l1 := l) end.
  assert (length l1 = length buffer) as Hl1.
  { unfold l1. rewrite !length_app, !length_take, !length_drop. lia. }
  read_bytes. rewrite usize_sub_le by (rewrite length_insert; lia). simpl.
  eexists. split; [done|]. intros b' n p [= <- <- <-]. lia.
Qed.

(** A CCMP header that is not broken is enough for the recognition. *)
Lemma is_key_frame_Panic buffer :
  is_key_frame buffer = Panic ->
  exists frame, parse_data_frame buffer = Some frame /\ potentially_wrapped_payload frame = Panic.
Proof.
  unfold is_key_frame. destruct (parse_data_frame buffer) as [frame|]; [|done].
  destruct (potentially_wrapped_payload frame) eqn:Hp; [done|]. by exists frame.
Qed.

(** ** Replay counters *)

(** An accepted message's counter exceeds the stored one and replaces it; a
    rejected one changes nothing. *)
Lemma replay_accept_effect r buffer n kck kek gtk id own bssid res r' :
  replay_accept r buffer n kck kek gtk id own bssid = Done (res, r') ->
  match res with
  | Some c => (replay_counter r < c)%Z /\ r' = replay_advance r c
  | None => r' = r
  end.
Proof.
  unfold replay_accept. intros Ha. apply outcome_bind_Done in Ha as (key & _ & Ha).
  destruct key as [key|]; [|by injection Ha as <- <-]. case_decide; [by injection Ha as <- <-|].
  case_decide; injection Ha as <- <-; [done|]. split; [lia|done].
Qed.


(** The pending exchange as a machine over received frames. *)
Inductive initial_action : Type :=
| IMessage1 (buffer : list Z)
| IMessage3 (buffer : list Z) (scratch_len : nat) (kck kek : list Z).

Definition initial_step own bssid (h : InitialHandshake) (a : initial_action)
  : option (outcome (InitialHandshake * option Z)) :=
  match a with
  | IMessage1 buffer => Some (
      '(_, h) ← message_1_retry h buffer own bssid;
      mret (h, None))
  | IMessage3 buffer n kck kek => Some (
      '(key, h) ← message_3 h buffer n kck kek own bssid;
      mret (h, option_map m3_counter key))
  end.

Lemma initial_step_spec own bssid h a h' o :
  initial_step own bssid h a = Some (Done (h', o)) ->
  ih_authenticator_nonce h' = ih_authenticator_nonce h /\
  (ih_replay_counter h <= ih_replay_counter h')%Z /\
  (forall c, o = Some c -> (ih_replay_counter h < c)%Z /\ ih_replay_counter h' = c).
Proof.
  destruct a as [buffer|buffer n kck kek]; simpl; intros Hs; apply (inj Some) in Hs;
    apply outcome_bind_Done in Hs as ([r h1] & Hm & [= <- <-]);
    apply outcome_bind_Done in Hm as ([m|] & _ & Hm); try case_decide; injection Hm as <- <-;
    split_and!; simpl; try done; [lia|lia|].
  intros c [= <-]. split; [lia|done].
Qed.

(** ** Removing what was added *)

Lemma slice_app_middle (l1 l2 l3 : list Z) a b :
  a = length l1 -> b = length l1 + length l2 -> slice (l1 ++ l2 ++ l3) a b = Done l2.
Proof.
  intros -> ->. rewrite slice_Done by (rewrite ?length_app; lia).
  rewrite drop_app_length. f_equal.
  replace (length l1 + length l2 - length l1) with (length l2) by lia.
  apply take_app_length.
Qed.

(** Moving the tail of a buffer over a gap in front of it. *)
Lemma copy_within_down (h g t : list Z) :
  exists rest, copy_within (h ++ g ++ t) (length h + length g)
      (length (h ++ g ++ t)) (length h) = Done (h ++ t ++ rest) /\ length rest = length g.
Proof.
  unfold copy_within.
  rewrite slice_Done by (rewrite !length_app; lia).
  assert (drop (length h + length g) (h ++ g ++ t) = t) as ->.
  { rewrite app_assoc, <- length_app. apply drop_app_length. }
  rewrite (take_ge t) by (rewrite !length_app; lia). cbn [mbind outcome_bind].
  rewrite decide_True by (rewrite !length_app; lia).
  rewrite take_app_length. eexists. split; [done|].
  rewrite length_drop, !length_app. lia.
Qed.
End EapolFacts.

(** ** No bytes make the decoding panic *)

Section Decoding.
Context `{Ieee80211Laws}.
Implicit Types (buffer own bssid kck kek : list Z).

Lemma key_data_ok_spec a n :
  key_data_ok a n = true <-> 24 <= a /\ a mod 8 = 0 /\ a - 8 <= n.
Proof.
  unfold key_data_ok. rewrite negb_true_iff, !orb_false_iff, !bool_decide_eq_false. split; lia.
Qed.

(** A buffer that passes the envelope and the length checks is decoded. *)
Lemma deserialize_Done buffer own bssid group eapol kck kek n :
  key_envelope buffer own bssid group = Done (Some eapol) -> key_data_ok (length eapol - 99) n = true ->
  exists key, deserialize_eapol kck kek buffer n = Done key.
Proof.
  intros He Hok. destruct (key_envelope_spec buffer own bssid group) as (r & Hr & Hs).
  rewrite He in Hr. injection Hr as <-.
  destruct (Hs eapol eq_refl) as (Hlen & frame & Hp & _ & _ & _ & _ & Hprot & Hpay).
  apply key_envelope_lengths in He. apply key_data_ok_spec in Hok.
  pose proof (deserialize_safe kck kek buffer n frame eapol Hp Hprot Hpay) as Hd.
  destruct (deserialize_eapol kck kek buffer n) as [key|]; [by exists key|].
  destruct Hd; [|done]. split_and!; [done|exact He|apply Hok..].
Qed.

Lemma decrypt_message_3_Done buffer n kck kek own bssid :
  exists r, decrypt_message_3 buffer n kck kek own bssid = Done r.
Proof.
  unfold decrypt_message_3, key_payload.
  destruct (key_envelope_Done buffer own bssid false) as ([eapol|] & He & Hl); rewrite He; simpl; [|by eexists].
  specialize (Hl eapol eq_refl). rewrite usize_sub_le by lia. simpl. read_bytes.
  case_decide; [by eexists|]. destruct (key_data_ok _ _) eqn:Hok; [|by eexists]. simpl.
  destruct (deserialize_Done _ _ _ _ _ kck kek _ He Hok) as [key ->]. by eexists.
Qed.

Lemma decode_group_message_1_Done buffer n kck kek own bssid :
  exists r, decode_group_message_1 buffer n kck kek own bssid = Done r.
Proof.
  unfold decode_group_message_1, group_key_payload.
  destruct (key_envelope_Done buffer own bssid true) as ([eapol|] & He & Hl); rewrite He; simpl; [|by eexists].
  specialize (Hl eapol eq_refl). read_bytes. case_decide; [by eexists|].
  rewrite usize_sub_le by lia. simpl. destruct (key_data_ok _ _) eqn:Hok; [|by eexists]. simpl.
  rewrite !slice_Done by lia. simpl. case_decide; [by eexists|].
  destruct (deserialize_Done _ _ _ _ _ kck kek _ He Hok) as [key ->]. by eexists.
Qed.

Lemma replay_accept_Done r buffer n kck kek gtk id own bssid :
  exists res r', replay_accept r buffer n kck kek gtk id own bssid = Done (res, r').
Proof.
  unfold replay_accept. destruct (decrypt_message_3_Done buffer n kck kek own bssid) as [key ->].
  simpl. destruct key; [|by eexists _, _]. repeat case_decide; by eexists _, _.
Qed.

Lemma group_message_id buffer n kck kek own bssid msg :
  decode_group_message_1 buffer n kck kek own bssid = Done (Some msg) -> (0 <= g1_key_id msg < 4)%Z.
Proof.
  unfold decode_group_message_1. intros Hd. apply outcome_bind_Done in Hd as ([eapol|] & _ & Hd); [|done].
  apply outcome_bind_Done in Hd as (b5 & _ & Hd). apply outcome_bind_Done in Hd as (b6 & _ & Hd).
  case_decide; [done|]. apply outcome_bind_Done in Hd as (len & _ & Hd). destruct (negb _); [done|].
  apply outcome_bind_Done in Hd as (high & _ & Hd). case_decide; [done|].
  apply outcome_bind_Done in Hd as (rsc & _ & Hd). apply outcome_bind_Done in Hd as (decoded & Hk & Hd).
  injection Hd as Hd. apply bind_Some in Hd as (key & -> & Hd). apply bind_Some in Hd as ([gtk id] & Hg & [= <-]).
  unfold gtk_16 in Hg. apply bind_Some in Hg as ([gtk' id'] & Hf & Hg). case_decide; [|done].
  injection Hg as <- <-. by eapply gtk_id_bits.
Qed.

(** A buffer without a broken CCMP header is recognised without a panic. *)
Lemma is_key_frame_Done buffer : ccmp_ok buffer = true -> is_key_frame buffer <> Panic.
Proof.
  unfold ccmp_ok. intros Hok Hp. apply is_key_frame_Panic in Hp as (frame & Hf & Hp).
  rewrite Hf in Hok. by apply (wrapped_payload_safe buffer frame).
Qed.
End Decoding.

Section Framing.
Context `{Ieee80211Laws}.
Implicit Types (buffer h p s : list Z).

(** A buffer as header, payload and slack. *)
Lemma split_buffer buffer hl len :
  hl <= len -> len <= length buffer ->
  exists h p s, buffer = h ++ p ++ s /\ length h = hl /\ length h + length p = len.
Proof.
  intros Hh Hl. exists (take hl buffer), (drop hl (take len buffer)), (drop len buffer).
  rewrite length_drop, !length_take. split_and!; [|lia..].
  replace (take hl buffer) with (take hl (take len buffer))
    by (rewrite take_take; f_equal; lia).
  by rewrite app_assoc, take_drop, take_drop.
Qed.

(** Moving the payload up, then writing eight bytes in front of it. *)
Lemma insert_header h p s c :
  length c = 8 -> 8 <= length s ->
  exists buffer, copy_within (h ++ p ++ s) (length h) (length h + length p) (length h + 8) =
      Done buffer /\
    take (length h) buffer ++ c ++ drop (length h + 8) buffer = h ++ c ++ p ++ drop 8 s.
Proof.
  intros Hc Hs. unfold copy_within. rewrite (slice_app_middle h p s) by lia.
  cbn [mbind outcome_bind]. rewrite decide_True by (rewrite !length_app; lia).
  eexists. split; [done|]. f_equal.
  - rewrite take_app_le by (rewrite length_take, !length_app; lia).
    rewrite take_take, Nat.min_l by lia. apply take_app_length.
  - f_equal. rewrite drop_app_ge by (rewrite length_take, !length_app; lia).
    rewrite length_take, !length_app, Nat.min_l by lia.
    rewrite Nat.sub_diag, drop_0. f_equal.
    replace (length h + 8 + (length h + length p - length h))
      with (length (h ++ p) + 8) by (rewrite length_app; lia).
    rewrite app_assoc, drop_app_ge by lia. f_equal. lia.
Qed.

Lemma set_clear_protected b :
  Z.testbit b 6 = false -> Z.land (Z.lor b 0x40) (Z.lnot 0x40) = b.
Proof.
  intros Hb. apply Z.bits_inj'. intros n Hn.
  rewrite Z.land_spec, Z.lor_spec, Z.lnot_spec by done.
  change 0x40%Z with (2 ^ 6)%Z. rewrite Z.pow2_bits_eqb by lia.
  destruct (Z.eqb_spec 6 n) as [<-|]; [by rewrite Hb|].
  by rewrite orb_false_r, andb_true_r.
Qed.

(** No buffer makes [protect_eapol] panic. *)
Lemma protect_eapol_Done buffer len pn : exists r, protect_eapol buffer len pn = Done r.
Proof.
  unfold protect_eapol. case_decide; [by eexists|].
  destruct (checked_add 32 (Z.of_nat len) 16) as [total|] eqn:Ht; [|by eexists].
  apply checked_add_Some in Ht as [-> _]. case_decide as Hl; [by eexists|].
  unfold get_range. rewrite decide_True by lia. rewrite drop_0, Nat.sub_0_r.
  destruct (parse_data_frame (take len buffer)) as [frame|] eqn:Hp; [|by eexists].
  destruct (protected frame); [by eexists|]. apply header_in_buffer in Hp. rewrite length_take in Hp.
  destruct (copy_within_Done buffer (length_in_bytes frame) len (length_in_bytes frame + 8))
    as (b & -> & Hb); [lia..|]. cbn [mbind outcome_bind].
  destruct (crypto_header pn 0) as [c|] eqn:Hc; [|by eexists].
  apply crypto_header_length in Hc.
  set (b2 := take _ b ++ c ++ _). assert (length b2 = length buffer) as Hb2.
  { unfold b2. rewrite !length_app, length_take, length_drop. lia. }
  clearbody b2. destruct (byte_at_Done b2 1) as [b1 ->]; [lia|]. cbn [mbind outcome_bind].
  rewrite length_insert, decide_True by lia. by eexists.
Qed.

(** What [protect_eapol] leaves in the buffer. *)
Lemma protect_eapol_layout h p s frame pn c b1 :
  (pn <> 0 /\ pn <= MAX_PN)%Z -> parse_data_frame (h ++ p) = Some frame ->
  protected frame = false -> length_in_bytes frame = length h ->
  16 <= length s -> (Z.of_nat (length (h ++ p ++ s)) <= u_max 32)%Z ->
  crypto_header pn 0 = Some c -> h !! 1 = Some b1 ->
  protect_eapol (h ++ p ++ s) (length h + length p) pn =
    Done (Some ((<[1 := Z.lor b1 0x40]> h ++ c ++ p) ++ replicate 8 0%Z ++ drop 16 s,
                length h + length p + 16)).
Proof.
  intros Hpn Hparse Hprot Hhl Hs Hmax Hc Hb1.
  pose proof (crypto_header_length _ _ _ Hc) as Hcl.
  pose proof (lookup_lt_Some _ _ _ Hb1) as Hlt.
  unfold protect_eapol. rewrite decide_False by lia. rewrite !length_app in *.
  rewrite (proj2 (checked_add_Some _ _ _ (Z.of_nat (length h + length p) + 16)%Z)) by lia.
  rewrite decide_False by lia. unfold get_range.
  rewrite decide_True by (rewrite !length_app; lia).
  rewrite drop_0, Nat.sub_0_r, app_assoc, <- length_app, take_app_length, Hparse, Hprot, Hhl.
  rewrite <- app_assoc, length_app.
  destruct (insert_header h p s c Hcl) as (buffer & -> & Heq); [lia|].
  cbn [mbind outcome_bind]. rewrite Hc, Heq. unfold byte_at.
  rewrite lookup_app_l, Hb1 by done. cbn [expect mbind outcome_bind].
  rewrite insert_app_l by done.
  rewrite decide_True by (rewrite !length_app, length_insert, length_drop; lia).
  unfold mret, outcome_ret. do 3 f_equal.
  - replace (<[1 := Z.lor b1 0x40]> h ++ c ++ p ++ drop 8 s)
      with ((<[1 := Z.lor b1 0x40]> h ++ c ++ p) ++ drop 8 s) by (by rewrite <- !app_assoc).
    assert (length (<[1 := Z.lor b1 0x40]> h ++ c ++ p) = length h + length p + 8) as Hlen
      by (rewrite !length_app, length_insert; lia).
    rewrite <- Hlen at 1. rewrite take_app_length. f_equal. f_equal.
    rewrite drop_app_ge by lia. rewrite Hlen, drop_drop. f_equal. lia.
Qed.

(** And [strip_ccmp] on such a buffer. *)
Lemma strip_ccmp_layout h c p pn b1 :
  length c = 8 -> c !! 2 = Some 0%Z -> c !! 3 = Some 0x20%Z -> h !! 1 = Some b1 ->
  exists rest, strip_ccmp (h ++ c ++ p) (length h) pn =
    Done (Some (<[1 := Z.land b1 (Z.lnot 0x40)]> h ++ p ++ rest,
                length h + length p, Some pn)) /\ length rest = 8.
Proof.
  intros Hcl H2 H3 Hb1. pose proof (lookup_lt_Some _ _ _ Hb1) as Hlt.
  unfold strip_ccmp, get_range.
  rewrite decide_True by (rewrite !length_app; lia).
  replace (length h + 8 - length h) with (length c) by lia.
  rewrite drop_app_length, take_app_length. unfold byte_at. rewrite H2.
  cbn [expect mbind outcome_bind]. rewrite decide_False by lia. rewrite H3.
  cbn [expect mbind outcome_bind]. rewrite decide_False by lia. rewrite <- Hcl.
  destruct (copy_within_down h c p) as (rest & -> & Hrest).
  cbn [mbind outcome_bind]. rewrite lookup_app_l, Hb1 by done.
  cbn [expect mbind outcome_bind]. rewrite insert_app_l by done.
  rewrite usize_sub_le by (rewrite !length_app, length_insert; lia).
  cbn [mbind outcome_bind]. exists rest. split; [|lia].
  unfold mret, outcome_ret. do 4 f_equal.
  rewrite !length_app, length_insert. lia.
Qed.
End Framing.

(** ** Properties *)

Section DecodingProperties.
Context `{Ieee80211Laws}.
Implicit Types (buffer own bssid kck kek : list Z).

(** C29 No received bytes make the key-frame decoding panic, although the crate's decoder
    reaches unchecked slices: on any buffer the decoding of M1, M3 and G1 returns, every
    index and slice of the code is in range, and the decoder is called only on frames
    with exact lengths and whole key data, where it does not panic. *)
Theorem eapol_decoding_total buffer own bssid kck kek (scratch_len : nat) :
  (exists r, from_message_1 buffer own bssid = Done r) /\
  (exists r, decrypt_message_3 buffer scratch_len kck kek own bssid = Done r) /\
  (exists r, decode_group_message_1 buffer scratch_len kck kek own bssid = Done r).
Proof.
  split_and!; [apply from_message_1_Done|apply decrypt_message_3_Done|
               apply decode_group_message_1_Done].
Qed.
End DecodingProperties.

Section EapolProperties.
Context `{Ieee80211}.
Implicit Types (buffer own bssid kck kek : list Z).

(** C27 Each third message is used at most once in a pending exchange: over any
    sequence of received frames, the replay counters of the accepted M3s are
    strictly increasing and above the exchange's first counter, and the
    authenticator nonce never changes. *)
Theorem initial_counters_increase own bssid (h : InitialHandshake) acts h' os :
  run (initial_step own bssid) h acts = Some (Done (h', os)) ->
  ih_authenticator_nonce h' = ih_authenticator_nonce h /\
  StronglySorted Z.lt (ih_replay_counter h :: omap id os).
Proof.
  intros Hr. assert (ih_authenticator_nonce h' = ih_authenticator_nonce h /\
    StronglySorted Z.lt (ih_replay_counter h :: omap id os) /\
    Forall (fun c => c <= ih_replay_counter h')%Z (ih_replay_counter h :: omap id os)) as Hinv;
    [|tauto].
  revert Hr. apply (run_invariant (initial_step own bssid) (fun h' _ os =>
    ih_authenticator_nonce h' = ih_authenticator_nonce h /\
    StronglySorted Z.lt (ih_replay_counter h :: omap id os) /\
    Forall (fun c => c <= ih_replay_counter h')%Z (ih_replay_counter h :: omap id os))).
  { split_and!; [done|repeat constructor|by repeat constructor]. }
  clear. intros h1 acts os a h2 o (Hn & Hsort & Hall) Hs.
  rename h2 into h2', o into o'. apply initial_step_spec in Hs as (Hn' & Hle & Hc).
  rewrite omap_app, app_comm_cons.
  assert (Forall (fun c => c <= ih_replay_counter h2')%Z (ih_replay_counter h :: omap id os))
    as Hall' by (eapply Forall_impl; [exact Hall|simpl; lia]).
  destruct o' as [c|]; simpl; [|rewrite !app_nil_r; split_and!; [congruence|done|done]].
  destruct (Hc c eq_refl) as [Hlt <-]. split_and!; [congruence| |].
  - change (StronglySorted Z.lt ((ih_replay_counter h :: omap id os) ++ [ih_replay_counter h2'])).
    apply StronglySorted_app_2; [|done|repeat constructor].
    intros x1 x2 Hx1 Hx2. apply list_elem_of_singleton in Hx2 as ->.
    rewrite Forall_forall in Hall. specialize (Hall _ Hx1). simpl in Hall. lia.
  - change (Forall (fun c => c <= ih_replay_counter h2')%Z
      ((ih_replay_counter h :: omap id os) ++ [ih_replay_counter h2'])).
    apply Forall_app. split; [done|]. by apply Forall_singleton.
Qed.
End EapolProperties.

Section FramingProperties.
Context `{Ieee80211Laws}.

(** C30 CCMP framing is undone by [normalize]'s stripping: protecting an
    unprotected data frame of [len] bytes in a buffer with sixteen spare bytes
    succeeds with length [len + 16], and stripping the CCMP header from the
    result gives back the original frame bytes, flag included. *)
Theorem protect_strip_roundtrip buffer len pn frame c :
  (pn <> 0 /\ pn <= MAX_PN)%Z -> len + 16 <= length buffer ->
  (Z.of_nat (length buffer) <= u_max 32)%Z ->
  parse_data_frame (take len buffer) = Some frame -> protected frame = false ->
  crypto_header pn 0 = Some c ->
  exists buffer' stripped,
    protect_eapol buffer len pn = Done (Some (buffer', len + 16)) /\
    length buffer' = length buffer /\
    strip_ccmp (take (len + 16) buffer') (length_in_bytes frame) pn =
      Done (Some (stripped, len + 8, Some pn)) /\
    take len stripped = take len buffer.
Proof.
  intros Hpn Hlen Hmax Hparse Hprot Hc.
  pose proof (header_in_buffer _ _ Hparse) as Hh. rewrite length_take in Hh.
  destruct (split_buffer buffer (length_in_bytes frame) len) as (h & p & s & -> & Hhl & Hpl);
    [lia..|].
  rewrite app_assoc, <- Hpl, <- length_app, take_app_length in Hparse.
  rewrite !length_app in Hlen.
  destruct (lookup_lt_is_Some_2 h 1) as [b1 Hb1]; [lia|].
  assert (Z.testbit b1 6 = false) as Hbit.
  { rewrite <- (protected_bit _ _ b1 Hparse); [done|]. by rewrite lookup_app_l by lia. }
  pose proof (crypto_header_length _ _ _ Hc) as Hcl.
  destruct (crypto_header_flags _ _ Hc) as [Hc2 Hc3].
  pose proof (protect_eapol_layout h p s frame pn c b1 Hpn Hparse Hprot (eq_sym Hhl)) as Hlay.
  rewrite Hpl in Hlay. rewrite Hlay by (done || lia). clear Hlay.
  set (h1 := <[1 := Z.lor b1 0x40]> h).
  assert (length h1 = length h) as Hh1 by apply length_insert.
  destruct (strip_ccmp_layout h1 c (p ++ replicate 8 0%Z) pn (Z.lor b1 0x40) Hcl Hc2 Hc3)
    as (rest & Hstrip & Hrest); [apply list_lookup_insert_eq; lia|].
  eexists _, _. split; [done|]. split; [|split].
  - rewrite !length_app, Hh1, length_drop, length_replicate. lia.
  - replace ((h1 ++ c ++ p) ++ replicate 8 0%Z ++ drop 16 s)
      with ((h1 ++ c ++ p ++ replicate 8 0%Z) ++ drop 16 s) by (by rewrite <- !app_assoc).
    rewrite take_app_length' by (rewrite !length_app, length_replicate; lia).
    rewrite <- Hhl, <- Hh1, Hstrip. do 4 f_equal.
    rewrite length_app, length_replicate. lia.
  - unfold h1. rewrite list_insert_insert_eq, set_clear_protected by done.
    rewrite list_insert_id by done. rewrite <- !app_assoc, !(app_assoc h p).
    by rewrite !take_app_length' by (rewrite length_app; lia).
Qed.
End FramingProperties.

(** ** A concrete parser *)

(** Frames with a 24-byte header, whose payload panics if a CCMP header is truncated; the
    decoder reads the plain fields of an EAPOL frame behind header and LLC and finds
    an all-zero GTK with id 1, and panics if the key data is short or does not fit. *)
#[export] Instance plain_parser : Ieee80211 := {
  parse_data_frame := fun b =>
    let flags := default 0%Z (b !! 1) in
    if decide (24 <= length b) then Some {|
      address_1 := take 6 (drop 4 b); address_2 := take 6 (drop 10 b);
      destination_address := Some (take 6 (drop (if Z.testbit flags 0 then 16 else 4) b));
      source_address := if Z.testbit flags 1
        then if Z.testbit flags 0 then None else Some (take 6 (drop 16 b))
        else Some (take 6 (drop 10 b));
      from_ds := Z.testbit flags 1; to_ds := Z.testbit flags 0;
      protected := Z.testbit flags 6; length_in_bytes := 24;
      df_payload := Some (drop 24 b);
      potentially_wrapped_payload :=
        if Z.testbit flags 6
        then if decide (32 <= length b) then mret (Some (CryptoWrapped (Single (drop 32 b)) 1)) else Panic
        else mret (Some (Unwrapped (Single (drop 24 b)))) |}
    else None;
  deserialize_eapol := fun _ _ b n =>
    if decide (155 <= length b /\ length b - 139 <= n) then
      mret (Some (MkEapolKey (take 32 (drop 49 b)) (u64_be (take 8 (drop 41 b)))
              (Some (replicate 16 0%Z, 1%Z))))
    else Panic;
  MAX_PN := 2 ^ 48 - 1;
  crypto_header := fun pn id =>
    Some [pn mod 256; (pn / 256) mod 256; 0; 0x20 + 64 * id; (pn / 2 ^ 16) mod 256;
          (pn / 2 ^ 24) mod 256; (pn / 2 ^ 32) mod 256; (pn / 2 ^ 40) mod 256]%Z;
}.

#[export] Instance plain_parser_laws : Ieee80211Laws.
Proof.
  split.
  - simpl. intros b f Hp. case_decide; simplify_eq/=. lia.
  - simpl. intros b f x Hp Hx. rewrite Hx in Hp. by case_decide; simplify_eq/=.
  - by intros pn id bytes [= <-].
  - by intros pn bytes [= <-].
  - intros b f Hp. unfold parse_data_frame, plain_parser in Hp. case_decide; [|done]. apply (inj Some) in Hp as <-. unfold ccmp_header_ok.
    cbn [protected df_payload potentially_wrapped_payload]. unfold get_range. cbn [mbind option_bind mret outcome_ret].
    destruct (Z.testbit (default 0%Z (b !! 1)) 6); [|done]. rewrite length_drop.
    case_decide; [|done]. by rewrite decide_True by lia.
  - unfold parse_data_frame, deserialize_eapol, plain_parser. intros _ _ b n f eapol Hp _ Hpay (Hlen & _ & Hkey & _ & Hn). case_decide; [|done].
    injection Hp as <-. simpl in Hpay. injection Hpay as Hpay. apply (f_equal length) in Hpay.
    rewrite length_drop in Hpay. simpl in Hpay. by rewrite decide_True by lia.
  - intros kck kek b n key gtk id Hk Hg. simpl in Hk. case_decide; [|done].
    injection Hk as <-. injection Hg as _ <-. lia.
Qed.

(** An EAPOL-Key frame from the AP to us, with the given key information, replay
    counter and 24 bytes of key data. *)
Definition demo_own : list Z := replicate 6 1%Z.
Definition demo_bssid : list Z := replicate 6 2%Z.
Definition demo_key_frame (info_hi info_lo counter : Z) : list Z :=
  [0x08; 0x02; 0; 0]%Z ++ demo_own ++ demo_bssid ++ replicate 8 0%Z ++ EAPOL_LLC ++
  [2; 3; 0; 119; 2; info_hi; info_lo; 0; 16]%Z ++ replicate 7 0%Z ++ [counter] ++
  replicate 32 7%Z ++ replicate 48 0%Z ++ [0; 24]%Z ++ replicate 24 0%Z.

(** M3 with counter 5, a repetition of it, then M3 with counter 6. *)
Definition demo_initial : list initial_action :=
  [IMessage3 (demo_key_frame 0x13 0xca 5) 100 [] [];
   IMessage3 (demo_key_frame 0x13 0xca 5) 100 [] [];
   IMessage3 (demo_key_frame 0x13 0xca 6) 100 [] []].

(** ** Witnesses *)

Lemma initial_counters_increase_witness :
  StronglySorted Z.lt [4; 5; 6]%Z.
Proof.
  destruct (initial_counters_increase demo_own demo_bssid
    (MkInitialHandshake (replicate 32 7%Z) 4) demo_initial
    (MkInitialHandshake (replicate 32 7%Z) 6) [Some 5; None; Some 6]%Z) as [_ Hs];
    [vm_compute; reflexivity|exact Hs].
Defined.

(** M3 decodes with a large scratch buffer, and with one that its key data does not fit it is
    refused before the decoder, which panics on it. *)
Definition demo_message_3 : list Z := demo_key_frame 0x13 0xca 5.

Lemma eapol_decoding_total_witness :
  (exists r, decrypt_message_3 demo_message_3 4 [] [] demo_own demo_bssid = Done r) /\
  deserialize_eapol [] [] demo_message_3 4 = Panic /\
  exists r, decrypt_message_3 demo_message_3 100 [] [] demo_own demo_bssid = Done (Some r).
Proof.
  split; [|split; [vm_compute; reflexivity|eexists; vm_compute; reflexivity]].
  apply (eapol_decoding_total demo_message_3 demo_own demo_bssid [] [] 4).
Defined.

Lemma protect_strip_roundtrip_witness :
  let buffer := [0x08; 0x01]%Z ++ replicate 30 9%Z ++ replicate 16 0%Z in
  exists buffer' stripped,
    protect_eapol buffer 32 3 = Done (Some (buffer', 48)) /\
    strip_ccmp (take 48 buffer') 24 3 = Done (Some (stripped, 40, Some 3%Z)) /\
    take 32 stripped = take 32 buffer.
Proof.
  intros buffer. destruct (parse_data_frame (take 32 buffer)) as [frame|] eqn:Hf;
    [|discriminate Hf].
  assert (length_in_bytes frame = 24 /\ protected frame = false) as [Hl Hp]
    by (injection Hf as <-; split; reflexivity).
  destruct (protect_strip_roundtrip buffer 32 3 frame [3; 0; 0; 0x20; 0; 0; 0; 0]%Z)
    as (buffer' & stripped & Hpr & _ & Hs & Ht); try done; simpl; try lia.
  exists buffer', stripped. rewrite Hl in Hs. split; [exact Hpr|split; [exact Hs|exact Ht]].
Defined.
