(* ===== verification/Rsn.v ===== *)
(** * Keys of a WPA2 connection: foa_sta/src/rsn.rs, and their use in runner.rs

    The security associations with their packet-number counters, the key slots
    they are programmed into, and what the station does with a protected data
    frame, a key frame after the initial exchange, and a frame it sends.  The key
    derivation of the [ieee80211] crate and the driver's cipher parameters are the
    class [RsnCrypto]. *)
From S2P Require Import Prelude Bytes KeySlots Eapol.

Inductive KeyType : Type := Pairwise | Group.

Class RsnCrypto `{KeyHal} : Type := {
  AkmType : Type;
  CipherSuite : Type;
  (** The KCK, the KEK and the TK of a PTK. *)
  partition_ptk : list Z -> AkmType -> CipherSuite -> option (list Z * list Z * list Z);
  (** [CipherParameters::Ccmp] with a short key, its type, and the flags
      [mfp_enabled] and [spp_enabled]. *)
  ccmp : list Z -> KeyType -> bool -> bool -> CipherParameters;
}.

Section Rsn.
Context `{RsnCrypto} `{Ieee80211}.

(** ** Transient key security associations *)

(** [TransientKeySecurityAssociation]; the atomics are integers of 64 bits. *)
Record TKSA : Type := MkTKSA {
  tksa_key : list Z;
  tksa_key_id : Z;
  tksa_replay_counter : Z;
  tksa_packet_number : Z;
}.

Definition tksa_new (key : list Z) (key_id : Z) : TKSA := MkTKSA key key_id 0 1.

Definition with_receive_floor (t : TKSA) (floor : Z) : TKSA :=
  MkTKSA (tksa_key t) (tksa_key_id t) floor (tksa_packet_number t).

Definition tk (is_pairwise : bool) (t : TKSA) (akm : AkmType) (cipher : CipherSuite)
  : outcome (list Z) :=
  if is_pairwise
  then '(_, _, tk) ← expect (partition_ptk (tksa_key t) akm cipher); mret tk
  else mret (tksa_key t).

Definition next_packet_number (t : TKSA) : Z * TKSA :=
  (tksa_packet_number t,
   MkTKSA (tksa_key t) (tksa_key_id t) (tksa_replay_counter t)
     (wrapping 64 (tksa_packet_number t + 1))).

Definition update_and_validate_replay_counter (t : TKSA) (pn : Z) : bool * TKSA :=
  if decide (tksa_replay_counter t < pn)%Z
  then (true, with_receive_floor t pn) else (false, t).

(** ** Security associations and the state of the key slots *)

Record SecurityAssociations : Type := MkSecurityAssociations {
  ptksa : TKSA;
  group_keys : list (option TKSA);
  active_group_id : Z;
  akm_suite : AkmType;
  cipher_suite : CipherSuite;
}.

Implicit Types (sa : SecurityAssociations) (own bssid : list Z).

Definition pairwise_temporal_key sa : outcome (list Z) :=
  tk true (ptksa sa) (akm_suite sa) (cipher_suite sa).

Definition group_key sa (id : Z) : option TKSA := mjoin (group_keys sa !! Z.to_nat id).

Definition active_group_key sa : outcome TKSA := expect (group_key sa (active_group_id sa)).

Definition set_ptksa sa (t : TKSA) : SecurityAssociations :=
  MkSecurityAssociations t (group_keys sa) (active_group_id sa) (akm_suite sa) (cipher_suite sa).
Definition set_group_key sa (id : nat) (t : TKSA) : SecurityAssociations :=
  MkSecurityAssociations (ptksa sa) (<[id := Some t]> (group_keys sa)) (active_group_id sa)
    (akm_suite sa) (cipher_suite sa).
Definition set_active sa (id : Z) : SecurityAssociations :=
  MkSecurityAssociations (ptksa sa) (group_keys sa) id (akm_suite sa) (cipher_suite sa).

Record CryptoState : Type := MkCryptoState {
  message3_replay : Message3Replay;
  gtk_key_slots : list KeySlot;
  last_group_message : option GroupMessage1;
  group_request_counter : Z;
  ptk_key_slot : KeySlot;
  security_associations : SecurityAssociations;
}.

Implicit Types (st : CryptoState) (m : KeySlotManager).

Definition set_associations st sa : CryptoState :=
  MkCryptoState (message3_replay st) (gtk_key_slots st) (last_group_message st)
    (group_request_counter st) (ptk_key_slot st) sa.
Definition set_replay st (r : Message3Replay) : CryptoState :=
  MkCryptoState r (gtk_key_slots st) (last_group_message st) (group_request_counter st)
    (ptk_key_slot st) (security_associations st).
Definition set_request_counter st (n : Z) : CryptoState :=
  MkCryptoState (message3_replay st) (gtk_key_slots st) (last_group_message st) n
    (ptk_key_slot st) (security_associations st).

(** [set_key(..).unwrap()]. *)
Definition set_key_unwrap m (s : KeySlot) (id : Z) bssid (par : CipherParameters)
  : outcome KeySlotManager :=
  match set_key m s id bssid par with
  | (Ok _, m) => mret m
  | (Err _, _) => Panic
  end.

Definition program_group_key st m (id : Z) bssid : outcome KeySlotManager :=
  key ← expect (group_key (security_associations st) id);
  slot ← expect (gtk_key_slots st !! Z.to_nat id);
  set_key_unwrap m slot id bssid (ccmp (tksa_key key) Group false false).

Definition program_pairwise_key st m bssid : outcome KeySlotManager :=
  key ← pairwise_temporal_key (security_associations st);
  if decide (length key = 16)
  then set_key_unwrap m (ptk_key_slot st) 0 bssid (ccmp key Pairwise false false)
  else Panic.

Definition crypto_state_new m (gtk_slots : list KeySlot) (ptk_slot : KeySlot) bssid sa
  (replay : Message3Replay) : outcome (CryptoState * KeySlotManager) :=
  let st := MkCryptoState replay gtk_slots None 0 ptk_slot sa in
  m ← program_pairwise_key st m bssid;
  m ← program_group_key st m (active_group_id sa) bssid;
  mret (st, m).

(** The associations at the end of [do_4whs]: only the key of the third message is
    there; an id out of range panics. *)
Definition initial_associations (ptk gtk : TKSA) (akm : AkmType) (cipher : CipherSuite)
  : outcome SecurityAssociations :=
  let group_keys := replicate 4 None in
  if decide (Z.to_nat (tksa_key_id gtk) < length group_keys)
  then mret (MkSecurityAssociations ptk (<[Z.to_nat (tksa_key_id gtk) := Some gtk]> group_keys)
    (tksa_key_id gtk) akm cipher)
  else Panic.

(** The key of the message under another id. *)
Definition key_elsewhere sa (id : nat) (key : list Z) : bool :=
  existsb (fun '(other, k) => negb (bool_decide (other = id)) &&
             match k with Some k => bool_decide (tksa_key k = key) | None => false end)
    (imap pair (group_keys sa)).

Definition accept_group_message st m (message : GroupMessage1) bssid
  : outcome (option bool * CryptoState * KeySlotManager) :=
  let counter := replay_counter (message3_replay st) in
  if decide (g1_counter message < counter)%Z then mret (None, st, m)
  else if decide (g1_counter message = counter)
  then mret (if decide (last_group_message st = Some message) then Some false else None, st, m)
  else
    let sa := security_associations st in
    let id := Z.to_nat (g1_key_id message) in
    if decide (length (group_keys sa) <= id) then mret (None, st, m)
    else if key_elsewhere sa id (g1_key message) then mret (None, st, m)
    else
      let already_installed :=
        match group_key sa (g1_key_id message) with
        | Some key => bool_decide (tksa_key key = g1_key message)
        | None => false
        end in
      '(st, m) ← (
        if (already_installed : bool) then mret (st, m)
        else
          let st := set_associations st (set_group_key sa id
            (with_receive_floor (tksa_new (g1_key message) (g1_key_id message))
               (g1_rsc message))) in
          m ← program_group_key st m (g1_key_id message) bssid;
          mret (st, m));
      let sa := set_active (security_associations st) (g1_key_id message) in
      mret (Some (negb already_installed),
        MkCryptoState (replay_advance (message3_replay st) (g1_counter message))
          (gtk_key_slots st) (Some message) (group_request_counter st) (ptk_key_slot st) sa, m).

(** ** Received and sent frames (runner.rs) *)

(** The closure of [process_potentially_wrapped_payload]: it looks at the keys only
    for a protected payload. *)
Definition process_potentially_wrapped_payload st (is_group : bool) (key_id : Z)
  (payload : WrappedPayload) : option ReadPayload * CryptoState :=
  match payload with
  | Unwrapped payload => (Some payload, st)
  | CryptoWrapped payload pn =>
      let sa := security_associations st in
      let '(valid, sa) :=
        if is_group then
          match group_key sa key_id with
          | Some key =>
              let '(valid, key) := update_and_validate_replay_counter key pn in
              (valid, set_group_key sa (Z.to_nat key_id) key)
          | None => (false, sa)
          end
        else if decide (key_id = 0)%Z then
          let '(valid, key) := update_and_validate_replay_counter (ptksa sa) pn in
          (valid, set_ptksa sa key)
        else (false, sa) in
      (if (valid : bool) then Some payload else None, set_associations st sa)
  end.

(** The reply to a key frame: the KCK, the nonce, the counter, and whether it is a
    group message. *)
Definition reply : Type := list Z * list Z * Z * bool.

Definition to_16 (l : list Z) : option (list Z) := if decide (length l = 16) then Some l else None.

(** The closure of [request_group_rekey] (control.rs): the KCK and the counter of the next
    request; [None] changes nothing. *)
Definition next_group_request st : option (list Z * Z) * CryptoState :=
  let sa := security_associations st in
  match ('(kck, _, _) ← partition_ptk (tksa_key (ptksa sa)) (akm_suite sa) (cipher_suite sa);
         kck ← to_16 kck;
         next ← checked_add 64 (group_request_counter st) 1;
         Some (kck, next)) with
  | Some (kck, next) => (Some (kck, group_request_counter st), set_request_counter st next)
  | None => (None, st)
  end.

(** The part of the closure in [handle_eapol_retry] after the packet number check. *)
Definition answer_key_frame st m (bytes : list Z) (scratch_len : nat) (kck kek : list Z)
  own bssid : outcome (option reply * CryptoState * KeySlotManager) :=
  payload ← group_key_payload bytes own bssid;
  is_group ← match payload with
    | Some key => b5 ← byte_at key 5; b6 ← byte_at key 6; mret (bool_decide (u16_be b5 b6 = 0x1382)%Z)
    | None => mret false
    end;
  if (is_group : bool) then
    message ← decode_group_message_1 bytes scratch_len kck kek own bssid;
    match message with
    | None => mret (None, st, m)
    | Some message =>
        '(installed, st, m) ← accept_group_message st m message bssid;
        match installed with
        | None => mret (None, st, m)
        | Some _ => mret (Some (kck, replicate 32 0%Z, g1_counter message, true), st, m)
        end
    end
  else
    gtk ← active_group_key (security_associations st);
    '(counter, r) ← replay_accept (message3_replay st) bytes scratch_len kck kek
      (tksa_key gtk) (tksa_key_id gtk) own bssid;
    match counter with
    | None => mret (None, set_replay st r, m)
    | Some counter =>
        mret (Some (kck, supplicant_nonce r, counter, false), set_replay st r, m)
    end.

(** [handle_eapol_retry] up to the transmission of the reply. *)
Definition handle_eapol_retry st m (buffer : list Z) (scratch_len : nat) own bssid
  : outcome (option reply * CryptoState * KeySlotManager) :=
  frame ← normalize buffer own bssid;
  match frame with
  | None => mret (None, st, m)
  | Some (buffer, len, packet_number) =>
      let sa := security_associations st in
      match ('(kck, kek, _) ← partition_ptk (tksa_key (ptksa sa)) (akm_suite sa) (cipher_suite sa);
             kck ← to_16 kck; kek ← to_16 kek; Some (kck, kek)) with
      | None => mret (None, st, m)
      | Some (kck, kek) =>
          let '(valid, st) :=
            match packet_number with
            | Some pn =>
                let '(valid, key) := update_and_validate_replay_counter (ptksa sa) pn in
                (valid, set_associations st (set_ptksa sa key))
            | None => (true, st)
            end in
          if negb (valid : bool) then mret (None, st, m)
          else
            bytes ← slice buffer 0 len;
            answer_key_frame st m bytes scratch_len kck kek own bssid
      end
  end.

(** The crypto parameters of a sent frame: packet number, key id and hardware key
    slot. *)
Definition tx_crypto_info st : (Z * Z * nat) * CryptoState :=
  let '(pn, key) := next_packet_number (ptksa (security_associations st)) in
  ((pn, tksa_key_id key, key_slot_index (ptk_key_slot st)),
   set_associations st (set_ptksa (security_associations st) key)).

(** ** The keys as a state machine *)

Inductive rsn_action : Type :=
| RData (is_group : bool) (key_id : Z) (payload : WrappedPayload)
| RKeyFrame (buffer : list Z) (scratch_len : nat)
| RSend.

Inductive rsn_output : Type :=
| RODelivered (payload : option ReadPayload)
| ROReply (r : option reply)
| ROSent (info : Z * Z * nat).

Definition rsn_step own bssid (s : CryptoState * KeySlotManager) (a : rsn_action)
  : option (outcome ((CryptoState * KeySlotManager) * rsn_output)) :=
  let '(st, m) := s in
  Some match a with
  | RData is_group key_id payload =>
      let '(p, st) := process_potentially_wrapped_payload st is_group key_id payload in
      mret ((st, m), RODelivered p)
  | RKeyFrame buffer scratch_len =>
      '(r, st, m) ← handle_eapol_retry st m buffer scratch_len own bssid;
      mret ((st, m), ROReply r)
  | RSend => let '(info, st) := tx_crypto_info st in mret ((st, m), ROSent info)
  end.
End Rsn.

(** ** Facts *)

(** A key of the connection: the pairwise one, or the group key of an id. *)
Inductive key_ref : Type := KPair | KGroup (i : nat).

#[export] Instance key_ref_eq_dec : EqDecision key_ref.
Proof. solve_decision. Defined.

Section RsnFacts.
Context `{RsnCrypto} `{Ieee80211}.
Implicit Types (sa : SecurityAssociations) (own bssid : list Z) (st : CryptoState)
  (m : KeySlotManager) (r : key_ref) (s : CryptoState * KeySlotManager).

Definition assoc sa r : option TKSA :=
  match r with
  | KPair => Some (ptksa sa)
  | KGroup i => mjoin (group_keys sa !! i)
  end.
Definition assoc_of s r : option TKSA := assoc (security_associations s.1) r.
Definition key_of s r : option (list Z) := tksa_key <$> assoc_of s r.
(** The largest packet number received, or the floor the key was installed with. *)
Definition floor_of s r : Z := default 0%Z (tksa_replay_counter <$> assoc_of s r).
Definition counter_of s : Z := replay_counter (message3_replay s.1).

Lemma assoc_set_group_key sa i t r :
  i < length (group_keys sa) ->
  assoc (set_group_key sa i t) r = if decide (r = KGroup i) then Some t else assoc sa r.
Proof.
  intros Hi. destruct r as [|j]; simpl; [done|]. case_decide as Hj.
  - simplify_eq. by rewrite list_lookup_insert_eq.
  - rewrite list_lookup_insert_ne; [done|congruence].
Qed.

Lemma assoc_set_ptksa sa t r :
  assoc (set_ptksa sa t) r = if decide (r = KPair) then Some t else assoc sa r.
Proof. by destruct r. Qed.

Lemma group_key_lt sa id t : group_key sa id = Some t -> Z.to_nat id < length (group_keys sa).
Proof.
  unfold group_key. destruct (group_keys sa !! Z.to_nat id) eqn:Hl; [|done].
  intros _. by eapply lookup_lt_Some.
Qed.

(** [update_and_validate_replay_counter] accepts exactly the larger packet numbers
    and stores them. *)
Lemma update_spec t pn :
  let '(ok, t') := update_and_validate_replay_counter t pn in
  (ok = true <-> (tksa_replay_counter t < pn)%Z) /\ tksa_key t' = tksa_key t /\
  tksa_replay_counter t' = (if (ok : bool) then pn else tksa_replay_counter t) /\
  tksa_packet_number t' = tksa_packet_number t /\ tksa_key_id t' = tksa_key_id t.
Proof.
  unfold update_and_validate_replay_counter. by case_decide.
Qed.

Lemma key_elsewhere_false sa id key :
  key_elsewhere sa id key = false <->
  forall j t, assoc sa (KGroup j) = Some t -> j <> id -> tksa_key t <> key.
Proof.
  unfold key_elsewhere. rewrite <- not_true_iff_false, existsb_exists. simpl. split.
  - intros Hno j t Ht Hj Hk. apply Hno.
    destruct (group_keys sa !! j) as [k|] eqn:Hl; simplify_eq/=.
    exists (j, Some t). split.
    + apply list_elem_of_In, elem_of_lookup_imap. eauto.
    + by rewrite bool_decide_false, bool_decide_true by done.
  - intros Hno ([j k] & Hin%list_elem_of_In & Hb).
    apply elem_of_lookup_imap in Hin as (j' & k' & Heq & Hl). simplify_eq.
    apply andb_true_iff in Hb as [Hj Hk]. destruct k' as [t|]; [|done].
    apply negb_true_iff, bool_decide_eq_false in Hj. apply bool_decide_eq_true in Hk.
    apply (Hno j' t); [by rewrite Hl|done..].
Qed.

(** What accepting a group message does: nothing, or only the counter and the active
    id change, or a key none of the ids has is programmed under its id. *)
Lemma accept_group_message_cases st m msg bssid res st' m' :
  accept_group_message st m msg bssid = Done (res, st', m') ->
  (st' = st /\ m' = m /\ (res = None \/ res = Some false)) \/
  (counter_of (st, m) < g1_counter msg /\ counter_of (st', m') = g1_counter msg /\
   ptk_key_slot st' = ptk_key_slot st /\ gtk_key_slots st' = gtk_key_slots st /\
   active_group_id (security_associations st') = g1_key_id msg /\
   ((res = Some false /\ m' = m /\ (forall r, assoc_of (st', m') r = assoc_of (st, m) r) /\
     key_of (st, m) (KGroup (Z.to_nat (g1_key_id msg))) = Some (g1_key msg) /\
     length (group_keys (security_associations st')) =
       length (group_keys (security_associations st))) \/
    (res = Some true /\
     (forall j, key_of (st, m) (KGroup j) <> Some (g1_key msg)) /\
     (forall r, assoc_of (st', m') r =
        if decide (r = KGroup (Z.to_nat (g1_key_id msg)))
        then Some (MkTKSA (g1_key msg) (g1_key_id msg) (g1_rsc msg) 1)
        else assoc_of (st, m) r) /\
     (exists slot, gtk_key_slots st !! Z.to_nat (g1_key_id msg) = Some slot /\
        set_key_unwrap m slot (g1_key_id msg) bssid (ccmp (g1_key msg) Group false false) =
          Done m') /\
     length (group_keys (security_associations st')) =
       length (group_keys (security_associations st)))))%Z.
Proof.
  unfold accept_group_message. case_decide as Hlow; [intros [= <- <- <-]; by left; auto|].
  case_decide as Heq; [intros [= <- <- <-]; left; case_decide; by auto|].
  case_decide as Hid; [intros [= <- <- <-]; by left; auto|].
  destruct (key_elsewhere _ _ _) eqn:Helse; [intros [= <- <- <-]; by left; auto|].
  rewrite key_elsewhere_false in Helse. apply not_le in Hid.
  intros Hacc. right. apply outcome_bind_Done in Hacc as ([st1 m1] & Hinst & Hacc).
  injection Hacc as <- <- <-. unfold counter_of in *. simpl.
  assert (key_of (st, m) (KGroup (Z.to_nat (g1_key_id msg))) =
    tksa_key <$> group_key (security_associations st) (g1_key_id msg)) as Hko by done.
  destruct (group_key _ _) as [t|] eqn:Hg; [destruct (bool_decide _) eqn:Hsame|];
    [injection Hinst as <- <-; split_and!; try (done || lia); left|..].
  { apply bool_decide_eq_true in Hsame. split_and!; try done.
    rewrite Hko. simpl. by f_equal. }
  all: apply outcome_bind_Done in Hinst as (m2 & Hprog & Hinst); injection Hinst as <- <-.
  all: unfold program_group_key in Hprog; simpl in Hprog.
  all: apply outcome_bind_Done in Hprog as (t' & Ht' & Hprog).
  all: apply outcome_bind_Done in Hprog as (slot & Hslot & Hprog).
  all: apply expect_Done in Ht', Hslot.
  all: unfold group_key in Ht'; simpl in Ht'; rewrite list_lookup_insert_eq in Ht' by done.
  all: injection Ht' as <-; simpl in *; split_and!; try (done || lia); right.
  all: split_and!; [done|intros j Hj; unfold key_of, assoc_of in Hj
    |intros r; exact (assoc_set_group_key _ _ _ r Hid)|by eauto|by rewrite length_insert].
  all: apply fmap_Some in Hj as (tj & Htj & Hkj).
  all: destruct (decide (j = Z.to_nat (g1_key_id msg))) as [->|Hne]; [|by eapply Helse].
  - apply bool_decide_eq_false in Hsame. unfold group_key in Hg. simpl in Htj. congruence.
  - unfold group_key in Hg. simpl in Htj. congruence.
Qed.
(** The group key of an id is replaced by one that no id had, in an exchange newer
    than the last one, and programmed into its slot; all else stays. *)
Definition installs s s' bssid (counter : Z) (i : nat) (key : list Z) : Prop :=
  (counter_of s < counter)%Z /\ counter_of s' = counter /\
  (forall j, key_of s (KGroup j) <> Some key) /\
  exists id rsc slot, Z.to_nat id = i /\
    (forall r, assoc_of s' r =
       if decide (r = KGroup i) then Some (MkTKSA key id rsc 1) else assoc_of s r) /\
    gtk_key_slots s.1 !! i = Some slot /\
    set_key_unwrap s.2 slot id bssid (ccmp key Group false false) = Done s'.2.

(** As many slots as keys, the active key is there, and no key has two ids. *)
Record rsn_inv s : Prop := {
  ri_slots : length (gtk_key_slots s.1) = length (group_keys (security_associations s.1));
  ri_active : is_Some
    (assoc_of s (KGroup (Z.to_nat (active_group_id (security_associations s.1)))));
  ri_distinct : forall i j key,
    key_of s (KGroup i) = Some key -> key_of s (KGroup j) = Some key -> i = j;
}.

Lemma rsn_inv_same s s' :
  rsn_inv s -> gtk_key_slots s'.1 = gtk_key_slots s.1 ->
  length (group_keys (security_associations s'.1)) =
    length (group_keys (security_associations s.1)) ->
  (forall r, key_of s' r = key_of s r) ->
  active_group_id (security_associations s'.1) = active_group_id (security_associations s.1) ->
  rsn_inv s'.
Proof.
  intros [Hsl Hac Hd] Hg Hl Hk Ha. split; [congruence| |].
  - rewrite Ha, <- (fmap_is_Some tksa_key). change (is_Some (key_of s'
      (KGroup (Z.to_nat (active_group_id (security_associations s.1)))))).
    rewrite Hk. by apply fmap_is_Some.
  - intros i j key. rewrite !Hk. apply Hd.
Qed.

Lemma accept_group_message_inv st m msg bssid res st' m' :
  accept_group_message st m msg bssid = Done (res, st', m') ->
  rsn_inv (st, m) -> rsn_inv (st', m').
Proof.
  intros Hacc Hinv. apply accept_group_message_cases in Hacc
    as [(-> & -> & _)|(_ & _ & _ & Hsl & Hact & [(_ & -> & Has & Hk & Hl)|
        (_ & Hnew & Has & _ & Hl)])]; [done| |]; destruct Hinv as [Hslots Hactive Hdist].
  - assert (forall r, key_of (st', m) r = key_of (st, m) r) as Hks
      by (intros r; unfold key_of; by rewrite Has).
    split; cbn [fst snd] in *; [congruence| |].
    + rewrite Hact, Has. unfold key_of in Hk. by eapply fmap_is_Some, mk_is_Some.
    + intros i j key. rewrite !Hks. apply Hdist.
  - split; cbn [fst snd] in *; [congruence| |].
    + rewrite Hact, Has, decide_True by done. by eexists.
    + intros i j key. unfold key_of. rewrite !Has.
      case_decide; case_decide; simplify_eq/=; try done.
      * intros [= <-] Hj. by destruct (Hnew j).
      * intros Hi [= <-]. by destruct (Hnew i).
      * apply Hdist.
Qed.

Lemma accept_group_message_effect st m msg bssid res st' m' :
  accept_group_message st m msg bssid = Done (res, st', m') ->
  (m' = m /\ (forall r, assoc_of (st', m') r = assoc_of (st, m) r) /\
   (counter_of (st, m) <= counter_of (st', m'))%Z) \/
  (res = Some true /\
   installs (st, m) (st', m') bssid (g1_counter msg) (Z.to_nat (g1_key_id msg)) (g1_key msg)).
Proof.
  intros Hacc. apply accept_group_message_cases in Hacc
    as [(-> & -> & _)|(Hlt & Hc & _ & Hsl & Hact & [(_ & -> & Has & _)|
        (-> & Hnew & Has & (slot & Hslot & Hset) & Hl)])]; [by left| |].
  - left. split_and!; [done|done|lia].
  - right. split; [done|]. split_and!; try done.
    exists (g1_key_id msg), (g1_rsc msg), slot. by split_and!.
Qed.
(** The reply to a key frame, and whether it may change keys. *)
Lemma answer_key_frame_effect st m bytes n kck kek own bssid res st' m' :
  answer_key_frame st m bytes n kck kek own bssid = Done (res, st', m') ->
  (rsn_inv (st, m) -> rsn_inv (st', m')) /\ ptk_key_slot st' = ptk_key_slot st /\
  ((m' = m /\ (forall r, assoc_of (st', m') r = assoc_of (st, m) r) /\
    (counter_of (st, m) <= counter_of (st', m'))%Z) \/
   exists counter i key, res = Some (kck, replicate 32 0%Z, counter, true) /\
     installs (st, m) (st', m') bssid counter i key).
Proof.
  unfold answer_key_frame. intros Ha.
  apply outcome_bind_Done in Ha as (payload & _ & Ha).
  apply outcome_bind_Done in Ha as (is_group & _ & Ha). destruct is_group.
  - apply outcome_bind_Done in Ha as ([msg|] & _ & Ha);
      [|injection Ha as <- <- <-; split_and!; [done|done|left; by split_and!]].
    apply outcome_bind_Done in Ha as ([[inst st1] m1] & Hacc & Ha).
    pose proof (accept_group_message_inv _ _ _ _ _ _ _ Hacc) as Hinv.
    assert (ptk_key_slot st1 = ptk_key_slot st) as Hps
      by (apply accept_group_message_cases in Hacc as [(-> & _)|(_ & _ & ? & _)]; done).
    apply accept_group_message_effect in Hacc.
    destruct inst as [b|]; injection Ha as <- <- <-; (split_and!; [done|done|]);
      destruct Hacc as [Hk|[Hres Hinst]]; try done; [by left| |by left].
    right. by eexists _, _, _.
  - apply outcome_bind_Done in Ha as (gtk & _ & Ha).
    apply outcome_bind_Done in Ha as ([c r'] & Hrep & Ha).
    apply replay_accept_effect in Hrep as Hc.
    assert (st' = set_replay st r' /\ m' = m) as [-> ->]
      by (destruct c; by injection Ha as _ <- <-).
    split_and!; [intros Hi; by apply (rsn_inv_same (st, m))|done|]. left. split_and!; [done..|].
    unfold counter_of. simpl. destruct c; [destruct Hc as [Hlt ->]; simpl; lia|subst; lia].
Qed.

(** The packet number of a received key frame. *)
Definition frame_pn own bssid (buffer : list Z) : option Z :=
  match normalize buffer own bssid with Done (Some (_, _, pn)) => pn | _ => None end.

(** The state after the packet number check. *)
Definition count_pn st (pn : option Z) : CryptoState :=
  match pn with
  | Some pn => set_associations st (set_ptksa (security_associations st)
                 (with_receive_floor (ptksa (security_associations st)) pn))
  | None => st
  end.

Lemma count_pn_assoc st m pn r :
  assoc_of (count_pn st pn, m) r =
  match pn with
  | Some pn => if decide (r = KPair)
      then Some (with_receive_floor (ptksa (security_associations st)) pn)
      else assoc_of (st, m) r
  | None => assoc_of (st, m) r
  end.
Proof. destruct pn; [by apply assoc_set_ptksa|done]. Qed.

Lemma count_pn_key st m pn r : key_of (count_pn st pn, m) r = key_of (st, m) r.
Proof.
  unfold key_of. rewrite count_pn_assoc. destruct pn; [|done]. case_decide; by subst.
Qed.

(** A key frame is dropped, or its packet number is new and counted, and the frame
    is answered. *)
Lemma handle_eapol_retry_cases st m buffer n own bssid res st' m' :
  handle_eapol_retry st m buffer n own bssid = Done (res, st', m') ->
  (res = None /\ st' = st /\ m' = m) \/
  (forall pn, frame_pn own bssid buffer = Some pn -> floor_of (st, m) KPair < pn)%Z /\
  exists bytes kck kek,
    answer_key_frame (count_pn st (frame_pn own bssid buffer)) m bytes n kck kek own bssid =
      Done (res, st', m').
Proof.
  unfold handle_eapol_retry, frame_pn. intros Ha.
  apply outcome_bind_Done in Ha as ([[[b len] pno]|] & Hnorm & Ha); rewrite Hnorm;
    [|injection Ha as <- <- <-; by left].
  cbv zeta in Ha. destruct (partition_ptk _ _ _ ≫= _) as [[kck kek]|];
    [|injection Ha as <- <- <-; by left].
  destruct pno as [pn|].
  - unfold update_and_validate_replay_counter in Ha. case_decide as Hlt; simpl in Ha;
      [|injection Ha as <- <- <-; left; by destruct st as [? ? ? ? ? []]].
    right. split; [intros ? [= <-]; done|].
    apply outcome_bind_Done in Ha as (bytes & _ & Ha). by eexists _, _, _.
  - right. split; [done|]. simpl in Ha.
    apply outcome_bind_Done in Ha as (bytes & _ & Ha). by eexists _, _, _.
Qed.

(** The packet number accepted under key [r] by a step. *)
Definition accepted own bssid r (step : rsn_action * rsn_output) : option Z :=
  match step with
  | (RData is_group key_id (CryptoWrapped _ pn), RODelivered (Some _)) =>
      if decide (r = if (is_group : bool) then KGroup (Z.to_nat key_id) else KPair)
      then Some pn else None
  | (RKeyFrame buffer _, ROReply (Some _)) =>
      if decide (r = KPair) then frame_pn own bssid buffer else None
  | _ => None
  end.

Definition process_effect st m is_group key_id payload : Prop :=
  let '(p, st') := process_potentially_wrapped_payload st is_group key_id payload in
  (forall r, key_of (st', m) r = key_of (st, m) r) /\
  counter_of (st', m) = counter_of (st, m) /\
  (rsn_inv (st, m) -> rsn_inv (st', m)) /\
  forall r, match accepted [] [] r (RData is_group key_id payload, RODelivered p) with
            | Some pn => floor_of (st, m) r < pn /\ floor_of (st', m) r = pn
            | None => floor_of (st', m) r = floor_of (st, m) r
            end%Z.

Lemma process_effect_holds st m is_group key_id payload :
  process_effect st m is_group key_id payload.
Proof.
  unfold process_effect.
  destruct payload as [payload|payload pn]; simpl; [done|].
  destruct is_group; [destruct (group_key _ key_id) as [t|] eqn:Hg|case_decide].
  2, 4: simpl; split_and!; try done; intros Hi; by apply (rsn_inv_same (st, m)).
  - pose proof (group_key_lt _ _ _ Hg) as Hlt.
    pose proof (update_spec t pn) as Hu.
    destruct (update_and_validate_replay_counter t pn) as [ok t'].
    destruct Hu as (Hok & Hkey & Hfl & _). simpl.
    assert (forall r, assoc_of (set_associations st (set_group_key (security_associations st)
      (Z.to_nat key_id) t'), m) r = if decide (r = KGroup (Z.to_nat key_id)) then Some t'
      else assoc_of (st, m) r) as Has by (intros r; by apply assoc_set_group_key).
    assert (forall r, r = KGroup (Z.to_nat key_id) -> assoc_of (st, m) r = Some t) as Hold
      by (intros r ->; exact Hg).
    split_and!.
    + intros r. unfold key_of. rewrite Has. case_decide as Hr; [|done].
      rewrite (Hold r Hr). simpl. by rewrite Hkey.
    + done.
    + intros Hi. apply (rsn_inv_same (st, m)); try done; [simpl; by rewrite length_insert|].
      intros r. unfold key_of. rewrite Has. case_decide as Hr; [|done].
      rewrite (Hold r Hr). simpl. by rewrite Hkey.
    + intros r. unfold floor_of. rewrite Has. case_decide as Hr.
      * rewrite (Hold r Hr). simpl. rewrite Hfl. destruct ok; [|done].
        by split; [apply Hok|].
      * by destruct ok.
  - pose proof (update_spec (ptksa (security_associations st)) pn) as Hu.
    destruct (update_and_validate_replay_counter _ pn) as [ok t'].
    destruct Hu as (Hok & Hkey & Hfl & _). simpl.
    assert (forall r, key_of (set_associations st (set_ptksa (security_associations st) t'), m) r =
      key_of (st, m) r) as Hks.
    { intros r. unfold key_of, assoc_of. cbn [fst security_associations set_associations].
      rewrite assoc_set_ptksa. case_decide as Hr; [|done]. subst r. simpl. by rewrite Hkey. }
    split_and!; [done|done|intros Hi; by apply (rsn_inv_same (st, m))|].
    intros r. unfold floor_of, assoc_of. cbn [fst security_associations set_associations].
    rewrite assoc_set_ptksa. case_decide as Hr.
    + subst r. simpl. rewrite Hfl. destruct ok; [|done]. by split; [apply Hok|].
    + by destruct ok.
Qed.
(** The keys and the key memory stay as they are. *)
Definition keys_kept s s' : Prop :=
  s'.2 = s.2 /\ (forall r, key_of s' r = key_of s r) /\ (counter_of s <= counter_of s')%Z.

(** One id gets a key that no id had, in an exchange newer than the last one; the
    key memory changes only by programming it. *)
Definition key_replaced s s' bssid (counter : Z) (i : nat) (key : list Z) : Prop :=
  (counter_of s < counter)%Z /\ counter_of s' = counter /\
  (forall j, key_of s (KGroup j) <> Some key) /\
  (forall r, key_of s' r = if decide (r = KGroup i) then Some key else key_of s r) /\
  exists id slot, Z.to_nat id = i /\ gtk_key_slots s.1 !! i = Some slot /\
    set_key_unwrap s.2 slot id bssid (ccmp key Group false false) = Done s'.2.

Lemma rsn_inv_count_pn st m pn : rsn_inv (st, m) -> rsn_inv (count_pn st pn, m).
Proof.
  intros Hi. apply (rsn_inv_same (st, m)); try done; [by destruct pn..| |by destruct pn].
  intros r. apply count_pn_key.
Qed.

Lemma counter_count_pn st m pn : counter_of (count_pn st pn, m) = counter_of (st, m).
Proof. by destruct pn. Qed.

Lemma installs_replaced st m pn s' bssid counter i key :
  installs (count_pn st pn, m) s' bssid counter i key ->
  key_replaced (st, m) s' bssid counter i key.
Proof.
  intros (Hlt & Hc & Hnew & id & rsc & slot & Hid & Has & Hslot & Hset).
  rewrite counter_count_pn in Hlt. split_and!; [done|done| | |].
  - intros j. rewrite <- (count_pn_key st m pn). apply Hnew.
  - intros r. unfold key_of at 1. rewrite Has. case_decide; [done|]. apply count_pn_key.
  - exists id, slot. split_and!; [done| |done]. by destruct pn.
Qed.

Lemma rsn_step_effect own bssid s a s' o :
  rsn_step own bssid s a = Some (Done (s', o)) ->
  (rsn_inv s -> rsn_inv s') /\
  (keys_kept s s' \/ exists kck counter i key,
     o = ROReply (Some (kck, replicate 32 0%Z, counter, true)) /\
     key_replaced s s' bssid counter i key).
Proof.
  destruct s as [st m], a as [is_group key_id payload|buffer n|]; simpl; intros Hs; apply (inj Some) in Hs.
  - pose proof (process_effect_holds st m is_group key_id payload) as He.
    unfold process_effect in He.
    destruct (process_potentially_wrapped_payload _ _ _ _) as [p st1].
    injection Hs as <- <-. destruct He as (Hk & Hc & Hi & _).
    split; [done|]. left. split_and!; [done|done|lia].
  - apply outcome_bind_Done in Hs as ([[res st1] m1] & Hh & Hs). injection Hs as <- <-.
    apply handle_eapol_retry_cases in Hh as [(-> & -> & ->)|(_ & bytes & kck & kek & Ha)].
    { split; [done|]. left. by split_and!. }
    apply answer_key_frame_effect in Ha as (Hi & _ & Heff).
    split; [intros Hinv; by apply Hi, rsn_inv_count_pn|].
    destruct Heff as [(-> & Has & Hc)|(counter & i & key & -> & Hin)].
    + left. rewrite counter_count_pn in Hc. split_and!; [done| |done].
      intros r. unfold key_of at 1. rewrite Has. apply count_pn_key.
    + right. exists kck, counter, i, key. split; [done|]. by eapply installs_replaced.
  - injection Hs as <- <-. split; [intros Hi; by apply (rsn_inv_same (st, m)); try done; intros []|].
    left. split_and!; [done|by intros []|done].
Qed.

(** A packet number is accepted under a key exactly above its floor, and becomes its
    floor; the floor of a key that stays never drops. *)
Lemma rsn_step_floor own bssid r s a s' o :
  rsn_step own bssid s a = Some (Done (s', o)) -> key_of s' r = key_of s r ->
  match accepted own bssid r (a, o) with
  | Some pn => floor_of s r < pn /\ floor_of s' r = pn
  | None => floor_of s r <= floor_of s' r
  end%Z.
Proof.
  destruct s as [st m], a as [is_group key_id payload|buffer n|]; simpl rsn_step; intros Hs Hkey; apply (inj Some) in Hs.
  - pose proof (process_effect_holds st m is_group key_id payload) as He.
    unfold process_effect in He.
    destruct (process_potentially_wrapped_payload _ _ _ _) as [p st1].
    injection Hs as <- <-. destruct He as (_ & _ & _ & He). specialize (He r).
    change (accepted own bssid r (RData is_group key_id payload, RODelivered p))
      with (accepted [] [] r (RData is_group key_id payload, RODelivered p)).
    destruct (accepted _ _ _ _); lia.
  - apply outcome_bind_Done in Hs as ([[res st1] m1] & Hh & Hs). injection Hs as <- <-.
    apply handle_eapol_retry_cases in Hh as [(-> & -> & ->)|(Hpn & bytes & kck & kek & Ha)];
      [simpl; lia|].
    apply answer_key_frame_effect in Ha as (_ & _ & Heff).
    assert (assoc_of (st1, m1) r = assoc_of (count_pn st (frame_pn own bssid buffer), m) r)
      as Has.
    { destruct Heff as [(_ & Has & _)|(counter & i & key & _ & Hin)]; [done|].
      destruct Hin as (_ & _ & Hnew & id & rsc & slot & _ & Has & _).
      rewrite Has. case_decide as Hr; [|done]. exfalso. apply (Hnew i).
      subst r. rewrite count_pn_key, <- Hkey. unfold key_of. by rewrite Has, decide_True. }
    assert (floor_of (st1, m1) r = match frame_pn own bssid buffer with
      | Some pn => if decide (r = KPair) then pn else floor_of (st, m) r
      | None => floor_of (st, m) r end) as ->.
    { unfold floor_of. rewrite Has, count_pn_assoc.
      destruct (frame_pn own bssid buffer); [by case_decide|done]. }
    simpl. destruct (frame_pn own bssid buffer) as [pn|].
    + specialize (Hpn pn eq_refl). destruct res; case_decide; subst; lia.
    + destruct res; [case_decide|]; lia.
  - injection Hs as <- <-. simpl. destruct r; unfold floor_of; simpl; lia.
Qed.

(** Only a driver that refuses a key makes a step panic. *)
Lemma set_key_unwrap_Panic m slot id bssid par :
  set_key_unwrap m slot id bssid par = Panic -> exists e, fst (set_key m slot id bssid par) = Err e.
Proof. unfold set_key_unwrap. destruct (set_key _ _ _ _ _) as [[[]|e] m']; [done|eauto]. Qed.

Lemma crypto_state_new_inv m slots ptk_slot bssid sa replay ptk gtk akm cipher st0 m0 :
  length slots = 4 -> initial_associations ptk gtk akm cipher = Done sa ->
  crypto_state_new m slots ptk_slot bssid sa replay = Done (st0, m0) ->
  rsn_inv (st0, m0) /\ counter_of (st0, m0) = replay_counter replay.
Proof.
  intros Hsl Hsa Hnew. unfold initial_associations in Hsa. case_decide as Hid; [|done].
  injection Hsa as <-. unfold crypto_state_new in Hnew.
  apply outcome_bind_Done in Hnew as (m1 & _ & Hnew).
  apply outcome_bind_Done in Hnew as (m2 & _ & Hnew). injection Hnew as <- <-.
  split; [|done]. set (i := Z.to_nat (tksa_key_id gtk)) in *.
  assert (forall j t, mjoin (<[i := Some gtk]> (replicate 4 None) !! j) = Some t -> j = i /\ t = gtk)
    as Honly.
  { intros j t Hj. destruct (decide (j = i)) as [->|Hne].
    - rewrite list_lookup_insert_eq in Hj by done. by injection Hj as <-.
    - rewrite list_lookup_insert_ne in Hj by done.
      destruct (replicate 4 None !! j) eqn:Hr; [|done].
      apply lookup_replicate_eq in Hr. by subst. }
  split; cbn [fst snd gtk_key_slots group_keys security_associations].
  - rewrite length_insert. exact Hsl.
  - exists gtk. change (mjoin (<[i := Some gtk]> (replicate 4 None) !! i) = Some gtk).
    by rewrite list_lookup_insert_eq.
  - intros j1 j2 key Hj1 Hj2. unfold key_of, assoc_of in *.
    apply fmap_Some in Hj1 as (t1 & Ht1 & _). apply fmap_Some in Hj2 as (t2 & Ht2 & _).
    apply Honly in Ht1 as [-> _]. by apply Honly in Ht2 as [-> _].
Qed.
(** ** Sent packet numbers *)

Definition sent (o : rsn_output) : option (Z * Z * nat) :=
  match o with ROSent info => Some info | _ => None end.

(** What a sent frame's parameters depend on. *)
Definition tx_state s : Z * Z * nat :=
  let t := ptksa (security_associations s.1) in
  (tksa_packet_number t, tksa_key_id t, key_slot_index (ptk_key_slot s.1)).

Lemma tx_state_pair s s' t t' :
  assoc_of s KPair = Some t -> assoc_of s' KPair = Some t' ->
  tksa_packet_number t' = tksa_packet_number t -> tksa_key_id t' = tksa_key_id t ->
  ptk_key_slot s'.1 = ptk_key_slot s.1 -> tx_state s' = tx_state s.
Proof.
  unfold assoc_of, tx_state. simpl. intros [= ->] [= ->] -> -> ->. done.
Qed.

Lemma rsn_step_tx own bssid s a s' o :
  rsn_step own bssid s a = Some (Done (s', o)) ->
  match sent o with
  | Some info => info = tx_state s /\
      tx_state s' = (wrapping 64 ((tx_state s).1.1 + 1), (tx_state s).1.2, (tx_state s).2)
  | None => tx_state s' = tx_state s
  end.
Proof.
  destruct s as [st m], a as [is_group key_id payload|buffer n|]; simpl; intros Hs;
    apply (inj Some) in Hs.
  - unfold process_potentially_wrapped_payload in Hs.
    destruct payload as [payload|payload pn]; [by injection Hs as <- <-|].
    destruct is_group; [destruct (group_key _ _) as [t|]|case_decide].
    + destruct (update_and_validate_replay_counter t pn) as [ok t']. by injection Hs as <- <-.
    + by injection Hs as <- <-.
    + pose proof (update_spec (ptksa (security_associations st)) pn) as Hu.
      destruct (update_and_validate_replay_counter _ pn) as [ok t'].
      destruct Hu as (_ & _ & _ & Hpn & Hid). injection Hs as <- <-. simpl.
      by apply (tx_state_pair _ _ (ptksa (security_associations st)) t').
    + by injection Hs as <- <-.
  - apply outcome_bind_Done in Hs as ([[res st1] m1] & Hh & Hs). injection Hs as <- <-. simpl.
    apply handle_eapol_retry_cases in Hh as [(-> & -> & ->)|(Hpn & bytes & kck & kek & Ha)];
      [done|]. apply answer_key_frame_effect in Ha as (_ & Hps & Heff).
    assert (assoc_of (st1, m1) KPair = assoc_of (count_pn st (frame_pn own bssid buffer), m) KPair)
      as Has.
    { destruct Heff as [(_ & Has & _)|(? & ? & ? & _ & _ & _ & _ & ? & ? & ? & _ & Has & _)];
        [done|by rewrite Has, decide_False]. }
    rewrite count_pn_assoc in Has. revert Has Hps.
    destruct (frame_pn own bssid buffer); intros Has Hps;
      (eapply (tx_state_pair (st, m)); [reflexivity|exact Has|done|done|exact Hps]).
  - by injection Hs as <- <-.
Qed.

(** The slots of the group keys stay the same. *)
Lemma process_slots st is_group key_id payload :
  gtk_key_slots (snd (process_potentially_wrapped_payload st is_group key_id payload)) = gtk_key_slots st.
Proof.
  unfold process_potentially_wrapped_payload. destruct payload as [payload|payload pn]; [done|].
  destruct is_group; [destruct (group_key _ _) as [t|]|case_decide]; try done;
    by destruct (update_and_validate_replay_counter _ pn).
Qed.

Lemma rsn_step_slots own bssid s a s' o :
  rsn_step own bssid s a = Some (Done (s', o)) -> gtk_key_slots s'.1 = gtk_key_slots s.1.
Proof.
  destruct s as [st m], a as [is_group key_id payload|buffer n|]; simpl; intros Hs; apply (inj Some) in Hs.
  - pose proof (process_slots st is_group key_id payload) as Hp.
    destruct (process_potentially_wrapped_payload _ _ _ _). by injection Hs as <- <-.
  - apply outcome_bind_Done in Hs as ([[res st1] m1] & Hh & Hs). injection Hs as <- <-. simpl.
    apply handle_eapol_retry_cases in Hh as [(-> & -> & ->)|(_ & bytes & kck & kek & Ha)]; [done|].
    transitivity (gtk_key_slots (count_pn st (frame_pn own bssid buffer))); [|by destruct (frame_pn _ _ _)].
    unfold answer_key_frame in Ha. apply outcome_bind_Done in Ha as (payload & _ & Ha).
    apply outcome_bind_Done in Ha as (is_group & _ & Ha). destruct is_group.
    + apply outcome_bind_Done in Ha as ([msg|] & _ & Ha); [|by injection Ha as _ <- _].
      apply outcome_bind_Done in Ha as ([[inst cs1] m2] & Hacc & Ha).
      assert (st1 = cs1) as -> by (by destruct inst; injection Ha as _ <- _).
      by apply accept_group_message_cases in Hacc as [(-> & _)|(_ & _ & _ & Hg & _)].
    + apply outcome_bind_Done in Ha as (gtk & _ & Ha).
      apply outcome_bind_Done in Ha as ([c r'] & _ & Ha). by destruct c; injection Ha as _ <- _.
  - by injection Hs as <- <-.
Qed.
End RsnFacts.

(** ** Panics *)

Section RsnPanics.
Context `{RsnCrypto, Ieee80211Laws}.
Implicit Types (own bssid : list Z) (st : CryptoState) (m : KeySlotManager) (s : CryptoState * KeySlotManager).

(** The driver refuses a group key for a slot of the state. *)
Definition group_key_refused st m bssid : Prop :=
  exists slot id key e, slot ∈ gtk_key_slots st /\ (0 <= id < 4)%Z /\
    fst (set_key m slot id bssid (ccmp key Group false false)) = Err e.

Lemma accept_group_message_panic st m msg bssid :
  length (gtk_key_slots st) = length (group_keys (security_associations st)) ->
  (0 <= g1_key_id msg < 4)%Z ->
  accept_group_message st m msg bssid = Panic -> group_key_refused st m bssid.
Proof.
  intros Hsl Hid. unfold accept_group_message. repeat (case_decide; [done|]).
  destruct (key_elsewhere _ _ _); [done|].
  assert (forall t, program_group_key (set_associations st (set_group_key
    (security_associations st) (Z.to_nat (g1_key_id msg)) t)) m (g1_key_id msg) bssid = Panic ->
    group_key_refused st m bssid) as Hprog.
  { intros t. unfold program_group_key, group_key. simpl.
    rewrite list_lookup_insert_eq by lia. simpl.
    destruct (lookup_lt_is_Some_2 (gtk_key_slots st) (Z.to_nat (g1_key_id msg)))
      as [slot Hslot]; [lia|]. rewrite Hslot. simpl. intros [e He]%set_key_unwrap_Panic.
    apply list_elem_of_lookup_2 in Hslot. by eexists _, _, _, _. }
  destruct (group_key _ _) as [t|]; [destruct (bool_decide _); [done|]|];
    (destruct (program_group_key _ _ _ _) as [m1|] eqn:Hp; [done|intros _; by apply Hprog in Hp]).
Qed.

Lemma answer_key_frame_panic st m bytes n kck kek own bssid :
  rsn_inv (st, m) -> answer_key_frame st m bytes n kck kek own bssid = Panic ->
  group_key_refused st m bssid.
Proof.
  intros [Hsl [t Ht] _]. unfold answer_key_frame, group_key_payload.
  destruct (key_envelope_Done bytes own bssid true) as (payload & -> & Hl). simpl.
  assert (exists g, match payload with
    | Some key => b5 ← byte_at key 5; b6 ← byte_at key 6; mret (bool_decide (u16_be b5 b6 = 0x1382)%Z)
    | None => mret false end = Done g) as [g ->].
  { destruct payload as [key|]; [|by eexists]. specialize (Hl key eq_refl). read_bytes. by eexists. }
  simpl. destruct g.
  - destruct (decode_group_message_1_Done bytes n kck kek own bssid) as [[msg|] Hd]; rewrite Hd; [simpl|done].
    apply group_message_id in Hd.
    destruct (accept_group_message _ _ _ _) as [[[inst st1] m1]|] eqn:Hacc;
      [simpl; by destruct inst|intros _; by apply accept_group_message_panic in Hacc].
  - unfold active_group_key. unfold assoc_of in Ht. simpl in Ht. unfold group_key.
    rewrite Ht. simpl.
    destruct (replay_accept_Done (message3_replay st) bytes n kck kek (tksa_key t)
      (tksa_key_id t) own bssid) as (c & r' & ->). simpl. by destruct c.
Qed.

(** Only a driver that refuses a key makes a step panic, unless the frame does as soon as it
    is looked at. *)
Lemma rsn_step_panic own bssid s a :
  rsn_inv s -> match a with RKeyFrame buffer _ => is_key_frame buffer <> Panic | _ => True end ->
  rsn_step own bssid s a = Some Panic -> group_key_refused s.1 s.2 bssid.
Proof.
  destruct s as [st m], a as [is_group key_id payload|buffer n|]; simpl; intros Hinv Hkey Hs;
    apply (inj Some) in Hs; [by destruct (process_potentially_wrapped_payload _ _ _ _)| |done].
  destruct (handle_eapol_retry _ _ _ _ _ _) as [[[]]|] eqn:Hh; [done|]. clear Hs.
  unfold handle_eapol_retry in Hh.
  destruct (normalize_Done buffer own bssid Hkey) as ([[[b len] pno]|] & Hn & Hl);
    rewrite Hn in Hh; [simpl in Hh|done].
  specialize (Hl b len pno eq_refl).
  destruct (partition_ptk _ _ _ ≫= _) as [[kck kek]|]; [|done].
  rewrite slice_Done in Hh by lia. destruct pno as [pn|].
  - unfold update_and_validate_replay_counter in Hh. case_decide; simpl in Hh; [|done].
    change (gtk_key_slots st) with (gtk_key_slots (count_pn st (Some pn))).
    eapply (answer_key_frame_panic (count_pn st (Some pn))); [|exact Hh]. by apply rsn_inv_count_pn.
  - simpl in Hh. by eapply answer_key_frame_panic.
Qed.
End RsnPanics.

(** ** Properties *)

Section RsnProperties.
Context `{RsnCrypto} `{Ieee80211}.
Implicit Types (own bssid : list Z) (s : CryptoState * KeySlotManager) (r : key_ref).

(** C17 Replay protection: while a key stays installed, the packet numbers of the
    protected frames accepted under it are strictly increasing and above the floor
    the key had at the start, whatever frames, key frames and repetitions of them
    arrive in between, in any order. *)
Theorem packet_numbers_increase own bssid r s acts s' os :
  run (rsn_step own bssid) s acts = Some (Done (s', os)) ->
  (forall n sn osn, run (rsn_step own bssid) s (take n acts) = Some (Done (sn, osn)) ->
     key_of sn r = key_of s r) ->
  StronglySorted Z.lt (floor_of s r :: omap (accepted own bssid r) (zip acts os)).
Proof.
  revert s os. induction acts as [|a acts IH]; intros s os Hr Hstay.
  { apply run_nil in Hr as [-> ->]. repeat constructor. }
  pose proof Hr as Hr'. apply run_cons in Hr as (s1 & o & os' & Hs & Hr & ->).
  assert (key_of s1 r = key_of s r) as Hk.
  { apply (Hstay 1 s1 [o]). apply run_cons. exists s1, o, [].
    split_and!; [done|by apply run_nil|done]. }
  pose proof (rsn_step_floor own bssid r s a s1 o Hs Hk) as Hf.
  assert (StronglySorted Z.lt (floor_of s1 r :: omap (accepted own bssid r) (zip acts os')))
    as Hsort.
  { apply IH; [done|]. intros n sn osn Hn. rewrite Hk.
    apply (Hstay (S n) sn (o :: osn)). simpl take. apply run_cons. eauto 6. }
  pose proof (StronglySorted_inv Hsort) as [Htail Hall]. cbn [zip_with omap list_omap].
  destruct (accepted own bssid r (a, o)) as [pn|].
  - destruct Hf as [Hlt <-]. constructor; [done|]. constructor; [done|].
    eapply Forall_impl; [exact Hall|simpl; lia].
  - constructor; [done|]. eapply Forall_impl; [exact Hall|simpl; lia].
Qed.

(** C18 No key reinstallation: every received frame leaves all keys and the hardware
    key memory alone, except a group message of an exchange newer than any
    before, which puts a key that none of the four ids had under one id and
    programs it into the slot of that id.  Repeated messages therefore never program
    a key again or reset its counters, and the exchange counter never drops. *)
Theorem keys_never_reinstalled own bssid s a s' o :
  rsn_step own bssid s a = Some (Done (s', o)) ->
  keys_kept s s' \/
  exists kck counter i key,
    o = ROReply (Some (kck, replicate 32 0%Z, counter, true)) /\
    key_replaced s s' bssid counter i key.
Proof. intros Hs. by apply rsn_step_effect in Hs as [_ He]. Qed.

(** Sent packet numbers never repeat: the frame number [n] sent under the
    pairwise key, counting from zero, has the packet number [pn0 + n] modulo 2^64,
    whatever is received in between, and always the same key id and key slot. *)
Theorem sent_packet_numbers own bssid s acts s' os n info :
  run (rsn_step own bssid) s acts = Some (Done (s', os)) ->
  in_width 64 (tx_state s).1.1 ->
  omap sent os !! n = Some info ->
  info = (wrapping 64 ((tx_state s).1.1 + Z.of_nat n), (tx_state s).1.2, (tx_state s).2).
Proof.
  intros Hr Hw. revert n info. assert (
    (forall n info, omap sent os !! n = Some info ->
      info = (wrapping 64 ((tx_state s).1.1 + Z.of_nat n), (tx_state s).1.2, (tx_state s).2)) /\
    tx_state s' = (wrapping 64 ((tx_state s).1.1 + Z.of_nat (length (omap sent os))),
      (tx_state s).1.2, (tx_state s).2)) as [Hall _]; [|exact Hall].
  revert Hr. apply (run_invariant (rsn_step own bssid) (fun s' _ os =>
    (forall n info, omap sent os !! n = Some info ->
      info = (wrapping 64 ((tx_state s).1.1 + Z.of_nat n), (tx_state s).1.2, (tx_state s).2)) /\
    tx_state s' = (wrapping 64 ((tx_state s).1.1 + Z.of_nat (length (omap sent os))),
      (tx_state s).1.2, (tx_state s).2))).
  { split; [done|]. cbn [omap list_omap length Z.of_nat].
    rewrite Z.add_0_r, wrapping_small by done. by destruct (tx_state s) as [[]]. }
  intros s1 acts1 os1 a s2 o [Hall Hst] Hs. apply rsn_step_tx in Hs.
  rewrite omap_app. cbn [omap list_omap].
  destruct (sent o) as [info|]; [|rewrite app_nil_r; by rewrite Hs].
  destruct Hs as [-> ->]. rewrite Hst. cbn [fst snd]. split.
  - intros n info [Hn|[Hn Hi]]%lookup_app_Some; [by apply Hall|].
    apply list_lookup_singleton_Some in Hi as [Hz <-]. do 4 f_equal. lia.
  - rewrite length_app. cbn [length]. unfold wrapping. rewrite Zplus_mod_idemp_l.
    do 3 f_equal. lia.
Qed.
End RsnProperties.

Section RsnSoundness.
Context `{RsnCrypto, Ieee80211Laws}.
Implicit Types (own bssid : list Z).

(** From the keys of the initial exchange on, through any received and sent
    frames, the active group key is present, no key is stored under two ids, and a
    step with a frame that is recognised panics only if the driver refuses a group key. *)
Theorem rsn_keys_sound own bssid m slots ptk_slot ptk gtk akm cipher sa replay st0 m0 acts s os a :
  length slots = 4 -> initial_associations ptk gtk akm cipher = Done sa ->
  crypto_state_new m slots ptk_slot bssid sa replay = Done (st0, m0) ->
  run (rsn_step own bssid) (st0, m0) acts = Some (Done (s, os)) ->
  (exists t, active_group_key (security_associations s.1) = Done t) /\
  (forall i j key, key_of s (KGroup i) = Some key -> key_of s (KGroup j) = Some key -> i = j) /\
  (replay_counter replay <= counter_of s)%Z /\
  (match a with RKeyFrame buffer _ => is_key_frame buffer <> Panic | _ => True end ->
   rsn_step own bssid s a = Some Panic -> group_key_refused s.1 s.2 bssid).
Proof.
  intros Hsl Hsa Hnew Hr.
  destruct (crypto_state_new_inv _ _ _ _ _ _ _ _ _ _ _ _ Hsl Hsa Hnew) as [Hi0 Hc0].
  assert (rsn_inv s /\ (replay_counter replay <= counter_of s)%Z) as [Hi Hc].
  { revert Hr. apply (run_invariant (rsn_step own bssid) (fun s _ _ =>
      rsn_inv s /\ (replay_counter replay <= counter_of s)%Z)); [split; [done|lia]|].
    clear -Hc0. intros s1 acts os a s2 o [Hi Hc] Hs.
    apply rsn_step_effect in Hs as [Hi2 He]. split; [by apply Hi2|].
    destruct He as [(_ & _ & Hle)|(? & c & ? & ? & _ & Hlt & Heq & _)]; lia. }
  pose proof Hi as [_ [t Ht] Hd]. split_and!; [|done|done|intros Ha; by apply rsn_step_panic].
  exists t. unfold active_group_key. by apply expect_Done.
Qed.
End RsnSoundness.

(** ** A connection *)

#[export] Instance plain_crypto : RsnCrypto (H := list_keys) := {
  AkmType := unit;
  CipherSuite := unit;
  partition_ptk := fun key _ _ => if decide (length key = 48)
    then Some (take 16 key, take 16 (drop 16 key), drop 32 key) else None;
  ccmp := fun _ _ _ _ => tt;
}.

(** The pairwise key in slot 4, and the group key of the initial exchange, sixteen
    sevens, under id 2. *)
Definition demo_slots : list KeySlot := [MkKeySlot 0 0; MkKeySlot 1 0; MkKeySlot 2 0; MkKeySlot 3 0].
Definition demo_ptk : TKSA := tksa_new (seqZ 0 48) 0.
Definition demo_gtk : TKSA := tksa_new (replicate 16 7%Z) 2.
Definition demo_replay : Message3Replay := message3_replay_new (replicate 32 7%Z) [] 6.
Definition demo_associations : SecurityAssociations :=
  MkSecurityAssociations demo_ptk [None; None; Some demo_gtk; None] 2 tt tt.
Definition demo_manager : KeySlotManager := key_slots_new (H := list_keys) [].
Definition demo_crypto : CryptoState * KeySlotManager :=
  match crypto_state_new demo_manager demo_slots (MkKeySlot 4 0) demo_bssid
          demo_associations demo_replay with
  | Done s => s
  | Panic => (MkCryptoState demo_replay [] None 0 (MkKeySlot 4 0) demo_associations,
              demo_manager)
  end.

(** Group frames with packet numbers 5, 5 and 9, a group message with a new key, sent
    twice, and sent frames. *)
Definition demo_frames : list rsn_action :=
  [RSend; RData true 2 (CryptoWrapped (AMSDU []) 5); RData true 2 (CryptoWrapped (AMSDU []) 5);
   RKeyFrame (demo_key_frame 0x13 0x82 8) 100; RKeyFrame (demo_key_frame 0x13 0x82 8) 100;
   RData true 2 (CryptoWrapped (AMSDU []) 9); RSend].
Definition demo_frames_run : option (outcome ((CryptoState * KeySlotManager) * list rsn_output)) :=
  run (rsn_step demo_own demo_bssid) demo_crypto demo_frames.
Definition demo_frames_end : CryptoState * KeySlotManager :=
  match demo_frames_run with Some (Done (s, _)) => s | _ => demo_crypto end.
Definition demo_frames_outputs : list rsn_output :=
  match demo_frames_run with Some (Done (_, os)) => os | _ => [] end.

(** The state before the group message, and after it. *)
Definition demo_before : CryptoState * KeySlotManager :=
  match run (rsn_step demo_own demo_bssid) demo_crypto (take 3 demo_frames) with
  | Some (Done (s, _)) => s | _ => demo_crypto end.
Definition demo_after : CryptoState * KeySlotManager :=
  match run (rsn_step demo_own demo_bssid) demo_crypto (take 4 demo_frames) with
  | Some (Done (s, _)) => s | _ => demo_crypto end.

Lemma packet_numbers_increase_witness :
  omap (accepted demo_own demo_bssid (KGroup 2)) (zip demo_frames demo_frames_outputs) =
    [5; 9]%Z /\
  StronglySorted Z.lt (0 :: omap (accepted demo_own demo_bssid (KGroup 2))
    (zip demo_frames demo_frames_outputs))%Z.
Proof.
  split; [vm_compute; reflexivity|].
  apply (packet_numbers_increase demo_own demo_bssid (KGroup 2) demo_crypto demo_frames
    demo_frames_end demo_frames_outputs); [vm_compute; reflexivity|].
  intros n sn osn Hn.
  do 7 (destruct n as [|n]; [vm_compute in Hn; injection Hn as <- _; vm_compute; reflexivity|]).
  rewrite take_ge in Hn by (simpl; lia).
  vm_compute in Hn. injection Hn as <- _. vm_compute. reflexivity.
Defined.

Lemma keys_never_reinstalled_witness :
  keys_kept demo_before demo_after \/
  exists kck counter i key,
    ROReply (Some (seqZ 0 16, replicate 32 0%Z, 8%Z, true)) =
      ROReply (Some (kck, replicate 32 0%Z, counter, true)) /\
    key_replaced demo_before demo_after demo_bssid counter i key.
Proof.
  apply (keys_never_reinstalled demo_own demo_bssid demo_before
    (RKeyFrame (demo_key_frame 0x13 0x82 8) 100) demo_after).
  vm_compute. reflexivity.
Defined.

Lemma rsn_keys_sound_witness :
  exists t, active_group_key (security_associations demo_frames_end.1) = Done t.
Proof.
  destruct (rsn_keys_sound (H0 := plain_crypto) demo_own demo_bssid demo_manager demo_slots (MkKeySlot 4 0)
    demo_ptk demo_gtk tt tt demo_associations demo_replay demo_crypto.1 demo_crypto.2
    demo_frames demo_frames_end demo_frames_outputs RSend) as [Ha _];
    [reflexivity|reflexivity|reflexivity|vm_compute; reflexivity|exact Ha].
Defined.

Lemma sent_packet_numbers_witness :
  (2%Z, 0%Z, 4) = (wrapping 64 ((tx_state demo_crypto).1.1 + Z.of_nat 1),
    (tx_state demo_crypto).1.2, (tx_state demo_crypto).2).
Proof.
  apply (sent_packet_numbers demo_own demo_bssid demo_crypto demo_frames demo_frames_end
    demo_frames_outputs); [vm_compute; reflexivity|split; vm_compute; congruence|].
  vm_compute. reflexivity.
Defined.
