(* ===== verification/Bss.v ===== *)
(** * BSS information: foa_sta/src/bss.rs and connection_state.rs

    The errors of the station, what it reads of a network's RSN element, the security configuration
    derived from it, and the tracker of the connection state with its two waits.  A
    poll of a wait runs its loop until it is ready or pending. *)
From S2P Require Import Prelude Platform Lmac.

(** [StaError] of lib.rs; a status code is its number.  [LMacFailure] is the
    constructor [LMacError]. *)
Inductive StaError : Type :=
| LMacFailure (e : LMacError)
| UnableToFindEss
| AckTimeout
| TxCompletionLost
| ResponseTimeout
| FrameDeserializationFailed
| AuthenticationFailure (status : Z)
| AssociationFailure (status : Z)
| StillConnected
| NotConnected
| SameNetwork
| InvalidBss
| RouterOperationAlreadyInProgress
| NoCredentialsForNetwork
| FourWayHandshakeFailure
| NoKeySlotsAvailable
| InvalidPskLength
| GroupKeyHandshakeFailure.

(** ** Security configuration (bss.rs) *)

Inductive CipherSuiteSelector : Type := Ccmp128 | Ccmp256 | Gcmp128 | Gcmp256 | Tkip | OtherCipher.
Inductive AkmSuite : Type := Owe_akm | Psk | Sae | OtherAkm.

#[export] Instance CipherSuiteSelector_eq_dec : EqDecision CipherSuiteSelector.
Proof. solve_decision. Defined.

(** [OptionalFeatureConfig] of the RSN capabilities. *)
Inductive MfpConfig : Type := MfpInvalid | MfpRequired | MfpNotRequired.

(** The fields of an RSN element the code reads. *)
Record RsnElement : Type := MkRsnElement {
  group_data_cipher_suite : option CipherSuiteSelector;
  rsn_capabilities : option MfpConfig;
  pairwise_cipher_suite_list : option (list CipherSuiteSelector);
  akm_list : option (list AkmSuite);
}.

Record RsnReport : Type := MkRsnReport {
  group_cipher : CipherSuiteSelector;
  ccmp_present : bool;
  gcmp_present : bool;
  tkip_present : bool;
  owe_present : bool;
  sae_present : bool;
  psk_present : bool;
  mfp_required : bool;
}.

Inductive SecurityConfig : Type :=
| Open
| Wep
| Wpa
| Wpa2TransitionMode
| Wpa2 (mfp_required : bool)
| Wpa3TransitionMode
| Wpa3
| OweTransitionMode
| Owe
| Invalid.

#[export] Instance SecurityConfig_eq_dec : EqDecision SecurityConfig.
Proof. solve_decision. Defined.

Definition report_cipher (r : RsnReport) (c : CipherSuiteSelector) : RsnReport :=
  match c with
  | Ccmp128 | Ccmp256 => MkRsnReport (group_cipher r) true (gcmp_present r) (tkip_present r)
      (owe_present r) (sae_present r) (psk_present r) (mfp_required r)
  | Gcmp128 | Gcmp256 => MkRsnReport (group_cipher r) (ccmp_present r) true (tkip_present r)
      (owe_present r) (sae_present r) (psk_present r) (mfp_required r)
  | Tkip => MkRsnReport (group_cipher r) (ccmp_present r) (gcmp_present r) true
      (owe_present r) (sae_present r) (psk_present r) (mfp_required r)
  | OtherCipher => r
  end.

Definition report_akm (r : RsnReport) (a : AkmSuite) : RsnReport :=
  match a with
  | Owe_akm => MkRsnReport (group_cipher r) (ccmp_present r) (gcmp_present r) (tkip_present r)
      true (sae_present r) (psk_present r) (mfp_required r)
  | Psk => MkRsnReport (group_cipher r) (ccmp_present r) (gcmp_present r) (tkip_present r)
      (owe_present r) (sae_present r) true (mfp_required r)
  | Sae => MkRsnReport (group_cipher r) (ccmp_present r) (gcmp_present r) (tkip_present r)
      (owe_present r) true (psk_present r) (mfp_required r)
  | OtherAkm => r
  end.

Definition generate_rsn_report (rsn : RsnElement) : option RsnReport :=
  cipher ← group_data_cipher_suite rsn;
  mfp ← match rsn_capabilities rsn with
    | Some MfpInvalid => None
    | Some MfpRequired => Some true
    | Some MfpNotRequired => Some false
    | None => Some false
    end;
  pairwise ← pairwise_cipher_suite_list rsn;
  akms ← akm_list rsn;
  Some (foldl report_akm
    (foldl report_cipher (MkRsnReport cipher false false false false false false mfp) pairwise)
    akms).

(** [SecurityConfig::from_beacon_like], on the frame's first RSN element. *)
Definition security_config_of (rsn : option RsnElement) : SecurityConfig :=
  match rsn with
  | None => Open
  | Some rsn =>
      match generate_rsn_report rsn with
      | None => Invalid
      | Some report =>
          if bool_decide (group_cipher report = Ccmp128) && ccmp_present report then
            if owe_present report then Owe
            else match psk_present report, sae_present report with
            | true, true => Wpa3TransitionMode
            | true, false => Wpa2 (mfp_required report)
            | false, true => Wpa3
            | _, _ => Invalid
            end
          else if bool_decide (group_cipher report = Tkip) && tkip_present report then
            if ccmp_present report then Wpa2TransitionMode else Wpa
          else Invalid
      end
  end.

(** [BSS]; the SSID is the list of its bytes. *)
Record BSS : Type := MkBSS {
  ssid : list Z;
  bss_channel : Z;
  bss_bssid : list Z;
  last_rssi : Z;
  security_config : SecurityConfig;
}.

(** [from_beacon_like]; an SSID that does not fit the 32 bytes stays empty. *)
Definition bss_from_beacon_like (frame_ssid : option (list Z)) (current_channel : option Z)
  (bssid : list Z) (rsn : option RsnElement) (rssi : Z) : option BSS :=
  name ← frame_ssid;
  channel ← current_channel;
  Some (MkBSS (if decide (length name <= 32) then name else []) channel bssid rssi
    (security_config_of rsn)).

(** [Credentials]; the derivation of a key from a passphrase is a parameter. *)
Inductive Credentials : Type :=
| PreSharedKey (psk : list Z)
| Passphrase (passphrase : list Z).

(** [pmk] for an output of [n] bytes. *)
Definition pmk (map_passphrase : list Z -> list Z -> nat -> list Z) (c : Credentials) (n : nat)
  (ssid : list Z) : option (list Z) :=
  match c with
  | PreSharedKey psk => if decide (n = length psk) then Some psk else None
  | Passphrase passphrase => Some (map_passphrase passphrase ssid n)
  end.

(** [derive_psk]: [None] is [PskLengthMismatchError]. *)
Definition derive_psk (map_passphrase : list Z -> list Z -> nat -> list Z) (c : Credentials)
  (ssid : list Z) : option (list Z) := pmk map_passphrase c 32 ssid.

(** A derived key can be kept and used in place of the credentials it came from. *)
Lemma derive_psk_reusable map_passphrase c ssid psk :
  (forall p s n, length (map_passphrase p s n) = n) ->
  derive_psk map_passphrase c ssid = Some psk ->
  pmk map_passphrase (PreSharedKey psk) 32 ssid = pmk map_passphrase c 32 ssid.
Proof.
  intros Hl. unfold derive_psk. intros Hd. rewrite Hd. simpl. rewrite decide_True; [done|].
  destruct c as [k|p]; simpl in Hd; [case_decide; congruence|]. injection Hd as <-. by rewrite Hl.
Qed.

(** A network that advertises RSN is never taken for an open one. *)
Lemma rsn_never_open rsn : security_config_of (Some rsn) <> Open.
Proof.
  simpl. destruct (generate_rsn_report rsn) as [r|]; [|done]. by repeat case_match.
Qed.

(** ** The connection state (connection_state.rs) *)

Record ConnectionConfig : Type := MkConnectionConfig {
  automatic_reconnect : bool;
  handshake_retries : nat;
  handshake_timeout : Z;
  beacon_timeout : option Z;
}.

(** Durations are in milliseconds. *)
Definition connection_config_default : ConnectionConfig :=
  MkConnectionConfig true 4 100 (Some 3000%Z).

Record ConnectionInfo : Type := MkConnectionInfo {
  info_bss : BSS;
  own_address : list Z;
  aid : Z;
  connection_config : ConnectionConfig;
}.

Inductive DisconnectionReason : Type := User | BeaconTimeout | Deauthenticated.

Inductive ConnectionState : Type :=
| Disconnected (reason : DisconnectionReason)
| Connected (info : ConnectionInfo).

Section Tracker.
Context {Sg : Type -> Type} `{Signal Sg}.

Record ConnectionStateTracker : Type := MkConnectionStateTracker {
  connection_state : ConnectionState;
  connection_state_signal : Sg unit;
}.

Implicit Types (t : ConnectionStateTracker).

Definition tracker_new : ConnectionStateTracker :=
  MkConnectionStateTracker (Disconnected User) sg_new.

Definition signal_state t (new_state : ConnectionState) : ConnectionStateTracker :=
  MkConnectionStateTracker new_state (sg_signal tt (connection_state_signal t)).

Definition map_connection_info {O} t (f : ConnectionInfo -> O) : option O :=
  match connection_state t with Connected info => Some (f info) | Disconnected _ => None end.

Definition connection_info t : option ConnectionInfo := map_connection_info t id.

Definition disconnection_reason t : option DisconnectionReason :=
  match connection_state t with Disconnected reason => Some reason | Connected _ => None end.

Definition connected t : bool :=
  match connection_state t with Connected _ => true | Disconnected _ => false end.

Definition bssid_and_own_address t : option (list Z * list Z) :=
  map_connection_info t (fun info => (bss_bssid (info_bss info), own_address info)).

Definition tracker_with t (s : Sg unit) : ConnectionStateTracker :=
  MkConnectionStateTracker (connection_state t) s.

(** A poll of [wait_for_connection]; [waiting]: it was pending at its await.  [None]:
    the fuel ran out. *)
Fixpoint wait_for_connection (fuel : nat) (waiting : bool) t
  : option (poll ConnectionInfo * ConnectionStateTracker) :=
  match fuel with
  | 0 => None
  | S fuel =>
      let after t :=
        match connection_info t with
        | Some info => Some (PollReady info, t)
        | None => wait_for_connection fuel false t
        end in
      if negb waiting && connected t then after t
      else match sg_wait (connection_state_signal t) with
      | Some (_, s) => after (tracker_with t s)
      | None => Some (PollPending, t)
      end
  end.

(** A poll of [wait_for_disconnection]. *)
Fixpoint wait_for_disconnection (fuel : nat) (waiting : bool) t
  : option (poll DisconnectionReason * ConnectionStateTracker) :=
  match fuel with
  | 0 => None
  | S fuel =>
      match (if waiting then None else disconnection_reason t) with
      | Some reason => Some (PollReady reason, t)
      | None =>
          match sg_wait (connection_state_signal t) with
          | Some (_, s) => wait_for_disconnection fuel false (tracker_with t s)
          | None => Some (PollPending, t)
          end
      end
  end.

(** ** The tracker with the one task that waits on it *)

Inductive waiter : Type := WNone | WConnection | WDisconnection.

#[export] Instance waiter_eq_dec : EqDecision waiter.
Proof. solve_decision. Defined.

Inductive tracker_action : Type :=
| TSignal (s : ConnectionState)
| TPollConnection
| TPollDisconnection
| TAbandon.

Inductive tracker_output : Type :=
| TOSignaled
| TOConnection (r : poll ConnectionInfo)
| TODisconnection (r : poll DisconnectionReason)
| TOAbandoned.

Definition tracker_step (s : ConnectionStateTracker * waiter) (a : tracker_action)
  : option (outcome ((ConnectionStateTracker * waiter) * tracker_output)) :=
  let '(t, w) := s in
  match a with
  | TSignal st => Some (Done ((signal_state t st, w), TOSignaled))
  | TPollConnection =>
      if decide (w = WDisconnection) then None
      else '(r, t) ← wait_for_connection 2 (bool_decide (w = WConnection)) t;
        Some (Done ((t, match r with PollPending => WConnection | PollReady _ => WNone end),
                TOConnection r))
  | TPollDisconnection =>
      if decide (w = WConnection) then None
      else '(r, t) ← wait_for_disconnection 2 (bool_decide (w = WDisconnection)) t;
        Some (Done ((t, match r with PollPending => WDisconnection | PollReady _ => WNone end),
                TODisconnection r))
  | TAbandon => Some (Done ((t, WNone), TOAbandoned))
  end.
End Tracker.

Section TrackerFacts.
Context {Sg : Type -> Type} `{SignalLaws Sg}.
Implicit Types (t : ConnectionStateTracker (Sg := Sg)) (w : waiter).

Definition signaled t : Prop := is_Some (sg_value (connection_state_signal t)).

Lemma sg_wait_cases t :
  (sg_wait (connection_state_signal t) = None /\ ~ signaled t) \/
  exists s, sg_wait (connection_state_signal t) = Some (tt, s) /\ signaled t /\
    sg_value s = None.
Proof.
  destruct (sg_wait (connection_state_signal t)) as [[[] s]|] eqn:Hw.
  - right. apply sg_wait_Some in Hw as [Hv Hn]. exists s. by split_and!; [|eexists|].
  - left. apply sg_wait_None in Hw. split; [done|]. intros [x Hx]. congruence.
Qed.

(** Two rounds of the loop are enough: a poll consumes at most one signal.  It is
    ready exactly if the state is right, except that a wait which was pending needs
    the signal. *)
Lemma wait_for_connection_spec waiting t :
  (waiting = true -> connected t = true -> signaled t) ->
  exists r t', wait_for_connection 2 waiting t = Some (r, t') /\
    connection_state t' = connection_state t /\
    match r with
    | PollReady info => connection_state t = Connected info
    | PollPending => connected t = false /\ ~ signaled t'
    end.
Proof.
  intros Hw. simpl. unfold connection_info, map_connection_info, connected in *.
  destruct (connection_state t) as [reason|info] eqn:Hst.
  - rewrite andb_false_r. destruct (sg_wait_cases t) as [[-> Hn]|(s & -> & _ & Hs)].
    + exists PollPending, t. by split_and!.
    + simpl. rewrite Hst. simpl.
      rewrite (proj2 (sg_wait_None _ s) Hs). exists PollPending, (tracker_with t s).
      split_and!; [done|exact Hst|done|intros [x Hx]; simpl in Hx; congruence].
  - destruct waiting; simpl; [|by eexists _, _].
    destruct (sg_wait_cases t) as [[_ Hn]|(s & -> & _ & _)]; [exfalso; by apply Hn, Hw|].
    simpl. rewrite Hst. by eexists _, _.
Qed.

Lemma wait_for_disconnection_spec waiting t :
  (waiting = true -> connected t = false -> signaled t) ->
  exists r t', wait_for_disconnection 2 waiting t = Some (r, t') /\
    connection_state t' = connection_state t /\
    match r with
    | PollReady reason => connection_state t = Disconnected reason
    | PollPending => connected t = true /\ ~ signaled t'
    end.
Proof.
  intros Hw. simpl. unfold disconnection_reason, connected in *.
  destruct (connection_state t) as [reason|info] eqn:Hst.
  - destruct waiting; [|by eexists _, _].
    destruct (sg_wait_cases t) as [[_ Hn]|(s & -> & _ & _)]; [exfalso; by apply Hn, Hw|].
    simpl. rewrite Hst. by eexists _, _.
  - assert ((if waiting then None else None) = @None DisconnectionReason) as -> by by destruct waiting.
    destruct (sg_wait_cases t) as [[-> Hn]|(s & -> & _ & Hs)].
    + exists PollPending, t. by split_and!.
    + simpl. rewrite Hst. simpl. rewrite (proj2 (sg_wait_None _ s) Hs). exists PollPending, (tracker_with t s).
      split_and!; [done|exact Hst|done|intros [x Hx]; simpl in Hx; congruence].
Qed.

(** A task is only pending while the state is wrong or the signal will wake it. *)
Definition tracker_inv (s : ConnectionStateTracker (Sg := Sg) * waiter) : Prop :=
  match s.2 with
  | WNone => True
  | WConnection => connected s.1 = true -> signaled s.1
  | WDisconnection => connected s.1 = false -> signaled s.1
  end.

Lemma tracker_step_inv s a s' o :
  tracker_inv s -> tracker_step s a = Some (Done (s', o)) -> tracker_inv s'.
Proof.
  destruct s as [t w], a as [st| | |]; simpl; intros Hi Hs.
  - injection Hs as <- <-. unfold tracker_inv. simpl.
    assert (signaled (signal_state t st)) as Hsig
      by (eexists; simpl; apply sg_signal_value).
    by destruct w.
  - case_decide as Hw; [done|].
    destruct (wait_for_connection_spec (bool_decide (w = WConnection)) t) as (r & t' & Heq & Hst & Hr).
    { rewrite bool_decide_eq_true. intros ->. exact Hi. }
    change (match wait_for_connection 2 (bool_decide (w = WConnection)) t with
      | Some x => (fun '(r, t) => Some (Done ((t, match r with PollPending => WConnection
          | PollReady _ => WNone end), TOConnection r))) x | None => None end =
      Some (Done (s', o))) in Hs.
    rewrite Heq in Hs. injection Hs as <- _. unfold tracker_inv. simpl. destruct r; [done|].
    unfold connected in *. rewrite Hst. destruct Hr as [-> _]. done.
  - case_decide as Hw; [done|].
    destruct (wait_for_disconnection_spec (bool_decide (w = WDisconnection)) t)
      as (r & t' & Heq & Hst & Hr).
    { rewrite bool_decide_eq_true. intros ->. exact Hi. }
    change (match wait_for_disconnection 2 (bool_decide (w = WDisconnection)) t with
      | Some x => (fun '(r, t) => Some (Done ((t, match r with PollPending => WDisconnection
          | PollReady _ => WNone end), TODisconnection r))) x | None => None end =
      Some (Done (s', o))) in Hs.
    rewrite Heq in Hs. injection Hs as <- _. unfold tracker_inv. simpl. destruct r; [done|].
    unfold connected in *. rewrite Hst. destruct Hr as [-> _]. done.
  - by injection Hs as <- _.
Qed.
End TrackerFacts.

(** ** Properties *)

Section TrackerProperties.
Context {Sg : Type -> Type} `{SignalLaws Sg}.

(** No lost connection state: however states are signaled, and whenever the
    runner's task polls its two waits or drops one, a poll always ends, its answer is
    the current state, and it is ready as soon as the state is the awaited one, a
    signal that is left over from an earlier state notwithstanding. *)
Theorem tracker_no_lost_state acts (t : ConnectionStateTracker (Sg := Sg)) w os :
  run tracker_step (tracker_new, WNone) acts = Some (Done ((t, w), os)) ->
  (w <> WDisconnection -> exists t' w' r,
     tracker_step (t, w) TPollConnection = Some (Done ((t', w'), TOConnection r)) /\
     match connection_state t with
     | Connected info => r = PollReady info
     | Disconnected _ => r = PollPending
     end) /\
  (w <> WConnection -> exists t' w' r,
     tracker_step (t, w) TPollDisconnection = Some (Done ((t', w'), TODisconnection r)) /\
     match connection_state t with
     | Disconnected reason => r = PollReady reason
     | Connected _ => r = PollPending
     end).
Proof.
  intros Hr. assert (tracker_inv (t, w)) as Hi.
  { revert Hr. apply (run_invariant tracker_step (fun s _ _ => tracker_inv s)); [done|].
    intros. by eapply tracker_step_inv. }
  split; intros Hw.
  - destruct (wait_for_connection_spec (bool_decide (w = WConnection)) t) as (r & t' & Heq & _ & Hp).
    { rewrite bool_decide_eq_true. intros ->. exact Hi. }
    unfold tracker_step. rewrite decide_False, Heq by done. eexists _, _, _. split; [done|].
    unfold connected in Hp. destruct r, (connection_state t); naive_solver.
  - destruct (wait_for_disconnection_spec (bool_decide (w = WDisconnection)) t)
      as (r & t' & Heq & _ & Hp).
    { rewrite bool_decide_eq_true. intros ->. exact Hi. }
    unfold tracker_step. rewrite decide_False, Heq by done. eexists _, _, _. split; [done|].
    unfold connected in Hp. destruct r, (connection_state t); naive_solver.
Qed.
End TrackerProperties.

(** ** Witness *)

Definition demo_bss : BSS := MkBSS [102; 111; 97]%Z 6 (replicate 6 2%Z) (-50) (Wpa2 false).
Definition demo_info : ConnectionInfo :=
  MkConnectionInfo demo_bss (replicate 6 1%Z) 1 connection_config_default.

(** The runner waits, we connect, disconnect and connect again before it polls. *)
Definition demo_tracker_acts : list tracker_action :=
  [TPollConnection; TSignal (Connected demo_info); TSignal (Disconnected User);
   TSignal (Connected demo_info)].
Definition demo_tracker : ConnectionStateTracker (Sg := option) * waiter :=
  (MkConnectionStateTracker (Connected demo_info) (Some tt), WConnection).

Lemma tracker_no_lost_state_witness :
  exists t' w', tracker_step demo_tracker TPollConnection =
    Some (Done ((t', w'), TOConnection (PollReady demo_info))).
Proof.
  destruct (tracker_no_lost_state demo_tracker_acts demo_tracker.1 demo_tracker.2
    [TOConnection PollPending; TOSignaled; TOSignaled; TOSignaled]) as [Hc _]; [reflexivity|].
  destruct Hc as (t' & w' & r & Hs & Hr); [discriminate|].
  exists t', w'. simpl in Hr. subst r. exact Hs.
Defined.
