(* ===== verification/Sta.v ===== *)
(** * The station: foa_sta/src/control.rs, lib.rs, runner.rs, operations/connect.rs

    What a received frame leads to (the decision of the routing task and the data
    path), and the life of the keys over connections: [connect] with the key slots
    it acquires, [disconnect], and the end of a connection in the runner.  The
    exchange of management and key frames with the access point is an input of
    [connect]. *)
From S2P Require Import Prelude Bytes Network Platform Lmac KeySlots Eapol Rsn Bss.

(** ** The routing task (runner.rs) *)

(** What the routing task reads of a frame that parses. *)
Record RoutedFrame : Type := MkRoutedFrame {
  rf_address_1 : list Z;
  rf_multicast : bool;
  (** [is_key_frame], which is called only while connected, and can panic. *)
  rf_is_eapol : outcome bool;
  rf_is_data : bool;
  rf_data_frame : option DataFrame;
}.

(** What it reads of the interface; [rs_own_address] is that of the connection, or
    else the one we are connecting with. *)
Record RoutingState : Type := MkRoutingState {
  rs_own_address : option (list Z);
  rs_in_off_channel_operation : bool;
  rs_off_channel_operation_in_progress : bool;
  rs_connected : bool;
}.

Inductive RoutingDecision : Type :=
| RDrop
| RHandleData (frame : DataFrame)
| RRoute.

(** The body of [RoutingRunner::run] up to [route_frame].  Whether the RSNA is
    activated only decides whether a message is printed. *)
Definition routing_decision (rs : RoutingState) (frame : option RoutedFrame)
  : outcome RoutingDecision :=
  match frame with
  | None => mret RDrop
  | Some f =>
      if negb (rf_multicast f) &&
         match rs_own_address rs with
         | Some own => bool_decide (own <> rf_address_1 f)
         | None => false
         end
      then mret RDrop
      else if negb (rs_in_off_channel_operation rs) && rs_off_channel_operation_in_progress rs
      then mret RDrop
      else if rs_connected rs then
        is_eapol ← rf_is_eapol f;
        if (is_eapol : bool) then mret RRoute
        else if rf_is_data f then
          match rf_data_frame f with
          | None => mret RDrop
          | Some data => mret (if rs_in_off_channel_operation rs then RDrop else RHandleData data)
          end
        else mret RRoute
      else mret RRoute
  end.

Section Sta.
Context `{KeyHal, !RsnCrypto, Ieee80211, Ethernet} {Sg : Type -> Type} `{Signal Sg}.
Implicit Types (m : KeySlotManager) (st : CryptoState).

(** The key id of a data frame, from the bytes of its CCMP header. *)
Definition data_key_id (frame : DataFrame) : option Z :=
  if protected frame then
    payload ← df_payload frame;
    iv ← get_range payload 0 8;
    b2 ← iv !! 2;
    b3 ← iv !! 3;
    if decide (b2 <> 0 \/ Z.land b3 0x3f <> 0x20)%Z then None else Some (Z.shiftr b3 6)
  else Some 0%Z.

(** [handle_data_rx] up to the hand-over: the accepted payload with source and
    destination.  Without keys a protected frame is dropped. *)
Definition accept_data_frame (cs : option CryptoState) (frame : DataFrame)
  : outcome (option (ReadPayload * list Z * list Z) * option CryptoState) :=
  match destination_address frame, source_address frame with
  | Some destination, Some source =>
      match data_key_id frame with
      | None => mret (None, cs)
      | Some key_id =>
          payload ← potentially_wrapped_payload frame;
          match payload with
          | None => mret (None, cs)
          | Some payload =>
              let '(p, cs) :=
                match cs with
                | Some st =>
                    let '(p, st) := process_potentially_wrapped_payload st (is_multicast destination)
                      key_id payload in
                    (p, Some st)
                | None => (match payload with Unwrapped p => Some p | CryptoWrapped _ _ => None end, None)
                end in
              mret ((fun p => (p, source, destination)) <$> p, cs)
          end
      end
  | _, _ => mret (None, cs)
  end.

(** ** Keys over connections *)

Record Sta : Type := MkSta {
  tracker : ConnectionStateTracker (Sg := Sg);
  crypto_state : option CryptoState;
  key_slots : KeySlotManager;
  mac_address : list Z;
}.

Implicit Types (sta : Sta).

Definition rsna_activated sta : bool := bool_decide (is_Some (crypto_state sta)).

Definition set_tracker sta (t : ConnectionStateTracker) : Sta :=
  MkSta t (crypto_state sta) (key_slots sta) (mac_address sta).
Definition set_keys sta (m : KeySlotManager) : Sta :=
  MkSta (tracker sta) (crypto_state sta) m (mac_address sta).
Definition set_crypto sta (cs : option CryptoState) : Sta :=
  MkSta (tracker sta) cs (key_slots sta) (mac_address sta).

Definition sta_new m (address : list Z) : Sta := MkSta tracker_new None m address.

Definition set_mac_address sta (address : list Z) : result StaError unit * Sta :=
  if connected (tracker sta) then (Err StillConnected, sta)
  else (Ok tt, MkSta (tracker sta) (crypto_state sta) (key_slots sta) address).

(** Dropping key slots in order, and a [CryptoState] with its fields. *)
Definition drop_slots m (slots : list KeySlot) : KeySlotManager := foldl key_slot_drop m slots.
Definition drop_crypto_state m st : KeySlotManager :=
  drop_slots m (gtk_key_slots st ++ [ptk_key_slot st]).

(** [array::from_fn] over [acquire_key_slot]. *)
Fixpoint acquire_slots (n : nat) m (interface : nat) : list (option KeySlot) * KeySlotManager :=
  match n with
  | 0 => ([], m)
  | S n =>
      let '(slot, m) := match lmac_acquire_key_slot m interface with
        | Some (slot, m) => (Some slot, m)
        | None => (None, m)
        end in
      let '(slots, m) := acquire_slots n m interface in
      (slot :: slots, m)
  end.

(** The key slots of a connection to [bss]: five if it is encrypted and there are
    credentials; on an error those acquired are dropped. *)
Definition connection_key_slots (map_passphrase : list Z -> list Z -> nat -> list Z) m
  (interface : nat) (bss : BSS) (credentials : option Credentials)
  : result StaError (option (list KeySlot * KeySlot)) * KeySlotManager :=
  match credentials with
  | Some c =>
      if decide (security_config bss = Open) then (Ok None, m)
      else
        let '(slots, m) := acquire_slots 5 m interface in
        match pmk map_passphrase c 32 (ssid bss) with
        | None => (Err InvalidPskLength, drop_slots m (omap id slots))
        | Some _ =>
            match mapM id slots with
            | Some [g0; g1; g2; g3; p] => (Ok (Some ([g0; g1; g2; g3], p)), m)
            | _ => (Err NoKeySlotsAvailable, drop_slots m (omap id slots))
            end
        end
  | None => (Ok None, m)
  end.

(** The outcome of authentication, association and key exchange: the association id,
    with the keys of the exchange if slots were acquired, or the error. *)
Definition handshake : Type := result StaError (Z * (SecurityAssociations * Message3Replay)).

(** The end of [ConnectionOperation::run]: [insert] drops the previous state after
    the new one is built. *)
Definition install_crypto_state sta (slots : option (list KeySlot * KeySlot)) (bssid : list Z)
  (keys : SecurityAssociations * Message3Replay) : outcome Sta :=
  match slots with
  | None => mret sta
  | Some (gtk_slots, ptk_slot) =>
      '(st, m) ← crypto_state_new (key_slots sta) gtk_slots ptk_slot bssid keys.1 keys.2;
      let m := match crypto_state sta with
        | Some old => drop_crypto_state m old
        | None => m
        end in
      mret (set_crypto (set_keys sta m) (Some st))
  end.

(** [disconnect_internal], without the frame it sends. *)
Definition disconnect_internal sta : Sta :=
  set_tracker sta (signal_state (tracker sta) (Disconnected User)).

Definition connect (map_passphrase : list Z -> list Z -> nat -> list Z) sta (interface : nat)
  (bss : BSS) (config : option ConnectionConfig) (credentials : option Credentials) (h : handshake)
  : outcome (result StaError unit * Sta) :=
  if bool_decide (security_config bss <> Open) && bool_decide (credentials = None)
  then mret (Err NoCredentialsForNetwork, sta)
  else if match connection_info (tracker sta) with
          | Some info => bool_decide (bss_bssid (info_bss info) = bss_bssid bss)
          | None => false
          end
  then mret (Err SameNetwork, sta)
  else
    let sta := if connected (tracker sta) then disconnect_internal sta else sta in
    let '(slots, m) := connection_key_slots map_passphrase (key_slots sta) interface bss
      credentials in
    let sta := set_keys sta m in
    match slots with
    | Err e => mret (Err e, sta)
    | Ok slots =>
        match h with
        | Err e =>
            mret (Err e, match slots with
              | Some (g, p) => set_keys sta (drop_slots m (g ++ [p]))
              | None => sta
              end)
        | Ok (id, keys) =>
            sta ← install_crypto_state sta slots (bss_bssid bss) keys;
            mret (Ok tt, set_tracker sta (signal_state (tracker sta) (Connected
              (MkConnectionInfo bss (mac_address sta) id
                 (default connection_config_default config)))))
        end
    end.

Definition disconnect sta : result StaError unit * Sta :=
  match connection_info (tracker sta) with
  | None => (Err NotConnected, sta)
  | Some _ => (Ok tt, disconnect_internal sta)
  end.

(** The end of a connection in [ConnectionRunner::run]. *)
Definition connection_ended sta (reason : DisconnectionReason) : Sta :=
  set_tracker sta (signal_state (tracker sta) (Disconnected reason)).

(** The crypto parameters of an MSDU in [run_msdu_tx]: [None] sends it in the clear. *)
Definition msdu_protection sta : option (Z * Z * nat) * Sta :=
  match crypto_state sta with
  | Some st => let '(info, st) := tx_crypto_info st in (Some info, set_crypto sta (Some st))
  | None => (None, sta)
  end.

(** ** The station as a state machine

    The runner hands only recognised key frames to [handle_eapol_retry], and data frames
    that parse to the data path. *)

Inductive sta_action : Type :=
| SConnect (bss : BSS) (config : option ConnectionConfig) (credentials : option Credentials)
    (h : handshake)
| SDisconnect
| SEnded (reason : DisconnectionReason)
| SSend
| SData (buffer : list Z)
| SKeyFrame (buffer : list Z) (scratch_len : nat).

Inductive sta_output : Type :=
| SOResult (r : result StaError unit)
| SOEnded
| SOSent (protection : option (Z * Z * nat))
| SOData (p : option (ReadPayload * list Z * list Z))
| SOReply (r : option reply).

Definition sta_step (map_passphrase : list Z -> list Z -> nat -> list Z) (interface : nat)
  sta (a : sta_action) : option (outcome (Sta * sta_output)) :=
  match a with
  | SConnect bss config credentials h => Some (
      '(r, sta) ← connect map_passphrase sta interface bss config credentials h;
      mret (sta, SOResult r))
  | SDisconnect => let '(r, sta) := disconnect sta in Some (Done (sta, SOResult r))
  | SEnded reason => Some (Done (connection_ended sta reason, SOEnded))
  | SSend => let '(p, sta) := msdu_protection sta in Some (Done (sta, SOSent p))
  | SData buffer =>
      match parse_data_frame buffer with
      | Some frame => Some (
          '(p, cs) ← accept_data_frame (crypto_state sta) frame;
          mret (set_crypto sta cs, SOData p))
      | None => None
      end
  | SKeyFrame buffer scratch_len =>
      match is_key_frame buffer with
      | Done true =>
          match crypto_state sta, bssid_and_own_address (tracker sta) with
          | Some st, Some (bssid, own) => Some (
              '(r, st, m) ← handle_eapol_retry st (key_slots sta) buffer scratch_len own bssid;
              mret (set_crypto (set_keys sta m) (Some st), SOReply r))
          | _, _ => Some (Done (sta, SOReply None))
          end
      | _ => None
      end
  end.
End Sta.

(** ** Facts *)

Section StaFacts.
Context `{KeyHal, !RsnCrypto, Ieee80211, Ethernet} {Sg : Type -> Type} `{Signal Sg}.
Implicit Types (m : KeySlotManager) (st : CryptoState) (sta : Sta (Sg := Sg)) (r : key_ref).

Lemma set_same_group_key sa id t :
  group_key sa id = Some t -> set_group_key sa (Z.to_nat id) t = sa.
Proof.
  intros Hg. destruct sa as [pt gk act akm ciph]. unfold set_group_key. simpl.
  rewrite list_insert_id; [done|]. unfold group_key in Hg. simpl in Hg.
  destruct (gk !! Z.to_nat id) as [o|]; simplify_eq/=; congruence.
Qed.

(** A check of a packet number against the key [r], in the state. *)
Lemma process_wrapped_spec st m is_group key_id q pn :
  let '(p, st') := process_potentially_wrapped_payload st is_group key_id (CryptoWrapped q pn) in
  let r := if (is_group : bool) then KGroup (Z.to_nat key_id) else KPair in
  let valid := (is_group = true \/ key_id = 0%Z) /\
    exists t, assoc_of (st, m) r = Some t /\ (tksa_replay_counter t < pn)%Z in
  (forall r', r' <> r -> assoc_of (st', m) r' = assoc_of (st, m) r') /\
  ((p = Some q /\ valid /\ floor_of (st', m) r = pn) \/ (p = None /\ ~ valid /\ st' = st)).
Proof.
  assert (forall st : CryptoState, set_associations st (security_associations st) = st) as Hid
    by (by intros []).
  simpl. destruct is_group; [destruct (group_key _ key_id) as [t|] eqn:Hg|case_decide as Hk].
  - pose proof (group_key_lt _ _ _ Hg) as Hlt.
    unfold update_and_validate_replay_counter. case_decide as Hpn; simpl.
    + split.
      * intros r' Hr'. unfold assoc_of. simpl fst. cbn [security_associations set_associations].
        by rewrite assoc_set_group_key, decide_False by done.
      * left. split_and!; [done|by left|by exists t|].
        unfold floor_of, assoc_of. simpl fst. cbn [security_associations set_associations].
        by rewrite assoc_set_group_key, decide_True.
    + rewrite set_same_group_key, Hid by done. split; [done|]. right. split_and!; [done| |done].
      intros [_ (t' & Ht' & Hlt')]. change (group_key (security_associations st) key_id = Some t') in Ht'.
      rewrite Hg in Ht'. injection Ht' as <-. done.
  - rewrite Hid. split; [done|]. right. split_and!; [done| |done].
    intros [_ (t' & Ht' & _)]. change (group_key (security_associations st) key_id = Some t') in Ht'.
    congruence.
  - unfold update_and_validate_replay_counter. case_decide as Hpn; simpl.
    + split; [by intros [|i] Hr'|]. left.
      split_and!; [done|by right|by exists (ptksa (security_associations st))|done].
    + split; [by intros [|i] Hr'|]. right. split_and!; [done| |by destruct st as [? ? ? ? ? []]].
      intros [_ (t' & [= <-] & Hlt')]. done.
  - rewrite Hid. split; [done|]. right. split_and!; [done| |done]. intros [[?|?] _]; congruence.
Qed.

(** The decision is reached if the test for key frames returns; the data path gets the frame as
    it parses. *)
Lemma routing_decision_Done rs f :
  match f with Some f => rf_is_eapol f <> Panic | None => True end ->
  exists d, routing_decision rs f = Done d /\
    match d with RHandleData frame => exists f', f = Some f' /\ rf_data_frame f' = Some frame | _ => True end.
Proof.
  unfold routing_decision. destruct f as [f|]; [intros He|by eexists].
  destruct (_ && _); [by eexists|]. destruct (negb _ && _); [by eexists|].
  destruct (rs_connected rs); [|by eexists].
  destruct (rf_is_eapol f) as [[]|]; [by eexists| |done]. cbn [mbind outcome_bind].
  destruct (rf_is_data f); [|by eexists]. destruct (rf_data_frame f) as [frame|] eqn:Hf; [|by eexists].
  eexists. split; [done|]. destruct (rs_in_off_channel_operation rs); [done|]. by exists f.
Qed.

(** Without a connection every frame is dropped or goes to the router. *)
Lemma routing_decision_open rs f :
  rs_connected rs = false -> routing_decision rs f = Done RDrop \/ routing_decision rs f = Done RRoute.
Proof.
  intros Hc. unfold routing_decision. destruct f as [f|]; [|by left].
  destruct (_ && _); [by left|]. destruct (negb _ && _); [by left|]. rewrite Hc. by right.
Qed.

(** What a data frame does to the keys: nothing, or what the check of its packet number does. *)
Lemma accept_data_frame_keys st frame p cs :
  accept_data_frame (Some st) frame = Done (p, cs) ->
  exists st', cs = Some st' /\
    (st' = st \/ exists is_group key_id payload,
       st' = snd (process_potentially_wrapped_payload st is_group key_id payload)).
Proof.
  unfold accept_data_frame. intros Ha.
  destruct (destination_address frame) as [dst|]; [|injection Ha as _ <-; eauto].
  destruct (source_address frame) as [src|]; [|injection Ha as _ <-; eauto].
  destruct (data_key_id frame) as [id|]; [|injection Ha as _ <-; eauto].
  apply outcome_bind_Done in Ha as ([payload|] & _ & Ha); [|injection Ha as _ <-; eauto].
  destruct (process_potentially_wrapped_payload st (is_multicast dst) id payload) as [q st1] eqn:Hq.
  exists st1. split; [by injection Ha as _ <-|]. right.
  exists (is_multicast dst), id, payload. by rewrite Hq.
Qed.

(** The wire bits of the key id are read only from a CCMP header that is not broken. *)
Lemma data_key_id_ok frame id : data_key_id frame = Some id -> ccmp_header_ok frame = true.
Proof.
  unfold data_key_id, ccmp_header_ok. destruct (protected frame); [|done]. simpl.
  destruct (df_payload frame) as [payload|]; [|done]. cbn [mbind option_bind].
  destruct (get_range payload 0 8) as [iv|]; [|done].
  cbn [mbind option_bind]. destruct (iv !! 2) as [b2|]; [|done]. destruct (iv !! 3) as [b3|]; [|done].
  simpl. case_decide as Hb; [done|]. intros _.
  apply Decidable.not_or in Hb as [Hb2%dec_stable Hb3%dec_stable]. simpl. subst b2. rewrite Hb3.
  by rewrite !bool_decide_true.
Qed.

(** What is accepted is handed on under the addresses of its header. *)
Lemma accept_data_frame_addresses cs frame p source destination cs' :
  accept_data_frame cs frame = Done (Some (p, source, destination), cs') ->
  destination_address frame = Some destination /\ source_address frame = Some source.
Proof.
  unfold accept_data_frame. intros Ha. destruct (destination_address frame) as [dst|]; [|done].
  destruct (source_address frame) as [src|]; [|done]. destruct (data_key_id frame) as [id|]; [|done].
  apply outcome_bind_Done in Ha as ([payload|] & _ & Ha); [|done].
  destruct (match cs with Some _ => _ | None => _ end) as [[q|] cs1]; [|done]. by injection Ha as _ <- <- _.
Qed.

Lemma accept_data_frame_open frame p cs : accept_data_frame None frame = Done (p, cs) -> cs = None.
Proof.
  unfold accept_data_frame. intros Ha. destruct (destination_address frame); [|by injection Ha].
  destruct (source_address frame); [|by injection Ha]. destruct (data_key_id frame); [|by injection Ha].
  apply outcome_bind_Done in Ha as ([payload|] & _ & Ha); by injection Ha.
Qed.

(** So the data path reads every payload without a panic. *)
Lemma accept_data_frame_Done `{!Ieee80211Laws} cs buffer frame :
  parse_data_frame buffer = Some frame -> exists p cs', accept_data_frame cs frame = Done (p, cs').
Proof.
  intros Hp. unfold accept_data_frame.
  destruct (destination_address frame) as [dst|]; [|by eexists _, _].
  destruct (source_address frame) as [src|]; [|by eexists _, _].
  destruct (data_key_id frame) as [id|] eqn:Hid; [|by eexists _, _].
  apply data_key_id_ok, (wrapped_payload_safe buffer frame Hp) in Hid.
  destruct (potentially_wrapped_payload frame) as [payload|]; [|done]. simpl.
  destruct payload as [payload|]; [|by eexists _, _]. by destruct (match cs with Some _ => _ | None => _ end); eexists _, _.
Qed.

Lemma connect_keeps_keys mp sta interface bss config creds h res sta' :
  connect mp sta interface bss config creds h = Done (res, sta') ->
  is_Some (crypto_state sta) -> is_Some (crypto_state sta').
Proof.
  unfold connect. intros Hc Hs.
  destruct (_ && _); [by injection Hc as _ <-|].
  destruct (match connection_info _ with Some _ => _ | None => _ end); [by injection Hc as _ <-|].
  destruct (connection_key_slots _ _ _ _ _) as [[slots|e] m]; [|injection Hc as _ <-].
  - assert (is_Some (crypto_state (set_keys
      (if connected (tracker sta) then disconnect_internal sta else sta) m))) as Hs1
      by (by destruct (connected _)).
    destruct h as [[id keys]|e]; [|injection Hc as _ <-; by destruct slots as [[]|]].
    apply outcome_bind_Done in Hc as (sta1 & Hi & Hc). injection Hc as _ <-.
    unfold install_crypto_state in Hi. destruct slots as [[g p]|]; [|by injection Hi as <-].
    apply outcome_bind_Done in Hi as ([st m1] & _ & Hi). injection Hi as <-. by eexists.
  - by destruct (connected _).
Qed.

Lemma sta_step_keys mp interface sta a sta' o :
  sta_step mp interface sta a = Some (Done (sta', o)) -> is_Some (crypto_state sta) ->
  is_Some (crypto_state sta') /\ o <> SOSent None.
Proof.
  intros Hs Hk. destruct a as [bss config creds h| |reason| |buffer|buffer n]; simpl in Hs.
  - apply (inj Some) in Hs. apply outcome_bind_Done in Hs as ([r sta1] & Hc & Hs).
    injection Hs as <- <-. split; [by eapply connect_keeps_keys|done].
  - unfold disconnect in Hs. destruct (connection_info _); by injection Hs as <- <-.
  - by injection Hs as <- <-.
  - unfold msdu_protection in Hs. destruct Hk as [st Hst]. rewrite Hst in Hs.
    destruct (tx_crypto_info st) as [info st1]. injection Hs as <- <-. split; [by eexists|done].
  - destruct (parse_data_frame buffer) as [frame|]; [|done].
    destruct Hk as [st Hst]. rewrite Hst in Hs. apply (inj Some) in Hs.
    apply outcome_bind_Done in Hs as ([p cs] & Hd & [= <- <-]). apply accept_data_frame_keys in Hd as (st1 & -> & _).
    split; [by eexists|done].
  - destruct (is_key_frame buffer) as [[]|]; try done. destruct Hk as [st Hst]. rewrite Hst in Hs.
    destruct (bssid_and_own_address _) as [[bssid own]|]; [|injection Hs as <- <-; split; [by eexists|done]].
    apply (inj Some) in Hs. apply outcome_bind_Done in Hs as ([[r st1] m1] & _ & Hs).
    injection Hs as <- <-. split; [by eexists|done].
Qed.
End StaFacts.

(** ** Properties *)

Section StaProperties.
Context `{KeyHal, !RsnCrypto, Ieee80211, Ethernet} {Sg : Type -> Type} `{Signal Sg}.
Implicit Types (m : KeySlotManager) (st : CryptoState) (sta : Sta (Sg := Sg)) (r : key_ref).

(** Keys outlive their connection: once the station has keys, it has keys after
    any sequence of disconnections, failed and successful connections and frames,
    and every frame it sends is protected with the pairwise key it holds, to
    whatever network it is connected by then. *)
Theorem keys_outlive_connection mp interface sta acts sta' os :
  run (sta_step mp interface) sta acts = Some (Done (sta', os)) ->
  is_Some (crypto_state sta) ->
  is_Some (crypto_state sta') /\ Forall (fun o => o <> SOSent None) os.
Proof.
  intros Hr Hk. revert Hr. apply (run_invariant (sta_step mp interface) (fun sta _ os =>
    is_Some (crypto_state sta) /\ Forall (fun o => o <> SOSent None) os)); [by split|].
  intros s1 acts1 os1 a s2 o [Hk1 Hf] Hs.
  destruct (sta_step_keys _ _ _ _ _ _ Hs Hk1) as [Hk2 Ho].
  split; [done|]. apply Forall_app. split; [done|]. by apply Forall_singleton.
Qed.
End StaProperties.

(** ** Witness *)

(** Connected to a WPA2 network with keys; then we disconnect, connect to an open
    network and send a frame. *)
Definition demo_open_bss : BSS := MkBSS [1]%Z 1 (replicate 6 9%Z) (-40) Open.
Definition demo_sta : Sta (Sg := option) :=
  MkSta (MkConnectionStateTracker (Connected demo_info) None) (Some demo_crypto.1)
    demo_crypto.2 (replicate 6 1%Z).
Definition demo_sta_acts : list sta_action :=
  [SDisconnect;
   SConnect demo_open_bss None None (Ok (2%Z, (demo_associations, demo_replay))); SSend].
Definition demo_sta_run := run (sta_step (fun _ _ _ => []) 0) demo_sta demo_sta_acts.
Definition demo_sta_end : Sta (Sg := option) :=
  match demo_sta_run with Some (Done (sta, _)) => sta | _ => demo_sta end.

Lemma keys_outlive_connection_witness :
  connection_info (tracker demo_sta_end) =
    Some (MkConnectionInfo demo_open_bss (replicate 6 1%Z) 2 connection_config_default) /\
  Forall (fun o => o <> SOSent None)
    [SOResult (Ok tt); SOResult (Ok tt); SOSent (Some (1%Z, 0%Z, 4))].
Proof.
  split; [vm_compute; reflexivity|].
  apply (keys_outlive_connection (fun _ _ _ => []) 0 demo_sta demo_sta_acts demo_sta_end);
    [vm_compute; reflexivity|by eexists].
Defined.
