(* ===== verification/Scan.v ===== *)
(** * Scanning: foa/src/util/operations/scan.rs, foa_sta/src/operations/scan.rs

    The scan over channels within an off-channel operation, its callback, and the
    two scans of the station that end by themselves.  The frames heard during each
    stay on a channel are an input: the [k]-th stay of the scan hears [heard k],
    and ends with the timeout once they are consumed.  The callback carries a
    state, for the variables its closure captures.  StaScanProps.v shows that a scan
    among everything else that happens to a station is this one. *)
From S2P Require Import Prelude Platform Lmac Bss.

Inductive ScanStrategy : Type :=
| Single (channel : Z)
| CurrentChannel
| Linear
| NonOverlappingFirst
| Custom (channels : list Z).

Inductive PostChannelScanAction (Res : Type) : Type :=
| Continue
| Stop (res : Res).
Arguments Continue {Res}.
Arguments Stop {Res} res.

(** [ScanConfig]; the time on a channel is in milliseconds. *)
Record ScanConfig : Type := MkScanConfig {
  channel_remain_time : Z;
  strategy : ScanStrategy;
}.

Definition scan_config_default : ScanConfig := MkScanConfig 200 NonOverlappingFirst.

Definition strategy_channels (s : ScanStrategy) (current_channel : Z) : list Z :=
  match s with
  | Single channel => [channel]
  | CurrentChannel => [current_channel]
  | Linear => [1; 2; 3; 4; 5; 6; 7; 8; 9; 10; 11; 12; 13]
  | NonOverlappingFirst => [1; 6; 11; 2; 7; 12; 3; 8; 13; 4; 9; 5; 10]
  | Custom channels => channels
  end%Z.

Section Scan.
Context `{Radio} {W : Type -> Type} `{Watch W}.
Context {Frame Beacon St Res : Type}.
(** [match_frames!] with [BeaconFrame]. *)
Context (parse_beacon : Frame -> option Beacon).
Context (rx_cb : St -> Beacon -> Frame -> Z -> PostChannelScanAction Res * St).
Context (heard : nat -> list Frame).
Implicit Types (lm : LMac (W := W)) (s : St).

(** [scan_on_channel] with its timeout. *)
Fixpoint scan_on_channel (channel : Z) (frames : list Frame) s
  : PostChannelScanAction Res * St :=
  match frames with
  | [] => (Continue, s)
  | received :: frames =>
      match parse_beacon received with
      | Some beacon =>
          match rx_cb s beacon received channel with
          | (Stop res, s) => (Stop res, s)
          | (Continue, s) => scan_on_channel channel frames s
          end
      | None => scan_on_channel channel frames s
      end
  end.

(** One pass over the channels, from stay [k] on. *)
Fixpoint scan_pass (channels : list Z) (k : nat) lm s (res : option Res)
  : result LMacError (option Res) * nat * LMac * St :=
  match channels with
  | [] => (Ok res, k, lm, s)
  | channel :: channels =>
      match op_set_channel lm channel with
      | (Err e, lm) => (Err e, k, lm, s)
      | (Ok _, lm) =>
          match scan_on_channel channel (heard k) s with
          | (Stop scan_res, s) => (Ok (Some scan_res), S k, lm, s)
          | (Continue, s) => scan_pass channels (S k) lm s res
          end
      end
  end.

(** The outer loop; [None]: the fuel ran out. *)
Fixpoint scan_loop (fuel : nat) (continuous : bool) (channels : list Z) (k : nat) lm s
  (res : option Res) : option (result LMacError (option Res) * LMac * St) :=
  match fuel with
  | 0 => None
  | S fuel =>
      match scan_pass channels k lm s res with
      | (Err e, _, lm, s) => Some (Err e, lm, s)
      | (Ok res, k, lm, s) =>
          if continuous then scan_loop fuel continuous channels k lm s res
          else Some (Ok res, lm, s)
      end
  end.

(** [scan], once the off-channel operation has begun: it is dropped however the scan
    ends.  The calls are those on the driver's scanning mode. *)
Definition scan (fuel : nat) (op : OffChannelOperation) (current_channel : Z)
  (config : option ScanConfig) (continuous : bool) lm s
  : option (result LMacError (option Res) * LMac * St * list InterfaceCall) :=
  let config := default scan_config_default config in
  '(r, lm, s) ← scan_loop fuel continuous (strategy_channels (strategy config) current_channel)
    0 lm s None;
  let '(lm, calls) := op_drop lm op in
  Some (r, lm, s, op_set_scanning_mode op ScanBeaconsOnly ++ calls).
End Scan.

(** ** The scans of the station *)

(** What a beacon says about its network. *)
Record BeaconFrame : Type := MkBeaconFrame {
  beacon_ssid : option (list Z);
  beacon_channel : option Z;
  beacon_bssid : list Z;
  beacon_rsn : option RsnElement;
}.

Definition bss_of (b : BeaconFrame) (rssi : Z) : option BSS :=
  bss_from_beacon_like (beacon_ssid b) (beacon_channel b) (beacon_bssid b) (beacon_rsn b) rssi.

Section StationScans.
Context `{Radio} {W : Type -> Type} `{Watch W} {Frame : Type}.
Context (parse_beacon : Frame -> option BeaconFrame) (rssi : Frame -> Z).
Implicit Types (lm : LMac (W := W)) (heard : nat -> list Frame).

(** The callback of [search_for_bss]. *)
Definition search_cb (ssid : list Z) (s : unit) (b : BeaconFrame) (f : Frame) (channel : Z)
  : PostChannelScanAction BSS * unit :=
  (if decide (beacon_ssid b <> Some ssid) then Continue
   else match bss_of b (rssi f) with
   | Some bss => Stop bss
   | None => Continue
   end, s).

Definition search_result (r : result LMacError (option BSS)) : result StaError BSS :=
  match r with
  | Ok (Some bss) => Ok bss
  | Ok None => Err UnableToFindEss
  | Err e => Err (LMacFailure e)
  end.

Definition search_for_bss (op : OffChannelOperation) (current_channel : Z)
  (config : option ScanConfig) (ssid : list Z) heard lm
  : option (result StaError BSS * LMac * list InterfaceCall) :=
  '(r, lm, _, calls) ← scan parse_beacon (search_cb ssid) heard 1 op current_channel config
    false lm tt;
  Some (search_result r, lm, calls).

(** The callback of [enumerate_bss]; the list of networks holds [max_bss] entries. *)
Definition enumerate_cb (max_bss : nat) (bss_list : gmap (list Z) BSS) (b : BeaconFrame)
  (f : Frame) (channel : Z) : PostChannelScanAction unit * gmap (list Z) BSS :=
  if decide (is_Some (bss_list !! beacon_bssid b)) then (Continue, bss_list)
  else if decide (size bss_list = max_bss) then (Stop tt, bss_list)
  else match bss_of b (rssi f) with
  | None => (Continue, bss_list)
  | Some bss => (Continue, <[beacon_bssid b := bss]> bss_list)
  end.

Definition enumerate_bss (op : OffChannelOperation) (current_channel : Z)
  (config : option ScanConfig) (max_bss : nat) (bss_list : gmap (list Z) BSS) heard lm
  : option (result StaError unit * LMac * gmap (list Z) BSS * list InterfaceCall) :=
  '(r, lm, bss_list, calls) ← scan parse_beacon (enumerate_cb max_bss) heard 1 op current_channel
    config false lm bss_list;
  Some (match r with Ok _ => Ok tt | Err e => Err (LMacFailure e) end, lm, bss_list, calls).

(** The callback of [scan_continuously]. *)
Definition continuous_cb (bss_found_cb : BSS -> bool) (bss_list : gmap (list Z) BSS)
  (b : BeaconFrame) (f : Frame) (channel : Z)
  : PostChannelScanAction unit * gmap (list Z) BSS :=
  if decide (is_Some (bss_list !! beacon_bssid b)) then (Continue, bss_list)
  else match bss_of b (rssi f) with
  | None => (Continue, bss_list)
  | Some bss => (if bss_found_cb bss then Continue else Stop tt,
                 <[beacon_bssid b := bss]> bss_list)
  end.
End StationScans.

Section ScanFacts.
Context `{RadioLaws} {W : Type -> Type} `{Watch W}.
Context {Frame Beacon St Res : Type}.
Context (parse_beacon : Frame -> option Beacon).
Context (rx_cb : St -> Beacon -> Frame -> Z -> PostChannelScanAction Res * St).
Context (heard : nat -> list Frame).
Implicit Types (lm : LMac (W := W)) (s : St).

Notation pass := (scan_pass parse_beacon rx_cb heard).
Notation loop := (scan_loop parse_beacon rx_cb heard).

Lemma op_set_channel_valid lm ch :
  valid_channel ch = true -> exists lm', op_set_channel lm ch = (Ok tt, lm').
Proof.
  intros Hv. unfold op_set_channel.
  destruct (set_channel_valid (channel_controller (lm_channel lm)) ch Hv) as (c & -> & _). eauto.
Qed.

Lemma op_set_channel_Err lm ch e lm' :
  op_set_channel lm ch = (Err e, lm') -> e = InvalidChannel /\ valid_channel ch = false.
Proof.
  unfold op_set_channel. destruct (set_channel _ ch) eqn:Hs; [done|]. intros [= <- _].
  split; [done|]. destruct (valid_channel ch) eqn:Hv; [|done].
  destruct (set_channel_valid (channel_controller (lm_channel lm)) ch Hv) as (c & Hc & _).
  congruence.
Qed.

Lemma scan_pass_Err channels k lm s res e k' lm' s' :
  pass channels k lm s res = (Err e, k', lm', s') ->
  e = InvalidChannel /\ exists ch, ch ∈ channels /\ valid_channel ch = false.
Proof.
  revert k lm s. induction channels as [|ch channels IH]; intros k lm s; simpl; [done|].
  destruct (op_set_channel lm ch) as [[[]|e'] lm1] eqn:Hs.
  - destruct (scan_on_channel _ _ _ _ _) as [[|r] s1]; [|done].
    intros (He & ch' & Hin & Hv)%IH. split; [done|]. exists ch'. split; [by right|done].
  - intros [= -> -> -> ->]. apply op_set_channel_Err in Hs as [-> Hv].
    split; [done|]. exists ch. split; [by left|done].
Qed.

Lemma scan_loop_once channels k lm s res : exists r, loop 1 false channels k lm s res = Some r.
Proof. simpl. destruct (pass channels k lm s res) as [[[[]]]]; by eexists. Qed.

(** A continuous scan leaves its outer loop through an error only. *)
Lemma scan_loop_continuous fuel channels k lm s res r lm' s' :
  loop fuel true channels k lm s res = Some (r, lm', s') ->
  r = Err InvalidChannel /\ exists ch, ch ∈ channels /\ valid_channel ch = false.
Proof.
  revert k lm s res. induction fuel as [|fuel IH]; intros k lm s res; simpl; [done|].
  destruct (pass channels k lm s res) as [[[r1 k1] lm1] s1] eqn:Hp. destruct r1 as [res1|e].
  - apply IH.
  - intros [= <- <- <-]. apply scan_pass_Err in Hp as [-> Hch]. done.
Qed.
End ScanFacts.

Section SearchFacts.
Context `{RadioLaws} {W : Type -> Type} `{Watch W} {Frame : Type}.
Context (parse_beacon : Frame -> option BeaconFrame) (rssi : Frame -> Z).
Context (ssid : list Z).
Implicit Types (lm : LMac (W := W)) (heard : nat -> list Frame) (f : Frame).

(** Hearing [f] gives the network [bss] of the searched name. *)
Definition names f (bss : BSS) : Prop :=
  exists b, parse_beacon f = Some b /\ beacon_ssid b = Some ssid /\
    bss_of b (rssi f) = Some bss.

Lemma search_on_channel ch frames :
  match scan_on_channel parse_beacon (search_cb rssi ssid) ch frames tt with
  | (Stop bss, _) => exists f, f ∈ frames /\ names f bss
  | (Continue, _) => forall f bss, f ∈ frames -> ~ names f bss
  end.
Proof.
  induction frames as [|f frames IH]; simpl.
  { intros f bss Hin. by apply elem_of_nil in Hin. }
  assert ((forall bss, ~ names f bss) ->
    match scan_on_channel parse_beacon (search_cb rssi ssid) ch frames tt with
    | (Stop bss, _) => exists f', f' ∈ f :: frames /\ names f' bss
    | (Continue, _) => forall f' bss, f' ∈ f :: frames -> ~ names f' bss
    end) as Hskip.
  { intros Hf. destruct (scan_on_channel _ _ _ _ _) as [[|bss] s].
    - intros f' bss [->|Hin]%elem_of_cons; [done|by apply IH].
    - destruct IH as (f' & Hin & Hn). exists f'. split; [by right|done]. }
  destruct (parse_beacon f) as [b|] eqn:Hb; [|apply Hskip; intros bss (b & Hb' & _); congruence].
  unfold search_cb at 1. case_decide as Hname.
  { apply Hskip. intros bss (b' & Hb' & Hs & _). congruence. }
  destruct (bss_of b (rssi f)) as [bss|] eqn:Hbss.
  - exists f. split; [by left|]. exists b. split_and!; [done|first [done|by apply dec_stable]|done].
  - apply Hskip. intros bss (b' & Hb' & _ & Hs). congruence.
Qed.

Lemma search_pass heard channels k lm :
  match scan_pass parse_beacon (search_cb rssi ssid) heard channels k lm tt None with
  | (Ok (Some bss), _, _, _) =>
      exists i f, k <= i < k + length channels /\ f ∈ heard i /\ names f bss
  | (Ok None, _, _, _) =>
      forall i f bss, k <= i < k + length channels -> f ∈ heard i -> ~ names f bss
  | (Err e, _, _, _) => e = InvalidChannel /\ exists ch, ch ∈ channels /\ valid_channel ch = false
  end.
Proof.
  revert k lm. induction channels as [|ch channels IH]; intros k lm; simpl; [intros; lia|].
  destruct (op_set_channel lm ch) as [[[]|e] lm1] eqn:Hs.
  - pose proof (search_on_channel ch (heard k)) as Hc.
    destruct (scan_on_channel _ _ _ _ _) as [[|bss] []].
    + specialize (IH (S k) lm1).
      destruct (scan_pass _ _ _ _ _ _ _ _) as [[[[[bss|]|e] k1] lm2] s2].
      * destruct IH as (i & f & Hi & Hin & Hn). exists i, f. split_and!; [lia|lia|done|done].
      * intros i f bss Hi Hin. destruct (decide (i = k)) as [->|]; [by apply Hc|].
        apply (IH i); [lia|done].
      * destruct IH as (He & ch' & Hin & Hv). split; [done|]. exists ch'. split; [by right|done].
    + destruct Hc as (f & Hin & Hn). exists k, f. split_and!; [lia|lia|done|done].
  - apply op_set_channel_Err in Hs as [-> Hv]. split; [done|]. exists ch. split; [by left|done].
Qed.

Lemma op_drop_ends lm op :
  off_channel_operation_in_progress (lm_channel (op_drop lm op).1) = false.
Proof. unfold op_drop. by destruct (home_channel _), (previously_locked_channel op). Qed.
End SearchFacts.

(** ** Properties *)

Section ScanProperties.
Context `{RadioLaws} {W : Type -> Type} `{Watch W} {Frame : Type}.
Implicit Types (lm : LMac (W := W)) (heard : nat -> list Frame).

(** Searching for a network always ends, with the off-channel operation over:
    it returns a network of the searched name that was heard on one of the channels,
    it reports [UnableToFindEss] only if no beacon heard on any of them names
    the network, and it fails only on an invalid channel. *)
Theorem search_for_bss_spec parse_beacon rssi op current config ssid heard lm :
  let channels := strategy_channels (strategy (default scan_config_default config)) current in
  match search_for_bss parse_beacon rssi op current config ssid heard lm with
  | Some (r, lm', _) =>
      off_channel_operation_in_progress (lm_channel lm') = false /\
      match r with
      | Ok bss => exists k f b, k < length channels /\ f ∈ heard k /\
          parse_beacon f = Some b /\ beacon_ssid b = Some ssid /\ bss_of b (rssi f) = Some bss
      | Err UnableToFindEss => forall k f b, k < length channels -> f ∈ heard k ->
          parse_beacon f = Some b -> beacon_ssid b = Some ssid -> bss_of b (rssi f) = None
      | Err (LMacFailure e) =>
          e = InvalidChannel /\ exists ch, ch ∈ channels /\ valid_channel ch = false
      | Err _ => False
      end
  | None => False
  end.
Proof.
  intros channels. unfold search_for_bss, scan. cbv zeta. fold channels.
  pose proof (search_pass parse_beacon rssi ssid heard channels 0 lm) as Hp.
  cbn [scan_loop].
  destruct (scan_pass _ _ _ _ _ _ _ _) as [[[r k] lm1] []].
  destruct r as [[bss|]|e]; (split; [exact (op_drop_ends lm1 op)|]); [| |done].
  - destruct Hp as (i & f & Hi & Hin & b & Hb & Hs & Hbss). exists i, f, b.
    split_and!; [lia|done..].
  - intros i f b Hi Hin Hb Hs. destruct (bss_of b (rssi f)) as [bss|] eqn:Hbss; [|done].
    exfalso. apply (Hp i f bss); [lia|done|]. by exists b.
Qed.

(** A scan ends exactly if it is not continuous: one pass returns, but on valid
    channels a continuous scan never returns, whatever its callback answers, since
    [Stop] only leaves the loop over the channels. *)
Theorem continuous_scan_never_returns {Beacon St Res} (parse_beacon : Frame -> option Beacon)
  (rx_cb : St -> Beacon -> Frame -> Z -> PostChannelScanAction Res * St) heard channels lm s :
  Forall (fun ch => valid_channel ch = true) channels ->
  (exists r lm' s', scan_loop parse_beacon rx_cb heard 1 false channels 0 lm s None =
     Some (Ok r, lm', s')) /\
  forall fuel, scan_loop parse_beacon rx_cb heard fuel true channels 0 lm s None = None.
Proof.
  intros Hv. rewrite Forall_forall in Hv. split.
  - simpl. destruct (scan_pass _ _ _ _ _ _ _ _) as [[[[r|e] k] lm1] s1] eqn:Hp; [by eauto|].
    apply scan_pass_Err in Hp as (_ & ch & Hin & Hf). rewrite Hv in Hf; done.
  - intros fuel. destruct (scan_loop _ _ _ _ _ _ _ _ _ _) as [[[r lm1] s1]|] eqn:Hl; [|done].
    apply scan_loop_continuous in Hl as (_ & ch & Hin & Hf). rewrite Hv in Hf; done.
Qed.
End ScanProperties.

(** ** Witness *)

(** A callback that stops at the first beacon, which is heard at once. *)
Lemma continuous_scan_never_returns_witness :
  scan_loop (W := option) Some (fun s _ _ _ => (Stop tt, s)) (fun _ => [0]) 100 true [1; 6]%Z 0
    (lmac_new radio_off) tt None = None.
Proof.
  apply (continuous_scan_never_returns Some (fun s _ _ _ => (Stop tt, s)) (fun _ => [0])
    [1; 6]%Z (lmac_new radio_off) tt).
  repeat constructor.
Defined.
