(* ===== verification/StaRouter.v ===== *)
(** * The station's router operations: foa_sta/src/rx_router.rs

    The operations of the station as an instance of the router's interface, and the
    reception of a response that still belongs to the current connection step.  A
    poll of it drops queued frames of earlier steps until it finds a response or the
    queue is empty. *)
From S2P Require Import Prelude Platform RxRouter.

Inductive StaRxRouterOperation : Type :=
| Authenticating (own_address : list Z)
| Associating (own_address : list Z)
| CryptoHandshake (own_address : list Z)
| Scanning.

Definition connecting_mac_address (op : StaRxRouterOperation) : option (list Z) :=
  match op with
  | Authenticating own_address | Associating own_address | CryptoHandshake own_address =>
      Some own_address
  | Scanning => None
  end.

(** The frame types the operations distinguish. *)
Inductive FrameType : Type :=
| Beacon
| ProbeResponse
| Authentication
| AssociationResponse
| OtherFrame.

#[export] Instance FrameType_eq_dec : EqDecision FrameType.
Proof. solve_decision. Defined.

Record GenericFrame : Type := MkGenericFrame {
  frame_type : FrameType;
  is_eapol_key_frame : bool;
}.

Definition sta_frame_relevant (op : StaRxRouterOperation) (g : GenericFrame) : bool :=
  match op with
  | Scanning => bool_decide (frame_type g = Beacon) || bool_decide (frame_type g = ProbeResponse)
  | Authenticating _ => bool_decide (frame_type g = Authentication)
  | Associating _ => bool_decide (frame_type g = AssociationResponse)
  | CryptoHandshake _ => is_eapol_key_frame g
  end.

(** The trait's defaults for concurrency. *)
#[export] Instance sta_operations : RxRouterOperation StaRxRouterOperation GenericFrame := {
  CONCORRUENT_OPERATIONS_SUPPORTED := false;
  op_relevant := sta_frame_relevant;
  compatible_with := fun _ _ => false;
}.

Definition SCAN_OPERATION : StaRxRouterOperation := Scanning.

Section StaRouter.
Context {Ch Sg : Type -> Type} `{ChannelLaws Ch, SignalLaws Sg} {Frame : Type}.
Context (parse : Frame -> option GenericFrame).
Notation router := (RxRouter (Ch := Ch) (Sg := Sg) (Frame := Frame) (Op := StaRxRouterOperation)).
Implicit Types (r : router) (q : RxRouterQueue).

Definition belongs_to (op : StaRxRouterOperation) (f : Frame) : bool :=
  match parse f with Some g => sta_frame_relevant op g | None => false end.

(** A poll of [receive_connection_response]; [None]: the fuel ran out. *)
Fixpoint receive_connection_response (fuel : nat) r q (op : StaRxRouterOperation)
  : option (poll Frame * router) :=
  match fuel with
  | 0 => None
  | S fuel =>
      match receive r q with
      | (PollPending, r) => Some (PollPending, r)
      | (PollReady frame, r) =>
          if belongs_to op frame then Some (PollReady frame, r)
          else receive_connection_response fuel r q op
      end
  end.

(** What is received is the first frame of the queue that belongs to the step, and it
    takes the frames before it with it; one round per queued frame is enough. *)
Lemma receive_connection_response_first r q op fuel :
  length (ch_contents (queue (queue_state r q))) < fuel ->
  match list_find (fun f => belongs_to op f = true) (ch_contents (queue (queue_state r q))) with
  | Some (i, f) => exists r', receive_connection_response fuel r q op = Some (PollReady f, r') /\
      ch_contents (queue (queue_state r' q)) =
        drop (S i) (ch_contents (queue (queue_state r q)))
  | None => exists r', receive_connection_response fuel r q op = Some (PollPending, r') /\
      ch_contents (queue (queue_state r' q)) = []
  end.
Proof.
  revert r. induction fuel as [|fuel IH]; intros r Hf; [lia|]. simpl. unfold receive.
  destruct (ch_try_receive (queue (queue_state r q))) as [[f c]|] eqn:Hr.
  - apply ch_try_receive_contents in Hr. rewrite Hr in *. simpl in *.
    set (r1 := set_queue_state r q (MkQueueState c (operation r q))).
    assert (ch_contents (queue (queue_state r1 q)) = ch_contents c) as Hc by (by destruct q).
    specialize (IH r1). rewrite Hc in IH.
    destruct (belongs_to op f) eqn:Hb; [rewrite decide_True by done; by exists r1|].
    rewrite decide_False by done. specialize (IH ltac:(lia)).
    destruct (list_find _ (ch_contents c)) as [[i f']|]; exact IH.
  - apply ch_try_receive_empty in Hr. rewrite Hr. simpl. by exists r.
Qed.
End StaRouter.
