(* ===== verification/Connect.v ===== *)
(** * Connecting: foa_sta/src/operations/connect.rs, control.rs and runner.rs

    [ConnectionOperation] as an async function of the station: the channel lock, the
    router operation, the key slots and the receive filters it takes and gives back,
    the exchange of management and key frames with its retries, and the installation
    of the keys.  [Station] is the state the control task and the connection runner
    share; the runner's polls are the other tasks' steps, so they interleave with every
    await of a connection set-up. *)
From S2P Require Import Prelude Bytes Network Platform Async Lmac Locks KeySlots RxRouter Eapol Rsn Bss Sta.
From S2P Require Import StaRouter.

(** ** EAPOL-Key frames that are sent *)

(** Bits of the key information field of IEEE 802.11, as the setters of
    [KeyInformation] place them: version 2 is HMAC-SHA1 with AES. *)
Definition key_information (pairwise mic secure : bool) : Z :=
  Z.lor 2 (Z.lor (Z.shiftl (Z.b2z pairwise) 3)
    (Z.lor (Z.shiftl (Z.b2z mic) 8) (Z.shiftl (Z.b2z secure) 9))).
Definition is_pairwise (information : Z) : bool := Z.testbit information 3.

Record KeyFrame : Type := MkKeyFrame {
  kf_information : Z;
  kf_length : Z;
  kf_counter : Z;
  kf_nonce : list Z;
  (** Whether the key data carries the RSN element. *)
  kf_rsn : bool;
}.

Definition message_2 (snonce : list Z) (counter : Z) : KeyFrame :=
  MkKeyFrame (key_information true true false) 16 counter snonce true.
Definition message_4 (snonce : list Z) (counter : Z) : KeyFrame :=
  MkKeyFrame (key_information true true true) 16 counter snonce false.
Definition group_message_2 (counter : Z) : KeyFrame :=
  MkKeyFrame 0x0302 0 counter (replicate 32 0%Z) false.
Definition group_request (counter : Z) : KeyFrame :=
  MkKeyFrame 0x0b02 0 counter (replicate 32 0%Z) false.

(** A frame handed to the transmit queue.  A protected key frame has its packet number
    and hardware key slot; a data frame its key id too. *)
Inductive sent_frame : Type :=
| SentDeauth (bssid own : list Z)
| SentAuthentication (bssid own : list Z)
| SentAssociation (bssid own ssid : list Z) (rsn : bool)
| SentKey (bssid own kck : list Z) (frame : KeyFrame) (protection : option (Z * nat))
| SentMsdu (bssid own : list Z) (frame : EthernetFrame) (protection : option (Z * Z * nat)).

(** The crates' part: key derivation, serialization of key frames into at most 500
    bytes, parsing of the responses (status, and association id), and the SSID
    element. *)
Class ConnectCrypto `{RsnCrypto} : Type := {
  derive_ptk : list Z -> list Z -> list Z -> list Z -> list Z -> list Z;
  WPA2_PSK_AKM : AkmType;
  CCMP_128 : CipherSuite;
  serialize_key_frame : list Z -> list Z -> list Z -> KeyFrame -> option (list Z);
  parse_authentication : list Z -> option Z;
  parse_association : list Z -> option (option Z * Z);
  ssid_element_ok : list Z -> bool;
}.

(** ** The station *)

Section Connect.
Context `{ConnectCrypto, Ieee80211} {Sg Ch W : Type -> Type} `{Signal Sg, Channel Ch, Watch W, Radio}.
(** The station's interface number. *)
Context (interface : nat).

Record Station : Type := MkStation {
  sta : Sta (Sg := Sg);
  lmac : LMac (W := W);
  receiver_address_filter : option (list Z);
  bssid_filter : option (list Z);
  router : RxRouter (Ch := Ch) (Sg := Sg) (Frame := list Z) (Op := StaRxRouterOperation);
  (** The connection the runner runs, and whether it waits for the tracker's signal. *)
  running : option ConnectionInfo;
  runner_waiting : bool;
  link_up : bool;
  hardware_address : list Z;
  sent : list sent_frame;
}.
Implicit Types (s : Station) (bss : BSS).

Definition with_sta s (x : Sta) : Station :=
  MkStation x (lmac s) (receiver_address_filter s) (bssid_filter s) (router s) (running s)
    (runner_waiting s) (link_up s) (hardware_address s) (sent s).
Definition with_lmac s (x : LMac) : Station :=
  MkStation (sta s) x (receiver_address_filter s) (bssid_filter s) (router s) (running s)
    (runner_waiting s) (link_up s) (hardware_address s) (sent s).
Definition with_filters s (ra bssid : option (list Z)) : Station :=
  MkStation (sta s) (lmac s) ra bssid (router s) (running s) (runner_waiting s) (link_up s)
    (hardware_address s) (sent s).
Definition with_router s r : Station :=
  MkStation (sta s) (lmac s) (receiver_address_filter s) (bssid_filter s) r (running s)
    (runner_waiting s) (link_up s) (hardware_address s) (sent s).
Definition with_runner s (r : option ConnectionInfo) (waiting up : bool) (address : list Z) : Station :=
  MkStation (sta s) (lmac s) (receiver_address_filter s) (bssid_filter s) (router s) r waiting up
    address (sent s).
Definition with_sent s (f : sent_frame) : Station :=
  MkStation (sta s) (lmac s) (receiver_address_filter s) (bssid_filter s) (router s) (running s)
    (runner_waiting s) (link_up s) (hardware_address s) (sent s ++ [f]).

(** A synchronous operation on the channel. *)
Definition on_channel {A} s (f : ChannelState -> outcome (A * ChannelState)) : outcome (A * Station) :=
  '(a, cs) ← f (lm_channel (lmac s));
  mret (a, with_lmac s (with_channel (lmac s) cs)).

Definition unlock_own_channel s : outcome Station :=
  cs ← unlock_channel (lm_channel (lmac s)) interface;
  mret (with_lmac s (with_channel (lmac s) cs)).

(** ** The connection runner (runner.rs) *)

(** The end of a round of [ConnectionRunner::run]. *)
Definition runner_disconnected s (reason : DisconnectionReason) : outcome Station :=
  s ← unlock_own_channel s;
  let s := with_filters s (receiver_address_filter s) None in
  let s := with_sta s (connection_ended (sta s) reason) in
  mret (with_runner s None false false (hardware_address s)).

(** A poll of [ConnectionRunner::run] as far as the connection state goes. *)
Definition runner_poll s : outcome Station :=
  match running s with
  | None =>
      '(p, t) ← expect (wait_for_connection 2 (runner_waiting s) (tracker (sta s)));
      let s := with_sta s (set_tracker (sta s) t) in
      match p with
      | PollReady info => mret (with_runner s (Some info) false true (own_address info))
      | PollPending => mret (with_runner s None true (link_up s) (hardware_address s))
      end
  | Some info =>
      '(p, t) ← expect (wait_for_disconnection 2 (runner_waiting s) (tracker (sta s)));
      let s := with_sta s (set_tracker (sta s) t) in
      match p with
      | PollReady reason => runner_disconnected s reason
      | PollPending => mret (with_runner s (Some info) true (link_up s) (hardware_address s))
      end
  end.

(** The steps of other tasks: the runner's, and what other interfaces do to the lower MAC. *)
Inductive task_step : Type :=
| TRunner
| TRunnerEnds (reason : DisconnectionReason)
| TMac (o : mac_action).

(** [TRunnerEnds]: [run_connection] returned by itself. *)
Definition task_run s (o : task_step) : outcome Station :=
  match o with
  | TRunner => runner_poll s
  | TRunnerEnds reason =>
      match running s with
      | Some _ => if connected (tracker (sta s)) then runner_disconnected s reason else mret s
      | None => mret s
      end
  | TMac o => lm ← mac_step interface (lmac s) o; mret (with_lmac s lm)
  end.

(** What an await of the set-up waits for: a wake-up, a transmit buffer, the end of a
    transmission ([None]: the completion was lost), a received frame, a timeout. *)
Inductive own_event : Type :=
| EWake
| EBuffer
| ECompletion (res : option bool)
| EFrame (frame : list Z)
| ETimeout.

Notation fut := (fut (W := Station) (Own := own_event) (Other := task_step) (Error := StaError)).
Notation await := (await (Error := StaError) task_run).
Local Open Scope fut_scope.

Definition alloc_tx_buf : fut unit :=
  await (fun e => match e with EBuffer => Some tt | _ => None end).
Definition transmit_edca (f : sent_frame) : fut unit := sync (fun s => Done (tt, with_sent s f)).
Definition wait_for_completion : fut (option bool) :=
  await (fun e => match e with ECompletion res => Some res | _ => None end).
Definition receive_frame : fut (list Z) :=
  await (fun e => match e with EFrame f => Some f | _ => None end).
(** [receive_connection_response(..).with_timeout(..)]. *)
Definition receive_with_timeout : fut (option (list Z)) :=
  await (fun e => match e with EFrame f => Some (Some f) | ETimeout => Some None | _ => None end).

(** ** Key frames *)

(** The transmit buffer behind the serialized frame. *)
Definition in_tx_buffer (bytes : list Z) : list Z :=
  bytes ++ replicate (TX_BUFFER_SIZE - length bytes) 0%Z.

(** The protection of a group frame: the next packet number, then [protect_eapol]. *)
Definition protect_key_frame s (bytes : list Z)
  : outcome (result StaError (option (Z * nat)) * Station) :=
  match crypto_state (sta s) with
  | None => mret (Err GroupKeyHandshakeFailure, s)
  | Some st =>
      let '((pn, _, slot), st) := tx_crypto_info st in
      let s := with_sta s (set_crypto (sta s) (Some st)) in
      protected ← protect_eapol (in_tx_buffer bytes) (length bytes) pn;
      match protected with
      | None => mret (Err GroupKeyHandshakeFailure, s)
      | Some _ => mret (Ok (Some (pn, slot)), s)
      end
  end.

(** From the serialization to the transmit queue. *)
Definition transmit_key_frame s (bssid own : list Z) (payload : KeyFrame) (kck : list Z)
  : outcome (result StaError unit * Station) :=
  bytes ← expect (serialize_key_frame kck bssid own payload);
  '(protection, s) ←
    (if is_pairwise (kf_information payload) then mret (Ok None, s) else protect_key_frame s bytes);
  match protection with
  | Err e => mret (Err e, s)
  | Ok protection => mret (Ok tt, with_sent s (SentKey bssid own kck payload protection))
  end.

Definition send_eapol_key_frame (bssid own : list Z) (payload : KeyFrame) (kck : list Z) : fut unit :=
  alloc_tx_buf ;;;
  queued <- sync (fun s => transmit_key_frame s bssid own payload kck) ;;
  of_result queued ;;;
  res <- wait_for_completion ;;
  match res with
  | Some true => done tt
  | Some false => fail AckTimeout
  | None => fail TxCompletionLost
  end.

Definition send_message_4 (bssid own kck snonce : list Z) (counter : Z) : fut unit :=
  send_eapol_key_frame bssid own (message_4 snonce counter) kck.
Definition send_message_2 (bssid own kck snonce : list Z) (counter : Z) : fut unit :=
  send_eapol_key_frame bssid own (message_2 snonce counter) kck.
Definition send_group_message_2 (bssid own kck : list Z) (counter : Z) : fut unit :=
  send_eapol_key_frame bssid own (group_message_2 counter) kck.
Definition send_group_request (bssid own kck : list Z) (counter : Z) : fut unit :=
  send_eapol_key_frame bssid own (group_request counter) kck.

(** ** Authentication and association *)

(** The [for] loop: [n] more transmissions of the frame. *)
Fixpoint attempts (n : nat) (frame : sent_frame) : fut (list Z) :=
  match n with
  | 0 => fail ResponseTimeout
  | S n =>
      transmit_edca frame ;;;
      res <- wait_for_completion ;;
      match res with
      | None => fail ResponseTimeout
      | Some _ =>
          response <- receive_with_timeout ;;
          match response with Some f => done f | None => attempts n frame end
      end
  end.

(** [for _ in 0..=handshake_retries]. *)
Definition do_bidirectional_connection_step (config : ConnectionConfig) (frame : sent_frame)
  : fut (list Z) := attempts (S (handshake_retries config)) frame.

Definition do_auth (config : ConnectionConfig) bss (own : list Z) : fut unit :=
  alloc_tx_buf ;;;
  response <- do_bidirectional_connection_step config (SentAuthentication (bss_bssid bss) own) ;;
  match parse_authentication response with
  | None => fail FrameDeserializationFailed
  | Some status => if decide (status = 0%Z) then done tt else fail (AuthenticationFailure status)
  end.

(** [router_operation.transition(..).expect(..)]. *)
Definition router_transition (op : StaRxRouterOperation) : fut unit :=
  sync (fun s =>
    '(res, r) ← transition (router s) Foreground op;
    match res with Ok _ => mret (tt, with_router s r) | Err _ => Panic end).

Definition do_assoc (config : ConnectionConfig) bss (own : list Z) : fut Z :=
  router_transition (Associating own) ;;;
  alloc_tx_buf ;;;
  (if ssid_element_ok (ssid bss) then done tt else fail InvalidBss) ;;;
  response <- do_bidirectional_connection_step config
    (SentAssociation (bss_bssid bss) own (ssid bss) (bool_decide (security_config bss <> Open))) ;;
  match parse_association response with
  | None => fail FrameDeserializationFailed
  | Some (Some aid, 0%Z) => done aid
  | Some (_, status) => fail (AssociationFailure status)
  end.

(** ** The four-way handshake *)

(** Wait for message 1; a body that goes on has taken a frame. *)
Definition process_message_1 (own bssid : list Z) : fut InitialHandshake :=
  loop (fun _ : unit =>
    frame <- receive_frame ;;
    pending <- sync (fun s => p ← from_message_1 frame own bssid; mret (p, s)) ;;
    match pending with Some pending => done (inr pending) | None => done (inl tt) end) tt.

Definition process_message_3 (own bssid kck kek snonce : list Z) (pending : InitialHandshake)
  : fut (Message3 * InitialHandshake) :=
  loop (fun pending : InitialHandshake =>
    frame <- receive_frame ;;
    retry <- sync (fun s => r ← message_1_retry pending frame own bssid; mret (r, s)) ;;
    match retry with
    | (Some counter, pending) =>
        send_message_2 bssid own kck snonce counter ;;;
        done (inl pending)
    | (None, pending) =>
        key <- sync (fun s =>
          r ← message_3 pending frame TX_BUFFER_SIZE kck kek own bssid; mret (r, s)) ;;
        match key with
        | (Some key, pending) => done (inr (key, pending))
        | (None, pending) => done (inl pending)
        end
    end) pending.

(** The KCK and the KEK of a PTK, as arrays of 16 bytes. *)
Definition handshake_keys (ptk : list Z) : outcome (list Z * list Z) :=
  '(kck, kek, _) ← expect (partition_ptk ptk WPA2_PSK_AKM CCMP_128);
  kck ← expect (to_16 kck);
  kek ← expect (to_16 kek);
  mret (kck, kek).

(** [snonce]: the bytes of the random number generator. *)
Definition do_4whs (pmk own snonce : list Z) bss
  : fut (SecurityAssociations * Message3Replay) :=
  let bssid := bss_bssid bss in
  router_transition (CryptoHandshake own) ;;;
  pending <- process_message_1 own bssid ;;
  let anonce := ih_authenticator_nonce pending in
  let ptk := derive_ptk pmk bssid own anonce snonce in
  keys <- sync (fun s => k ← handshake_keys ptk; mret (k, s)) ;;
  let kck := fst keys in
  let kek := snd keys in
  send_message_2 bssid own kck snonce (ih_replay_counter pending) ;;;
  alloc_tx_buf ;;;
  m3 <- process_message_3 own bssid kck kek snonce pending ;;
  let gtk := tksa_new (m3_gtk (fst m3)) (m3_gtk_id (fst m3)) in
  send_message_4 bssid own kck snonce (ih_replay_counter (snd m3)) ;;;
  sync (fun s =>
    sa ← initial_associations (tksa_new ptk 0) gtk WPA2_PSK_AKM CCMP_128;
    mret ((sa, message3_replay_new anonce snonce (ih_replay_counter (snd m3))), s)).

(** ** [ConnectionOperation::run] *)

(** [Drop for ConnectionOperation]. *)
Definition clear_filters s : outcome Station := mret (with_filters s None None).

(** The drop of the bring-up operation, and of the router operation if it was
    started: the endpoint is ours, so its operation is. *)
Definition drop_bringup s : outcome Station :=
  cs ← bringup_drop (lm_channel (lmac s)) interface;
  mret (with_lmac s (with_channel (lmac s) cs)).
Definition drop_router_operation s : outcome Station :=
  mret (match operation (router s) Foreground with
    | Some _ => with_router s (scoped_drop (router s) Foreground)
    | None => s
    end).
Definition drop_key_slots (slots : option (list KeySlot * KeySlot)) s : outcome Station :=
  mret (match slots with
    | Some (g, p) => with_sta s (set_keys (sta s) (drop_slots (key_slots (sta s)) (g ++ [p])))
    | None => s
    end).

(** A poll of both futures of the [join]: the router operation, and the wait for the
    end of an off-channel operation. *)
Definition join_poll (op : StaRxRouterOperation) s (started completed : bool)
  : (bool * bool) * Station :=
  let '(started, s) :=
    if started then (true, s)
    else match start_poll (router s) Foreground op with
      | (PollReady _, r) => (true, with_router s r)
      | (PollPending, r) => (false, with_router s r)
      end in
  let completed := completed ||
    match completion_wait_poll (lmac s) with PollReady _ => true | PollPending => false end in
  ((started, completed), s).

(** Its first poll: neither future waits if it need not. *)
Definition join_start (op : StaRxRouterOperation) s : (bool * bool) * Station :=
  let now := negb (start_must_wait (router s) Foreground op) in
  let s := if now then with_router s (start_operation_internal (router s) Foreground op) else s in
  join_poll op s now (negb (completion_wait_needed (lmac s))).

Definition join_operations (op : StaRxRouterOperation) : fut unit :=
  first <- sync (fun s => Done (join_start op s)) ;;
  loop (fun st : bool * bool =>
    if fst st && snd st then done (inr tt)
    else
      await (fun e => match e with EWake => Some tt | _ => None end) ;;;
      st <- sync (fun s => Done (join_poll op s (fst st) (snd st))) ;;
      done (inl st)) first.

Definition configure_rx_filters (own : list Z) bss : fut unit :=
  sync (fun s => Done (tt, with_filters s (Some own) (Some (bss_bssid bss)))).

(** The parameters of a connection: the derivation of a key from a passphrase, the
    credentials, the supplicant's nonce. *)
Record ConnectionParameters : Type := MkConnectionParameters {
  map_passphrase : list Z -> list Z -> nat -> list Z;
  cp_config : ConnectionConfig;
  cp_own_address : list Z;
  credentials : option Credentials;
  cp_snonce : list Z;
}.
Implicit Types (cp : ConnectionParameters).

Definition acquire_connection_slots cp bss : fut (option (list KeySlot * KeySlot)) :=
  slots <- sync (fun s =>
    let '(r, m) := connection_key_slots (map_passphrase cp) (key_slots (sta s)) interface bss
      (credentials cp) in
    Done (r, with_sta s (set_keys (sta s) m))) ;;
  of_result slots.

Definition connection_pmk cp bss : list Z :=
  default [] (c ← credentials cp; pmk (map_passphrase cp) c 32 (ssid bss)).

(** From the filters to the installed keys. *)
Definition exchange cp bss (slots : option (list KeySlot * KeySlot)) : fut Z :=
  let own := cp_own_address cp in
  configure_rx_filters own bss ;;;
  do_auth (cp_config cp) bss own ;;;
  aid <- do_assoc (cp_config cp) bss own ;;
  match slots with
  | None => done aid
  | Some _ =>
      keys <- do_4whs (connection_pmk cp bss) own (cp_snonce cp) bss ;;
      sync (fun s =>
        x ← install_crypto_state (sta s) slots (bss_bssid bss) keys;
        mret (aid, with_sta s x))
  end.

(** The operations are completed on success, and dropped otherwise. *)
Definition connection_run cp bss : fut Z :=
  guard clear_filters (
    locked <- sync (fun s => on_channel s (fun cs =>
      begin_interface_bringup_operation cs interface (bss_channel bss))) ;;
    match locked with
    | Err e => fail (LMacFailure e)
    | Ok op =>
        guard drop_bringup (
          aid <- guard drop_router_operation (
            join_operations (Authenticating (cp_own_address cp)) ;;;
            slots <- acquire_connection_slots cp bss ;;
            guard (drop_key_slots slots) (exchange cp bss slots)) ;;
          sync (fun s => s ← drop_router_operation s; mret (aid, s)))
    end).

(** ** The control of the station (control.rs) *)

Definition deauthenticate (bssid own : list Z) : fut unit :=
  alloc_tx_buf ;;; transmit_edca (SentDeauth bssid own).

(** [disconnect_internal]: the state is signalled, and a frame is queued. *)
Definition disconnect_station (info : ConnectionInfo) : fut unit :=
  sync (fun s => Done (tt, with_sta s (disconnect_internal (sta s)))) ;;;
  deauthenticate (bss_bssid (info_bss info)) (own_address info).

Definition get {A} (f : Station -> A) : fut A := sync (fun s => Done (f s, s)).

Definition control_connect (mp : list Z -> list Z -> nat -> list Z) (snonce : list Z) bss
  (config : option ConnectionConfig) (creds : option Credentials) : fut unit :=
  if bool_decide (security_config bss <> Open) && bool_decide (creds = None)
  then fail NoCredentialsForNetwork
  else
    info <- get (fun s => connection_info (tracker (sta s))) ;;
    match info with
    | Some info =>
        if bool_decide (bss_bssid (info_bss info) = bss_bssid bss) then fail SameNetwork
        else disconnect_station info
    | None => done tt
    end ;;;
    address <- get (fun s => mac_address (sta s)) ;;
    let config := default connection_config_default config in
    aid <- connection_run (MkConnectionParameters mp config address creds snonce) bss ;;
    sync (fun s => Done (tt, with_sta s (set_tracker (sta s) (signal_state (tracker (sta s))
      (Connected (MkConnectionInfo bss address aid config)))))).

Definition control_disconnect : fut unit :=
  info <- get (fun s => connection_info (tracker (sta s))) ;;
  match info with
  | None => fail NotConnected
  | Some info =>
      sync (fun s => s ← unlock_own_channel s; mret (tt, s)) ;;;
      disconnect_station info
  end.

(** [request_group_rekey]: the counter is taken before the frame is sent. *)
Definition request_group_rekey : fut unit :=
  info <- get (fun s => connection_info (tracker (sta s))) ;;
  match info with
  | None => fail NotConnected
  | Some info =>
      request <- sync (fun s =>
        match crypto_state (sta s) with
        | None => Done (None, s)
        | Some st =>
            let '(r, st) := next_group_request st in
            Done (r, with_sta s (set_crypto (sta s) (Some st)))
        end) ;;
      match request with
      | None => fail GroupKeyHandshakeFailure
      | Some (kck, counter) =>
          send_group_request (bss_bssid (info_bss info)) (own_address info) kck counter
      end
  end.
End Connect.

(** What the set-up relies on in the crates, beyond [Ieee80211Laws]: the parts of a
    derived key are 16 bytes each, key frames fit the buffer, and the driver accepts a
    CCMP key for a slot, an interface and a key id that exist; an interface has a
    number of one byte. *)
Class ConnectLaws `{ConnectCrypto, !Ieee80211, Radio} : Prop := {
  derived_key_parts : forall pmk bssid own anonce snonce, exists kck kek tk,
    partition_ptk (derive_ptk pmk bssid own anonce snonce) WPA2_PSK_AKM CCMP_128 =
      Some (kck, kek, tk) /\ length kck = 16 /\ length kek = 16 /\ length tk = 16;
  key_frames_fit : forall kck bssid own frame, is_Some (serialize_key_frame kck bssid own frame);
  interface_count_byte : INTERFACE_COUNT <= 256;
  set_key_succeeds : forall c k interface id address key type mfp spp,
    k < KEY_SLOT_COUNT -> interface < INTERFACE_COUNT -> (0 <= id < 4)%Z ->
    exists c', crypto_set_key c k interface id address (ccmp key type mfp spp) = (Ok tt, c');
}.
