(* ===== verification/ConnectBuilt.v ===== *)
(** * What the calls of the control are made of

    connect, disconnect and rekey (Connect.v) as futures that are [built] from steps of
    their own: they queue frames, change operations of the router and filters, change the
    station's own state, and lock or unlock their own interface.  Link, address and received
    frames they leave to the runner. *)
From stdpp Require Import relations.
From S2P Require Import Prelude Bytes Network Platform Async Resume Lmac Locks KeySlots RxRouter Eapol Rsn Bss.
From S2P Require Import Sta StaRouter Connect.

Section Built.
Context `{ConnectCrypto, Ieee80211} {Sg Ch W : Type -> Type} `{Signal Sg, Channel Ch, Watch W, Radio}.
Context (interface : nat) (interface_ok : interface < INTERFACE_COUNT).
Notation Station := (Station (Sg := Sg) (Ch := Ch) (W := W)).
Notation fut := (fut (W := Station) (Own := own_event) (Other := task_step) (Error := StaError)).
Implicit Types (st : Station) (bss : BSS) (cp : ConnectionParameters).

(** ** The steps *)

Definition same_queues (r r' : RxRouter (Ch := Ch) (Sg := Sg) (Frame := list Z) (Op := StaRxRouterOperation)) : Prop :=
  forall q, queue (queue_state r' q) = queue (queue_state r q).

Inductive control_step st : Station -> Prop :=
| control_sent f : control_step st (with_sent st f)
| control_router r : same_queues (router st) r -> control_step st (with_router st r)
| control_filters own bssid : control_step st (with_filters st own bssid)
| control_sta x : control_step st (with_sta st x)
| control_mac o lm : mac_allowed (fun i => i = interface) o = true ->
    mac_apply (lmac st) o = Done lm -> control_step st (with_lmac st lm).

Notation control_run := (rtc control_step).
Notation made := (built (task_run interface) control_run _).

Lemma made_sync {A} (f : Station -> outcome (A * Station)) :
  (forall st a st', f st = Done (a, st') -> control_run st st') -> made (sync f : fut A).
Proof. apply built_sync. Qed.

(** Synchronous code that computes a value. *)
Lemma made_compute {A} (m : Station -> outcome A) : made (sync (fun st => a ← m st; mret (a, st)) : fut A).
Proof.
  apply made_sync. intros st a st' Hm. apply outcome_bind_Done in Hm as (x & _ & Hm).
  injection Hm as <- <-. apply rtc_refl.
Qed.

Lemma made_get {A} (f : Station -> A) : made (get f : fut A).
Proof. apply made_sync. intros st a st' [= <- <-]. apply rtc_refl. Qed.

Ltac one c := eapply rtc_once, c.

Ltac made := repeat match goal with
  | |- built _ _ _ (bind_fut _ _) => apply built_bind; [|intros ?]
  | |- built _ _ _ (done _) => apply built_done
  | |- built _ _ _ (fail _) => apply built_fail
  | |- built _ _ _ (await _ _) => apply built_await
  | |- built _ _ _ (of_result _) => apply built_of_result
  | |- built _ _ _ (get _) => apply made_get
  | |- built _ _ _ (sync (fun s => _ ← _; mret (_, s))) => apply made_compute
  | |- built _ _ _ (match ?x with _ => _ end) => destruct x
  | |- built _ _ _ (if ?x then _ else _) => destruct x
  | H : context [built] |- _ => apply H
  | |- built _ _ _ _ => apply built_await
  end.

Lemma made_transmit f : made (transmit_edca f : fut unit).
Proof. apply made_sync. intros st [] st' [= <-]. one control_sent. Qed.

Lemma made_attempts n f : made (attempts interface n f : fut (list Z)).
Proof.
  induction n as [|n IH]; simpl; [apply built_fail|].
  apply built_bind; [apply made_transmit|intros _]. made.
Qed.

Lemma start_same_queues r q op : same_queues r (start_operation_internal r q op).
Proof. by intros []; destruct q. Qed.
Lemma drop_same_queues r q : same_queues r (scoped_drop r q).
Proof. by intros []; destruct q. Qed.

Lemma made_transition op : made (router_transition op : fut unit).
Proof.
  apply made_sync. intros st [] st' Ht. apply outcome_bind_Done in Ht as ([[[]|] r] & Hr & Ht); [|done].
  injection Ht as <-. eapply rtc_once, control_router. unfold transition in Hr.
  destruct (stop_operation_internal _ _) as [p r1] eqn:Hs. injection Hs as _ <-.
  apply outcome_bind_Done in Hr as (p' & _ & Hr).
  destruct (is_ok _); [|done]. injection Hr as <-. by intros [].
Qed.

Lemma made_auth config bss own : made (do_auth interface config bss own : fut unit).
Proof. unfold do_auth, do_bidirectional_connection_step. pose proof made_attempts. made. Qed.

Lemma made_assoc config bss own : made (do_assoc interface config bss own : fut Z).
Proof.
  unfold do_assoc, do_bidirectional_connection_step. pose proof made_attempts. pose proof made_transition. made.
Qed.

Lemma transmit_key_frame_run st bssid own payload kck r st' :
  transmit_key_frame st bssid own payload kck = Done (r, st') -> control_run st st'.
Proof.
  intros Ht. unfold transmit_key_frame in Ht. apply outcome_bind_Done in Ht as (bytes & _ & Ht).
  apply outcome_bind_Done in Ht as ([p st1] & Hp & Ht).
  assert (control_run st st1) as H1st.
  { destruct (is_pairwise _); [injection Hp as <- <-; apply rtc_refl|]. unfold protect_key_frame in Hp.
    destruct (crypto_state _); [|injection Hp as <- <-; apply rtc_refl].
    destruct (tx_crypto_info _) as [[[? ?] ?] ?].
    apply outcome_bind_Done in Hp as (pr & _ & Hp). destruct pr; injection Hp as <- <-; one control_sta. }
  destruct p; injection Ht as <- <-; [|done]. eapply rtc_r; [done|apply control_sent].
Qed.

Lemma made_send bssid own payload kck : made (send_eapol_key_frame interface bssid own payload kck : fut unit).
Proof.
  unfold send_eapol_key_frame. apply built_bind; [apply built_await|intros _].
  apply built_bind; [apply made_sync|intros r; made].
  intros st a st'. by apply transmit_key_frame_run.
Qed.

Lemma made_message_1 own bssid : made (process_message_1 interface own bssid : fut InitialHandshake).
Proof.
  unfold process_message_1. apply built_loop; [|intros []; made].
  apply (takes_await (task_run interface) control_run (fun (_ : unit) e => match e with EFrame f => Some f | _ => None end)
    (fun _ frame => _)). intros [] frame. made.
Qed.

Lemma made_message_3 own bssid kck kek snonce pending :
  made (process_message_3 interface own bssid kck kek snonce pending : fut (Message3 * InitialHandshake)).
Proof.
  pose proof made_send. unfold process_message_3, send_message_2. apply built_loop; [|intros p; made].
  apply (takes_await (task_run interface) control_run (fun (_ : InitialHandshake) e => match e with EFrame f => Some f | _ => None end)
    (fun p frame => _)). intros p frame. made.
Qed.

Lemma made_4whs pmk own snonce bss :
  made (do_4whs interface pmk own snonce bss : fut (SecurityAssociations * Message3Replay)).
Proof.
  unfold do_4whs. cbv zeta. pose proof made_transition. pose proof made_send.
  pose proof made_message_1. pose proof made_message_3. unfold send_message_2, send_message_4.
  repeat (apply built_bind; [made|intros ?]). apply made_sync.
  intros st sa st' Hm. apply outcome_bind_Done in Hm as (x & _ & Hm). injection Hm as <- <-. apply rtc_refl.
Qed.

Lemma join_poll_run op st started completed r st' :
  join_poll op st started completed = (r, st') -> control_run st st'.
Proof.
  unfold join_poll. destruct started; [intros [= <- <-]; apply rtc_refl|].
  unfold start_poll. destruct (sg_wait _) as [[_ g]|]; intros [= <- <-]; eapply rtc_once, control_router; by intros [].
Qed.

Lemma made_join op : made (join_operations interface op : fut unit).
Proof.
  unfold join_operations. apply built_bind; [|intros first; apply built_loop].
  - apply made_sync. intros st r st' [= Hj]. unfold join_start in Hj.
    destruct (negb _); apply join_poll_run in Hj; [|done].
    eapply rtc_l; [|exact Hj]. apply control_router, start_same_queues.
  - intros [a b] w env s' rest w'. destruct (fst (a, b) && snd (a, b)); [done|].
    apply (takes_await (task_run interface) control_run (fun (_ : bool * bool) e => match e with EWake => Some tt | _ => None end)
      (fun p _ => bind_fut (sync (fun s => Done (join_poll op s (fst p) (snd p)))) (fun p => done (inl p)))).
    intros p _. apply built_bind; [|intros ?; made]. apply made_sync.
    intros s r s2 [= Hj]. by eapply join_poll_run.
  - intros [a b]. destruct (_ && _); [made|]. apply built_bind; [made|intros _].
    apply built_bind; [|intros ?; made]. apply made_sync. intros st r st' [= Hj]. by eapply join_poll_run.
Qed.

Lemma unlock_own_run st cs : unlock_channel (lm_channel (lmac st)) interface = Done cs ->
  control_run st (with_lmac st (with_channel (lmac st) cs)).
Proof.
  intros Hu. eapply rtc_once, (control_mac st (OUnlock interface)).
  - by apply bool_decide_eq_true.
  - simpl. by rewrite Hu.
Qed.

Lemma bringup_run st bss r st' :
  on_channel st (fun cs => begin_interface_bringup_operation cs interface (bss_channel bss)) = Done (r, st') ->
  control_run st st'.
Proof.
  intros Ho. apply outcome_bind_Done in Ho as ([res cs] & Hb & [= <- <-]).
  apply outcome_bind_Done in Hb as ([r1 cs1] & Hl & Hb).
  assert (cs1 = cs) as -> by (by destruct r1; injection Hb).
  eapply rtc_once, (control_mac st (OLock interface (bss_channel bss))).
  - by apply bool_decide_eq_true.
  - simpl. unfold lock_channel. by rewrite Hl.
Qed.

Lemma drop_router_run st st' : drop_router_operation st = Done st' -> control_run st st'.
Proof.
  unfold drop_router_operation. intros [= <-]. destruct (operation _ _); [|apply rtc_refl].
  eapply rtc_once, control_router, drop_same_queues.
Qed.

Lemma made_exchange cp bss slots : made (exchange interface cp bss slots : fut Z).
Proof.
  pose proof made_auth. pose proof made_assoc. pose proof made_4whs.
  unfold exchange. apply built_bind; [|intros _].
  { apply made_sync. intros st [] st' [= <-]. one control_filters. }
  apply built_bind; [made|intros _]. apply built_bind; [made|intros aid].
  destruct slots as [sl|]; [|made]. apply built_bind; [made|intros keys].
  apply made_sync. intros st a st' Hi. apply outcome_bind_Done in Hi as (x & _ & Hi).
  injection Hi as <- <-. one control_sta.
Qed.

Lemma made_connection_run cp bss : made (connection_run interface cp bss : fut Z).
Proof.
  pose proof made_join. pose proof made_exchange. unfold connection_run. apply built_guard.
  2: { intros st st' [= <-]. one control_filters. }
  apply built_bind; [apply made_sync; intros st r st'; apply bringup_run|].
  intros [op|e]; [|made]. apply built_guard.
  2: { intros st st' Hd. apply outcome_bind_Done in Hd as (cs & Hu & [= <-]). by apply unlock_own_run. }
  apply built_bind; [|intros aid; apply made_sync].
  2: { intros st a st' Hd. apply outcome_bind_Done in Hd as (st1 & Hd & [= <- <-]). by apply drop_router_run. }
  apply built_guard; [|intros st st'; apply drop_router_run]. apply built_bind; [made|intros _].
  apply built_bind; [unfold acquire_connection_slots; apply built_bind; [apply made_sync|intros ?; made]|intros slots].
  { intros st r st'. destruct (connection_key_slots _ _ _ _ _) as [r0 m]. intros [= <- <-]. one control_sta. }
  apply built_guard; [made|].
  intros st st' [= <-]. destruct slots as [[g p]|]; [one control_sta|apply rtc_refl].
Qed.

Lemma made_disconnect_station info : made (disconnect_station interface info : fut unit).
Proof.
  pose proof made_transmit. unfold disconnect_station, deauthenticate.
  apply built_bind; [apply made_sync; intros st [] st' [= <-]; one control_sta|intros _]. made.
Qed.

Lemma made_connect mp snonce bss config creds :
  made (control_connect interface mp snonce bss config creds : fut unit).
Proof.
  pose proof made_disconnect_station. unfold control_connect. destruct (_ && _); [made|].
  apply built_bind; [made|intros info]. apply built_bind; [made|intros _].
  apply built_bind; [made|intros address]. cbv zeta.
  apply built_bind; [apply made_connection_run|intros aid].
  apply made_sync. intros st [] st' [= <-]. one control_sta.
Qed.

Lemma made_disconnect : made (control_disconnect interface : fut unit).
Proof.
  unfold control_disconnect. apply built_bind; [made|].
  intros [info|]; [|made]. apply built_bind; [apply made_sync|intros _; apply made_disconnect_station].
  intros st [] st' Hu. apply outcome_bind_Done in Hu as (st1 & Hu & [= <-]).
  apply outcome_bind_Done in Hu as (cs & Hu & [= <-]). by apply unlock_own_run.
Qed.

Lemma made_rekey : made (request_group_rekey interface : fut unit).
Proof.
  pose proof made_send. unfold request_group_rekey, send_group_request.
  apply built_bind; [made|]. intros [info|]; [|made].
  apply built_bind; [apply made_sync|intros [[kck counter]|]; made].
  intros st a st'. destruct (crypto_state (sta st)) as [cs|]; [|intros [= <- <-]; apply rtc_refl].
  destruct (next_group_request cs). intros [= <- <-]. one control_sta.
Qed.
End Built.
