(* ===== verification/ConnectFacts.v ===== *)
(** * Facts about connecting

    What the steps of other tasks leave alone, and triples for the parts of a
    connection set-up.  Everything the set-up owns (the key slots, the router operation,
    the receiver address filter) is untouched by others; the channel lock and the BSSID
    filter are safe only while the runner has no connection to end. *)
From S2P Require Import Prelude Bytes Platform Async Lmac Locks KeySlots RxRouter Eapol Rsn Bss Sta.
From S2P Require Import StaRouter Connect.

Section ConnectFacts.
Context `{ConnectLaws, !Ieee80211Laws, !KeyHalLaws} {Sg Ch W : Type -> Type}
  `{SignalLaws Sg, ChannelLaws Ch, WatchLaws W, !RadioLaws}.
Context (interface : nat) (interface_ok : interface < INTERFACE_COUNT).
Notation Station := (Station (Sg := Sg) (Ch := Ch) (W := W)).
Implicit Types (s : Station) (bss : BSS).

Definition channel s : ChannelState := lm_channel (lmac s).

(** The runner has no connection, and there is none to start. *)
Definition quiet s : Prop := running s = None /\ connected (tracker (sta s)) = false.

(** What a step of another task may do to the station. *)
Record undisturbed s s' : Prop := {
  un_keys : key_slots (sta s') = key_slots (sta s);
  un_crypto : crypto_state (sta s') = crypto_state (sta s);
  un_address : mac_address (sta s') = mac_address (sta s);
  un_router : router s' = router s;
  un_ra : receiver_address_filter s' = receiver_address_filter s;
  un_bssid : bssid_filter s' = bssid_filter s \/ bssid_filter s' = None;
  un_sent : sent s' = sent s;
  un_locks : locks_ok (channel s) -> locks_ok (channel s');
  un_unlocked : ~ holds (channel s) interface -> ~ holds (channel s') interface;
  un_quiet : quiet s -> quiet s' /\ bssid_filter s' = bssid_filter s /\
    (holds (channel s) interface -> holds (channel s') interface /\
       home_channel (channel s') = home_channel (channel s));
}.

Lemma undisturbed_refl s : undisturbed s s.
Proof. by split; try done; left. Qed.

(** A signal gives at most one value. *)
Lemma sg_wait_once (g g1 : Sg unit) : sg_wait g = Some (tt, g1) -> sg_wait g1 = None.
Proof. intros Hw. apply sg_wait_Some in Hw as [_ Hn]. by apply sg_wait_None. Qed.

Ltac poll_signal g :=
  let g1 := fresh "g" in
  let Hg := fresh "Hg" in
  destruct (sg_wait g) as [[[] g1]|] eqn:Hg; cbn; [rewrite ?(sg_wait_once _ _ Hg)|].

Lemma wait_for_connection_total waiting (t : ConnectionStateTracker (Sg := Sg)) :
  exists p t', wait_for_connection 2 waiting t = Some (p, t') /\
    connection_state t' = connection_state t /\
    forall info, p = PollReady info -> connection_state t = Connected info.
Proof.
  destruct t as [[reason|info] g].
  - destruct waiting; cbn; poll_signal g; eexists _, _; (split; [done|]); by split.
  - destruct waiting; cbn; [poll_signal g|]; eexists _, _; (split; [done|]); (split; [done|]);
      intros ? [=]; by subst.
Qed.

Lemma wait_for_disconnection_total waiting (t : ConnectionStateTracker (Sg := Sg)) :
  exists p t', wait_for_disconnection 2 waiting t = Some (p, t') /\
    connection_state t' = connection_state t.
Proof.
  destruct t as [[reason|info] g]; destruct waiting; cbn; try poll_signal g; by eexists _, _.
Qed.

(** ** Steps of other tasks *)

(** The lock's owner can always give it up. *)
Lemma unlock_own_spec s :
  locks_ok (channel s) ->
  exists cs, unlock_own_channel interface s = Done (with_lmac s (with_channel (lmac s) cs)) /\
    locks_ok cs /\ ~ holds cs interface.
Proof.
  intros Hok. destruct (unlock_spec (channel s) interface Hok interface_ok)
    as (cs & Hu & Hok' & _ & _ & Hnh & _). exists cs. split; [|done].
  unfold unlock_own_channel, unlock_channel. unfold channel in Hu. by rewrite Hu.
Qed.

Lemma runner_disconnected_step s reason :
  locks_ok (channel s) -> running s <> None ->
  exists s', runner_disconnected interface s reason = Done s' /\ undisturbed s s' /\
    running s' = None /\ ~ holds (channel s') interface /\ bssid_filter s' = None.
Proof.
  intros Hok Hrun. destruct (unlock_own_spec s Hok) as (cs & Hu & Hok' & Hnh).
  unfold runner_disconnected. rewrite Hu. simpl. eexists. split; [done|].
  split; [|done]. split; try done; [by right|]. by intros [Hq _].
Qed.

Lemma runner_poll_step s :
  locks_ok (channel s) -> exists s', runner_poll interface s = Done s' /\ undisturbed s s'.
Proof.
  intros Hok. unfold runner_poll. destruct (running s) as [info|] eqn:Hrun.
  - destruct (wait_for_disconnection_total (runner_waiting s) (tracker (sta s)))
      as (p & t & Hw & Ht). rewrite Hw. cbn [expect mbind outcome_bind]. destruct p as [reason|].
    + destruct (runner_disconnected_step (with_sta s (set_tracker (sta s) t)) reason)
        as (s' & Hs' & Hu & _); [done|simpl; congruence|].
      rewrite Hs'. exists s'. split; [done|]. destruct Hu as [].
      split; try done. by intros [Hq _]; rewrite Hrun in Hq.
    + eexists. split; [done|]. split; try done; [by left|]. by intros [Hq _]; rewrite Hrun in Hq.
  - destruct (wait_for_connection_total (runner_waiting s) (tracker (sta s)))
      as (p & t & Hw & Ht & Hinfo). rewrite Hw. cbn [expect mbind outcome_bind].
    destruct p as [info|].
    + eexists. split; [done|]. split; try done; [by left|]. intros [_ Hq].
      unfold connected in Hq. by rewrite (Hinfo info eq_refl) in Hq.
    + eexists. split; [done|]. split; try done; [by left|]. intros [_ Hq].
      split; [|by split; [|split]]. split; [done|]. simpl. unfold connected in *. by rewrite Ht.
Qed.

(** No step of another task panics, and each leaves the set-up alone. *)
Lemma task_run_step s o :
  locks_ok (channel s) -> exists s', task_run interface s o = Done s' /\ undisturbed s s'.
Proof.
  intros Hok. pose proof (undisturbed_refl s) as Hrefl.
  destruct o as [|reason|o]; simpl.
  - by apply runner_poll_step.
  - destruct (running s) as [info|] eqn:Hrun; [|by exists s].
    destruct (connected _); [|by exists s].
    destruct (runner_disconnected_step s reason Hok) as (s' & Hs' & Hu & _); [congruence|].
    by exists s'.
  - destruct (mac_step_spec interface (lmac s) o Hok) as (lm & -> & (Hok' & Hn & Hh) & _). simpl.
    eexists. split; [done|]. split; try done; try (by left); intros Hq; by split.
Qed.

(** ** Assertions that input and output keep *)

(** Kept by other tasks, by a transmission, and by a change of our router operation. *)
Record steady (P : Station -> Prop) : Prop := {
  sy_tasks : stable (task_run interface) P;
  sy_sent : forall s f, P s -> P (with_sent s f);
  sy_router : forall s r, P s -> operation r Background = None ->
    is_Some (operation r Foreground) -> P (with_router s r);
  sy_operations : forall s, P s -> operation (router s) Background = None /\
    is_Some (operation (router s) Foreground);
}.

Lemma undisturbed_stable (P : Station -> Prop) :
  (forall s, P s -> locks_ok (channel s)) -> (forall s s', P s -> undisturbed s s' -> P s') ->
  stable (task_run interface) P.
Proof.
  intros Hl Hu s o Hs. destruct (task_run_step s o (Hl s Hs)) as (s' & -> & H'). by eapply Hu.
Qed.

Section Triples.
Context (P : Station -> Prop) (P_steady : steady P).
Implicit Types (own bssid kck kek snonce : list Z).

Lemma triple_wait {A} (f : own_event -> option A) :
  triple P (await (Error := StaError) (task_run interface) f) (fun _ => P) P.
Proof. apply triple_await; [by apply sy_tasks|done|done]. Qed.

Lemma triple_alloc : triple P (alloc_tx_buf interface) (fun _ => P) P.
Proof. apply triple_wait. Qed.

Lemma triple_transmit f : triple P (transmit_edca f) (fun _ => P) P.
Proof. apply triple_sync. intros s Hs. by apply sy_sent. Qed.

(** Synchronous code that only computes. *)
Lemma triple_compute {A} (m : outcome A) (phi : A -> Prop) (Q : A -> Station -> Prop) :
  (exists a, m = Done a /\ phi a) -> (forall a s, phi a -> P s -> Q a s) ->
  triple P (sync (Error := StaError) (Own := own_event) (Other := task_step)
    (fun s => a ← m; mret (a, s))) Q P.
Proof. intros (a & -> & Ha) HQ. apply triple_sync. intros s Hs. by apply HQ. Qed.

Lemma triple_attempts n f : triple P (attempts interface n f) (fun _ => P) P.
Proof.
  induction n as [|n IH]; simpl; [by apply triple_fail|].
  eapply triple_bind; [apply triple_transmit|intros []].
  eapply triple_bind; [apply triple_wait|intros [ok|]]; [|by apply triple_fail].
  eapply triple_bind; [apply triple_wait|intros [r|]]; [by apply triple_done|apply IH].
Qed.

Lemma triple_transition op : triple P (router_transition op) (fun _ => P) P.
Proof.
  apply triple_sync. intros s Hs. destruct (sy_operations _ P_steady s Hs) as [Hb [prev Hf]].
  unfold transition, stop_operation_internal. rewrite Hf. cbn [expect mbind outcome_bind].
  assert (operation (RxRouter.set_operation (router s) Foreground None) (opposite Foreground) = None)
    as Hno by exact Hb.
  rewrite can_start_alone, Hno by done. simpl. apply sy_router; [done|done|exact Hb|by eexists].
Qed.

Lemma triple_auth config bss own : triple P (do_auth interface config bss own) (fun _ => P) P.
Proof.
  eapply triple_bind; [apply triple_alloc|intros []].
  eapply triple_bind; [apply triple_attempts|intros r].
  destruct (parse_authentication r) as [status|]; [|by apply triple_fail].
  case_decide; [by apply triple_done|by apply triple_fail].
Qed.

Lemma triple_assoc config bss own : triple P (do_assoc interface config bss own) (fun _ => P) P.
Proof.
  eapply triple_bind; [apply triple_transition|intros []].
  eapply triple_bind; [apply triple_alloc|intros []].
  apply (triple_bind _ _ _ (fun _ => P));
    [|intros []; eapply triple_bind; [apply triple_attempts|intros r]].
  - destruct (ssid_element_ok (ssid bss)); [by apply triple_done|by apply triple_fail].
  - destruct (parse_association r) as [[[aid|] status]|]; [| |by apply triple_fail].
    + destruct status; [by apply triple_done|by apply triple_fail..].
    + by apply triple_fail.
Qed.

(** A pairwise key frame goes out in the clear. *)
Lemma triple_send_pairwise bssid own frame kck :
  is_pairwise (kf_information frame) = true ->
  triple P (send_eapol_key_frame interface bssid own frame kck) (fun _ => P) P.
Proof.
  intros Hp. unfold send_eapol_key_frame.
  eapply triple_bind; [apply triple_alloc|intros []].
  eapply (triple_bind _ _ _ (fun r s => r = Ok tt /\ P s)); [apply triple_sync|intros r].
  { intros s Hs. unfold transmit_key_frame. rewrite Hp.
    destruct (key_frames_fit kck bssid own frame) as [bytes ->].
    split; [done|]. by apply sy_sent. }
  eapply triple_bind; [apply (triple_of_result _ r (fun _ => P))|intros []].
  { by intros a s _ [_ Hs]. }
  { by intros e s -> [? _]. }
  eapply triple_bind; [apply triple_wait|intros [[]|]];
    [by apply triple_done|by apply triple_fail..].
Qed.

Lemma triple_message_1 own bssid : triple P (process_message_1 interface own bssid) (fun _ => P) P.
Proof.
  apply (triple_loop (fun _ => P)). intros [].
  eapply triple_bind; [apply triple_wait|intros frame].
  apply (triple_bind _ _ _ (fun _ => P)); [|intros [h|]; by apply triple_done].
  destruct (from_message_1_Done frame own bssid) as [h Hh].
  eapply (triple_compute _ (fun _ => True)); [by exists h|by intros].
Qed.

(** The key of message 3 has an id below four. *)
Definition gtk_id_ok (key : Message3) : Prop := (0 <= m3_gtk_id key < 4)%Z.

Lemma decrypt_message_3_id buffer n kck kek own bssid key :
  decrypt_message_3 buffer n kck kek own bssid = Done (Some key) -> gtk_id_ok key.
Proof.
  unfold decrypt_message_3. intros Hd. apply outcome_bind_Done in Hd as ([e|] & _ & Hd); [|done].
  apply outcome_bind_Done in Hd as (dl & _ & Hd). apply outcome_bind_Done in Hd as (b5 & _ & Hd).
  apply outcome_bind_Done in Hd as (b6 & _ & Hd). case_decide; [done|].
  destruct (negb _); [done|]. apply outcome_bind_Done in Hd as (decoded & Hk & Hd).
  injection Hd as Hd. destruct decoded as [k|]; [|done]. simpl in Hd.
  unfold gtk_16 in Hd. destruct (first_gtk k) as [[gtk id]|] eqn:Hg; [|done]. simpl in Hd.
  case_decide; [|done]. simpl in Hd. injection Hd as <-. by eapply gtk_id_bits.
Qed.

Lemma message_1_retry_Done h buffer own bssid : exists r, message_1_retry h buffer own bssid = Done r.
Proof.
  unfold message_1_retry. destruct (from_message_1_Done buffer own bssid) as [[r|] ->]; simpl;
    [case_decide|]; by eexists.
Qed.

Lemma message_3_Done h buffer n kck kek own bssid :
  exists r, message_3 h buffer n kck kek own bssid = Done r /\
    forall key, fst r = Some key -> gtk_id_ok key.
Proof.
  unfold message_3. destruct (decrypt_message_3_Done buffer n kck kek own bssid) as [[key|] Hd];
    rewrite Hd; simpl; [case_decide|]; eexists; (split; [done|]); simpl; intros k [=]. subst.
  by eapply decrypt_message_3_id.
Qed.

Lemma triple_message_3 own bssid kck kek snonce h :
  triple P (process_message_3 interface own bssid kck kek snonce h)
    (fun r s => gtk_id_ok (fst r) /\ P s) P.
Proof.
  apply (triple_loop (fun _ => P)). clear h. intros h.
  eapply triple_bind; [apply triple_wait|intros frame].
  apply (triple_bind _ _ _ (fun _ => P)); [|intros [[counter|] h']].
  { destruct (message_1_retry_Done h frame own bssid) as [r Hr].
    eapply (triple_compute _ (fun _ => True) (fun _ => P)); [by exists r|by intros]. }
  - eapply triple_bind; [by apply triple_send_pairwise|intros []]. by apply triple_done.
  - eapply triple_bind; [|intros [[key|] h'']].
    { destruct (message_3_Done h' frame TX_BUFFER_SIZE kck kek own bssid) as (r & Hr & Hid).
      eapply (triple_compute _ (fun r => forall key, fst r = Some key -> gtk_id_ok key)
        (fun r s => (forall key, fst r = Some key -> gtk_id_ok key) /\ P s)); [by exists r|done]. }
    + apply triple_done. intros s [Hk Hs]. split; [by apply Hk|done].
    + apply triple_done. by intros s [_ Hs].
Qed.

(** What the four-way handshake returns. *)
Definition handshake_result (pmk own snonce bssid : list Z)
  (keys : SecurityAssociations * Message3Replay) : Prop :=
  exists anonce gtk id counter, (0 <= id < 4)%Z /\
    initial_associations (tksa_new (derive_ptk pmk bssid own anonce snonce) 0) (tksa_new gtk id)
      WPA2_PSK_AKM CCMP_128 = Done keys.1 /\
    keys.2 = message3_replay_new anonce snonce counter.

Lemma triple_4whs pmk own snonce bss :
  triple P (do_4whs interface pmk own snonce bss)
    (fun keys s => handshake_result pmk own snonce (bss_bssid bss) keys /\ P s) P.
Proof.
  unfold do_4whs. eapply triple_bind; [apply triple_transition|intros []].
  eapply triple_bind; [apply triple_message_1|intros pending]. simpl.
  set (ptk := derive_ptk _ _ _ _ _).
  apply (triple_bind _ _ _ (fun _ => P)); [|intros keys].
  { destruct (derived_key_parts pmk (bss_bssid bss) own (ih_authenticator_nonce pending) snonce)
      as (kck & kek & tk & Hp & Hkck & Hkek & _).
    eapply (triple_compute _ (fun _ => True)); [|by intros].
    exists (kck, kek). unfold handshake_keys, ptk. rewrite Hp. simpl. unfold to_16.
    by rewrite !decide_True by done. }
  eapply triple_bind; [by apply triple_send_pairwise|intros []].
  eapply triple_bind; [apply triple_alloc|intros []].
  eapply triple_bind; [apply triple_message_3|intros [key h]]. apply triple_pure. simpl. intros Hid.
  eapply triple_bind; [by apply triple_send_pairwise|intros []].
  destruct Hid as [Hid0 Hid4].
  assert (exists sa, initial_associations (tksa_new ptk 0) (tksa_new (m3_gtk key) (m3_gtk_id key))
    WPA2_PSK_AKM CCMP_128 = Done sa) as [sa Hsa].
  { unfold initial_associations. simpl. rewrite decide_True by lia. by eexists. }
  apply triple_sync. intros s Hs. rewrite Hsa. simpl. split; [|done].
  by exists (ih_authenticator_nonce pending), (m3_gtk key), (m3_gtk_id key), (ih_replay_counter h).
Qed.
End Triples.

(** ** The resources of a set-up *)

(** The channel lock and the router operation; [b]: the runner is quiet. *)
Record held (b : bool) (ch : Z) s : Prop := {
  he_locks : locks_ok (channel s);
  he_background : operation (router s) Background = None;
  he_foreground : is_Some (operation (router s) Foreground);
  he_quiet : b = true -> quiet s /\ holds (channel s) interface /\
    home_channel (channel s) = Some ch;
}.

Definition keys_are (m : KeySlotManager) (c : option CryptoState) s : Prop :=
  key_slots (sta s) = m /\ crypto_state (sta s) = c.

Definition filtered (b : bool) (own bssid : list Z) s : Prop :=
  receiver_address_filter s = Some own /\ (b = true -> bssid_filter s = Some bssid).

Lemma held_undisturbed b ch s s' : held b ch s -> undisturbed s s' -> held b ch s'.
Proof.
  intros [Hl Hbg Hfg Hq] Hu. destruct Hu. split; [tauto|congruence|congruence|]. intros Hb.
  destruct (Hq Hb) as (Hq1 & Hq2 & Hq3). destruct (un_quiet0 Hq1) as (? & _ & Hh).
  destruct (Hh Hq2) as [? ->]. done.
Qed.

Lemma during_steady b m c ch : steady (fun s => held b ch s /\ keys_are m c s).
Proof.
  split.
  - apply undisturbed_stable; [by intros s [[] _]|]. intros s s' [Hh [Hm Hc]] Hu. split; [by eapply held_undisturbed|]. destruct Hu.
    split; congruence.
  - intros s f [[Hl Hbg Hfg Hq] Hk]. by split.
  - intros s r [[Hl Hbg Hfg Hq] Hk] Hb Hf. by split.
  - by intros s [[] _].
Qed.

Lemma filtered_steady b m c ch own bssid :
  steady (fun s => filtered b own bssid s /\ held b ch s /\ keys_are m c s).
Proof.
  destruct (during_steady b m c ch) as [_ Hs Hr Ho]. split.
  - apply undisturbed_stable; [by intros s [_ [[] _]]|].
    intros s s' [[Hra Hbs] Hd] Hu. pose proof Hu as []. destruct Hd as [Hh [Hm Hc]].
    split; [|split; [by eapply held_undisturbed|split; congruence]]. split; [congruence|].
    intros Hb. destruct Hh as [_ _ _ Hq]. destruct (Hq Hb) as [Hq1 _].
    destruct (un_quiet0 Hq1) as (_ & -> & _). by apply Hbs.
  - intros s f [Hf Hd]. split; [exact Hf|by apply Hs].
  - intros s r [Hf Hd] Hb Hfg. split; [exact Hf|by apply Hr].
  - intros s [_ Hd]. by apply Ho.
Qed.

(** ** Key slots *)

Definition slot_indices (slots : list KeySlot) : list nat := key_slot_index <$> slots.

(** The same hardware slots are free. *)
Definition same_free (m m' : KeySlotManager) : Prop :=
  forall k, k < KEY_SLOT_COUNT -> is_free m' k <-> is_free m k.

Lemma drop_slots_free slots m k :
  Forall (fun x => x < KEY_SLOT_COUNT) (slot_indices slots) -> k < KEY_SLOT_COUNT ->
  is_free (drop_slots m slots) k <-> is_free m k \/ k ∈ slot_indices slots.
Proof.
  unfold slot_indices, drop_slots. revert m.
  induction slots as [|x slots IH]; intros m Hr Hk; simpl.
  - rewrite elem_of_nil. tauto.
  - apply Forall_cons in Hr as [Hx Hr]. rewrite IH, dropped_slot, elem_of_cons by done. tauto.
Qed.

(** Acquired slots were free, and are not any more; the rest stays. *)
Lemma acquire_slots_free n m i slots m' :
  acquire_slots n m i = (slots, m') ->
  length slots = n /\
  Forall (fun x => x < KEY_SLOT_COUNT) (slot_indices (omap id slots)) /\
  forall k, k < KEY_SLOT_COUNT ->
    (k ∈ slot_indices (omap id slots) -> is_free m k) /\
    (is_free m' k <-> is_free m k /\ k ∉ slot_indices (omap id slots)).
Proof.
  unfold slot_indices. revert m slots m'.
  induction n as [|n IH]; intros m slots m' Ha; simpl in Ha.
  { injection Ha as <- <-. simpl. split; [done|]. split; [done|]. intros k Hk. set_solver. }
  unfold lmac_acquire_key_slot in Ha. destruct (acquire_key_slot m) as [[x m1]|] eqn:Hacq.
  - destruct (acquire_slots n m1 i) as [rest m2] eqn:Hrest. injection Ha as <- <-.
    destruct (IH _ _ _ Hrest) as (Hlen & Hr & Hf). destruct (acquire_lowest _ _ _ Hacq) as (Hx & Hfx & _).
    simpl. rewrite acquired_index by done. split; [lia|]. split; [by constructor|].
    intros k Hk. destruct (Hf k Hk) as [Hin Hm']. destruct (acquired_free _ _ _ k Hacq Hk) as [Hm1 _].
    rewrite elem_of_cons, Hm', Hm1. split; [|tauto]. intros [->|Hk']; [done|]. tauto.
  - destruct (acquire_slots n m i) as [rest m2] eqn:Hrest. injection Ha as <- <-.
    destruct (IH _ _ _ Hrest) as (Hlen & Hr & Hf). simpl. split; [lia|]. by split.
Qed.

Lemma acquire_drop n m i slots m' :
  acquire_slots n m i = (slots, m') -> same_free m (drop_slots m' (omap id slots)).
Proof.
  intros Ha k Hk. destruct (acquire_slots_free _ _ _ _ _ Ha) as (_ & Hr & Hf).
  rewrite drop_slots_free by done. destruct (Hf k Hk) as [Hin Hm]. rewrite Hm.
  destruct (decide (k ∈ slot_indices (omap id slots))); tauto.
Qed.

(** A slot and an interface that the driver has. *)
Definition slot_usable (slot : KeySlot) : Prop :=
  key_slot_index slot < KEY_SLOT_COUNT /\ Z.to_nat (ks_interface slot) < INTERFACE_COUNT.

Lemma usable_succeeds m slot id address key type mfp spp :
  slot_usable slot -> (0 <= id < 4)%Z ->
  exists m', set_key_unwrap m slot id address (ccmp key type mfp spp) = Done m'.
Proof.
  intros [Hk Hi] Hid. unfold set_key_unwrap, set_key.
  destruct (set_key_succeeds (crypto_controller m) (key_slot_index slot) (Z.to_nat (ks_interface slot))
    id address key type mfp spp Hk Hi Hid) as [c ->]. by eexists.
Qed.

Lemma acquire_slots_usable n m slots m' :
  acquire_slots n m interface = (slots, m') -> Forall slot_usable (omap id slots).
Proof.
  revert m slots m'. induction n as [|n IH]; intros m slots m' Ha; simpl in Ha.
  { by injection Ha as <- <-. }
  unfold lmac_acquire_key_slot in Ha. destruct (acquire_key_slot m) as [[x m1]|] eqn:Hacq.
  - destruct (acquire_slots n m1 interface) as [rest m2] eqn:Hrest. injection Ha as <- <-.
    destruct (acquire_lowest _ _ _ Hacq) as (Hx & _ & _). simpl. constructor; [|by eapply IH].
    split; [by rewrite acquired_index|]. simpl. pose proof interface_count_byte.
    rewrite wrapping_small; [lia|]. unfold in_width. lia.
  - destruct (acquire_slots n m interface) as [rest m2] eqn:Hrest. injection Ha as <- <-. apply (IH m _ _ Hrest).
Qed.

(** With such slots the driver refuses no group key. *)
Lemma usable_not_refused (cs : CryptoState) m bssid :
  Forall slot_usable (gtk_key_slots cs) -> ~ group_key_refused cs m bssid.
Proof.
  rewrite Forall_forall. intros Hu (slot & id & key & e & Hs & Hid & He).
  destruct (usable_succeeds m slot id bssid key Group false false (Hu slot Hs) Hid) as [m' Hm].
  unfold set_key_unwrap in Hm. by destruct (set_key _ _ _ _ _) as [[u|e'] m1].
Qed.

(** The slots of a set-up are there. *)
Definition setup_ok (slots : option (list KeySlot * KeySlot)) : Prop :=
  match slots with Some (g, p) => length g = 4 /\ Forall slot_usable (g ++ [p]) | None => True end.

(** What the slots of a set-up are, and how they go back. *)
Definition slots_from (m : KeySlotManager) (slots : option (list KeySlot * KeySlot))
  (m' : KeySlotManager) : Prop :=
  match slots with
  | None => m' = m
  | Some (g, p) => length g = 4 /\ same_free m (drop_slots m' (g ++ [p]))
  end.

(** Slots are acquired exactly for an encrypted network with credentials. *)
Definition slots_for bss (creds : option Credentials) (slots : option (list KeySlot * KeySlot)) : Prop :=
  slots = None <-> security_config bss = Open \/ creds = None.

Lemma connection_key_slots_spec mp m bss creds r m' :
  connection_key_slots mp m interface bss creds = (r, m') ->
  match r with
  | Ok slots => slots_for bss creds slots /\ slots_from m slots m' /\ setup_ok slots
  | Err _ => same_free m m'
  end.
Proof.
  unfold connection_key_slots, slots_for. destruct creds as [c|];
    [|intros [= <- <-]; split_and!; [split; [by right|done]|done..]].
  case_decide; [intros [= <- <-]; split_and!; [split; [by left|done]|done..]|].
  destruct (acquire_slots 5 m interface) as [slots m1] eqn:Ha.
  pose proof (acquire_slots_usable _ _ _ _ Ha) as Hu. pose proof (acquire_drop _ _ _ _ _ Ha) as Hd. destruct (acquire_slots_free _ _ _ _ _ Ha) as [Hlen _].
  destruct (pmk mp c 32 (ssid bss)); [|by intros [= <- <-]].
  destruct slots as [|[s0|] [|[s1|] [|[s2|] [|[s3|] [|[s4|] [|]]]]]]; try done;
    intros [= <- <-]; try exact Hd. split; [split; [done|by intros [?|?]]|]. by split.
Qed.

(** ** Installing the keys *)

Lemma crypto_state_new_Done m g p bssid pmk own snonce bssid' keys :
  handshake_result pmk own snonce bssid' keys -> setup_ok (Some (g, p)) ->
  exists m', crypto_state_new m g p bssid keys.1 keys.2 =
    Done (MkCryptoState keys.2 g None 0 p keys.1, m').
Proof.
  intros (anonce & gtk & id & counter & Hid & Hsa & Hr) [Hg [Hgs Hps%Forall_inv]%Forall_app].
  unfold initial_associations in Hsa. simpl in Hsa. case_decide as Hlt; [|done].
  injection Hsa as Hsa. destruct keys as [sa replay]. simpl in *. subst sa replay.
  destruct (derived_key_parts pmk bssid' own anonce snonce) as (kck & kek & temporal & Hp & _ & _ & Htk).
  unfold crypto_state_new, program_pairwise_key, pairwise_temporal_key.
  cbn [security_associations ptksa akm_suite cipher_suite tk tksa_new tksa_key]. rewrite Hp.
  cbn [expect mbind outcome_bind mret outcome_ret]. rewrite decide_True by done.
  destruct (usable_succeeds m p 0 bssid temporal Pairwise false false Hps) as [m1 Hm1]; [lia|].
  cbn [ptk_key_slot]. rewrite Hm1. cbn [mbind outcome_bind mret outcome_ret].
  unfold program_group_key, group_key. cbn [security_associations group_keys active_group_id gtk_key_slots].
  rewrite list_lookup_insert_eq by done. cbn [expect mbind outcome_bind mret outcome_ret].
  destruct (lookup_lt_is_Some_2 g (Z.to_nat id)) as [slot Hslot]; [lia|]. rewrite Hslot.
  cbn [expect mjoin option_join mbind outcome_bind tksa_key tksa_new].
  rewrite Forall_lookup in Hgs.
  destruct (usable_succeeds m1 slot id bssid gtk Group false false (Hgs _ _ Hslot) Hid) as [m2 Hm2].
  rewrite Hm2. by eexists.
Qed.

Definition installed_for (cp : ConnectionParameters) bss (slots : option (list KeySlot * KeySlot))
  (c : option CryptoState) s : Prop :=
  match slots with
  | None => crypto_state (sta s) = c
  | Some (g, p) => setup_ok (Some (g, p)) /\ exists keys,
      handshake_result (connection_pmk cp bss) (cp_own_address cp) (cp_snonce cp) (bss_bssid bss) keys /\
      crypto_state (sta s) = Some (MkCryptoState keys.2 g None 0 p keys.1)
  end.

(** ** The set-up *)

(** What Sta.v says of a successful set-up: the slots are those of [connection_key_slots],
    from [m] and [c], and the state is the one [install_crypto_state] gives. *)
Definition refined (cp : ConnectionParameters) bss (m : KeySlotManager) (c : option CryptoState) s : Prop :=
  exists slots m' keys (x : Sta (Sg := Sg)),
    connection_key_slots (map_passphrase cp) m interface bss (credentials cp) = (Ok slots, m') /\
    (forall t a, install_crypto_state (MkSta (Sg := Sg) t c m' a) slots (bss_bssid bss) keys =
       Done (MkSta t (crypto_state x) (key_slots x) a)) /\
    crypto_state (sta s) = crypto_state x /\ key_slots (sta s) = key_slots x.

Lemma install_fields (x : Sta (Sg := Sg)) slots bssid keys y :
  install_crypto_state x slots bssid keys = Done y ->
  forall t a, install_crypto_state (MkSta (Sg := Sg) t (crypto_state x) (key_slots x) a) slots bssid keys =
    Done (MkSta t (crypto_state y) (key_slots y) a).
Proof.
  unfold install_crypto_state. destruct slots as [[g p]|]; [|by intros [= <-]].
  intros Hi t a. apply outcome_bind_Done in Hi as ([cs m1] & Hc & Hi). injection Hi as <-.
  cbn [key_slots crypto_state]. by rewrite Hc.
Qed.

Lemma install_Done cp bss slots c m s keys :
  setup_ok slots -> slots <> None ->
  handshake_result (connection_pmk cp bss) (cp_own_address cp) (cp_snonce cp) (bss_bssid bss) keys ->
  keys_are m c s ->
  exists x, install_crypto_state (sta s) slots (bss_bssid bss) keys = Done x /\
    installed_for cp bss slots c (with_sta s x) /\ tracker x = tracker (sta s) /\
    (forall t a, install_crypto_state (MkSta (Sg := Sg) t c m a) slots (bss_bssid bss) keys =
       Done (MkSta t (crypto_state x) (key_slots x) a)).
Proof.
  destruct slots as [[g p]|]; [|done]. intros Hg _ Hk [<- <-].
  destruct (crypto_state_new_Done (key_slots (sta s)) g p (bss_bssid bss) _ _ _ _ _ Hk Hg) as [m1 Hm1].
  eexists. split; [unfold install_crypto_state; by rewrite Hm1|].
  split; [split; [done|by exists keys]|]. split; [done|]. apply install_fields.
  unfold install_crypto_state. by rewrite Hm1.
Qed.

Lemma triple_exchange b cp bss slots m0 m c :
  connection_key_slots (map_passphrase cp) m0 interface bss (credentials cp) = (Ok slots, m) ->
  setup_ok slots ->
  triple (fun s => held b (bss_channel bss) s /\ keys_are m c s) (exchange interface cp bss slots)
    (fun _ s => held b (bss_channel bss) s /\ filtered b (cp_own_address cp) (bss_bssid bss) s /\
       installed_for cp bss slots c s /\ refined cp bss m0 c s)
    (fun s => held b (bss_channel bss) s /\ keys_are m c s).
Proof.
  intros Hacq Hslots. unfold exchange.
  set (P := fun s => filtered b (cp_own_address cp) (bss_bssid bss) s /\
                     held b (bss_channel bss) s /\ keys_are m c s).
  assert (steady P) as HP by apply filtered_steady.
  eapply (triple_bind _ _ _ (fun _ => P)).
  { apply triple_sync. intros s [[Hl Hbg Hfg Hq] Hk]. by split. }
  intros []. eapply (triple_weaken P P _ _ _ P); [|done|intros ? ? Hq; exact Hq|by intros s [_ Hs]].
  eapply triple_bind; [by apply triple_auth|intros []].
  eapply triple_bind; [by apply triple_assoc|intros aid].
  destruct slots as [[g p]|].
  - eapply triple_bind; [by apply triple_4whs|intros keys]. apply triple_pure. intros Hk.
    apply triple_sync. intros s (Hf & Hh & Hkeys).
    destruct (install_Done cp bss (Some (g, p)) c m s keys Hslots ltac:(done) Hk Hkeys) as (x & Hx & Hi & Ht & Hf').
    rewrite Hx. cbn [mbind outcome_bind mret outcome_ret].
    split; [|split; [done|split; [done|by exists (Some (g, p)), m, keys, x]]]. destruct Hh as [Hl Hbg Hfg Hq]. split; try done.
    intros Hb. destruct (Hq Hb) as ([Hq1 Hq2] & Hq3). split; [|done]. split; [done|].
    cbn [sta with_sta]. by rewrite Ht.
  - apply triple_done. intros s (Hf & Hh & Hm & Hc). split_and!; [done..|].
    exists None, m, (MkSecurityAssociations (tksa_new [] 0) [] 0 WPA2_PSK_AKM CCMP_128,
      message3_replay_new [] [] 0), (sta s). split; [done|]. split; [|done]. intros t a. by rewrite Hm, Hc.
Qed.

(** Nothing is held: no router operation, no lock of ours. *)
Definition idle_router s : Prop :=
  locks_ok (channel s) /\ operation (router s) Background = None /\
  operation (router s) Foreground = None.

(** The slots are as they were, whatever happened to the hardware keys. *)
Definition slots_back (m : KeySlotManager) (c : option CryptoState) s : Prop :=
  crypto_state (sta s) = c /\ same_free m (key_slots (sta s)).

(** The channel is ours, as long as the runner is quiet. *)
Definition tuned (b : bool) (ch : Z) s : Prop :=
  b = true -> quiet s /\ holds (channel s) interface /\ home_channel (channel s) = Some ch.

Lemma keys_are_back m c s : keys_are m c s -> slots_back m c s.
Proof. intros [<- <-]. by split. Qed.

Lemma triple_join b ch m c op :
  triple (fun s => idle_router s /\ tuned b ch s /\ keys_are m c s)
    (join_operations interface op)
    (fun _ s => held b ch s /\ keys_are m c s) (fun s => held b ch s /\ keys_are m c s).
Proof.
  unfold join_operations.
  set (P := fun s => held b ch s /\ keys_are m c s).
  assert (steady P) as HP by apply during_steady.
  apply (triple_bind _ _ _ (fun st s => fst st = true /\ P s)).
  - apply triple_sync. intros s ((Hl & Hbg & Hfg) & Hq & Hk).
    unfold join_start, start_must_wait.
    rewrite can_start_alone by done. change (opposite Foreground) with Background. rewrite Hbg.
    simpl. split; [done|]. by split; [split|].
  - intros st. apply (triple_loop (fun st s => fst st = true /\ P s)). clear st. intros [st1 st2].
    apply triple_pure. simpl. intros ->. destruct st2; [by apply triple_done|].
    eapply triple_bind; [by apply triple_wait|intros []].
    apply (triple_bind _ _ _ (fun st s => fst st = true /\ P s)).
    + apply triple_sync. by intros s Hs.
    + intros st. by apply triple_done.
Qed.

Lemma triple_acquire cp bss b m c :
  triple (fun s => held b (bss_channel bss) s /\ keys_are m c s)
    (acquire_connection_slots interface cp bss)
    (fun slots s => exists m', (slots_for bss (credentials cp) slots /\ slots_from m slots m' /\ setup_ok slots /\
       connection_key_slots (map_passphrase cp) m interface bss (credentials cp) = (Ok slots, m')) /\ held b (bss_channel bss) s /\ keys_are m' c s)
    (fun s => held b (bss_channel bss) s /\ slots_back m c s).
Proof.
  unfold acquire_connection_slots.
  apply (triple_bind _ _ _ (fun r s => held b (bss_channel bss) s /\ exists m', keys_are m' c s /\
    match r with
    | Ok slots => slots_for bss (credentials cp) slots /\ slots_from m slots m' /\ setup_ok slots /\
        connection_key_slots (map_passphrase cp) m interface bss (credentials cp) = (Ok slots, m')
    | Err _ => same_free m m'
    end)).
  - apply triple_sync. intros s [Hh [Hm Hc]]. rewrite Hm.
    destruct (connection_key_slots _ m interface bss _) as [r m'] eqn:Hk.
    pose proof (connection_key_slots_spec _ _ _ _ _ _ Hk) as Hspec.
    split; [by destruct Hh; split|]. exists m'. split; [done|]. destruct r; [|done].
    destruct Hspec as (? & ? & ?). by split_and!.
  - intros r. apply triple_of_result.
    + intros slots s -> (Hh & m' & Hk & Hf). exists m'. done.
    + intros e s -> (Hh & m' & [Hm Hc] & Hf). split; [done|]. split; [done|]. by rewrite Hm.
Qed.

(** The drops of a failed set-up give back what it took, in reverse order. *)
Lemma drop_key_slots_back slots b ch m c m' s :
  slots_from m slots m' -> held b ch s /\ keys_are m' c s ->
  match drop_key_slots slots s with
  | Done s' => held b ch s' /\ slots_back m c s'
  | Panic => False
  end.
Proof.
  intros Hf [[Hl Hbg Hfg Hq] [Hm Hc]]. destruct slots as [[g p]|]; simpl in *.
  - destruct Hf as [_ Hf]. split; [by split|]. split; [done|]. simpl. by rewrite Hm.
  - subst. split; [by split|]. by split.
Qed.

Lemma drop_router_back b ch m c s :
  held b ch s /\ slots_back m c s ->
  match drop_router_operation s with
  | Done s' => idle_router s' /\ slots_back m c s'
  | Panic => False
  end.
Proof.
  intros [[Hl Hbg [op Hop] Hq] Hs]. unfold drop_router_operation. rewrite Hop. simpl.
  split; [|done]. split; [done|]. unfold scoped_drop. simpl. split; [exact Hbg|done].
Qed.

Lemma drop_bringup_back m c s :
  idle_router s /\ slots_back m c s ->
  match drop_bringup interface s with
  | Done s' => (idle_router s' /\ slots_back m c s') /\ ~ holds (channel s') interface
  | Panic => False
  end.
Proof.
  intros [(Hl & Hbg & Hfg) Hs]. destruct (unlock_own_spec s Hl) as (cs & Hu & Hok & Hn).
  unfold drop_bringup, bringup_drop. unfold unlock_own_channel, unlock_channel in Hu. rewrite Hu.
  done.
Qed.

(** A whole set-up; [phi]: the station does not hold the channel. *)
Lemma triple_connection_run_any (phi : Prop) b cp bss m c :
  (b = true -> phi) -> (phi -> valid_channel (bss_channel bss) = true) ->
  triple (fun s => idle_router s /\ (phi -> ~ holds (channel s) interface) /\ (b = true -> quiet s) /\
            keys_are m c s)
    (connection_run interface cp bss)
    (fun _ s => (idle_router s /\ tuned b (bss_channel bss) s) /\
       filtered b (cp_own_address cp) (bss_bssid bss) s /\
       (exists slots, slots_for bss (credentials cp) slots /\ installed_for cp bss slots c s) /\
       refined cp bss m c s)
    (fun s => idle_router s /\ slots_back m c s /\ (phi -> ~ holds (channel s) interface) /\
       receiver_address_filter s = None /\ bssid_filter s = None).
Proof.
  intros Hphi Hv. unfold connection_run.
  eapply (triple_guard _ _ _ _ (fun s => (idle_router s /\ slots_back m c s) /\
    (phi -> ~ holds (channel s) interface))); [|by intros s [[Hi Hs] Hn]].
  apply (triple_bind _ _ _ (fun r s => (idle_router s /\ keys_are m c s) /\
    match r with
    | Ok op => tuned b (bss_channel bss) s
    | Err _ => phi -> ~ holds (channel s) interface
    end)).
  { apply triple_sync. intros s ((Hl & Hbg & Hfg) & Hn & Hq & Hk). unfold on_channel.
    destruct (begin_total interface interface_ok (channel s) (bss_channel bss) Hl) as (r & cs & Hb & Hok & Hr).
    unfold channel in Hb. rewrite Hb. cbn [mbind outcome_bind mret outcome_ret].
    split; [by split|]. destruct r as [op|e].
    - destruct (Hr op eq_refl) as [Hh Hc]. intros Hb'. by split; [apply Hq|].
    - intros Hp. destruct (begin_bringup interface interface_ok (channel s) (bss_channel bss) Hl (Hv Hp) (Hn Hp))
        as (r & cs' & Hb' & _ & Hr'). unfold channel in Hb'. rewrite Hb in Hb'. injection Hb' as <- <-.
      destruct Hr' as [_ ->]. by apply Hn. }
  intros [op|e]; [|apply triple_fail; intros s [[Hi Hk] Hn]; by split; [split; [|apply keys_are_back]|]].
  eapply triple_guard; [|intros s Hs; pose proof (drop_bringup_back m c s Hs) as Hd; by destruct (drop_bringup interface s); [destruct Hd|]].
  apply (triple_bind _ _ _ (fun _ s => held b (bss_channel bss) s /\
    filtered b (cp_own_address cp) (bss_bssid bss) s /\
    (exists slots, slots_for bss (credentials cp) slots /\ installed_for cp bss slots c s) /\
    refined cp bss m c s)).
  - eapply triple_guard; [|intros s Hs; exact (drop_router_back b (bss_channel bss) m c s Hs)].
    eapply triple_bind.
    { eapply triple_weaken; [apply (triple_join b (bss_channel bss) m c)|..].
      - intros s [[Hi Hk] Ht]. by split.
      - intros ? s Hs. exact Hs.
      - intros s [Hh Hk]. split; [done|]. by apply keys_are_back. }
    intros []. eapply triple_bind; [apply triple_acquire|intros slots].
    apply triple_exists. intros m'. apply triple_pure. intros (Hkind & Hf & Hok & Hacq).
    eapply triple_guard; [|intros s Hs; exact (drop_key_slots_back slots b _ m c m' s Hf Hs)].
    eapply triple_weaken; [apply (triple_exchange b cp bss slots m m' c Hacq Hok)|done| |done].
    intros _ s (Hh & Hfl & Hi & Hre). split_and!; [done|done|by exists slots|done].
  - intros aid. apply triple_sync. intros s ([Hl Hbg [fg Hfg] Hq] & Hf & (slots & Hi) & Hre).
    unfold drop_router_operation. rewrite Hfg. simpl. split; [|split; [done|split; [by exists slots|exact Hre]]].
    split; [|done]. split; [done|]. by split; [exact Hbg|].
Qed.

(** From a station that holds nothing. *)
Lemma triple_connection_run b cp bss m c :
  valid_channel (bss_channel bss) = true ->
  triple (fun s => idle_router s /\ ~ holds (channel s) interface /\ (b = true -> quiet s) /\
            keys_are m c s)
    (connection_run interface cp bss)
    (fun _ s => (idle_router s /\ tuned b (bss_channel bss) s) /\
       filtered b (cp_own_address cp) (bss_bssid bss) s /\
       (exists slots, slots_for bss (credentials cp) slots /\ installed_for cp bss slots c s) /\
       refined cp bss m c s)
    (fun s => idle_router s /\ slots_back m c s /\ ~ holds (channel s) interface /\
       receiver_address_filter s = None /\ bssid_filter s = None).
Proof.
  intros Hv. eapply triple_weaken; [by apply (triple_connection_run_any True b)|..].
  - intros s (Hi & Hn & Hq & Hk). by split_and!.
  - done.
  - intros s (Hi & Hs & Hn & Hf). split_and!; [done|done|by apply Hn|apply Hf..].
Qed.
End ConnectFacts.
