(* ===== verification/ConnectTrace.v ===== *)
(** * What a connection set-up sends

    Partial-correctness triples for the parts of [connection_run], over any assertion
    the set-up's own actions and the other tasks keep ([neutral]), with the frames handed to
    the transmit queue so far. *)
From S2P Require Import Prelude Bytes Platform Async Lmac KeySlots RxRouter Eapol Rsn Bss Sta.
From S2P Require Import StaRouter Connect.

Section ConnectTrace.
Context `{ConnectCrypto, Ieee80211} {Sg Ch W : Type -> Type} `{Signal Sg, Channel Ch, Watch W, Radio}.
Context (interface : nat).
Notation Station := (Station (Sg := Sg) (Ch := Ch) (W := W)).
Notation fut := (fut (W := Station) (Own := own_event) (Other := task_step) (Error := StaError)).
Implicit Types (s : Station) (bss : BSS) (cp : ConnectionParameters).

(** Kept by the other tasks and by everything the set-up does between its channel lock
    and its end. *)
Record neutral (B : Station -> Prop) : Prop := {
  ne_tasks : undisturbing (task_run interface) B;
  ne_sent : forall s f, B s -> B (with_sent s f);
  ne_router : forall s r, B s -> B (with_router s r);
  ne_filters : forall s own bssid, B s -> B (with_filters s own bssid);
  ne_keys : forall s x, B s -> tracker x = tracker (sta s) -> B (with_sta s x);
}.

Lemma task_run_sent s o s' : task_run interface s o = Done s' -> sent s' = sent s.
Proof.
  assert (forall s reason s', runner_disconnected interface s reason = Done s' ->
    sent s' = sent s) as Hdis.
  { clear. intros s reason s' Hr. unfold runner_disconnected, unlock_own_channel in Hr.
    apply outcome_bind_Done in Hr as (s1 & Hu & Hr).
    apply outcome_bind_Done in Hu as (cs & _ & Hu). injection Hu as <-. by injection Hr as <-. }
  destruct o as [|reason|o]; simpl; intros Ht.
  - unfold runner_poll in Ht. destruct (running s);
      apply outcome_bind_Done in Ht as ([[?|] t] & _ & Ht); try by injection Ht as <-.
    by rewrite (Hdis _ _ _ Ht).
  - destruct (running s); [|by injection Ht as <-].
    destruct (connected _); [by eapply Hdis|by injection Ht as <-].
  - apply outcome_bind_Done in Ht as (lm & _ & Ht). by injection Ht as <-.
Qed.

Lemma install_tracker (sta x : Sta (Sg := Sg)) slots bssid keys :
  install_crypto_state sta slots bssid keys = Done x -> tracker x = tracker sta.
Proof.
  unfold install_crypto_state. destruct slots as [[g p]|]; [|by intros [= <-]].
  intros Hi. apply outcome_bind_Done in Hi as ([st m] & _ & Hi). by injection Hi as <-.
Qed.

Section Trace.
Context (B : Station -> Prop) (B_neutral : neutral B).
Implicit Types (l new : list sent_frame).

(** The frames sent so far. *)
Definition traced l s : Prop := B s /\ sent s = l.
(** Frames in [phi] were sent after [l]. *)
Definition sent_more l (phi : list sent_frame -> Prop) s : Prop := exists new, phi new /\ traced (l ++ new) s.

Lemma traced_tasks l : undisturbing (task_run interface) (traced l).
Proof.
  intros s o s' [HB Hl] Ht. split; [by eapply ne_tasks|]. by rewrite (task_run_sent _ _ _ Ht).
Qed.

Lemma sent_nothing l (phi : list sent_frame -> Prop) s : phi [] -> traced l s -> sent_more l phi s.
Proof. intros Hphi Hs. exists []. by rewrite app_nil_r. Qed.

Lemma sent_more_after l1 new (phi psi : list sent_frame -> Prop) s :
  (forall l, phi l -> psi (new ++ l)) -> sent_more (l1 ++ new) phi s -> sent_more l1 psi s.
Proof. intros Hp (l & Hl & Hs). exists (new ++ l). rewrite app_assoc. eauto. Qed.

Lemma sent_more_weaken l (phi psi : list sent_frame -> Prop) s :
  (forall new, phi new -> psi new) -> sent_more l phi s -> sent_more l psi s.
Proof. intros Hp (new & Hnew & Hs). exists new. eauto. Qed.

Lemma partial_wait {A} l (f : own_event -> option A) (phi : list sent_frame -> Prop) : phi [] ->
  partial (traced l) (await (task_run interface) f : fut A)
    (fun _ => traced l) (sent_more l phi).
Proof.
  intros Hphi. apply partial_await; [apply traced_tasks|by intros; apply sent_nothing|done].
Qed.

Lemma partial_transmit l f E : partial (traced l) (transmit_edca f : fut unit) (fun _ => traced (l ++ [f])) E.
Proof.
  apply partial_sync. intros s a s' [HB <-] Hs. injection Hs as <- <-.
  split; [by apply ne_sent|done].
Qed.

(** Bind: the frames of the first part, then those of the second. *)
Lemma partial_seq {A C} l (m : fut A) (f : A -> fut C) (phi : A -> list sent_frame -> Prop)
    (psi : C -> list sent_frame -> Prop) (chi : list sent_frame -> Prop) :
  partial (traced l) m (fun a => sent_more l (phi a)) (sent_more l chi) ->
  (forall a new, phi a new ->
     partial (traced (l ++ new)) (f a)
       (fun c => sent_more (l ++ new) (fun new' => psi c (new ++ new')))
       (sent_more (l ++ new) (fun new' => chi (new ++ new')))) ->
  partial (traced l) (bind_fut m f) (fun c => sent_more l (psi c)) (sent_more l chi).
Proof.
  intros Hm Hf. eapply partial_bind; [exact Hm|]. intros a. apply partial_exists. intros new.
  apply partial_pure. intros Hnew. eapply partial_weaken; [by apply Hf|by intros s Hs; exact Hs|..].
  - intros c s. by apply sent_more_after.
  - intros s. by apply sent_more_after.
Qed.

(** Bind after a part that sends nothing. *)
Lemma partial_then {A C} l (m : fut A) (f : A -> fut C) (R : A -> Prop)
    (psi : C -> list sent_frame -> Prop) (chi : list sent_frame -> Prop) :
  partial (traced l) m (fun a s => R a /\ traced l s) (sent_more l chi) ->
  (forall a, R a -> partial (traced l) (f a) (fun c => sent_more l (psi c)) (sent_more l chi)) ->
  partial (traced l) (bind_fut m f) (fun c => sent_more l (psi c)) (sent_more l chi).
Proof. intros Hm Hf. eapply partial_bind; [exact Hm|]. intros a. apply partial_pure. apply Hf. Qed.

Lemma partial_compute {A} l (m : outcome A) (R : A -> Prop) E :
  (forall a, m = Done a -> R a) ->
  partial (traced l) ((sync (fun s => a ← m; mret (a, s))) : fut A) (fun a s => R a /\ traced l s) E.
Proof.
  intros HR. apply partial_sync. intros s a s' Hs Hm.
  apply outcome_bind_Done in Hm as (x & Hx & Hm). injection Hm as <- <-. split; [by apply HR|done].
Qed.

Lemma partial_sync_read {A} l (m : outcome A) E :
  partial (traced l) ((sync (fun s => a ← m; mret (a, s))) : fut A) (fun _ => traced l) E.
Proof.
  eapply partial_weaken; [by apply (partial_compute l m (fun _ => True))|done|by intros ? s [_ Hs]|].
  intros s Hs. exact Hs.
Qed.

Lemma partial_wait_then {A C} l (g : own_event -> option A) (f : A -> fut C)
    (psi : C -> list sent_frame -> Prop) (chi : list sent_frame -> Prop) :
  chi [] -> (forall a, partial (traced l) (f a) (fun c => sent_more l (psi c)) (sent_more l chi)) ->
  partial (traced l) (bind_fut (await (task_run interface) g) f)
    (fun c => sent_more l (psi c)) (sent_more l chi).
Proof. intros Hchi Hf. eapply partial_bind; [by apply partial_wait|apply Hf]. Qed.

Lemma partial_transmit_then {C} l f (g : unit -> fut C)
    (psi : C -> list sent_frame -> Prop) (chi : list sent_frame -> Prop) :
  partial (traced (l ++ [f])) (g tt)
    (fun c => sent_more (l ++ [f]) (fun new => psi c ([f] ++ new)))
    (sent_more (l ++ [f]) (fun new => chi ([f] ++ new))) ->
  partial (traced l) (bind_fut (transmit_edca f) g)
    (fun c => sent_more l (psi c)) (sent_more l chi).
Proof.
  intros Hg. apply (partial_seq l _ _ (fun _ new => new = [f])).
  - eapply partial_weaken; [apply (partial_transmit l f (fun _ => False))|by intros s Hs; exact Hs| |done].
    intros [] s Hs. by exists [f].
  - by intros [] new ->.
Qed.

(** ** The frames of each part *)

Definition repeated (least most : nat) f new : Prop :=
  exists k, least <= k <= most /\ new = replicate k f.

Lemma repeated_S n least f new : repeated least n f new -> repeated 1 (S n) f ([f] ++ new).
Proof. intros (k & Hk & ->). exists (S k). split; [lia|done]. Qed.

Lemma partial_attempts n f : forall l,
  partial (traced l) (attempts interface n f : fut (list Z))
    (fun _ => sent_more l (repeated 1 n f)) (sent_more l (repeated 0 n f)).
Proof.
  assert (forall m, repeated 0 m f []) as Hnil by (intros m; exists 0; split; [lia|done]).
  assert (forall m new, repeated 1 m f new -> repeated 0 m f new) as Hle.
  { intros m new (k & Hk & ->). exists k. split; [lia|done]. }
  induction n as [|n IH]; intros l; simpl.
  { apply partial_fail. intros s Hs. by apply sent_nothing. }
  apply partial_transmit_then.
  assert (repeated 1 (S n) f ([f] ++ [])) as Hone by by apply (repeated_S n 0).
  apply partial_wait_then; [by apply Hle|intros [ok|]].
  2: { apply partial_fail. intros s Hs. apply sent_nothing; [by apply Hle|done]. }
  apply (partial_wait_then _ _ _ (fun _ new => repeated 1 (S n) f ([f] ++ new))); [by apply Hle|].
  intros [r|].
  - apply partial_done. intros s Hs. by apply sent_nothing.
  - eapply partial_weaken; [apply IH|done|..].
    + intros a s. apply sent_more_weaken. intros new. apply repeated_S.
    + intros s. apply sent_more_weaken. intros new Hnew. by eapply Hle, repeated_S.
Qed.

Lemma partial_transition l op E : partial (traced l) (router_transition op : fut unit) (fun _ => traced l) E.
Proof.
  apply partial_sync. intros s a s' [HB Hl] Ht. apply outcome_bind_Done in Ht as ([[[]|] r] & _ & Ht); [|done].
  injection Ht as <- <-. split; [by apply ne_router|done].
Qed.

Definition auth_request bss own : sent_frame := SentAuthentication (bss_bssid bss) own.
Definition assoc_request bss own : sent_frame :=
  SentAssociation (bss_bssid bss) own (ssid bss) (bool_decide (security_config bss <> Open)).

Lemma repeated_le m f new : repeated 1 m f new -> repeated 0 m f new.
Proof. intros (k & Hk & ->). exists k. split; [lia|done]. Qed.

Lemma repeated_nil m f : repeated 0 m f [].
Proof. exists 0. split; [lia|done]. Qed.

Lemma partial_auth l config bss own (m := S (handshake_retries config)) :
  partial (traced l) (do_auth interface config bss own : fut unit)
    (fun _ => sent_more l (repeated 1 m (auth_request bss own)))
    (sent_more l (repeated 0 m (auth_request bss own))).
Proof.
  apply partial_wait_then; [apply repeated_nil|intros []].
  eapply partial_bind; [apply partial_attempts|intros r].
  destruct (parse_authentication r) as [status|]; [case_decide; [by apply partial_done|]|];
    apply partial_fail; intros s; apply sent_more_weaken, repeated_le.
Qed.

Lemma partial_assoc l config bss own (m := S (handshake_retries config)) :
  partial (traced l) (do_assoc interface config bss own : fut Z)
    (fun _ => sent_more l (repeated 1 m (assoc_request bss own)))
    (sent_more l (repeated 0 m (assoc_request bss own))).
Proof.
  eapply partial_bind; [apply partial_transition|intros []].
  apply partial_wait_then; [apply repeated_nil|intros []].
  apply (partial_then l _ _ (fun _ => True)); [|intros [] _].
  { destruct (ssid_element_ok (ssid bss)); [by apply partial_done|].
    apply partial_fail. intros s. apply sent_nothing, repeated_nil. }
  eapply partial_bind; [apply partial_attempts|intros r].
  destruct (parse_association r) as [[[aid|] [| |]]|]; try (by apply partial_done);
    apply partial_fail; intros s; apply sent_more_weaken, repeated_le.
Qed.

(** A pairwise key frame: one frame, in the clear. *)
Lemma partial_send_pairwise l bssid own frame kck (x := SentKey bssid own kck frame None) :
  is_pairwise (kf_information frame) = true ->
  partial (traced l) (send_eapol_key_frame interface bssid own frame kck : fut unit)
    (fun _ => sent_more l (fun new => new = [x])) (sent_more l (fun new => new = [] \/ new = [x])).
Proof.
  intros Hp. unfold send_eapol_key_frame.
  apply partial_wait_then; [by left|intros []].
  eapply (partial_bind _ _ _ (fun r s => r = Ok tt /\ traced (l ++ [x]) s));
    [apply partial_sync|intros r; apply partial_pure; intros ->].
  { intros s r s' [HB <-] Hs. unfold transmit_key_frame in Hs. rewrite Hp in Hs.
    apply outcome_bind_Done in Hs as (bytes & _ & Hs). injection Hs as <- <-.
    split; [done|]. split; [by apply ne_sent|done]. }
  apply (partial_weaken (traced (l ++ [x])) _ _ (fun _ => traced (l ++ [x])) _ (traced (l ++ [x])));
    [|done|by intros [] s Hs; exists [x]|by intros s Hs; exists [x]; split; [right|]].
  apply (partial_bind _ _ _ (fun _ => traced (l ++ [x]))); [by apply partial_done|intros []].
  apply (partial_bind _ _ _ (fun _ => traced (l ++ [x])));
    [by apply partial_await; [apply traced_tasks|..]|].
  intros [[]|]; [by apply partial_done|by apply partial_fail..].
Qed.

Definition is_message_2 (bssid own snonce : list Z) (f : sent_frame) : Prop :=
  exists kck counter, f = SentKey bssid own kck (message_2 snonce counter) None.
Definition is_message_4 (bssid own snonce : list Z) (f : sent_frame) : Prop :=
  exists kck counter, f = SentKey bssid own kck (message_4 snonce counter) None.

Lemma partial_message_1 l own bssid (phi : list sent_frame -> Prop) : phi [] ->
  partial (traced l) (process_message_1 interface own bssid : fut InitialHandshake)
    (fun _ => traced l) (sent_more l phi).
Proof.
  intros Hphi. apply (partial_loop (fun _ => traced l)); [|by intros [] s; apply sent_nothing].
  intros []. eapply partial_bind; [by apply partial_wait|intros frame].
  apply (partial_bind _ _ _ (fun _ => traced l)); [by apply partial_sync_read|].
  intros [h|]; by apply partial_done.
Qed.

Lemma partial_message_3 l own bssid kck kek snonce h :
  partial (traced l) (process_message_3 interface own bssid kck kek snonce h
      : fut (Message3 * InitialHandshake))
    (fun _ => sent_more l (Forall (is_message_2 bssid own snonce)))
    (sent_more l (Forall (is_message_2 bssid own snonce))).
Proof.
  set (phi := Forall (is_message_2 bssid own snonce)).
  eapply partial_weaken; [apply (partial_loop (fun _ => sent_more l phi))|by intros s Hs; apply sent_nothing; [constructor|]|
    by intros ? s Hs; exact Hs|by intros s Hs; exact Hs]; [|by intros]. clear h. intros h.
  apply partial_exists. intros new. apply partial_pure. intros Hnew.
  assert (forall s, traced (l ++ new) s -> sent_more l phi s) as Hstay by (intros s Hs; by exists new).
  eapply (partial_bind _ _ _ (fun _ => traced (l ++ new)));
    [apply partial_await; [apply traced_tasks|done|done]|intros frame].
  apply (partial_bind _ _ _ (fun _ => traced (l ++ new))); [by apply partial_sync_read|].
  intros [[counter|] h'].
  - apply (partial_bind _ _ _ (fun _ => sent_more l phi)); [|intros []; by apply partial_done].
    eapply partial_weaken; [by apply partial_send_pairwise|done|..].
    + intros [] s. apply sent_more_after. intros ? ->. apply Forall_app. split; [done|].
      apply Forall_singleton. by exists kck, counter.
    + intros s. apply sent_more_after. intros ? [->| ->]; apply Forall_app; (split; [done|]);
        [done|]. apply Forall_singleton. by exists kck, counter.
  - apply (partial_bind _ _ _ (fun _ => traced (l ++ new))); [by apply partial_sync_read|].
    intros [[key|] h'']; by apply partial_done.
Qed.

(** The key frames of a handshake: messages 2, then at most one message 4. *)
Definition handshake_frames (bssid own snonce : list Z) (least : nat) new : Prop :=
  exists m2 m4, new = m2 ++ m4 /\ Forall (is_message_2 bssid own snonce) m2 /\
    Forall (is_message_4 bssid own snonce) m4 /\ least <= length m4 <= 1 /\
    least <= length m2 /\ (m2 = [] -> m4 = []).

Lemma partial_4whs l pmk own snonce bss :
  partial (traced l) (do_4whs interface pmk own snonce bss : fut (SecurityAssociations * Message3Replay))
    (fun _ => sent_more l (handshake_frames (bss_bssid bss) own snonce 1))
    (sent_more l (handshake_frames (bss_bssid bss) own snonce 0)).
Proof.
  assert (forall new, Forall (is_message_2 (bss_bssid bss) own snonce) new ->
    handshake_frames (bss_bssid bss) own snonce 0 new) as Hm2.
  { intros new Hnew. exists new, []. rewrite app_nil_r. split_and!; simpl; try done; lia. }
  assert (forall f, is_message_2 (bss_bssid bss) own snonce f ->
    handshake_frames (bss_bssid bss) own snonce 0 [f]) as Hone.
  { intros f Hf. by apply Hm2, Forall_singleton. }
  unfold do_4whs. eapply partial_bind; [apply partial_transition|intros []].
  eapply partial_bind; [exact (partial_message_1 l own _ _ (Hm2 [] (Forall_nil_2 _)))|intros pending]. simpl.
  set (ptk := derive_ptk _ _ _ _ _).
  apply (partial_then l _ _ (fun _ => True)); [by apply partial_compute|intros keys _].
  eapply (partial_seq l _ _ (fun _ new => exists f, is_message_2 (bss_bssid bss) own snonce f /\ new = [f])).
  { eapply partial_weaken; [by apply partial_send_pairwise|done|..].
    - intros [] s. apply sent_more_weaken. intros ? ->. eexists. split; [|done]. by eexists _, _.
    - intros s. apply sent_more_weaken. intros ? [->| ->]; [by apply Hm2|].
      apply Hone. by eexists _, _. }
  intros [] new (f & Hf & ->). set (l1 := l ++ [f]).
  apply partial_wait_then; [by apply Hone|intros []].
  eapply partial_seq.
  { eapply partial_weaken; [by apply partial_message_3|done|by intros ? s Hs; exact Hs|].
    intros s. apply sent_more_weaken. intros new Hnew. apply Hm2. by constructor. }
  intros [key h] new Hnew. simpl in Hnew.
  assert (Forall (is_message_2 (bss_bssid bss) own snonce) ([f] ++ new)) as Hall by by constructor.
  eapply partial_seq.
  { eapply partial_weaken; [by apply partial_send_pairwise|done|by intros ? s Hs; exact Hs|].
    intros s. apply sent_more_weaken. intros ? [->| ->].
    - rewrite app_nil_r. by apply Hm2.
    - eexists ([f] ++ new), [_]. rewrite app_assoc. split; [done|]. split; [done|].
      split; [apply Forall_singleton; by eexists _, _|]. simpl. split_and!; try lia. done. }
  intros [] ? ->. apply partial_sync. intros s a s' Hs Hsa.
  apply outcome_bind_Done in Hsa as (sa & _ & Hsa). injection Hsa as <- <-.
  apply sent_nothing; [|done]. eexists ([f] ++ new), [_]. rewrite app_nil_r, app_assoc.
  split; [done|]. split; [done|]. split; [apply Forall_singleton; by eexists _, _|]. simpl.
  split_and!; try lia. done.
Qed.

(** The frames of an exchange that got as far as it did ([least] = 1: to its end). *)
Definition exchange_frames cp bss (keyed : bool) (least : nat) new : Prop :=
  let own := cp_own_address cp in
  let m := S (handshake_retries (cp_config cp)) in
  exists auth assoc keys, new = auth ++ assoc ++ keys /\
    repeated least m (auth_request bss own) auth /\
    repeated least m (assoc_request bss own) assoc /\
    (auth = [] -> assoc = []) /\ (assoc = [] -> keys = []) /\
    (if keyed then handshake_frames (bss_bssid bss) own (cp_snonce cp) least keys else keys = []).

Lemma repeated_cons m f new : repeated 1 m f new -> new <> [].
Proof. by intros ([|k] & ? & ->); [lia|]. Qed.

Lemma handshake_nothing bssid own snonce : handshake_frames bssid own snonce 0 [].
Proof. exists [], []. split_and!; simpl; try done; lia. Qed.

Lemma exchange_no_keys cp bss keyed auth assoc :
  let own := cp_own_address cp in
  let m := S (handshake_retries (cp_config cp)) in
  repeated 0 m (auth_request bss own) auth -> repeated 0 m (assoc_request bss own) assoc ->
  (auth = [] -> assoc = []) ->
  exchange_frames cp bss keyed 0 (auth ++ assoc).
Proof.
  intros own m Ha Hs Hord. exists auth, assoc, []. rewrite app_nil_r. split_and!; try done.
  destruct keyed; [apply handshake_nothing|done].
Qed.

Lemma partial_exchange l cp bss slots (keyed := bool_decide (is_Some slots)) :
  partial (traced l) (exchange interface cp bss slots : fut Z)
    (fun _ => sent_more l (exchange_frames cp bss keyed 1))
    (sent_more l (exchange_frames cp bss keyed 0)).
Proof.
  unfold exchange. set (own := cp_own_address cp). set (m := S (handshake_retries (cp_config cp))).
  apply (partial_then l _ _ (fun _ => True)); [|intros [] _].
  { apply partial_sync. intros s [] s' [HB Hl] Hs. injection Hs as <-.
    split; [done|]. split; [by apply ne_filters|done]. }
  eapply partial_seq.
  { eapply partial_weaken; [apply partial_auth|by intros s Hs; exact Hs|by intros ? s Hs; exact Hs|].
    intros s. apply sent_more_weaken. intros new Hnew. rewrite <- (app_nil_r new).
    by apply (exchange_no_keys cp bss keyed new [] Hnew (repeated_nil _ _)). }
  intros [] auth Hauth. pose proof (repeated_cons _ _ _ Hauth) as Hne. fold own m in Hauth |- *.
  eapply partial_seq.
  { eapply partial_weaken; [apply partial_assoc|by intros s Hs; exact Hs|by intros ? s Hs; exact Hs|].
    intros s. apply sent_more_weaken. intros new Hnew.
    apply exchange_no_keys; [by apply repeated_le|done|done]. }
  intros aid assoc Hassoc. pose proof (repeated_cons _ _ _ Hassoc) as Hne'. fold own m in Hassoc |- *.
  destruct slots as [sl|]; simpl in *.
  - eapply partial_seq.
    { eapply partial_weaken; [apply partial_4whs|by intros s Hs; exact Hs|by intros ? s Hs; exact Hs|].
      intros s. apply sent_more_weaken. intros new Hnew. exists auth, assoc, new.
      split_and!; try done; by apply repeated_le. }
    intros keys new Hnew. apply partial_sync. intros s a s' [HB Hl] Hs.
    apply outcome_bind_Done in Hs as (x & Hx & Hs). injection Hs as <- <-.
    apply sent_nothing; [rewrite app_nil_r; exists auth, assoc, new; by split_and!|].
    split; [|done]. apply (ne_keys B B_neutral); [done|]. exact (install_tracker _ _ (Some sl) _ _ Hx).
  - apply partial_done. intros s. apply sent_nothing. exists auth, assoc, [].
    by split_and!.
Qed.
End Trace.

(** ** A whole set-up *)

(** The keys of a connection are exchanged when the network is encrypted and there are
    credentials. *)
Definition keyed cp bss : bool :=
  bool_decide (security_config bss <> Open) && bool_decide (is_Some (credentials cp)).

Lemma connection_key_slots_kind mp m bss creds slots m' :
  connection_key_slots mp m interface bss creds = (Ok slots, m') ->
  bool_decide (is_Some slots) =
    bool_decide (security_config bss <> Open) && bool_decide (is_Some creds).
Proof.
  unfold connection_key_slots. destruct creds as [c|]; [|intros [= <- <-]; by rewrite andb_false_r].
  case_decide as Hc; [intros [= <- <-]|].
  { by rewrite (bool_decide_eq_false_2 (security_config bss <> Open)) by tauto. }
  destruct (acquire_slots 5 m interface) as [x m1]. destruct (pmk mp c 32 (ssid bss)); [|done].
  destruct (mapM id x) as [[|g0 [|g1 [|g2 [|g3 [|p [|]]]]]]|]; try by intros [=].
  intros [= <- <-]. by rewrite (bool_decide_eq_true_2 (security_config bss <> Open)) by done.
Qed.

Definition sent_after l (phi : list sent_frame -> Prop) s : Prop :=
  exists new, phi new /\ sent s = l ++ new.

Lemma sent_more_after_cleanup B l phi s : sent_more B l phi s -> sent_after l phi s.
Proof. intros (new & Hnew & _ & Hs). by exists new. Qed.

Lemma drop_router_sent s s' : drop_router_operation s = Done s' -> sent s' = sent s.
Proof.
  unfold drop_router_operation. intros [= <-]. by destruct (operation (router s) Foreground).
Qed.

Lemma drop_slots_sent slots s s' : drop_key_slots slots s = Done s' -> sent s' = sent s.
Proof. unfold drop_key_slots. intros [= <-]. by destruct slots as [[g p]|]. Qed.

Lemma drop_bringup_sent s s' : drop_bringup interface s = Done s' -> sent s' = sent s.
Proof.
  unfold drop_bringup. intros Hd. apply outcome_bind_Done in Hd as (cs & _ & Hd). by injection Hd as <-.
Qed.

Lemma sent_after_keep l phi (f : Station -> outcome Station) :
  (forall s s', f s = Done s' -> sent s' = sent s) ->
  forall s s', sent_after l phi s -> f s = Done s' -> sent_after l phi s'.
Proof. intros Hf s s' (new & Hnew & Hs) Hd. exists new. by rewrite (Hf _ _ Hd). Qed.

Section Run.
Context (B : Station -> Prop) (B_neutral : neutral B).

Lemma join_poll_keeps op s started completed r s' :
  B s -> join_poll op s started completed = (r, s') -> B s' /\ sent s' = sent s.
Proof.
  unfold join_poll. destruct started; [by intros ? [= <- <-]|].
  destruct (start_poll (router s) Foreground op) as [[] r']; intros HB [= <- <-];
    (split; [by apply ne_router|done]).
Qed.

Lemma partial_join l op :
  partial (traced B l) (join_operations interface op : fut unit) (fun _ => traced B l)
    (sent_more B l (fun new => new = [])).
Proof.
  unfold join_operations. apply (partial_bind _ _ _ (fun _ => traced B l)).
  - apply partial_sync. intros s r s' [HB Hl] Hj. injection Hj as Hj. unfold join_start in Hj.
    eapply join_poll_keeps in Hj as [HB' Hl']; [split; [done|]|]; case_match; try done.
    + by rewrite Hl'.
    + by rewrite Hl'.
    + by apply ne_router.
  - intros r. apply (partial_loop (fun _ => traced B l)); [|by intros ? s; apply sent_nothing].
    intros [st1 st2]. simpl. destruct (st1 && st2); [by apply partial_done|].
    eapply partial_bind; [by apply partial_wait|intros []].
    apply (partial_bind _ _ _ (fun _ => traced B l)); [|intros st; by apply partial_done].
    apply partial_sync. intros s st s' [HB Hl] Hj. injection Hj as Hj.
    eapply join_poll_keeps in Hj as [HB' Hl']; [|done]. split; [done|]. by rewrite Hl'.
Qed.

Lemma exchange_nothing cp bss k : exchange_frames cp bss k 0 [].
Proof.
  exists [], [], []. split_and!; try done; try apply repeated_nil.
  destruct k; [apply handshake_nothing|done].
Qed.

Lemma partial_acquire l cp bss :
  partial (traced B l) (acquire_connection_slots interface cp bss : fut (option (list KeySlot * KeySlot)))
    (fun slots s => bool_decide (is_Some slots) = keyed cp bss /\ traced B l s)
    (traced B l).
Proof.
  apply (partial_bind _ _ _ (fun r s => (forall slots, r = Ok slots ->
    bool_decide (is_Some slots) = keyed cp bss) /\ traced B l s)).
  - apply partial_sync. intros s r s' [HB Hl] Hs.
    destruct (connection_key_slots _ _ _ _ _) as [r0 m] eqn:Hk. injection Hs as <- <-.
    split; [|split; [by apply ne_keys|done]]. intros slots ->.
    by apply (connection_key_slots_kind _ _ _ _ _ _ Hk).
  - intros r. apply partial_of_result.
    + intros slots s -> [Hk Hs]. split; [by apply Hk|done].
    + by intros s [_ Hs].
Qed.

Lemma partial_connection_run l cp bss (P : Station -> Prop) :
  (forall s op s', P s -> on_channel s (fun cs =>
     begin_interface_bringup_operation cs interface (bss_channel bss)) = Done (Ok op, s') -> B s') ->
  partial (fun s => P s /\ sent s = l) (connection_run interface cp bss : fut Z)
    (fun _ s => B s /\ sent_after l (exchange_frames cp bss (keyed cp bss) 1) s)
    (sent_after l (exchange_frames cp bss (keyed cp bss) 0)).
Proof.
  intros HP. set (k := keyed cp bss). unfold connection_run.
  assert (forall s, sent s = l -> sent_after l (exchange_frames cp bss k 0) s) as Hnone.
  { intros s <-. exists []. by rewrite app_nil_r; split; [apply exchange_nothing|]. }
  apply partial_guard; [|by apply sent_after_keep; intros s s' [= <-]].
  apply (partial_bind _ _ _ (fun r s => match r with Ok _ => traced B l s | Err _ => sent s = l end)).
  { apply partial_sync. intros s r s' [Hs Hl] Ho.
    assert (sent s' = l) as Hl'.
    { apply outcome_bind_Done in Ho as ([? cs] & _ & Ho). by injection Ho as <- <-. }
    destruct r as [op|e]; [split; [by eapply HP|done]|done]. }
  intros [op|e]; [|by apply partial_fail].
  apply partial_guard; [|by apply sent_after_keep, drop_bringup_sent].
  apply (partial_bind _ _ _ (fun _ => sent_more B l (exchange_frames cp bss k 1))).
  - apply partial_guard; [|by apply sent_after_keep, drop_router_sent].
    eapply partial_bind.
    { eapply partial_weaken; [apply partial_join|by intros s Hs; exact Hs|by intros ? s Hs; exact Hs|].
      intros s (new & -> & _ & Hs). rewrite app_nil_r in Hs. by apply Hnone. }
    intros []. eapply partial_bind.
    { eapply partial_weaken; [apply (partial_acquire l cp bss)|by intros s Hs; exact Hs|
        by intros ? s Hs; exact Hs|]. intros s [_ Hs]. by apply Hnone. }
    intros slots. apply partial_pure. intros Hk.
    apply partial_guard; [|by apply sent_after_keep, drop_slots_sent].
    eapply partial_weaken; [apply (partial_exchange B B_neutral l cp bss slots)|done|..].
    + intros aid s. by rewrite Hk.
    + intros s. rewrite Hk. apply sent_more_after_cleanup.
  - intros aid. apply partial_sync. intros s a s' (new & Hnew & HB & Hl) Hs.
    apply outcome_bind_Done in Hs as (s1 & Hd & Hs). injection Hs as <- <-.
    split; [|exists new; by rewrite (drop_router_sent _ _ Hd)].
    unfold drop_router_operation in Hd. injection Hd as <-.
    destruct (operation (router s) Foreground); [by apply ne_router|done].
Qed.
End Run.
End ConnectTrace.
