(* ===== verification/ConnectProps.v ===== *)
(** * Properties of connecting

    What a station keeps and gives back over a connection set-up, what the set-up sends,
    that the runner takes a new connection over, and what happens when it still has an
    old one to end. *)
From S2P Require Import Prelude Bytes Platform Async Lmac Locks KeySlots RxRouter Eapol Rsn Bss Sta.
From S2P Require Import StaRouter Connect ConnectFacts ConnectTrace.

Section ConnectProps.
Context `{ConnectLaws, !Ieee80211Laws, !KeyHalLaws} {Sg Ch W : Type -> Type}
  `{SignalLaws Sg, ChannelLaws Ch, WatchLaws W, !RadioLaws}.
Context (interface : nat) (interface_ok : interface < INTERFACE_COUNT).
Notation Station := (Station (Sg := Sg) (Ch := Ch) (W := W)).
Notation fut := (fut (W := Station) (Own := own_event) (Other := task_step) (Error := StaError)).
Implicit Types (s : Station) (bss : BSS) (cp : ConnectionParameters).

(** A station between connections: no router operation, no channel lock. *)
Definition unbound s : Prop := idle_router s /\ ~ holds (channel s) interface.

(** [quiet], to decide by. *)
Definition quietb s : bool :=
  match running s with Some _ => false | None => negb (connected (tracker (sta s))) end.

Lemma quietb_spec s : quietb s = true <-> quiet s.
Proof.
  unfold quietb, quiet. destruct (running s); [by split; [|intros []]|].
  destruct (connected _); by split; [|intros []].
Qed.

(** What a successful set-up holds. *)
Definition set_up cp bss s : Prop :=
  holds (channel s) interface /\ home_channel (channel s) = Some (bss_channel bss) /\
  receiver_address_filter s = Some (cp_own_address cp) /\ bssid_filter s = Some (bss_bssid bss).

(** C7 A connection set-up takes everything it needs or nothing, at whatever point it
    fails or its future is dropped, whatever the access point sends and the other
    interfaces do.  It never panics; on success the address filter is set, the keys of
    the exchange are installed if it is an encrypted network, else the keys are as they were, and,
    unless the runner still had a connection to end, the station holds the channel of
    the network and its BSSID filter.  Otherwise the lock, the router operation, the
    filters and the key slots are all given back. *)
Theorem connect_all_or_nothing cp bss s env :
  valid_channel (bss_channel bss) = true -> unbound s ->
  match connection_run interface cp bss s env with
  | Panic => False
  | Done (Suspended, _) => True
  | Done (Returned (Ok _) _, s') =>
      idle_router s' /\ receiver_address_filter s' = Some (cp_own_address cp) /\
      (exists slots, slots_for bss (credentials cp) slots /\
         installed_for cp bss slots (crypto_state (sta s)) s') /\
      (quiet s -> quiet s' /\ set_up cp bss s')
  | Done (_, s') =>
      unbound s' /\ slots_back (key_slots (sta s)) (crypto_state (sta s)) s' /\
      receiver_address_filter s' = None /\ bssid_filter s' = None
  end.
Proof.
  intros Hv [Hi Hn].
  pose proof (triple_connection_run interface interface_ok (quietb s) cp bss (key_slots (sta s))
    (crypto_state (sta s)) Hv s env) as Ht.
  ospecialize (Ht _); [split_and!; [done|done|by rewrite quietb_spec|done]|].
  destruct (connection_run _ _ _ s env) as [[[[aid|e] rest| |] s']|]; try done.
  - destruct Ht as ([Hi' Ht] & [Hra Hb] & Hk & _). split_and!; [done..|].
    rewrite <- quietb_spec. intros Hq. destruct (Ht Hq) as (Hq' & Hh & Hc).
    split; [done|]. split_and!; [done|done|done|by apply Hb].
  - destruct Ht as (Hi' & Hs & Hh & Hra & Hb). by split_and!.
  - destruct Ht as (Hi' & Hs & Hh & Hra & Hb). by split_and!.
Qed.

(** C8 The frames of a set-up: authentication requests, then association requests, each
    at most once more than the retries of the configuration, then, on an encrypted network,
    pairwise key messages 2 and at most one message 4, all in the clear.  A set-up that
    succeeds has sent each kind; nothing else is ever sent. *)
Theorem setup_frames cp bss s env :
  match connection_run interface cp bss s env with
  | Panic => True
  | Done (Returned (Ok _) _, s') =>
      sent_after (sent s) (exchange_frames cp bss (keyed cp bss) 1) s'
  | Done (_, s') => sent_after (sent s) (exchange_frames cp bss (keyed cp bss) 0) s'
  end.
Proof.
  assert (neutral interface (fun _ : Station => True)) as Hn by by split.
  pose proof (partial_connection_run interface _ Hn (sent s) cp bss (fun _ => True)
    (fun _ _ _ _ _ => I) s env (conj I eq_refl)) as Hp. cbv beta in Hp.
  by destruct (connection_run _ _ _ s env) as [[[[aid|e] rest| |] s']|]; [destruct Hp|..].
Qed.

(** [connect] and the runner: a successful [connect] of a station whose runner is idle
    hands the runner a connection it holds everything for.  At its next poll the runner
    runs it with the link up under the station's address, on the locked channel and
    behind both filters. *)
Theorem connection_taken_over mp snonce bss config creds s env rest s' :
  valid_channel (bss_channel bss) = true -> unbound s -> quiet s ->
  control_connect interface mp snonce bss config creds s env = Done (Returned (Ok tt) rest, s') ->
  exists aid s'', runner_poll interface s' = Done s'' /\
    running s'' = Some (MkConnectionInfo bss (mac_address (sta s)) aid
      (default connection_config_default config)) /\
    link_up s'' = true /\ hardware_address s'' = mac_address (sta s) /\
    set_up (MkConnectionParameters mp (default connection_config_default config)
      (mac_address (sta s)) creds snonce) bss s''.
Proof.
  intros Hv [Hi Hn] Hq Hc. pose proof Hq as [Hr Hd]. unfold control_connect in Hc.
  destruct (_ && _); [done|]. unfold get at 1, bind_fut at 1, sync at 1 in Hc. cbn beta iota in Hc.
  assert (connection_info (tracker (sta s)) = None) as Hnone.
  { unfold connected in Hd. unfold connection_info, map_connection_info. by destruct (connection_state _). }
  rewrite Hnone in Hc. unfold bind_fut, get, sync, done in Hc.
  set (cp := MkConnectionParameters mp (default connection_config_default config)
    (mac_address (sta s)) creds snonce) in *.
  pose proof (triple_connection_run interface interface_ok true cp bss (key_slots (sta s))
    (crypto_state (sta s)) Hv s env) as Ht.
  ospecialize (Ht _); [by split_and!|].
  destruct (connection_run _ _ _ s env) as [[[[aid|e] rest'| |] s1]|]; try done.
  injection Hc as <- <-. destruct Ht as ([_ Ht] & [Hra Hb] & _).
  destruct (Ht eq_refl) as ([Hr1 Hd1] & Hh & Hch). specialize (Hb eq_refl). exists aid.
  unfold runner_poll. cbn [running with_sta sta set_tracker tracker runner_waiting]. rewrite Hr1.
  edestruct (wait_for_connection_spec (runner_waiting s1)) as (p & t & Hw & Hst & Hp);
    [|rewrite Hw]; [intros _ _; eexists; apply sg_signal_value|].
  cbn [expect mbind outcome_bind]. destruct p as [info|]; [|by destruct Hp].
  simpl in Hp. injection Hp as <-. eexists. split; [done|]. by split_and!.
Qed.

(** ** The abstract station *)

Lemma same_free_trans (m1 m2 m3 : KeySlotManager) : same_free m1 m2 -> same_free m2 m3 -> same_free m1 m3.
Proof. intros Hab Hbc k Hk. by rewrite (Hbc k Hk), (Hab k Hk). Qed.

(** [Sta.connect] with a failed exchange. *)
Lemma connect_failed mp (x : Sta (Sg := Sg)) bss config creds e :
  connection_info (tracker x) = None ->
  exists e' y, Sta.connect mp x interface bss config creds (Err e) = Done (Err e', y) /\
    crypto_state y = crypto_state x /\ same_free (key_slots x) (key_slots y).
Proof.
  intros Hi. unfold connect. destruct (_ && _); [by exists NoCredentialsForNetwork, x|]. rewrite Hi.
  assert (connected (tracker x) = false) as ->.
  { unfold connection_info, map_connection_info in Hi. unfold connected. by destruct (connection_state _). }
  destruct (connection_key_slots mp (key_slots x) interface bss creds) as [r m] eqn:Hk.
  apply (connection_key_slots_spec interface interface_ok) in Hk. destruct r as [[[g p]|]|err]; cbn [mret outcome_ret].
  - destruct Hk as [_ [[_ Hf] _]]. by eexists _, _.
  - destruct Hk as [_ [-> _]]. by eexists _, _.
  - by eexists _, _.
Qed.

(** C1 The detailed set-up refines the abstract one: whatever happens in it, [connect]
    with all its frames, waits, retries and interleaved tasks leaves the keys, the key
    slots and the connection state as the one step of Sta.v does for some outcome of
    the exchange; a failed one leaves the keys alone and the same slots free. *)
Theorem connect_refines mp snonce bss config creds s env :
  valid_channel (bss_channel bss) = true -> unbound s -> connection_info (tracker (sta s)) = None ->
  match control_connect interface mp snonce bss config creds s env with
  | Done (Returned (Ok _) _, s') => exists h x,
      Sta.connect mp (sta s) interface bss config creds h = Done (Ok tt, x) /\
      connection_state (tracker (sta s')) = connection_state (tracker x) /\
      crypto_state (sta s') = crypto_state x /\ key_slots (sta s') = key_slots x
  | Done (Returned (Err e) _, s') => exists h e' x,
      Sta.connect mp (sta s) interface bss config creds h = Done (Err e', x) /\
      crypto_state (sta s') = crypto_state x /\
      forall k, k < KEY_SLOT_COUNT -> is_free (key_slots (sta s')) k <-> is_free (key_slots x) k
  | Done _ => True
  | Panic => False
  end.
Proof.
  intros Hv [Hi Hn] Hnone. unfold control_connect.
  assert (exists h e' x, Sta.connect mp (sta s) interface bss config creds h = Done (Err e', x) /\
    crypto_state (sta s) = crypto_state x /\ same_free (key_slots (sta s)) (key_slots x)) as (h & e' & y & Hy & Hc & Hf).
  { destruct (connect_failed mp (sta s) bss config creds ResponseTimeout Hnone) as (e' & y & Hy & Hc & Hf).
    by exists (Err ResponseTimeout), e', y. }
  assert (forall s', slots_back (key_slots (sta s)) (crypto_state (sta s)) s' ->
    exists h e' x, Sta.connect mp (sta s) interface bss config creds h = Done (Err e', x) /\
      crypto_state (sta s') = crypto_state x /\
      forall k, k < KEY_SLOT_COUNT -> is_free (key_slots (sta s')) k <-> is_free (key_slots x) k) as Herr.
  { intros s' [Hc' Hf']. exists h, e', y. split; [done|]. split; [congruence|].
    intros k Hk. by rewrite (Hf' k Hk), (Hf k Hk). }
  destruct (bool_decide _ && _) eqn:Hcred; [by apply Herr|].
  unfold get at 1, bind_fut at 1, sync at 1. cbn beta iota. rewrite Hnone.
  unfold bind_fut, get, sync, done.
  set (cp := MkConnectionParameters mp (default connection_config_default config)
    (mac_address (sta s)) creds snonce).
  pose proof (triple_connection_run interface interface_ok false cp bss (key_slots (sta s))
    (crypto_state (sta s)) Hv s env) as Ht.
  ospecialize (Ht _); [by split_and!|].
  destruct (connection_run _ _ _ s env) as [[[[aid|e] rest'| |] s1]|]; try done.
  - destruct Ht as (_ & _ & _ & slots & m' & keys & x & Hk & Hinst & Hc1 & Hm1).
    exists (Ok (aid, keys)). unfold connect. rewrite Hcred, Hnone.
    assert (connected (tracker (sta s)) = false) as ->.
    { unfold connection_info, map_connection_info in Hnone. unfold connected. by destruct (connection_state _). }
    cbn [map_passphrase credentials cp] in Hk. rewrite Hk. unfold set_keys. rewrite Hinst.
    eexists. split; [reflexivity|]. by split_and!.
  - destruct Ht as (_ & Hs & _). by apply Herr.
Qed.

(** ** The runner's old connection *)

(** The runner has the connection [r], or the channel lock is gone. *)
Definition stale (r : option ConnectionInfo) s : Prop :=
  locks_ok (channel s) /\ connected (tracker (sta s)) = false /\ r <> None /\
  (running s = r \/ (running s = None /\ ~ holds (channel s) interface)).

Lemma runner_disconnected_state s reason s' :
  runner_disconnected interface s reason = Done s' ->
  connected (tracker (sta s')) = false /\ running s' = None.
Proof.
  unfold runner_disconnected. intros Hr. apply outcome_bind_Done in Hr as (s1 & _ & Hr).
  by injection Hr as <-.
Qed.

Lemma stale_tasks r : undisturbing (task_run interface) (stale r).
Proof.
  intros s o s' (Hl & Hc & Hr & Hrun) Ht.
  destruct (task_run_step interface interface_ok s o Hl) as (s2 & Ht2 & Hu).
  assert (s2 = s') as -> by congruence.
  assert (connected (tracker (sta s')) = false /\
    (running s' = running s \/ (running s' = None /\ ~ holds (channel s') interface))) as [Hc' Hrun'].
  2: { destruct Hu. split; [tauto|]. split; [done|]. split; [done|].
       destruct Hrun' as [Hrun'|Hrun']; [rewrite Hrun'|by right].
       destruct Hrun as [Hrun|[Hrun Hn]]; [by left|right; tauto]. }
  clear Ht2. destruct o as [|reason|o]; simpl in Ht.
  - unfold runner_poll in Ht. destruct (running s) as [info|] eqn:Hi.
    + apply outcome_bind_Done in Ht as ([p t] & Hw & Ht).
      destruct (wait_for_disconnection_total (runner_waiting s) (tracker (sta s)))
        as (p' & t' & Hw' & Hst). rewrite Hw' in Hw. injection Hw as <- <-.
      destruct p' as [reason|].
      * destruct (runner_disconnected_step interface interface_ok
          (with_sta s (set_tracker (sta s) t')) reason) as (s3 & Hs3 & _ & Hn & Hh & _);
          [done|simpl; congruence|].
        assert (s3 = s') as -> by congruence.
        destruct (runner_disconnected_state _ _ _ Ht) as [? ?]. split; [done|by right].
      * injection Ht as <-. split; [|by left]. simpl. unfold connected in *. by rewrite Hst.
    + destruct Hu as [_ _ _ _ _ _ _ _ _ Hq]. destruct Hq as [[Hq1 Hq2] _]; [by split|].
      split; [done|]. by left.
  - destruct (running s) as [info|] eqn:Hi; [|by injection Ht as <-; split; [|left]].
    rewrite Hc in Ht. injection Ht as <-. by split; [|left].
  - apply outcome_bind_Done in Ht as (lm & _ & Ht). injection Ht as <-. by split; [|left].
Qed.

Lemma stale_neutral r : neutral interface (stale r).
Proof.
  split; [apply stale_tasks|done|done|done|].
  intros s x (Hl & Hc & Hr) Hx. split; [done|]. split; [|done]. simpl. by rewrite Hx.
Qed.

(** The deauthentication frame needs no wait when a buffer is free: the set-up begins
    before the runner is polled. *)
Lemma connect_while_connected mp snonce bss config creds s old r env :
  connection_info (tracker (sta s)) = Some old -> running s = r ->
  exists s1, connected (tracker (sta s1)) = false /\ running s1 = r /\ channel s1 = channel s /\
    control_connect interface mp snonce bss config creds s (EvOwn EBuffer :: env) =
      if bool_decide (security_config bss <> Open) && bool_decide (creds = None)
      then Done (Returned (Err NoCredentialsForNetwork) (EvOwn EBuffer :: env), s)
      else if bool_decide (bss_bssid (info_bss old) = bss_bssid bss)
      then Done (Returned (Err SameNetwork) (EvOwn EBuffer :: env), s)
      else
       (aid <- connection_run interface (MkConnectionParameters mp
          (default connection_config_default config) (mac_address (sta s1)) creds snonce) bss ;;
        sync (fun s => Done (tt, with_sta s (set_tracker (sta s) (signal_state (tracker (sta s))
          (Connected (MkConnectionInfo bss (mac_address (sta s1)) aid
            (default connection_config_default config)))))))
       : fut unit)%fut s1 env.
Proof.
  intros Hi Hr. exists (with_sent (with_sta s (disconnect_internal (sta s)))
    (SentDeauth (bss_bssid (info_bss old)) (own_address old))).
  split_and!; [done..|]. unfold control_connect.
  destruct (_ && _); [done|].
  unfold get at 1, bind_fut at 1, sync at 1. cbn beta iota. rewrite Hi.
  by destruct (bool_decide (bss_bssid (info_bss old) = bss_bssid bss)).
Qed.

(** C34 Connecting to another network while connected races with the end of the old
    connection.  [connect] signals the disconnection and goes on to the new channel lock
    without a wait, so the runner ends the old connection during the set-up or not at
    all: if [connect] succeeds, the station is recorded as connected, and either the
    runner still runs the old connection, and its next poll changes nothing about that,
    or it has unlocked the channel the station is now supposed to hold. *)
Theorem reconnect_races_teardown mp snonce bss config creds s old env rest s' :
  locks_ok (channel s) -> connection_info (tracker (sta s)) = Some old -> running s = Some old ->
  control_connect interface mp snonce bss config creds s (EvOwn EBuffer :: env) =
    Done (Returned (Ok tt) rest, s') ->
  connected (tracker (sta s')) = true /\
  ((running s' = Some old /\
    exists s'', runner_poll interface s' = Done s'' /\ running s'' = Some old) \/
   (running s' = None /\ ~ holds (channel s') interface)).
Proof.
  intros Hl Hi Hr Hc.
  destruct (connect_while_connected mp snonce bss config creds s old (Some old) env Hi Hr)
    as (s1 & Hc1 & Hr1 & Hch & Hrun). rewrite Hc in Hrun.
  destruct (_ && _); [done|]. destruct (bool_decide _); [done|].
  unfold bind_fut in Hrun.
  pose proof (partial_connection_run interface (stale (Some old)) (stale_neutral _) (sent s1)
    (MkConnectionParameters mp (default connection_config_default config)
       (mac_address (sta s1)) creds snonce) bss
    (fun s => locks_ok (channel s) /\ connected (tracker (sta s)) = false /\ running s = Some old))
    as Hp.
  ospecialize (Hp _ s1 env _); [|split; [|done]; split; [by rewrite Hch|done]|].
  { intros s2 op s3 (Hl2 & Hc2 & Hr2) Ho. apply outcome_bind_Done in Ho as ([? cs] & Hb & Ho).
    injection Ho as -> <-. split; [by eapply (begin_locks_ok interface interface_ok)|]. split; [done|]. split; [done|]. by left. }
  cbv beta in Hp. destruct (connection_run _ _ _ s1 env) as [[[[aid|e] rest'| |] s2]|]; try done.
  simpl in Hrun. injection Hrun as <- ->. destruct Hp as [(Hl2 & _ & _ & Hrun) _].
  split; [done|]. destruct Hrun as [Hrun|Hrun]; [left; split; [done|]|by right].
  unfold runner_poll. cbn [running with_sta sta set_tracker tracker runner_waiting]. rewrite Hrun.
  destruct (wait_for_disconnection_spec (runner_waiting s2)
    (signal_state (tracker (sta s2)) (Connected (MkConnectionInfo bss (mac_address (sta s1)) aid
       (default connection_config_default config))))) as (p & t & -> & Hst & Hp); [done|].
  cbn [expect mbind outcome_bind]. destruct p as [reason|]; [done|].
  eexists. by split.
Qed.

(** ** A cooperative access point *)

(** [k] requests that the access point does not answer in time, then one it does. *)
Definition answered_after (k : nat) (response : list Z) : list (event own_event task_step) :=
  concat (replicate k [EvOwn (ECompletion (Some false)); EvOwn ETimeout]) ++
  [EvOwn (ECompletion (Some true)); EvOwn (EFrame response)].

Definition sent_times s k f : Station := Nat.iter k (fun s => with_sent s f) s.

Lemma sent_times_sent k f s : sent (sent_times s k f) = sent s ++ replicate k f.
Proof.
  revert s. induction k as [|k IH]; intros s; simpl; [by rewrite app_nil_r|].
  rewrite IH, <- app_assoc. by rewrite replicate_cons_app.
Qed.

Lemma sent_times_fields k f s :
  router (sent_times s k f) = router s /\ sta (sent_times s k f) = sta s.
Proof. induction k as [|k IH]; simpl; [done|]. exact IH. Qed.

Lemma attempts_answered k n f s response rest :
  k < n -> attempts interface n f s (answered_after k response ++ rest) =
    Done (Returned (Ok response) rest, sent_times s (S k) f).
Proof.
  revert s n. induction k as [|k IH]; intros s [|n] Hk; try lia; [done|].
  unfold sent_times. rewrite Nat.iter_succ_r. apply (IH (with_sent s f) n). lia.
Qed.

Lemma attempts_unanswered n f s rest :
  attempts interface n f s (concat (replicate n [EvOwn (ECompletion (Some false)); EvOwn ETimeout]) ++ rest) =
    Done (Returned (Err ResponseTimeout) rest, sent_times s n f).
Proof.
  revert s. induction n as [|n IH]; intros s; [done|].
  unfold sent_times. rewrite Nat.iter_succ_r. apply (IH (with_sent s f)).
Qed.

Definition silence (n : nat) : list (event own_event task_step) :=
  concat (replicate n [EvOwn (ECompletion (Some false)); EvOwn ETimeout]).

(** A station nobody is in the way of. *)
Definition unhindered s : Prop :=
  unbound s /\ ~ locked_elsewhere (channel s) interface /\
  off_channel_operation_interface (channel s) = None.

(** The start of a set-up: the channel and the router operation. *)
Definition started s cp (cs : ChannelState) : Station :=
  with_router (with_lmac s (with_channel (lmac s) cs))
    (start_operation_internal (router s) Foreground (Authenticating (cp_own_address cp))).

Lemma acquire_open cp bss s env :
  security_config bss = Open ->
  acquire_connection_slots interface cp bss s env = Done (Returned (Ok None) env, s).
Proof.
  intros Ho. unfold acquire_connection_slots, bind_fut, sync, connection_key_slots. rewrite Ho.
  destruct (credentials cp); simpl; by destruct s as [[]].
Qed.

Lemma join_starts op s env :
  operation (router s) Background = None -> off_channel_operation_interface (channel s) = None ->
  join_operations interface op s env =
    Done (Returned (Ok tt) env, with_router s (start_operation_internal (router s) Foreground op)).
Proof.
  intros Hbg Hoff.
  assert (join_start op s =
    ((true, true), with_router s (start_operation_internal (router s) Foreground op))) as Hj.
  { unfold join_start, start_must_wait, completion_wait_needed, off_channel_operation_in_progress.
    rewrite can_start_alone by done. change (opposite Foreground) with Background.
    rewrite Hbg. cbn. unfold channel in Hoff. by rewrite Hoff. }
  unfold join_operations, bind_fut, sync. by rewrite Hj.
Qed.

Lemma setup_starts cp bss s :
  valid_channel (bss_channel bss) = true -> unhindered s -> security_config bss = Open ->
  exists cs, locks_ok cs /\ forall env, connection_run interface cp bss s env =
    (guard clear_filters (guard (drop_bringup interface) (
      aid <- guard drop_router_operation (
        guard (drop_key_slots None) (exchange interface cp bss None) : fut Z) ;;
      sync (fun s => s ← drop_router_operation s; mret (aid, s)))) : fut Z)%fut (started s cp cs) env.
Proof.
  intros Hv ([(Hl & Hbg & Hfg) Hn] & Hel & Hoff) Ho.
  destruct (lock_alone_effect (channel s) interface (bss_channel bss) Hl interface_ok Hel)
    as (r & cs & Hb & Hok & Hoff' & Hh & Hc & Hel' & Hr). rewrite Hv in Hr. destruct Hr as [-> _].
  exists cs. split; [done|]. intros env. unfold connection_run. apply guard_from.
  erewrite bind_returned.
  2: { unfold sync, on_channel, begin_interface_bringup_operation. unfold channel in Hb.
       rewrite Hb. reflexivity. }
  apply guard_from, bind_from, guard_from. erewrite bind_returned.
  2: { apply join_starts; [exact Hbg|]. by rewrite <- Hoff. }
  erewrite bind_returned; [reflexivity|]. by apply acquire_open.
Qed.

Lemma drop_router_channel s s' : drop_router_operation s = Done s' -> channel s' = channel s.
Proof.
  unfold drop_router_operation. intros [= <-]. by destruct (operation (router s) Foreground).
Qed.

Lemma auth_answered config bss own s k response rest :
  k <= handshake_retries config -> parse_authentication response = Some 0%Z ->
  do_auth interface config bss own s (EvOwn EBuffer :: answered_after k response ++ rest) =
    Done (Returned (Ok tt) rest, sent_times s (S k) (auth_request bss own)).
Proof.
  intros Hk Hp. unfold do_auth. erewrite bind_returned; [|reflexivity].
  erewrite bind_returned; [|apply attempts_answered; lia]. by rewrite Hp.
Qed.

Lemma assoc_answered config bss own s k response rest aid :
  k <= handshake_retries config -> parse_association response = Some (Some aid, 0%Z) ->
  ssid_element_ok (ssid bss) = true -> operation (router s) Background = None ->
  is_Some (operation (router s) Foreground) ->
  exists r, do_assoc interface config bss own s (EvOwn EBuffer :: answered_after k response ++ rest) =
    Done (Returned (Ok aid) rest, sent_times (with_router s r) (S k) (assoc_request bss own)).
Proof.
  intros Hk Hp Hs Hbg [prev Hfg]. unfold do_assoc.
  assert (exists r, router_transition (Associating own) s (EvOwn EBuffer :: answered_after k response ++ rest) =
    Done (Returned (Ok tt) (EvOwn EBuffer :: answered_after k response ++ rest), with_router s r))
    as [r Hr].
  { unfold router_transition, sync, transition, stop_operation_internal. rewrite Hfg.
    cbn [expect mbind outcome_bind].
    assert (operation (RxRouter.set_operation (router s) Foreground None) (opposite Foreground) = None)
      as Hno by exact Hbg.
    rewrite can_start_alone, Hno by done. simpl. by eexists. }
  exists r. erewrite bind_returned by exact Hr. erewrite bind_returned; [|reflexivity].
  rewrite Hs. erewrite bind_returned; [|reflexivity].
  erewrite bind_returned; [|apply attempts_answered; lia]. by rewrite Hp.
Qed.

(** The filtered state an exchange goes on from. *)
Definition filters_set s cp bss (cs : ChannelState) : Station :=
  with_filters (started s cp cs) (Some (cp_own_address cp)) (Some (bss_bssid bss)).

Lemma exchange_answered cp bss s cs ka ks ra rs aid (own := cp_own_address cp) :
  operation (router s) Background = None -> ssid_element_ok (ssid bss) = true ->
  ka <= handshake_retries (cp_config cp) -> ks <= handshake_retries (cp_config cp) ->
  parse_authentication ra = Some 0%Z -> parse_association rs = Some (Some aid, 0%Z) ->
  exists s', exchange interface cp bss None (started s cp cs)
      (EvOwn EBuffer :: answered_after ka ra ++ EvOwn EBuffer :: answered_after ks rs) =
    Done (Returned (Ok aid) [], s') /\
    sent s' = sent s ++ replicate (S ka) (auth_request bss own) ++
      replicate (S ks) (assoc_request bss own).
Proof.
  intros Hbg Hs Hka Hks Hra Hrs. set (s1 := filters_set s cp bss cs).
  set (s2 := sent_times s1 (S ka) (auth_request bss own)).
  destruct (sent_times_fields (S ka) (auth_request bss own) s1) as [Hr _].
  destruct (assoc_answered (cp_config cp) bss own s2 ks rs [] aid) as [r Has]; [done..| | |].
  { unfold s2. by rewrite Hr. }
  { unfold s2. rewrite Hr. by eexists. }
  rewrite app_nil_r in Has.
  exists (sent_times (with_router s2 r) (S ks) (assoc_request bss own)). split.
  - unfold exchange. erewrite bind_returned; [|reflexivity].
    erewrite bind_returned; [|by apply auth_answered]. by erewrite bind_returned; [|exact Has].
  - rewrite sent_times_sent. cbn [sent with_router]. unfold s2.
    by rewrite sent_times_sent, app_assoc.
Qed.

Lemma exchange_silent cp bss s cs (n := S (handshake_retries (cp_config cp)))
    (own := cp_own_address cp) :
  exists s', exchange interface cp bss None (started s cp cs) (EvOwn EBuffer :: silence n) =
    Done (Returned (Err ResponseTimeout) [], s') /\ channel s' = cs /\
    sent s' = sent s ++ replicate n (auth_request bss own).
Proof.
  set (s1 := filters_set s cp bss cs).
  exists (sent_times s1 n (auth_request bss own)). split; [|split].
  - unfold exchange. erewrite bind_returned; [|reflexivity].
    apply bind_failed. unfold do_auth. erewrite bind_returned; [|reflexivity].
    apply bind_failed. pose proof (attempts_unanswered n (auth_request bss own) s1 []) as Ha.
    rewrite app_nil_r in Ha. exact Ha.
  - clear. by induction n.
  - by rewrite sent_times_sent.
Qed.

(** C9 With a cooperative access point a set-up on an open network succeeds, whatever
    number of requests it misses as long as each step's retries cover them: the station
    sends one authentication and one association request more than were missed, and
    nothing else.  If no authentication request is answered, it gives up after the
    retries, with a response timeout. *)
Theorem retries_reach_the_network cp bss s :
  valid_channel (bss_channel bss) = true -> unhindered s -> security_config bss = Open ->
  ssid_element_ok (ssid bss) = true ->
  (forall ka ks ra rs aid,
     ka <= handshake_retries (cp_config cp) -> ks <= handshake_retries (cp_config cp) ->
     parse_authentication ra = Some 0%Z -> parse_association rs = Some (Some aid, 0%Z) ->
     exists s', connection_run interface cp bss s
         (EvOwn EBuffer :: answered_after ka ra ++ EvOwn EBuffer :: answered_after ks rs) =
       Done (Returned (Ok aid) [], s') /\
       sent s' = sent s ++ replicate (S ka) (auth_request bss (cp_own_address cp)) ++
         replicate (S ks) (assoc_request bss (cp_own_address cp))) /\
  exists s', connection_run interface cp bss s
      (EvOwn EBuffer :: silence (S (handshake_retries (cp_config cp)))) =
    Done (Returned (Err ResponseTimeout) [], s') /\
    sent s' = sent s ++ replicate (S (handshake_retries (cp_config cp)))
      (auth_request bss (cp_own_address cp)).
Proof.
  intros Hv Hu Ho Hs. destruct (setup_starts cp bss s Hv Hu Ho) as (cs & Hok & Hrun).
  destruct Hu as ([(Hl & Hbg & Hfg) Hn] & _). split.
  - intros ka ks ra rs aid Hka Hks Hra Hrs.
    destruct (exchange_answered cp bss s cs ka ks ra rs aid) as (s3 & Hex & Hsent); [done..|].
    destruct (drop_router_operation s3) as [s4|] eqn:Hd; [|done].
    exists s4. rewrite Hrun, <- Hsent, (drop_router_sent _ _ Hd). split; [|done].
    apply guard_returned, guard_returned. erewrite bind_returned.
    2: { apply guard_returned, guard_returned, Hex. } unfold sync. by rewrite Hd.
  - destruct (exchange_silent cp bss s cs) as (s2 & Hex & Hch & Hsent).
    destruct (drop_router_operation s2) as [s3|] eqn:Hd; [|done].
    destruct (unlock_own_spec interface interface_ok s3) as (cs' & Hun & _).
    { by rewrite (drop_router_channel _ _ Hd), Hch. }
    assert (exists s4, drop_bringup interface s3 = Done s4) as [s4 Hd4]
      by (eexists; exact Hun).
    eexists (with_filters s4 None None). rewrite Hrun. split.
    + eapply guard_failed; [|done]. eapply guard_failed; [|exact Hd4].
      apply bind_failed. eapply guard_failed; [|exact Hd]. by eapply guard_failed; [exact Hex|].
    + cbn [sent with_filters]. by rewrite (drop_bringup_sent _ _ _ Hd4), (drop_router_sent _ _ Hd).
Qed.
End ConnectProps.

(** ** Witnesses *)

(** Responses of an access point: the status, and for an association the id and the
    status. *)
#[export] Instance plain_connect : ConnectCrypto (H := list_keys) (H0 := plain_crypto) := {
  derive_ptk := fun _ _ _ _ _ => seqZ 0 48;
  WPA2_PSK_AKM := tt;
  CCMP_128 := tt;
  serialize_key_frame := fun _ _ _ _ => Some (replicate 155 0%Z);
  parse_authentication := fun f => f !! 0;
  parse_association := fun f => match f with [id; status] => Some (Some id, status) | _ => None end;
  ssid_element_ok := fun name => bool_decide (length name <= 32);
}.

#[export] Instance plain_connect_laws :
  ConnectLaws (H := list_keys) (H0 := plain_crypto) (H1 := plain_connect) (H2 := plain_parser) (H3 := wifi_radio).
Proof.
  split.
  - intros. by eexists (seqZ 0 16), (seqZ 16 16), (seqZ 32 16).
  - intros. by eexists.
  - simpl. lia.
  - intros. by eexists.
Qed.

Definition demo_station : Station (Sg := option) (Ch := list_chan) (W := option) :=
  MkStation (sta_new demo_manager demo_own) (lmac_new radio_off) None None (router_new 4)
    None false false demo_own [].

Definition demo_passphrase (p name : list Z) (n : nat) : list Z := replicate n 5%Z.
Definition demo_parameters : ConnectionParameters :=
  MkConnectionParameters demo_passphrase connection_config_default demo_own
    (Some (Passphrase [1]%Z)) (replicate 32 9%Z).

Definition demo_wpa2_env : list (event own_event task_step) :=
  EvOwn EBuffer :: answered_after 1 [0]%Z ++ EvOwn EBuffer :: answered_after 0 [1; 0]%Z ++
  [EvOwn (EFrame (demo_key_frame 0x00 0x8a 1)); EvOwn EBuffer; EvOwn (ECompletion (Some true));
   EvOwn EBuffer; EvOther TRunner; EvOwn (EFrame (demo_key_frame 0x13 0xca 2)); EvOwn EBuffer;
   EvOwn (ECompletion (Some true))].
Definition returned {A} (p : outcome (progress (Own := own_event) (Other := task_step)
    (Error := StaError) A * Station (Sg := option) (Ch := list_chan) (W := option)))
  : Station (Sg := option) (Ch := list_chan) (W := option) :=
  match p with Done (_, s) => s | Panic => demo_station end.

Definition demo_wpa2_end : Station (Sg := option) (Ch := list_chan) (W := option) :=
  returned (connection_run 0 demo_parameters demo_bss demo_station demo_wpa2_env).

Lemma demo_unbound : unbound 0 demo_station.
Proof. split; [split; [exact I|done]|]. by intros (l & c & Hl & _). Qed.

Lemma demo_unhindered : unhindered 0 demo_station.
Proof. split; [exact demo_unbound|]. split; [|done]. by intros (j & _ & l & c & Hl & _). Qed.

Lemma connect_all_or_nothing_witness :
  quiet demo_wpa2_end /\ set_up 0 demo_parameters demo_bss demo_wpa2_end.
Proof.
  assert (connection_run 0 demo_parameters demo_bss demo_station demo_wpa2_env =
    Done (Returned (Ok 1%Z) [], demo_wpa2_end)) as He by (vm_compute; reflexivity).
  pose proof (connect_all_or_nothing 0 wifi_interface demo_parameters demo_bss demo_station
    demo_wpa2_env eq_refl demo_unbound) as Ht.
  rewrite He in Ht. destruct Ht as (_ & _ & _ & Hq). apply Hq. by split.
Defined.

Definition demo_connect := control_connect 0 demo_passphrase (replicate 32 9%Z) demo_bss None
  (Some (Passphrase [1]%Z)) demo_station demo_wpa2_env.

Lemma connection_taken_over_witness :
  exists aid s'', runner_poll 0 (returned demo_connect) = Done s'' /\
    running s'' = Some (MkConnectionInfo demo_bss demo_own aid connection_config_default) /\
    link_up s'' = true.
Proof.
  destruct (connection_taken_over 0 wifi_interface demo_passphrase (replicate 32 9%Z) demo_bss None
    (Some (Passphrase [1]%Z)) demo_station demo_wpa2_env [] (returned demo_connect))
    as (aid & s'' & Hp & Hr & Hl & _).
  - reflexivity.
  - exact demo_unbound.
  - by split.
  - vm_compute. reflexivity.
  - exists aid, s''. by split_and!.
Defined.

Lemma connect_refines_witness :
  exists h x, Sta.connect demo_passphrase (sta demo_station) 0 demo_bss None (Some (Passphrase [1]%Z)) h =
      Done (Ok tt, x) /\
    crypto_state (sta (returned demo_connect)) = crypto_state x.
Proof.
  assert (control_connect 0 demo_passphrase (replicate 32 9%Z) demo_bss None
    (Some (Passphrase [1]%Z)) demo_station demo_wpa2_env =
    Done (Returned (Ok tt) [], returned demo_connect)) as He by (vm_compute; reflexivity).
  pose proof (connect_refines 0 wifi_interface demo_passphrase (replicate 32 9%Z) demo_bss None
    (Some (Passphrase [1]%Z)) demo_station demo_wpa2_env eq_refl demo_unbound eq_refl) as Ht.
  rewrite He in Ht. destruct Ht as (h & x & Hc & _ & Hk & _). by exists h, x.
Defined.

(** Connected to the first network, run by the runner, then [connect] to an open one on
    another channel; the runner is polled while the first frame is in the air. *)
Definition demo_other_bss : BSS := MkBSS [1]%Z 11 (replicate 6 9%Z) (-40) Open.
Definition demo_connected : Station (Sg := option) (Ch := list_chan) (W := option) :=
  match runner_poll 0 (returned demo_connect) with Done s => s | Panic => demo_station end.
Definition demo_reconnect_env : list (event own_event task_step) :=
  EvOther TRunner :: EvOwn EBuffer :: answered_after 0 [0]%Z ++
  EvOwn EBuffer :: answered_after 0 [1; 0]%Z.
Definition demo_reconnect := control_connect 0 demo_passphrase [] demo_other_bss None None
  demo_connected (EvOwn EBuffer :: demo_reconnect_env).
Definition demo_old : ConnectionInfo := MkConnectionInfo demo_bss demo_own 1 connection_config_default.

Lemma reconnect_races_teardown_witness :
  connected (tracker (sta (returned demo_reconnect))) = true /\
  running (returned demo_reconnect) = None /\
  ~ holds (channel (returned demo_reconnect)) 0 /\ bssid_filter (returned demo_reconnect) = None.
Proof.
  destruct (reconnect_races_teardown 0 wifi_interface demo_passphrase [] demo_other_bss None None
    demo_connected demo_old demo_reconnect_env [] (returned demo_reconnect)) as [Hc Hor].
  - assert (locks (channel demo_connected) = Some ([true; false; false; false], 6%Z)) as Hl
      by (vm_compute; reflexivity).
    unfold locks_ok. rewrite Hl. split; [done|]. by constructor.
  - vm_compute. reflexivity.
  - vm_compute. reflexivity.
  - vm_compute. reflexivity.
  - assert (running (returned demo_reconnect) = None) as Hn by (vm_compute; reflexivity).
    rewrite Hn in Hor. destruct Hor as [[Hf _]|[_ Hh]]; [discriminate Hf|].
    split_and!; [exact Hc|exact Hn|exact Hh|vm_compute; reflexivity].
Defined.

Lemma retries_reach_the_network_witness :
  exists s', connection_run 0 (MkConnectionParameters demo_passphrase connection_config_default
      demo_own None []) demo_other_bss demo_station
    (EvOwn EBuffer :: answered_after 4 [0]%Z ++ EvOwn EBuffer :: answered_after 2 [7; 0]%Z) =
    Done (Returned (Ok 7%Z) [], s') /\ length (sent s') = 8.
Proof.
  destruct (retries_reach_the_network 0 wifi_interface (MkConnectionParameters demo_passphrase
    connection_config_default demo_own None []) demo_other_bss demo_station)
    as [Hs _]; [reflexivity|exact demo_unhindered|reflexivity|reflexivity|].
  destruct (Hs 4 2 [0]%Z [7; 0]%Z 7%Z (le_n 4) (le_S _ _ (le_S _ _ (le_n 2))) eq_refl eq_refl)
    as (s' & He & Hsent).
  exists s'. split; [exact He|]. by rewrite Hsent.
Defined.
