(* ===== verification/StaKeys.v ===== *)
(** * Stations that share the key slots

    Several stations and one [KeySlotManager], as the interfaces of one lower MAC have it.  A
    connection set-up is split where Connect.v awaits: it acquires its slots, and later
    installs its keys or drops the slots, while the stations, also the same one, do everything
    else that uses keys.  What the stations do with the manager is a run of the machine of
    KeySlots.v, so no slot is ever shared. *)
From S2P Require Import Prelude Bytes Network Platform Async Lmac Locks KeySlots RxRouter Eapol Rsn Bss Sta.
From S2P Require Import StaRouter Connect ConnectFacts ConnectTrace ConnectProps.

(** ** The stations *)

Section StaKeys.
Context `{KeyHal, !RsnCrypto, Ieee80211, Ethernet} {Sg : Type -> Type} `{Signal Sg}.
Notation Sta := (Sta (Sg := Sg)).
Implicit Types (m : KeySlotManager) (x : Sta).

(** The slots of a set-up; [None] for an open network. *)
Definition setup_slots : Type := option (list KeySlot * KeySlot).

(** A station, whose [key_slots] are those of the system; [key_setup]: the set-up under way. *)
Record KeyStation : Type := MkKeyStation {
  key_sta : Sta;
  key_setup : option (BSS * setup_slots);
}.

Record KeyStations : Type := MkKeyStations {
  shared_slots : KeySlotManager;
  key_stations : list KeyStation;
}.

(** [KSetup], [KInstall] and [KAbandon]: where a set-up acquires slots, installs the keys
    of the exchange, or fails or is dropped.  [KConnected]: the call signals the connection.
    [KRekey]: the request of a group rekey.  [KSta]: data and key frames, sent
    frames, disconnections. *)
Inductive key_station_action : Type :=
| KSetup (bss : BSS) (creds : option Credentials)
| KInstall (keys : SecurityAssociations * Message3Replay)
| KAbandon
| KConnected (info : ConnectionInfo)
| KRekey
| KSta (a : sta_action).

Implicit Types (k : KeyStation) (s : KeyStations).

Definition setup_list (slots : setup_slots) : list KeySlot :=
  match slots with Some (g, p) => g ++ [p] | None => [] end.
Definition crypto_list (cs : option CryptoState) : list KeySlot :=
  match cs with Some cs => gtk_key_slots cs ++ [ptk_key_slot cs] | None => [] end.

(** The live [KeySlot]s of a station, and of all. *)
Definition slots_of k : list KeySlot :=
  match key_setup k with Some (_, slots) => setup_list slots | None => [] end ++
  crypto_list (crypto_state (key_sta k)).
Definition all_slots s : list KeySlot := key_stations s ≫= slots_of.

Definition key_stations_new (c : CryptoController) (addresses : list (list Z)) : KeyStations :=
  MkKeyStations (key_slots_new c)
    ((fun address => MkKeyStation (sta_new (key_slots_new c) address) None) <$> addresses).

(** What station [i] does, with the manager it finds. *)
Definition key_station_step (mp : list Z -> list Z -> nat -> list Z) (i : nat) m k
  (a : key_station_action) : option (outcome (KeyStation * KeySlotManager)) :=
  let x := set_keys (key_sta k) m in
  match a, key_setup k with
  | KSetup bss creds, None =>
      let '(r, m) := connection_key_slots mp m i bss creds in
      Some (Done (match r with
        | Ok slots => MkKeyStation x (Some (bss, slots))
        | Err _ => k
        end, m))
  | KInstall keys, Some (bss, slots) => Some (
      x ← install_crypto_state x slots (bss_bssid bss) keys;
      mret (MkKeyStation x None, key_slots x))
  | KAbandon, Some (_, slots) =>
      Some (Done (MkKeyStation x None, match slots with Some (g, p) => drop_slots m (g ++ [p]) | None => m end))
  | KConnected info, setup =>
      Some (Done (MkKeyStation (set_tracker x (signal_state (tracker x) (Connected info))) setup, m))
  | KRekey, setup =>
      Some (Done (MkKeyStation (match crypto_state x with
        | Some cs => set_crypto x (Some (snd (next_group_request cs)))
        | None => x
        end) setup, m))
  | KSta (SConnect _ _ _ _), _ => None
  | KSta a, setup =>
      match sta_step mp i x a with
      | Some r => Some ('(x, _) ← r; mret (MkKeyStation x setup, key_slots x))
      | None => None
      end
  | _, _ => None
  end.

Definition key_stations_step (mp : list Z -> list Z -> nat -> list Z) s
  (a : nat * key_station_action) : option (outcome (KeyStations * unit)) :=
  match key_stations s !! fst a with
  | Some k =>
      match key_station_step mp (fst a) (shared_slots s) k (snd a) with
      | Some r => Some ('(k, m) ← r; mret (MkKeyStations m (<[fst a := k]> (key_stations s)), tt))
      | None => None
      end
  | None => None
  end.
End StaKeys.

(** ** Use of the slots *)

Section Uses.
Context `{KeyHalLaws, !RsnCrypto, Ieee80211}.
Implicit Types (m : KeySlotManager) (slot : KeySlot) (held rest all : list KeySlot).

Definition has_key m slot : bool := installed (crypto_controller m) (key_slot_index slot).

Definition ks_reaches (S S' : KSystem) : Prop :=
  exists acts os, run ks_step S acts = Some (Done (S', os)).

Lemma ks_reaches_refl S : ks_reaches S S.
Proof. by exists [], []. Qed.
Lemma ks_reaches_one S a S' o : ks_step S a = Some (Done (S', o)) -> ks_reaches S S'.
Proof. intros Hs. exists [a], [o]. by rewrite run_cons; eauto 8. Qed.
Lemma ks_reaches_trans S1 S2 S3 : ks_reaches S1 S2 -> ks_reaches S2 S3 -> ks_reaches S1 S3.
Proof.
  intros (l1 & o1 & H1') (l2 & o2 & H2'). exists (l1 ++ l2), (o1 ++ o2).
  apply run_app. eauto 8.
Qed.

(** Whoever holds [held] can, whatever [rest] others hold, bring the manager from [m] to [m'] by
    the operations of its slots, hold [held'] after that, and leave the keys of [rest]. *)
Definition uses m held m' held' : Prop :=
  forall rest all, all ≡ₚ held ++ rest -> ks_inv (MkKSystem m all) ->
  exists all', all' ≡ₚ held' ++ rest /\ ks_inv (MkKSystem m' all') /\
    ks_reaches (MkKSystem m all) (MkKSystem m' all') /\
    forall slot, slot ∈ rest -> has_key m' slot = has_key m slot.

Lemma uses_perm m held held' : held ≡ₚ held' -> uses m held m held'.
Proof.
  intros Hp rest all Hall Hi. exists all. rewrite <- Hp.
  split_and!; [done|done|apply ks_reaches_refl|done].
Qed.

Lemma uses_trans m1 h1 m2 h2 m3 h3 : uses m1 h1 m2 h2 -> uses m2 h2 m3 h3 -> uses m1 h1 m3 h3.
Proof.
  intros H12 H23 rest all Hall Hi. destruct (H12 rest all Hall Hi) as (all2 & Hp2 & Hi2 & Hr2 & Hk2).
  destruct (H23 rest all2 Hp2 Hi2) as (all3 & Hp3 & Hi3 & Hr3 & Hk3). exists all3.
  split_and!; [done|done|by eapply ks_reaches_trans|]. intros slot Hs. by rewrite Hk3, Hk2.
Qed.

(** More slots that stay as they are. *)
Lemma uses_more m held m' held' more : uses m held m' held' -> uses m (held ++ more) m' (held' ++ more).
Proof.
  intros Hu rest all Hall Hi. rewrite <- (assoc_L (++)) in Hall.
  destruct (Hu _ all Hall Hi) as (all' & Hp & Hi' & Hr & Hk). exists all'.
  rewrite <- (assoc_L (++)). split_and!; [done..|]. intros slot Hs. apply Hk, elem_of_app. by right.
Qed.

(** One operation. *)
Lemma uses_step m held m' held' (all' : list KeySlot -> list KeySlot) :
  (forall rest all, all ≡ₚ held ++ rest -> ks_inv (MkKSystem m all) -> exists a o,
     ks_step (MkKSystem m all) a = Some (Done (MkKSystem m' (all' all), o)) /\
     all' all ≡ₚ held' ++ rest /\ forall slot, slot ∈ rest -> has_key m' slot = has_key m slot) ->
  uses m held m' held'.
Proof.
  intros Hs rest all Hall Hi. destruct (Hs rest all Hall Hi) as (a & o & Hstep & Hp & Hk).
  exists (all' all). split_and!; [done|by eapply ks_step_inv|by eapply ks_reaches_one|done].
Qed.

(** A slot of others is another one. *)
Lemma others_differ m held rest all slot other :
  ks_inv (MkKSystem m all) -> all ≡ₚ (held ++ rest) -> slot ∈ held -> other ∈ rest ->
  key_slot_index other <> key_slot_index slot.
Proof.
  intros [Hnd _ _ _] Hp Hs Ho Heq. unfold held_slots in Hnd. cbn [ks_held] in Hnd.
  rewrite Hp, fmap_app, NoDup_app in Hnd. destruct Hnd as (_ & Hd & _).
  eapply (Hd (key_slot_index slot)); [by apply list_elem_of_fmap_2|].
  rewrite <- Heq. by apply list_elem_of_fmap_2.
Qed.

Lemma uses_acquire m i slot m' held :
  lmac_acquire_key_slot m i = Some (slot, m') -> uses m held m' (slot :: held).
Proof.
  intros Ha. apply (uses_step _ _ _ _ (cons slot)). intros rest all Hall Hi. exists (KAcquire i), (KOAcquired (Some slot)).
  split; [simpl; by rewrite Ha|]. split; [by rewrite Hall|]. intros other _. unfold has_key.
  unfold lmac_acquire_key_slot in Ha. destruct (acquire_key_slot m) as [[j m1]|] eqn:Hacq; [|done].
  injection Ha as _ <-. destruct (acquire_lowest _ _ _ Hacq) as (Hj & _ & _).
  by destruct (acquired_free _ _ _ j Hacq Hj) as [_ ->].
Qed.

Lemma uses_set m slot id address par r m' held :
  slot ∈ held -> set_key m slot id address par = (r, m') -> uses m held m' held.
Proof.
  intros Hin Hs. apply (uses_step _ _ _ _ (fun l => l)). intros rest all Hall Hi.
  assert (slot ∈ all) as [n Hn]%list_elem_of_lookup by (rewrite Hall; apply elem_of_app; by left).
  exists (KSetKey n id address par), (KOSet r). split; [simpl; by rewrite Hn, Hs|]. split; [done|].
  intros other Ho. pose proof (others_differ _ _ _ _ _ _ Hi Hall Hin Ho) as Hne.
  unfold set_key in Hs. destruct (crypto_set_key _ _ _ _ _ _) as [r1 c] eqn:Hc. injection Hs as _ <-.
  unfold has_key. simpl. pose proof (set_key_others (crypto_controller m) (key_slot_index slot)
    (Z.to_nat (ks_interface slot)) id address par _ Hne) as Ho'. by rewrite Hc in Ho'.
Qed.

Lemma uses_drop m slot held : uses m (slot :: held) (key_slot_drop m slot) held.
Proof.
  intros rest all Hall Hi.
  assert (slot ∈ all) as [n Hn]%list_elem_of_lookup by (rewrite Hall; by left).
  assert (ks_step (MkKSystem m all) (KDrop n) =
    Some (Done (MkKSystem (key_slot_drop m slot) (delete n all), KODropped))) as Hs by (simpl; by rewrite Hn).
  exists (delete n all). split_and!; [|by eapply ks_step_inv|by eapply ks_reaches_one|].
  - symmetry. eapply Permutation.Permutation_cons_inv.
    transitivity all; [by symmetry|by apply delete_Permutation].
  - intros other Ho. assert (slot ∈ slot :: held) as Hin by by left.
    pose proof (others_differ _ _ _ _ _ _ Hi Hall Hin Ho) as Hne. unfold has_key. simpl.
    rewrite !delete_installed. by rewrite !decide_False.
Qed.

Lemma uses_acquire_slots n m i slots m' held :
  acquire_slots n m i = (slots, m') -> uses m held m' (omap id slots ++ held).
Proof.
  revert m held slots m'. induction n as [|n IH]; intros m held slots m' Ha; simpl in Ha.
  { injection Ha as <- <-. by apply uses_perm. }
  destruct (lmac_acquire_key_slot m i) as [[slot m1]|] eqn:Hs.
  - destruct (acquire_slots n m1 i) as [l m2] eqn:Hl. injection Ha as <- <-.
    eapply uses_trans; [by eapply uses_acquire|]. eapply uses_trans; [exact (IH _ (slot :: held) _ _ Hl)|].
    apply uses_perm. simpl. by rewrite Permutation_middle.
  - destruct (acquire_slots n m i) as [l m2] eqn:Hl. injection Ha as <- <-. exact (IH m held _ _ Hl).
Qed.

Lemma uses_drop_slots m slots held : uses m (slots ++ held) (drop_slots m slots) held.
Proof.
  unfold drop_slots. revert m. induction slots as [|slot slots IH]; intros m; simpl.
  - by apply uses_perm.
  - eapply uses_trans; [apply uses_drop|apply IH].
Qed.

Lemma uses_connection_slots mp m i bss creds r m' held :
  connection_key_slots mp m i bss creds = (r, m') ->
  uses m held m' (match r with Ok slots => setup_list slots | Err _ => [] end ++ held).
Proof.
  unfold connection_key_slots. destruct creds as [c|]; [|intros [= <- <-]; by apply uses_perm].
  case_decide; [intros [= <- <-]; by apply uses_perm|].
  destruct (acquire_slots 5 m i) as [slots m1] eqn:Ha. apply (uses_acquire_slots _ _ _ _ _ held) in Ha.
  assert (uses m held (drop_slots m1 (omap id slots)) held) as Hback
    by (eapply uses_trans; [exact Ha|apply uses_drop_slots]).
  destruct (pmk mp c 32 (ssid bss)); [|by intros [= <- <-]].
  destruct (mapM id slots) as [found|] eqn:Hl; [|by intros [= <- <-]].
  destruct found as [|g0 [|g1 [|g2 [|g3 [|p []]]]]]; try by intros [= <- <-].
  intros [= <- <-]. apply mapM_Some in Hl.
  assert (omap id slots = [g0; g1; g2; g3; p]) as Ho; [|by rewrite Ho in Ha].
  clear -Hl. repeat (match goal with Hf : Forall2 _ _ _ |- _ => inversion Hf; clear Hf; subst end).
  unfold id in *. by simplify_eq/=.
Qed.

Lemma uses_set_unwrap m slot id address par m' held :
  slot ∈ held -> set_key_unwrap m slot id address par = Done m' -> uses m held m' held.
Proof.
  intros Hin Hs. unfold set_key_unwrap in Hs.
  destruct (set_key m slot id address par) as [[u|e] m1] eqn:Hk; [|done]. injection Hs as ->.
  by eapply uses_set.
Qed.

Lemma uses_crypto_state_new m g p bssid sa replay cs m' held :
  crypto_state_new m g p bssid sa replay = Done (cs, m') ->
  crypto_list (Some cs) = g ++ [p] /\ uses m ((g ++ [p]) ++ held) m' ((g ++ [p]) ++ held).
Proof.
  unfold crypto_state_new. intros Hn. apply outcome_bind_Done in Hn as (m1 & Hp & Hn).
  apply outcome_bind_Done in Hn as (m2 & Hg & [= <- <-]). split; [done|].
  unfold program_pairwise_key in Hp. apply outcome_bind_Done in Hp as (key & _ & Hp). case_decide; [|done].
  unfold program_group_key in Hg. apply outcome_bind_Done in Hg as (key' & _ & Hg).
  apply outcome_bind_Done in Hg as (slot & Hslot & Hg). apply expect_Done, list_elem_of_lookup_2 in Hslot.
  cbn [gtk_key_slots ptk_key_slot] in *.
  eapply uses_trans; (eapply uses_set_unwrap; [|done]); set_solver.
Qed.
End Uses.

(** ** What a station does with its slots *)

Section StationFacts.
Context `{ConnectLaws, !Ieee80211Laws, !KeyHalLaws, Ethernet} {Sg : Type -> Type} `{SignalLaws Sg}.
Notation Sta := (Sta (Sg := Sg)).
Notation KeyStation := (KeyStation (Sg := Sg)).
Notation KeyStations := (KeyStations (Sg := Sg)).
Implicit Types (m : KeySlotManager) (x : Sta) (k : KeyStation) (s : KeyStations).

Lemma count_pn_list cs pn : crypto_list (Some (count_pn cs pn)) = crypto_list (Some cs).
Proof. by destruct pn. Qed.

Lemma answer_key_frame_list cs m bytes n kck kek own bssid r cs' m' :
  answer_key_frame cs m bytes n kck kek own bssid = Done (r, cs', m') ->
  crypto_list (Some cs') = crypto_list (Some cs).
Proof.
  unfold answer_key_frame. intros Ha. apply outcome_bind_Done in Ha as (payload & _ & Ha).
  apply outcome_bind_Done in Ha as (is_group & _ & Ha). destruct is_group.
  - apply outcome_bind_Done in Ha as ([msg|] & _ & Ha); [|by injection Ha as _ <- _].
    apply outcome_bind_Done in Ha as ([[inst cs1] m1] & Hacc & Ha).
    assert (cs' = cs1) as -> by (by destruct inst; injection Ha as _ <- _).
    apply accept_group_message_cases in Hacc as [(-> & _)|(_ & _ & Hp & Hg & _)]; [done|].
    simpl. by rewrite Hp, Hg.
  - apply outcome_bind_Done in Ha as (gtk & _ & Ha).
    apply outcome_bind_Done in Ha as ([c r'] & _ & Ha). by destruct c; injection Ha as _ <- _.
Qed.

(** A key frame programs at most a slot of the station. *)
Lemma uses_key_frame cs m buffer n own bssid r cs' m' held :
  handle_eapol_retry cs m buffer n own bssid = Done (r, cs', m') ->
  crypto_list (Some cs') = crypto_list (Some cs) /\
  ((forall m, rsn_inv (cs, m)) -> forall m, rsn_inv (cs', m)) /\
  uses m (crypto_list (Some cs) ++ held) m' (crypto_list (Some cs) ++ held).
Proof.
  intros Hh. split; [|].
  { apply handle_eapol_retry_cases in Hh as [(_ & -> & _)|(_ & bytes & kck & kek & Ha)]; [done|].
    by rewrite (answer_key_frame_list _ _ _ _ _ _ _ _ _ _ _ Ha), count_pn_list. }
  assert (rsn_step own bssid (cs, m) (RKeyFrame buffer n) = Some (Done ((cs', m'), ROReply r))) as Hs
    by (unfold rsn_step; by rewrite Hh).
  apply rsn_step_effect in Hs as [Hinv He]. split.
  - intros Hi m1. by destruct (Hinv (Hi m)).
  - destruct He as [[Hm _]|(kck & counter & i & key & _ & _ & _ & _ & _ & id & slot & _ & Hslot & Hset)].
    + cbn [snd] in Hm. subst. by apply uses_perm.
    + cbn [fst snd] in *. eapply uses_set_unwrap; [|exact Hset].
      apply list_elem_of_lookup_2 in Hslot. simpl. set_solver.
Qed.

(** The state of a station is such that nothing it does with its keys panics. *)
Record key_station_ok k : Prop := {
  ko_keys : forall cs, crypto_state (key_sta k) = Some cs -> forall m, rsn_inv (cs, m);
  ko_slots : Forall slot_usable (crypto_list (crypto_state (key_sta k)));
  ko_setup : forall bss slots, key_setup k = Some (bss, slots) -> setup_ok slots;
}.

(** Keys are installed as an exchange returns them. *)
Definition key_action_ok (a : key_station_action) : Prop :=
  match a with
  | KInstall keys => exists pmk own snonce bssid, handshake_result pmk own snonce bssid keys
  | _ => True
  end.

Definition station_post m k (r : outcome (KeyStation * KeySlotManager)) : Prop :=
  match r with
  | Panic => False
  | Done (k', m') => key_station_ok k' /\ uses m (slots_of k) m' (slots_of k')
  end.

Lemma setup_post mp i m k bss creds :
  i < INTERFACE_COUNT -> key_station_ok k -> key_setup k = None ->
  match key_station_step mp i m k (KSetup bss creds) with Some r => station_post m k r | None => True end.
Proof.
  intros Hi [Hk Hsl Hs] Hn. simpl. rewrite Hn. destruct (connection_key_slots mp m i bss creds) as [r m'] eqn:Hc.
  pose proof (uses_connection_slots _ _ _ _ _ _ _ (crypto_list (crypto_state (key_sta k))) Hc) as Hu.
  apply (connection_key_slots_spec i Hi) in Hc.
  assert (slots_of k = crypto_list (crypto_state (key_sta k))) as Hof by (unfold slots_of; by rewrite Hn).
  destruct r as [slots|e]; (split; [|by rewrite Hof]); [|by split].
  split; [done|done|]. intros bss' slots' [= _ <-]. apply Hc.
Qed.

Lemma install_post (i : nat) mp m k keys :
  i < INTERFACE_COUNT -> key_station_ok k -> key_action_ok (KInstall keys) ->
  match key_station_step mp i m k (KInstall keys) with Some r => station_post m k r | None => True end.
Proof.
  intros Hi [Hk Hsl Hs] (pm & own & snonce & bssid & Hkeys). simpl.
  destruct (key_setup k) as [[bss slots]|] eqn:Hset; [|done]. pose proof (Hs bss slots eq_refl) as Hok.
  destruct slots as [[g p]|]; cbn [install_crypto_state].
  2: { split; [split; [exact Hk|exact Hsl|done]|]. unfold slots_of. rewrite Hset. by apply uses_perm. }
  destruct (crypto_state_new_Done i Hi m g p (bss_bssid bss) _ _ _ _ _ Hkeys Hok) as [m1 Hm].
  pose proof Hkeys as (anonce & gtk & id & counter & _ & Hsa & _). destruct Hok as [Hg Hu4].
  destruct (crypto_state_new_inv _ _ _ _ _ _ _ _ _ _ _ _ Hg Hsa Hm) as [Hinv _].
  cbn [key_slots set_keys crypto_state]. rewrite Hm. cbn [mbind outcome_bind].
  destruct (uses_crypto_state_new _ _ _ _ _ _ _ _ (crypto_list (crypto_state (key_sta k))) Hm) as [Hl Hu].
  split.
  - split; [|exact Hu4|done]. intros cs [= <-] m2. by destruct Hinv.
  - unfold slots_of. rewrite Hset. cbn [setup_list]. eapply uses_trans; [exact Hu|].
    cbn [key_setup key_sta crypto_state set_crypto set_keys key_slots]. rewrite Hl.
    destruct (crypto_state (key_sta k)) as [old|]; [|apply uses_perm; by rewrite app_nil_r].
    eapply uses_trans; [apply uses_perm, Permutation_app_comm|apply uses_drop_slots].
Qed.

(** A step of the keys that leaves the slots. *)
Lemma same_slots m k k' :
  key_station_ok k -> key_setup k' = key_setup k ->
  (forall cs, crypto_state (key_sta k') = Some cs -> exists cs0, crypto_state (key_sta k) = Some cs0 /\
     crypto_list (Some cs) = crypto_list (Some cs0) /\ ((forall m, rsn_inv (cs0, m)) -> forall m, rsn_inv (cs, m))) ->
  (crypto_state (key_sta k') = None -> crypto_state (key_sta k) = None) ->
  station_post m k (Done (k', m)).
Proof.
  intros [Hk Hsl Hs] Hset Hc Hn. split.
  - split; [| |by rewrite Hset].
    + intros cs Hcs. destruct (Hc cs Hcs) as (cs0 & Hcs0 & _ & Hi). by apply Hi, Hk.
    + destruct (crypto_state (key_sta k')) as [cs|]; [|done].
      destruct (Hc cs eq_refl) as (cs0 & Hcs0 & -> & _). by rewrite Hcs0 in Hsl.
  - apply uses_perm. unfold slots_of. rewrite Hset. f_equiv.
    destruct (crypto_state (key_sta k')) as [cs|]; [|by rewrite Hn].
    by destruct (Hc cs eq_refl) as (cs0 & -> & -> & _).
Qed.

Lemma same_keys m k k' :
  key_station_ok k -> key_setup k' = key_setup k ->
  crypto_state (key_sta k') = crypto_state (key_sta k) -> station_post m k (Done (k', m)).
Proof.
  intros Hk Hs Hc. apply same_slots; [done..| |by rewrite Hc]. intros cs. rewrite Hc. by exists cs.
Qed.

(** Data frames, sent frames and the request of a rekey leave the slots. *)
Lemma checked_keys cs is_group id payload :
  let cs1 := snd (process_potentially_wrapped_payload cs is_group id payload) in
  crypto_list (Some cs1) = crypto_list (Some cs) /\ ((forall m, rsn_inv (cs, m)) -> forall m, rsn_inv (cs1, m)).
Proof.
  destruct (process_potentially_wrapped_payload cs is_group id payload) as [q cs1] eqn:Hq. simpl. split.
  - unfold process_potentially_wrapped_payload in Hq. destruct payload as [pl|pl pn]; [by injection Hq as _ <-|].
    destruct (if is_group then _ else _) as [valid sa]. by injection Hq as _ <-.
  - intros Hi m. assert (rsn_step [] [] (cs, m) (RData is_group id payload) =
      Some (Done ((cs1, m), RODelivered q))) as Hs by (unfold rsn_step; by rewrite Hq).
    by apply rsn_step_effect in Hs as [Hinv _]; apply Hinv.
Qed.

Lemma data_keys cs frame p cs' :
  accept_data_frame (Some cs) frame = Done (p, cs') -> exists cs1, cs' = Some cs1 /\
  crypto_list (Some cs1) = crypto_list (Some cs) /\ ((forall m, rsn_inv (cs, m)) -> forall m, rsn_inv (cs1, m)).
Proof.
  intros (cs1 & -> & [->|(is_group & id & payload & ->)])%accept_data_frame_keys; eexists; (split; [done|]).
  - done.
  - apply checked_keys.
Qed.

Lemma sent_keys cs : let cs1 := snd (tx_crypto_info cs) in
  crypto_list (Some cs1) = crypto_list (Some cs) /\ ((forall m, rsn_inv (cs, m)) -> forall m, rsn_inv (cs1, m)).
Proof.
  destruct (tx_crypto_info cs) as [info cs1] eqn:Ht. simpl. split.
  - unfold tx_crypto_info in Ht. destruct (next_packet_number _). by injection Ht as _ <-.
  - intros Hi m. assert (rsn_step [] [] (cs, m) RSend = Some (Done ((cs1, m), ROSent info))) as Hs
      by (unfold rsn_step; by rewrite Ht).
    by apply rsn_step_effect in Hs as [Hinv _]; apply Hinv.
Qed.

Lemma rekey_keys cs : let cs1 := snd (next_group_request cs) in
  crypto_list (Some cs1) = crypto_list (Some cs) /\ ((forall m, rsn_inv (cs, m)) -> forall m, rsn_inv (cs1, m)).
Proof.
  unfold next_group_request. destruct (_ ≫= _) as [[kck n]|]; [|done]. simpl. split; [done|].
  intros Hi m. destruct (Hi m). by split.
Qed.

Lemma sta_post mp i m k a :
  key_station_ok k ->
  match key_station_step mp i m k (KSta a) with Some r => station_post m k r | None => True end.
Proof.
  intros Hk. destruct a as [bss config creds h| |reason| |buffer|buffer n]; [done|..]; simpl.
  - unfold disconnect. by destruct (connection_info _); apply same_keys.
  - by apply same_keys.
  - unfold msdu_protection. cbn [crypto_state set_keys].
    destruct (crypto_state (key_sta k)) as [cs|] eqn:Hc.
    + pose proof (sent_keys cs) as Hs. destruct (tx_crypto_info cs) as [info cs1].
      apply same_slots; [done|done|intros cs2 [= <-]; by exists cs|done].
    + by apply same_keys.
  - destruct (parse_data_frame buffer) as [frame|] eqn:Hp; [|done].
    destruct (accept_data_frame_Done (crypto_state (key_sta k)) buffer frame Hp) as (p & cs' & Hd).
    rewrite Hd. cbn [mbind outcome_bind mret outcome_ret].
    destruct (crypto_state (key_sta k)) as [cs|] eqn:Hc.
    + apply data_keys in Hd as (cs1 & -> & Hd).
      apply same_slots; [done|done|intros cs2 [= <-]; by exists cs|done].
    + apply accept_data_frame_open in Hd as ->.
      by apply same_keys.
  - destruct (is_key_frame buffer) as [[]|] eqn:Hkey; try done.
    destruct (crypto_state (key_sta k)) as [cs|] eqn:Hc; [|by apply same_keys].
    destruct (bssid_and_own_address _) as [[bssid own]|]; [|by apply same_keys].
    pose proof (ko_keys _ Hk cs Hc) as Hinv. pose proof (ko_slots _ Hk) as Hsl. rewrite Hc in Hsl.
    destruct (handle_eapol_retry cs m buffer n own bssid) as [[[r cs1] m1]|] eqn:Hh.
    + cbn [mbind outcome_bind mret outcome_ret].
      destruct (uses_key_frame _ _ _ _ _ _ _ _ _ (match key_setup k with Some (_, sl) => setup_list sl | None => [] end) Hh)
        as (Hl & Hi & Hu).
      split; [split; [intros cs2 [= <-]; by apply Hi|by cbn [key_sta crypto_state set_crypto]; rewrite Hl|apply Hk]|].
      unfold slots_of. cbn [key_setup key_sta crypto_state set_crypto]. rewrite Hc, Hl.
      eapply uses_trans; [apply uses_perm, Permutation_app_comm|].
      eapply uses_trans; [exact Hu|apply uses_perm, Permutation_app_comm].
    + assert (rsn_step own bssid (cs, m) (RKeyFrame buffer n) = Some Panic) as Hs
        by (unfold rsn_step; by rewrite Hh).
      apply rsn_step_panic in Hs; [|done|by rewrite Hkey].
      by apply Forall_app in Hsl as [Hg%(usable_not_refused cs m bssid) _].
Qed.

(** Every step of a station is a use of its own slots, and does not panic. *)
Lemma key_station_step_post mp i m k a :
  i < INTERFACE_COUNT -> key_station_ok k -> key_action_ok a ->
  match key_station_step mp i m k a with Some r => station_post m k r | None => True end.
Proof.
  intros Hi Hk Ha. destruct a as [bss creds|keys| |info| |a].
  - destruct (key_setup k) as [[? ?]|] eqn:Hset; [simpl; by rewrite Hset|by apply setup_post].
  - by apply install_post.
  - simpl. destruct (key_setup k) as [[bss slots]|] eqn:Hset; [|done]. split; [split; [apply Hk..|done]|].
    unfold slots_of. rewrite Hset. destruct slots as [[g p]|]; [apply uses_drop_slots|by apply uses_perm].
  - by apply same_keys.
  - simpl. destruct (crypto_state (key_sta k)) as [cs|] eqn:Hc.
    + pose proof (rekey_keys cs) as Hs.
      apply same_slots; [done|done|intros cs2 [= <-]; by exists cs|done].
    + by apply same_keys.
  - by apply sta_post.
Qed.
End StationFacts.

(** ** The stations together *)

Section StationsFacts.
Context `{ConnectLaws, !Ieee80211Laws, !KeyHalLaws, Ethernet} {Sg : Type -> Type} `{SignalLaws Sg}.
Context (mp : list Z -> list Z -> nat -> list Z).
Notation KeyStation := (KeyStation (Sg := Sg)).
Notation KeyStations := (KeyStations (Sg := Sg)).
Implicit Types (c : CryptoController) (k : KeyStation) (s : KeyStations).

(** Every station is in order, and the live slots are those of a run of KeySlots.v. *)
Record stations_ok c s : Prop := {
  so_count : length (key_stations s) <= INTERFACE_COUNT;
  so_stations : forall i k, key_stations s !! i = Some k -> key_station_ok k;
  so_slots : exists held, held ≡ₚ all_slots s /\ ks_inv (MkKSystem (shared_slots s) held) /\
    ks_reaches (ksystem_new c) (MkKSystem (shared_slots s) held);
}.

Definition others (i : nat) s : list KeySlot :=
  (take i (key_stations s) ++ drop (S i) (key_stations s)) ≫= slots_of.

Lemma all_slots_split i k s : key_stations s !! i = Some k -> all_slots s ≡ₚ slots_of k ++ others i s.
Proof.
  intros Hi. unfold all_slots, others. rewrite <- (take_drop_middle _ _ _ Hi) at 1.
  rewrite !bind_app, bind_cons,  !(assoc_L (++)). f_equiv. apply Permutation_app_comm.
Qed.

Lemma others_of i j k s slot :
  j <> i -> key_stations s !! j = Some k -> slot ∈ slots_of k -> slot ∈ others i s.
Proof.
  intros Hne Hj Hs. apply list_elem_of_bind. exists k. split; [done|]. apply elem_of_app.
  destruct (decide (j < i)); [left|right]; apply list_elem_of_lookup.
  - exists j. by rewrite lookup_take_lt.
  - exists (j - S i). rewrite lookup_drop. by replace (S i + (j - S i)) with j by lia.
Qed.

Lemma new_stations_ok c addresses :
  length addresses <= INTERFACE_COUNT -> (forall j, installed c j = false) ->
  stations_ok c (key_stations_new c addresses).
Proof.
  intros Hl Hc. split.
  - simpl. by rewrite length_fmap.
  - intros i k Hk. apply list_lookup_fmap_Some in Hk as (address & -> & _). by split.
  - exists []. split_and!; [|by apply ksystem_new_inv|apply ks_reaches_refl].
    unfold all_slots. cbn [key_stations key_stations_new]. clear Hl.
    induction addresses as [|address addresses IH]; [done|]. rewrite fmap_cons, bind_cons. exact IH.
Qed.

(** A step of station [i] keeps all in order, and the slots and keys of the others. *)
Lemma key_stations_step_ok c s i a :
  stations_ok c s -> key_action_ok a ->
  match key_stations_step mp s (i, a) with
  | Some Panic => False
  | Some (Done (s', _)) => stations_ok c s' /\
      forall j k, j <> i -> key_stations s !! j = Some k -> key_stations s' !! j = Some k /\
        forall slot, slot ∈ slots_of k -> has_key (shared_slots s') slot = has_key (shared_slots s) slot
  | None => True
  end.
Proof.
  intros [Hlen Hst (held & Hheld & Hinv & Hrun)] Ha. unfold key_stations_step. cbn [fst snd].
  destruct (key_stations s !! i) as [k|] eqn:Hi; [|done].
  assert (i < INTERFACE_COUNT) as Hlt by (apply lookup_lt_Some in Hi; lia).
  pose proof (key_station_step_post mp i (shared_slots s) k a Hlt (Hst i k Hi) Ha) as Hp.
  destruct (key_station_step mp i (shared_slots s) k a) as [[[k' m']|]|]; [|done..]. destruct Hp as [Hk' Hu].
  cbn [mbind outcome_bind mret outcome_ret].
  set (s' := MkKeyStations m' (<[i := k']> (key_stations s))).
  assert (others i s' = others i s) as Ho.
  { unfold others, s'. cbn [key_stations]. rewrite take_insert_ge by lia.
    by rewrite drop_insert_lt by lia. }
  rewrite (all_slots_split i k s Hi) in Hheld.
  destruct (Hu (others i s) held Hheld Hinv) as (held' & Hheld' & Hinv' & Hrun' & Hkeys).
  split; [split|].
  - simpl. by rewrite length_insert.
  - intros j kj Hj. apply list_lookup_insert_Some in Hj as [(<- & <- & _)|[_ Hj]]; [done|by eapply Hst].
  - exists held'. split_and!; [|done|by eapply ks_reaches_trans].
    rewrite Hheld', (all_slots_split i k' s'), Ho; [done|]. apply list_lookup_insert_eq. by eapply lookup_lt_Some.
  - intros j kj Hne Hj. split; [simpl; by rewrite list_lookup_insert_ne|].
    intros slot Hs. by apply Hkeys, (others_of i j kj).
Qed.

Lemma stations_slots c s : stations_ok c s ->
  NoDup (key_slot_index <$> all_slots s) /\
  forall j, j < KEY_SLOT_COUNT ->
    (is_free (shared_slots s) j <-> j ∉ key_slot_index <$> all_slots s) /\
    (j ∉ key_slot_index <$> all_slots s -> installed (crypto_controller (shared_slots s)) j = false).
Proof.
  intros [_ _ (held & Hheld & [Hnd _ Hf He] & _)]. unfold held_slots in *. cbn [ks_held ks_manager] in *.
  rewrite Hheld in Hnd. split; [done|]. intros j Hj. specialize (Hf j Hj). specialize (He j Hj).
  rewrite Hheld in Hf, He. by split.
Qed.

(** C22 Stations on one radio never share a key slot.  Any number of stations with the
    interfaces of one lower MAC set up connections, fail to or drop the attempt, install the
    keys of their exchanges, answer the key frames they recognise, rekey, send, receive and
    disconnect, in any order, also during the set-ups of others.  None of it panics, what
    they do with the manager is a run of its machine, all live slots are different, exactly
    the others are free and hold no key, and no action of a station changes another
    station's state or whether its slots hold keys.  Initially the key memory is empty. *)
Theorem stations_never_share_keys c addresses acts :
  length addresses <= INTERFACE_COUNT -> (forall j, installed c j = false) ->
  Forall (fun a => key_action_ok (snd a)) acts ->
  match run (key_stations_step mp) (key_stations_new c addresses) acts with
  | Some Panic => False
  | None => True
  | Some (Done (s, _)) =>
      (exists held, held ≡ₚ all_slots s /\ ks_reaches (ksystem_new c) (MkKSystem (shared_slots s) held)) /\
      NoDup (key_slot_index <$> all_slots s) /\
      (forall j, j < KEY_SLOT_COUNT ->
        (is_free (shared_slots s) j <-> j ∉ key_slot_index <$> all_slots s) /\
        (j ∉ key_slot_index <$> all_slots s -> installed (crypto_controller (shared_slots s)) j = false)) /\
      forall i a s' u, key_action_ok a -> key_stations_step mp s (i, a) = Some (Done (s', u)) ->
        forall j k, j <> i -> key_stations s !! j = Some k -> key_stations s' !! j = Some k /\
          forall slot, slot ∈ slots_of k -> has_key (shared_slots s') slot = has_key (shared_slots s) slot
  end.
Proof.
  intros Hlen Hc Hacts. pose proof (new_stations_ok c addresses Hlen Hc) as Hs.
  assert (match run (key_stations_step mp) (key_stations_new c addresses) acts with
    | Some Panic => False | None => True | Some (Done (s, _)) => stations_ok c s end) as Hrun.
  { revert Hs. generalize (key_stations_new c addresses). induction Hacts as [|[i a] acts Ha _ IH]; intros s Hs; [done|].
    simpl. pose proof (key_stations_step_ok c s i a Hs Ha) as Hstep.
    destruct (key_stations_step mp s (i, a)) as [[[s1 u]|]|]; [|done..]. destruct Hstep as [Hs1 _].
    specialize (IH s1 Hs1). by destruct (run _ s1 acts) as [[[s2 os]|]|]. }
  destruct (run _ _ acts) as [[[s os]|]|]; [|done..].
  destruct (stations_slots c s Hrun) as [Hnd Hfree]. split_and!; [|done|done|].
  - destruct (so_slots c s Hrun) as (held & Hh & _ & Hr). by exists held.
  - intros i a s' u Ha Hstep. pose proof (key_stations_step_ok c s i a Hrun Ha) as Hi.
    rewrite Hstep in Hi. apply Hi.
Qed.
End StationsFacts.

(** ** Witness *)

(** The keys of an exchange with group key [gtk] under id 2. *)
Definition demo_exchange_keys (bssid : list Z) (gtk : Z) : SecurityAssociations * Message3Replay :=
  (match initial_associations (tksa_new (derive_ptk (ConnectCrypto := plain_connect) (replicate 32 5%Z) bssid demo_own
       (replicate 32 7%Z) (replicate 32 9%Z)) 0) (tksa_new (replicate 16 gtk) 2) WPA2_PSK_AKM CCMP_128 with
   | Done sa => sa
   | Panic => demo_associations
   end, message3_replay_new (replicate 32 7%Z) (replicate 32 9%Z) 6).

Definition demo_other_wpa2 : BSS := MkBSS [103]%Z 11 (replicate 6 4%Z) (-60) (Wpa2 false).

(** Two stations set up connections at the same time; the first gets a new group key while
    the second still exchanges keys; later the first sets up another connection, and fails. *)
Definition demo_key_acts : list (nat * key_station_action) :=
  let creds := Some (Passphrase [1]%Z) in
  [(0, KSetup demo_bss creds); (1, KSetup demo_other_wpa2 creds);
   (0, KInstall (demo_exchange_keys (replicate 6 2%Z) 8));
   (0, KConnected (MkConnectionInfo demo_bss demo_own 1 connection_config_default));
   (0, KSta (SKeyFrame (demo_key_frame 0x13 0x82 8) 100));
   (1, KInstall (demo_exchange_keys (replicate 6 4%Z) 9)); (1, KSta SSend); (0, KSta SSend);
   (0, KSetup demo_other_wpa2 creds); (1, KRekey); (0, KAbandon)].
Definition demo_key_stations : KeyStations (Sg := option) :=
  match run (key_stations_step demo_passphrase) (key_stations_new (H := list_keys) [] [demo_own; replicate 6 3%Z])
    demo_key_acts with
  | Some (Done (s, _)) => s
  | _ => key_stations_new (H := list_keys) [] []
  end.

Lemma stations_never_share_keys_witness :
  key_slot_index <$> all_slots demo_key_stations = [0; 1; 2; 3; 4; 5; 6; 7; 8; 9] /\
  NoDup (key_slot_index <$> all_slots demo_key_stations).
Proof.
  split; [vm_compute; reflexivity|].
  assert (exists os, run (key_stations_step demo_passphrase)
    (key_stations_new (H := list_keys) [] [demo_own; replicate 6 3%Z]) demo_key_acts =
    Some (Done (demo_key_stations, os))) as [os Hr] by (eexists; vm_compute; reflexivity).
  pose proof (stations_never_share_keys (Sg := option) demo_passphrase [] [demo_own; replicate 6 3%Z] demo_key_acts) as Ht.
  rewrite Hr in Ht. apply Ht; [simpl; lia|reflexivity|].
  assert (forall bssid gtk, key_action_ok (KInstall (demo_exchange_keys bssid gtk))) as Hk.
  { intros bssid gtk. exists (replicate 32 5%Z), demo_own, (replicate 32 9%Z), bssid.
    exists (replicate 32 7%Z), (replicate 16 gtk), 2%Z, 6%Z. split; [lia|]. by split. }
  unfold demo_key_acts. repeat constructor; apply Hk.
Defined.
