(* ===== verification/StaRunner.v ===== *)
(** * The station's runner: foa_sta/src/runner.rs

    The interface as its two tasks run it: the connection task ([ConnectionRunner::run]
    with [run_connection] and [run_msdu_tx] under its [select3]) and the routing task.
    A poll of the connection task runs until every future it polls is pending: what it
    finds ready (free transmit buffers, the beacon ticker, the completion of a reply) is
    its argument, so a poll is a function with fuel, and running out of fuel is a poll
    that does not return.  [Station] of Connect.v is the state shared with the control. *)
From S2P Require Import Prelude Bytes Network Platform Async Lmac KeySlots RxRouter Eapol Rsn Bss Sta.
From S2P Require Import StaRouter Connect.

(** The MTU of the interface, in bytes of an Ethernet frame (lib.rs). *)
Definition MTU : nat := 1514.

(** What a frame of the background queue is to the connection. *)
Inductive ConnectionRxEvent : Type :=
| RxDisconnected (reason : DisconnectionReason)
| BeaconReceived.

Inductive background_frame : Type :=
| BgDeauthentication
| BgBeacon.

(** The header of a frame that parses: its first address, whether it is a data frame,
    and what the router reads. *)
Record FrameHeader : Type := MkFrameHeader {
  fh_address_1 : list Z;
  fh_is_data : bool;
  fh_generic : GenericFrame;
}.

(** The crates' part: frame headers ([GenericFrame::new]), the typed management frames,
    LLC frames with their ether type, and the length of an MSDU's data frame in a
    transmit buffer, if it fits; protected frames are longer. *)
Class StaWire `{Ethernet} : Type := {
  frame_header : list Z -> option FrameHeader;
  background_frame_of : list Z -> option background_frame;
  parse_snap_llc : list Z -> option (Z * list Z);
  msdu_frame_len : EthernetFrame -> bool -> option nat;
}.

(** How a stretch of code between two awaits ends: the task goes on, waits, or
    returns. *)
Inductive round (A : Type) : Type :=
| RAgain
| RPending
| RReturn (a : A).
Arguments RAgain {A}.
Arguments RPending {A}.
Arguments RReturn {A} a.

Section StaRunner.
Context `{ConnectCrypto, Ieee80211, StaWire}.
Context {Sg Ch W Q : Type -> Type} `{Signal Sg, Channel Ch, Watch W, PacketQueue Q, Radio}.
Context (interface : nat).
Notation Station := (Station (Sg := Sg) (Ch := Ch) (W := W)).
Implicit Types (st : Station) (info : ConnectionInfo) (buffer : list Z).

(** Where [run_connection] waits: in its [select3], for the end of an off-channel
    operation, for the scratch buffer of a key frame, for the buffer and for the
    completion of a reply, for the buffer of a deauthentication. *)
Inductive connection_task : Type :=
| CSelect
| COffChannel
| CScratch buffer
| CReply (r : reply)
| CReplySent
| CDeauth.

(** Where [run_msdu_tx] waits: for an MSDU, for the end of an off-channel operation, for
    a transmit buffer. *)
Inductive msdu_task : Type :=
| MIdle
| MOffChannel (msdu : list Z)
| MAlloc (frame : EthernetFrame).

Record StaInterface : Type := MkStaInterface {
  station : Station;
  conn_task : connection_task;
  msdu_tx : msdu_task;
  net_tx : Q (list Z);
  net_rx : Q EthernetFrame;
}.
Implicit Types (s : StaInterface).

Definition set_station s st : StaInterface :=
  MkStaInterface st (conn_task s) (msdu_tx s) (net_tx s) (net_rx s).
Definition set_conn s t : StaInterface :=
  MkStaInterface (station s) t (msdu_tx s) (net_tx s) (net_rx s).
Definition set_msdu s t : StaInterface :=
  MkStaInterface (station s) (conn_task s) t (net_tx s) (net_rx s).
Definition set_net_tx s q : StaInterface :=
  MkStaInterface (station s) (conn_task s) (msdu_tx s) q (net_rx s).
Definition set_net_rx s q : StaInterface :=
  MkStaInterface (station s) (conn_task s) (msdu_tx s) (net_tx s) q.

Definition lmac_channel st : ChannelState := lm_channel (lmac st).

(** [StaTxRx::in_off_channel_operation]. *)
Definition in_off_channel_operation st : bool :=
  bool_decide (off_channel_operation_interface (lmac_channel st) = Some interface).

(** A first poll of [wait_for_off_channel_completion]. *)
Definition completion_first_poll (lm : LMac (W := W)) : poll unit :=
  if completion_wait_needed lm then completion_wait_poll lm else PollReady tt.

(** What a poll finds ready. *)
Record Ready : Type := MkReady {
  tx_buffers : nat;
  beacon_elapsed : bool;
  reply_completed : bool;
}.
Implicit Types (e : Ready).

Definition take_buffer e : Ready :=
  MkReady (tx_buffers e - 1) (beacon_elapsed e) (reply_completed e).
Definition reset_ticker e : Ready := MkReady (tx_buffers e) false (reply_completed e).
Definition take_completion e : Ready := MkReady (tx_buffers e) (beacon_elapsed e) false.

(** ** [run_connection] *)

(** [handle_deauth] and [handle_bg_rx]. *)
Definition handle_deauth : ConnectionRxEvent := RxDisconnected Deauthenticated.
Definition handle_bg_rx buffer : option ConnectionRxEvent :=
  match background_frame_of buffer with
  | Some BgDeauthentication => Some handle_deauth
  | Some BgBeacon => Some BeaconReceived
  | None => None
  end.

(** [handle_eapol_retry] up to its first await: whether there is one. *)
Definition key_frame_start info buffer : outcome bool :=
  frame ← normalize buffer (own_address info) (bss_bssid (info_bss info));
  mret (bool_decide (is_Some frame)).

(** From the scratch buffer to the reply; [normalize] is repeated on the same buffer. *)
Definition key_frame_reply info st buffer : outcome (option reply * Station) :=
  match crypto_state (sta st) with
  | None => mret (None, st)
  | Some cs =>
      '(r, cs, m) ← handle_eapol_retry cs (key_slots (sta st)) buffer TX_BUFFER_SIZE
        (own_address info) (bss_bssid (info_bss info));
      mret (r, with_sta st (set_crypto (set_keys (sta st) m) (Some cs)))
  end.

(** The frame of a reply. *)
Definition reply_frame (r : reply) : KeyFrame :=
  let '(_, nonce, counter, group) := r in
  if (group : bool) then group_message_2 counter else message_4 nonce counter.

Definition reply_transmit info st (r : reply) : outcome (result StaError unit * Station) :=
  transmit_key_frame st (bss_bssid (info_bss info)) (own_address info) (reply_frame r) r.1.1.1.

(** The request of an off-channel operation, granted. *)
Definition grant_request st : Station :=
  with_lmac st (with_requesters (lmac st) (alter (fun r => fst (request_grant r)) interface
    (lm_requesters (lmac st)))).

Definition off_channel_requested st : outcome bool :=
  r ← expect (lm_requesters (lmac st) !! interface);
  mret (match fst (wait_for_request r) with PollReady _ => true | PollPending => false end).

(** A round of the loop up to the next await. *)
Definition connection_round info s e
  : outcome (round DisconnectionReason * StaInterface * Ready) :=
  let st := station s in
  match conn_task s with
  | CSelect =>
      requested ← off_channel_requested st;
      if (requested : bool) then
        let s := set_station s (grant_request st) in
        match completion_first_poll (lmac (station s)) with
        | PollReady _ => mret (RAgain, s, e)
        | PollPending => mret (RPending, set_conn s COffChannel, e)
        end
      else match receive (router st) Background with
      | (PollReady buffer, r) =>
          let s := set_station s (with_router st r) in
          key ← is_key_frame buffer;
          if (key : bool) then
            started ← key_frame_start info buffer;
            mret (RAgain, if (started : bool) then set_conn s (CScratch buffer) else s, e)
          else match handle_bg_rx buffer with
          | Some (RxDisconnected reason) => mret (RReturn reason, s, e)
          | Some BeaconReceived => mret (RAgain, s, reset_ticker e)
          | None => mret (RAgain, s, e)
          end
      | (PollPending, _) =>
          if beacon_elapsed e && bool_decide (is_Some (beacon_timeout (connection_config info)))
          then mret (RAgain, set_conn s CDeauth, e)
          else mret (RPending, s, e)
      end
  | COffChannel =>
      match completion_wait_poll (lmac st) with
      | PollReady _ => mret (RAgain, set_conn s CSelect, e)
      | PollPending => mret (RPending, s, e)
      end
  | CScratch buffer =>
      if decide (tx_buffers e = 0) then mret (RPending, s, e)
      else
        '(r, st) ← key_frame_reply info st buffer;
        mret (RAgain, set_conn (set_station s st) (match r with Some r => CReply r | None => CSelect end), e)
  | CReply r =>
      if decide (tx_buffers e = 0) then mret (RPending, s, e)
      else
        '(queued, st) ← reply_transmit info st r;
        let s := set_station s st in
        match queued with
        | Ok _ => mret (RAgain, set_conn s CReplySent, take_buffer e)
        | Err _ => mret (RAgain, set_conn s CSelect, e)
        end
  | CReplySent =>
      if reply_completed e then mret (RAgain, set_conn s CSelect, take_completion e)
      else mret (RPending, s, e)
  | CDeauth =>
      if decide (tx_buffers e = 0) then mret (RPending, s, e)
      else mret (RReturn BeaconTimeout,
        set_station s (with_sent st (SentDeauth (bss_bssid (info_bss info)) (own_address info))),
        take_buffer e)
  end.

(** Rounds until a task waits or returns; [None]: the fuel ran out. *)
Fixpoint rounds {A} (body : StaInterface -> Ready -> outcome (round A * StaInterface * Ready))
  (fuel : nat) s e : option (outcome (poll A * StaInterface * Ready)) :=
  match fuel with
  | 0 => None
  | S fuel =>
      match body s e with
      | Panic => Some Panic
      | Done (RAgain, s, e) => rounds body fuel s e
      | Done (RPending, s, e) => Some (Done (PollPending, s, e))
      | Done (RReturn a, s, e) => Some (Done (PollReady a, s, e))
      end
  end.

Definition run_connection (fuel : nat) info s e
  : option (outcome (poll DisconnectionReason * StaInterface * Ready)) :=
  rounds (connection_round info) fuel s e.

(** ** [run_msdu_tx] *)

(** The MSDU once it may be sent: a frame that does not parse stays in the queue. *)
Definition msdu_parse s (msdu : list Z) e : outcome (round unit * StaInterface * Ready) :=
  mret (RAgain, set_msdu s (match parse_ethernet msdu with
    | Some frame => MAlloc frame
    | None => MIdle
    end), e).

(** From the buffer to [tx_done]. *)
Definition msdu_transmit info s (frame : EthernetFrame) e
  : outcome (round unit * StaInterface * Ready) :=
  let '(protection, x) := msdu_protection (sta (station s)) in
  let s := set_msdu (set_station s (with_sta (station s) x)) MIdle in
  _ ← (match protection with
       | Some (pn, key_id, _) => h ← expect (crypto_header pn key_id); mret (Some h)
       | None => mret None
       end);
  match msdu_frame_len frame (bool_decide (is_Some protection)) with
  | None => mret (RAgain, s, e)
  | Some _ =>
      let st := with_sent (station s)
        (SentMsdu (bss_bssid (info_bss info)) (own_address info) frame protection) in
      mret (RAgain, set_net_tx (set_station s st) (pq_done (net_tx s)), take_buffer e)
  end.

Definition msdu_round info s e : outcome (round unit * StaInterface * Ready) :=
  match msdu_tx s with
  | MIdle =>
      match pq_front (net_tx s) with
      | None => mret (RPending, s, e)
      | Some msdu =>
          if in_off_channel_operation (station s) then
            match completion_first_poll (lmac (station s)) with
            | PollReady _ => msdu_parse s msdu e
            | PollPending => mret (RPending, set_msdu s (MOffChannel msdu), e)
            end
          else msdu_parse s msdu e
      end
  | MOffChannel msdu =>
      match completion_wait_poll (lmac (station s)) with
      | PollReady _ => msdu_parse s msdu e
      | PollPending => mret (RPending, s, e)
      end
  | MAlloc frame =>
      if decide (tx_buffers e = 0) then mret (RPending, s, e) else msdu_transmit info s frame e
  end.

Definition run_msdu_tx (fuel : nat) info s e
  : option (outcome (poll unit * StaInterface * Ready)) := rounds (msdu_round info) fuel s e.

(** ** [ConnectionRunner::run] *)

(** A new connection starts with both futures, its end drops them and one MSDU. *)
Definition connection_begun s st : StaInterface :=
  MkStaInterface st CSelect MIdle (net_tx s) (net_rx s).
Definition connection_over s st : StaInterface :=
  MkStaInterface st CSelect MIdle
    (match pq_front (net_tx s) with Some _ => pq_done (net_tx s) | None => net_tx s end) (net_rx s).

(** A round of the outer loop: the poll of the connection state, and of the other two
    futures of the [select3]. *)
Definition runner_round (fuel : nat) s e : option (outcome (round unit * StaInterface * Ready)) :=
  match runner_poll interface (station s) with
  | Panic => Some Panic
  | Done st =>
      match running (station s), running st with
      | None, None => Some (Done (RPending, set_station s st, e))
      | None, Some _ => Some (Done (RAgain, connection_begun s st, e))
      | Some _, None => Some (Done (RAgain, connection_over s st, e))
      | Some info, Some _ =>
          match run_connection fuel info (set_station s st) e with
          | None => None
          | Some Panic => Some Panic
          | Some (Done (PollReady reason, s, e)) =>
              Some (st ← runner_disconnected interface (station s) reason;
                    mret (RAgain, connection_over s st, e))
          | Some (Done (PollPending, s, e)) =>
              match run_msdu_tx fuel info s e with
              | None => None
              | Some Panic => Some Panic
              | Some (Done (_, s, e)) => Some (Done (RPending, s, e))
              end
          end
      end
  end.

(** A poll of [run]: [n] bounds the rounds of its loop. *)
Fixpoint runner_run (n fuel : nat) s e : option (outcome StaInterface) :=
  match n with
  | 0 => None
  | S n =>
      match runner_round fuel s e with
      | None => None
      | Some Panic => Some Panic
      | Some (Done (RAgain, s, e)) => runner_run n fuel s e
      | Some (Done (_, s, _)) => Some (Done s)
      end
  end.

(** ** The routing task *)

(** [connecting_mac_address]. *)
Definition connecting_address st : option (list Z) :=
  op ← match operation (router st) Foreground with
       | Some op => Some op
       | None => operation (router st) Background
       end;
  connecting_mac_address op.

Definition routing_state st : RoutingState :=
  MkRoutingState
    (match connection_info (tracker (sta st)) with
     | Some info => Some (own_address info)
     | None => connecting_address st
     end)
    (in_off_channel_operation st) (off_channel_operation_in_progress (lmac_channel st))
    (connected (tracker (sta st))).

Definition routed_frame buffer (h : FrameHeader) : RoutedFrame :=
  MkRoutedFrame (fh_address_1 h) (is_multicast (fh_address_1 h)) (is_key_frame buffer)
    (fh_is_data h) (parse_data_frame buffer).

(** [handle_downlink_msdu]; the result is whether the MSDU was handed over. *)
Definition handle_downlink_msdu (q : Q EthernetFrame) (payload source destination : list Z)
  : bool * Q EthernetFrame :=
  match parse_snap_llc payload with
  | None => (false, q)
  | Some (ether_type, data) =>
      if pq_has_room q then
        let frame := MkEthernetFrame destination source ether_type data in
        if decide (ethernet_frame_len frame <= MTU) then (true, pq_push q frame) else (false, q)
      else (false, q)
  end.

(** [try_for_each] over the subframes. *)
Fixpoint handle_sub_frames (q : Q EthernetFrame) (l : list SubFrame) : bool * Q EthernetFrame :=
  match l with
  | [] => (true, q)
  | f :: l =>
      match handle_downlink_msdu q (sf_payload f) (sf_source f) (sf_destination f) with
      | (true, q) => handle_sub_frames q l
      | (false, q) => (false, q)
      end
  end.

Definition handle_data_rx s (frame : DataFrame) : outcome StaInterface :=
  let st := station s in
  '(p, cs) ← accept_data_frame (crypto_state (sta st)) frame;
  let s := set_station s (with_sta st (set_crypto (sta st) cs)) in
  mret match p with
  | None => s
  | Some (Single payload, source, destination) =>
      set_net_rx s (snd (handle_downlink_msdu (net_rx s) payload source destination))
  | Some (AMSDU l, _, _) => set_net_rx s (snd (handle_sub_frames (net_rx s) l))
  end.

(** The routing task with a received frame. *)
Definition routing_receive s buffer : outcome StaInterface :=
  let st := station s in
  decision ← routing_decision (routing_state st) (routed_frame buffer <$> frame_header buffer);
  match decision with
  | RDrop => mret s
  | RHandleData frame => handle_data_rx s frame
  | RRoute => mret (
      set_station s (with_router st
        (snd (route_frame (fun b => fh_generic <$> frame_header b) (router st) buffer))))
  end.
End StaRunner.
