(* ===== verification/StaRunnerFacts.v ===== *)
(** * Facts about the station's runner

    The loops of a poll with a measure and an invariant; what a round of the connection
    task and of the transmission of MSDUs does; that the key material stays sound.  A
    round uses at most one packet number and lowers the measure, so a bound on
    their sum is kept by every round. *)
From S2P Require Import Prelude Bytes Network Platform Async Lmac Locks KeySlots RxRouter Eapol Rsn Bss.
From S2P Require Import Sta StaRouter Connect ConnectFacts StaRunner.

(** [CryptoHeader::new] takes packet numbers up to [MAX_PN] and two-bit key ids. *)
Class CryptoHeaderLaws `{Ieee80211} : Prop := {
  max_packet_number : (MAX_PN < u_max 64)%Z;
  header_for : forall pn id, (0 <= pn <= MAX_PN)%Z -> (0 <= id < 4)%Z -> is_Some (crypto_header pn id);
}.

Section RunnerFacts.
Context `{ConnectLaws, !Ieee80211Laws, !CryptoHeaderLaws, !KeyHalLaws, StaWire}.
Context {Sg Ch W Q : Type -> Type}
  `{SignalLaws Sg, ChannelLaws Ch, WatchLaws W, PacketQueueLaws Q, !RadioLaws}.
Context (interface : nat) (interface_ok : interface < INTERFACE_COUNT).
Notation Station := (Station (Sg := Sg) (Ch := Ch) (W := W)).
Notation StaInterface := (StaInterface (Sg := Sg) (Ch := Ch) (W := W) (Q := Q)).
Implicit Types (st : Station) (s : StaInterface) (x : Sta (Sg := Sg)) (info : ConnectionInfo) (e : Ready).

(** ** Loops *)

Lemma rounds_spec {A} (body : StaInterface -> Ready -> outcome (round A * StaInterface * Ready))
    (I : StaInterface -> Ready -> Prop) (m : StaInterface -> Ready -> nat)
    (R : poll A -> StaInterface -> Ready -> Prop) :
  (forall s e, I s e ->
     match body s e with
     | Panic => False
     | Done (RAgain, s', e') => I s' e' /\ m s' e' < m s e
     | Done (RPending, s', e') => R PollPending s' e'
     | Done (RReturn a, s', e') => R (PollReady a) s' e'
     end) ->
  forall fuel s e, I s e -> m s e < fuel ->
  exists p s' e', rounds body fuel s e = Some (Done (p, s', e')) /\ R p s' e'.
Proof.
  intros Hb. induction fuel as [|fuel IH]; intros s e Hi Hm; [lia|]. simpl.
  specialize (Hb s e Hi). destruct (body s e) as [[[[| |a] s'] e']|]; [|by eauto..|done].
  destruct Hb as [Hi' Hm']. apply IH; [done|lia].
Qed.

(** ** Key material *)

(** The packet number, the key id and the slot of the next sent frame. *)
Definition next_tx x : option (Z * Z * nat) :=
  cs ← crypto_state x; Some (tx_state (cs, key_slots x)).
Definition next_pn x : Z := match next_tx x with Some (pn, _, _) => pn | None => 0 end.

Definition keys_sound x : Prop :=
  forall cs, crypto_state x = Some cs -> rsn_inv (cs, key_slots x) /\
    Forall slot_usable (gtk_key_slots cs) /\
    (0 <= (tx_state (cs, key_slots x)).1.1 /\ 0 <= (tx_state (cs, key_slots x)).1.2 < 4)%Z.

Lemma msdu_protection_spec x :
  keys_sound x -> (next_pn x < u_max 64)%Z ->
  let '(p, x') := msdu_protection x in
  p = next_tx x /\ keys_sound x' /\ tracker x' = tracker x /\ key_slots x' = key_slots x /\
  next_tx x' = (fun '(pn, id, slot) => ((pn + 1)%Z, id, slot)) <$> next_tx x.
Proof.
  unfold msdu_protection, next_pn, next_tx. intros Hk Hpn.
  destruct (crypto_state x) as [cs|] eqn:Hcs; [|simpl; rewrite Hcs; by split_and!].
  destruct (Hk cs Hcs) as (Hi & Hu & Hb).
  destruct (tx_crypto_info cs) as [txi cs'] eqn:Ht.
  assert (rsn_step [] [] (cs, key_slots x) RSend = Some (Done ((cs', key_slots x), ROSent txi))) as Hs.
  { unfold rsn_step. by rewrite Ht. }
  pose proof (rsn_step_slots _ _ _ _ _ _ Hs) as Hsl.
  pose proof (rsn_step_tx _ _ _ _ _ _ Hs) as Htx. cbn [Rsn.sent] in Htx. destruct Htx as [-> Htx].
  apply rsn_step_effect in Hs as [Hinv _].
  cbn [mbind option_bind crypto_state set_crypto key_slots tracker] in *.
  destruct (tx_state (cs, key_slots x)) as [[pn id] slot]. cbn [fst snd] in *.
  assert (wrapping 64 (pn + 1) = pn + 1)%Z as Hw by (apply Z.mod_small; unfold u_max in *; lia).
  rewrite Hw in Htx. split_and!; [done| |done|done|by rewrite Htx].
  intros cs2 [= <-]. split; [by apply Hinv|]. cbn [fst] in Hsl. rewrite Hsl. split; [done|].
  cbn [set_crypto key_slots]. rewrite Htx. simpl. lia.
Qed.

(** The parser accepts what the frame's protection says, so looking for a key frame does not
    panic. *)
Definition recognised (buffer : list Z) : Prop := is_key_frame buffer <> Panic.

(** A key frame does not panic then, keeps the keys sound and the packet numbers as they are. *)
Lemma key_frame_reply_spec info st buffer :
  keys_sound (sta st) -> recognised buffer ->
  exists r x, key_frame_reply info st buffer = Done (r, with_sta st x) /\
    keys_sound x /\ tracker x = tracker (sta st) /\ next_tx x = next_tx (sta st) /\
    mac_address x = mac_address (sta st).
Proof.
  intros Hk Hrec. unfold key_frame_reply. destruct (crypto_state (sta st)) as [cs|] eqn:Hcs.
  2: { exists None, (sta st). by destruct st. }
  destruct (Hk cs Hcs) as (Hi & Hu & Hb).
  set (own := own_address info). set (bssid := bss_bssid (info_bss info)).
  destruct (rsn_step own bssid (cs, key_slots (sta st)) (RKeyFrame buffer TX_BUFFER_SIZE))
    as [[[[cs' m] o]|]|] eqn:Hs; [| |done].
  - pose proof (rsn_step_tx _ _ _ _ _ _ Hs) as Htx. pose proof (rsn_step_slots _ _ _ _ _ _ Hs) as Hsl.
    pose proof Hs as Hs'.
    apply rsn_step_effect in Hs' as [Hinv _]. unfold rsn_step in Hs. apply (inj Some) in Hs.
    apply outcome_bind_Done in Hs as ([[r cs2] m2] & -> & Hs). injection Hs as <- <- <-.
    cbn [Rsn.sent] in Htx. eexists _, _. split; [reflexivity|]. split_and!; [|done| |done].
    + intros cs3 [= <-]. cbn [fst] in Hsl. rewrite Hsl. split_and!; [by apply Hinv|done|..];
        cbn [set_crypto set_keys key_slots]; rewrite Htx; lia.
    + unfold next_tx. rewrite Hcs. cbn [set_crypto set_keys crypto_state key_slots mbind option_bind].
      by rewrite Htx.
  - apply rsn_step_panic in Hs; [|done|done]. by apply (usable_not_refused cs (key_slots (sta st)) bssid) in Hu.
Qed.

(** Sending a key frame takes at most one packet number. *)
Lemma transmit_key_frame_spec st bssid own frame kck :
  keys_sound (sta st) -> (next_pn (sta st) < u_max 64)%Z ->
  exists res x fs, transmit_key_frame st bssid own frame kck = Done (res,
      MkStation x (lmac st) (receiver_address_filter st) (bssid_filter st) (router st)
        (running st) (runner_waiting st) (link_up st) (hardware_address st) (Connect.sent st ++ fs)) /\
    keys_sound x /\ tracker x = tracker (sta st) /\ mac_address x = mac_address (sta st) /\
    (next_pn x <= next_pn (sta st) + 1)%Z.
Proof.
  intros Hk Hpn. unfold transmit_key_frame.
  destruct (key_frames_fit kck bssid own frame) as [bytes ->].
  cbn [expect mbind outcome_bind mret outcome_ret].
  destruct (is_pairwise _).
  { eexists _, (sta st), [_]. split; [reflexivity|]. split_and!; [done..|lia]. }
  unfold protect_key_frame. pose proof (msdu_protection_spec (sta st) Hk Hpn) as Hm.
  unfold msdu_protection in Hm. destruct (crypto_state (sta st)) as [cs|] eqn:Hcs.
  2: { eexists _, (sta st), []. split; [rewrite app_nil_r; by destruct st|]. split_and!; [done..|lia]. }
  destruct (tx_crypto_info cs) as [[[pn id] slot] cs'].
  destruct Hm as (_ & Hk' & Ht & _ & Hn).
  destruct (protect_eapol_Done (in_tx_buffer bytes) (length bytes) pn) as [p ->].
  cbn [mbind outcome_bind mret outcome_ret].
  assert (next_pn (set_crypto (sta st) (Some cs')) <= next_pn (sta st) + 1)%Z as Hle.
  { unfold next_pn. rewrite Hn. destruct (next_tx (sta st)) as [[[? ?] ?]|]; simpl; lia. }
  destruct p; eexists _, (set_crypto (sta st) (Some cs')), _.
  - split; [reflexivity|]. by split_and!.
  - split; [symmetry; rewrite app_nil_r; reflexivity|]. by split_and!.
Qed.

(** ** The connection task *)

Definition background st : list (list Z) :=
  ch_contents (queue (queue_state (router st) Background)).

Record station_sound st : Prop := {
  ss_locks : locks_ok (lmac_channel st);
  ss_requesters : length (lm_requesters (lmac st)) = INTERFACE_COUNT;
  ss_keys: keys_sound (sta st);
  ss_frames: Forall recognised (background st);
}.

(** The frame whose answer waits for the scratch buffer. *)
Definition scratch_ok (t : connection_task) : Prop :=
  match t with CScratch buffer => recognised buffer | _ => True end.

(** What the connection task leaves alone. *)
Record kept s s' : Prop := {
  kp_net_tx : net_tx s' = net_tx s;
  kp_net_rx : net_rx s' = net_rx s;
  kp_msdu : msdu_tx s' = msdu_tx s;
  kp_tracker : tracker (sta (station s')) = tracker (sta (station s));
  kp_running : running (station s') = running (station s);
  kp_waiting : runner_waiting (station s') = runner_waiting (station s);
  kp_link : link_up (station s') = link_up (station s);
  kp_address : hardware_address (station s') = hardware_address (station s);
  kp_channel : lmac_channel (station s') = lmac_channel (station s);
}.

Lemma kept_refl s : kept s s.
Proof. done. Qed.
Lemma kept_trans s1 s2 s3 : kept s1 s2 -> kept s2 s3 -> kept s1 s3.
Proof. intros [] []. split; congruence. Qed.

Definition requested st : bool :=
  bool_decide (lm_requesters (lmac st) !! interface = Some Requested).
Definition connection_weight (t : connection_task) : nat :=
  match t with
  | CDeauth => 0
  | CSelect => 1
  | COffChannel | CReplySent => 2
  | CReply _ => 3
  | CScratch _ => 4
  end.
Definition connection_measure s : nat :=
  4 * length (background (station s)) + connection_weight (conn_task s) +
    (if requested (station s) then 1 else 0).

Lemma requested_spec st :
  station_sound st -> off_channel_requested interface st = Done (requested st).
Proof.
  intros [_ Hl _ _]. unfold off_channel_requested, requested.
  destruct (lookup_lt_is_Some_2 (lm_requesters (lmac st)) interface) as [r Hr]; [congruence|].
  rewrite Hr. simpl. unfold wait_for_request. case_decide as Hd.
  - by rewrite bool_decide_true by (by subst).
  - rewrite bool_decide_false by (intros [=]; done). done.
Qed.

Lemma requested_granted st :
  length (lm_requesters (lmac st)) = INTERFACE_COUNT -> requested (grant_request interface st) = false.
Proof.
  intros Hl. unfold requested, grant_request. simpl. rewrite list_lookup_alter_eq.
  by destruct (lm_requesters (lmac st) !! interface).
Qed.

(** Taking a frame from the background queue. *)
Lemma receive_background st :
  match background st with
  | [] => receive (router st) Background = (PollPending, router st)
  | f :: l => exists r, receive (router st) Background = (PollReady f, r) /\
      background (with_router st r) = l
  end.
Proof.
  unfold background, receive. destruct (ch_contents _) as [|f l] eqn:Hc.
  - by rewrite (proj2 (ch_try_receive_empty _ _)).
  - destruct (ch_try_receive_cons _ _ _ Hc) as (c & -> & Hl & _). by eexists.
Qed.

Definition budget (B : Z) s : Prop := (next_pn (sta (station s)) + Z.of_nat (connection_measure s) <= B)%Z.

Lemma connection_measure_unfold s :
  connection_measure s = 4 * length (background (station s)) + connection_weight (conn_task s) +
    (if requested (station s) then 1 else 0).
Proof. done. Qed.

(** What a round leaves behind: a round that goes on lowers the measure and keeps the budget. *)
Definition round_post (B : Z) s (m : outcome (round DisconnectionReason * StaInterface * Ready)) : Prop :=
  match m with
  | Panic => False
  | Done (r, s', e') => station_sound (station s') /\ scratch_ok (conn_task s') /\ kept s s' /\
      (next_pn (sta (station s')) <= B)%Z /\
      (r = RAgain -> budget B s' /\ connection_measure s' < connection_measure s)
  end.

Lemma round_ends B s r s' e' :
  r <> RAgain -> budget B s -> station_sound (station s') -> scratch_ok (conn_task s') -> kept s s' ->
  next_pn (sta (station s')) = next_pn (sta (station s)) -> round_post B s (Done (r, s', e')).
Proof. intros Hr Hb Hs Hc Hk Hp. unfold budget in Hb. split_and!; [done..|lia|done]. Qed.

Lemma round_again B s s' e' :
  budget B s -> station_sound (station s') -> scratch_ok (conn_task s') -> kept s s' ->
  (next_pn (sta (station s')) <= next_pn (sta (station s)) + 1)%Z ->
  connection_measure s' < connection_measure s -> round_post B s (Done (RAgain, s', e')).
Proof. unfold budget. intros Hb Hs Hc Hk Hp Hm. split_and!; [done..|lia|]. intros _. unfold budget. lia. Qed.

(** The task only moves on. *)
Lemma round_moves B s t e' :
  budget B s -> station_sound (station s) -> scratch_ok t ->
  connection_weight t < connection_weight (conn_task s) ->
  round_post B s (Done (RAgain, set_conn s t, e')).
Proof.
  intros Hb Hs Hc Ht. apply round_again; [done..|cbn [station set_conn]; lia|].
  rewrite !connection_measure_unfold. cbn [station set_conn conn_task]. lia.
Qed.

(** An off-channel request is granted. *)
Lemma round_grants B s e r t e' :
  budget B s -> station_sound (station s) -> requested (station s) = true -> scratch_ok t ->
  let s' := set_station s (grant_request interface (station s)) in
  (r = RAgain /\ t = conn_task s) \/ r = RPending -> round_post B s (Done (r, set_conn s' t, e')).
Proof.
  intros Hb Hs Hr Hc s' Ht. assert (station_sound (station s')) as Hs'.
  { destruct Hs. split; [done|cbn; by rewrite length_alter|done|done]. }
  destruct Ht as [[-> ->]| ->]; [|by apply round_ends].
  apply round_again; [done..|cbn; lia|].
  rewrite !connection_measure_unfold. cbn [station s' set_station set_conn conn_task]. rewrite Hr.
  rewrite requested_granted by apply Hs.
  change (background (grant_request interface (station s))) with (background (station s)). lia.
Qed.

(** A frame is taken from the background queue, and its handling may begin. *)
Lemma sound_received s f l r :
  station_sound (station s) -> background (station s) = f :: l ->
  background (with_router (station s) r) = l ->
  station_sound (with_router (station s) r) /\ recognised f.
Proof.
  intros [Hlocks Hreq Hkeys Hall] Hf Hl. rewrite Hf in Hall. apply Forall_cons in Hall as [Hrec Hall].
  split; [|done]. split; [done|done|done|by rewrite Hl].
Qed.

Lemma round_receives B s f l r t e' :
  budget B s -> station_sound (station s) -> background (station s) = f :: l ->
  background (with_router (station s) r) = l -> scratch_ok t ->
  connection_weight t < connection_weight (conn_task s) + 4 ->
  round_post B s (Done (RAgain, set_conn (set_station s (with_router (station s) r)) t, e')).
Proof.
  intros Hb Hs Hf Hl Hc Ht. destruct (sound_received _ _ _ _ Hs Hf Hl) as [Hs' _].
  apply round_again; [done..|cbn; lia|].
  rewrite !connection_measure_unfold. cbn [station set_station set_conn conn_task].
  rewrite Hl, Hf. change (requested (with_router (station s) r)) with (requested (station s)).
  cbn [length]. lia.
Qed.

Lemma set_conn_same s : set_conn s (conn_task s) = s.
Proof. by destruct s. Qed.

Lemma select_round_spec info B s e :
  budget B s -> station_sound (station s) -> conn_task s = CSelect ->
  round_post B s (connection_round interface info s e).
Proof.
  intros Hb Hs Ht. assert (scratch_ok (conn_task s)) as Hc by by rewrite Ht.
  unfold connection_round. rewrite Ht, (requested_spec _ Hs).
  cbn [mbind outcome_bind]. destruct (requested (station s)) eqn:Hr.
  { destruct (completion_first_poll _); [|apply round_grants; auto; done].
    rewrite <- (set_conn_same (set_station s _)). apply round_grants; auto. }
  pose proof (receive_background (station s)) as Hrx.
  destruct (background (station s)) as [|f l] eqn:Hbg.
  { rewrite Hrx. destruct (_ && _); [apply round_moves; rewrite ?Ht; auto; done|by apply round_ends]. }
  destruct Hrx as (r & -> & Hl). set (s1 := set_station s (with_router (station s) r)).
  destruct (sound_received _ _ _ _ Hs Hbg Hl) as [Hs' Hrec].
  assert (forall e', round_post B s (Done (RAgain, s1, e'))) as Hgo.
  { intros e'. rewrite <- (set_conn_same s1).
    eapply round_receives; [done..|]. cbn [s1 set_station conn_task]. lia. }
  destruct (is_key_frame f) as [[]|] eqn:Hkey; [| |by unfold recognised in Hrec]; cbn [mbind outcome_bind].
  - unfold key_frame_start.
    destruct (normalize_Done f (own_address info) (bss_bssid (info_bss info)) Hrec) as (fr & -> & _).
    cbn [mbind outcome_bind mret outcome_ret]. destruct (bool_decide (is_Some fr)); [|apply Hgo].
    eapply round_receives; [done..|]. rewrite Ht. simpl. lia.
  - destruct (handle_bg_rx f) as [[reason|]|]; [|apply Hgo..]. by apply round_ends.
Qed.

(** A key frame is answered: the message is made, and queued. *)
Lemma reply_rounds_spec info B s e :
  (B <= MAX_PN)%Z -> budget B s -> station_sound (station s) -> scratch_ok (conn_task s) ->
  2 < connection_weight (conn_task s) ->
  round_post B s (connection_round interface info s e).
Proof.
  intros HB Hb Hs Hc Hw. pose proof max_packet_number as Hmax. pose proof Hs as [Hlocks Hreq Hkeys Hall].
  unfold connection_round. destruct (conn_task s) as [| |buffer|r| |] eqn:Ht; simpl in Hw; try lia.
  - case_decide; [apply round_ends; try done; by rewrite Ht|].
    destruct (key_frame_reply_spec info (station s) buffer Hkeys Hc) as (r & x & -> & Hk & Htr & Hn & _).
    apply round_again; [done|by split|by destruct r|by split|..].
    + unfold next_pn. cbn. rewrite Hn. lia.
    + rewrite !connection_measure_unfold. cbn [station set_conn set_station conn_task]. rewrite Ht.
      unfold background, requested. destruct r; simpl; lia.
  - case_decide; [apply round_ends; try done; by rewrite Ht|]. unfold reply_transmit.
    destruct (transmit_key_frame_spec (station s) (bss_bssid (info_bss info)) (own_address info)
      (reply_frame r) r.1.1.1 Hkeys) as (res & x & fs & -> & Hk & Htr & _ & Hp); [unfold budget in Hb; lia|].
    cbn [mbind outcome_bind].
    destruct res as [u|err]; (apply round_again; [done|by split|done|by split|done|]);
      rewrite !connection_measure_unfold; cbn [station set_conn set_station conn_task]; rewrite Ht;
      unfold background, requested; simpl; lia.
Qed.

(** A round ends, keeps what is not its own, and lowers the measure if the task goes on. *)
Lemma connection_round_spec info B s e :
  (B <= MAX_PN)%Z -> station_sound (station s) -> scratch_ok (conn_task s) -> budget B s ->
  round_post B s (connection_round interface info s e).
Proof.
  intros HB Hs Hc Hb.
  destruct (conn_task s) as [| |buffer|r| |] eqn:Ht;
    try (by apply select_round_spec);
    try (apply reply_rounds_spec; rewrite ?Ht; [done..|simpl; lia]);
    unfold connection_round; rewrite Ht.
  - destruct (completion_wait_poll _); [apply round_moves; rewrite ?Ht; auto; done|].
    apply round_ends; try done. by rewrite Ht.
  - destruct (reply_completed e); [apply round_moves; rewrite ?Ht; auto; done|].
    apply round_ends; try done. by rewrite Ht.
  - case_decide; [apply round_ends; try done; by rewrite Ht|]. apply round_ends; try done; [by destruct Hs|].
    cbn [conn_task set_station]. by rewrite Ht.
Qed.

Lemma run_connection_spec info B fuel s e :
  (B <= MAX_PN)%Z -> station_sound (station s) -> scratch_ok (conn_task s) -> budget B s ->
  connection_measure s < fuel ->
  exists p s' e', run_connection interface fuel info s e = Some (Done (p, s', e')) /\
    station_sound (station s') /\ scratch_ok (conn_task s') /\ kept s s' /\
    (next_pn (sta (station s')) <= B)%Z.
Proof.
  intros HB Hs Hc Hb Hf.
  destruct (rounds_spec (connection_round interface info)
    (fun s1 _ => station_sound (station s1) /\ scratch_ok (conn_task s1) /\ budget B s1 /\ kept s s1)
    (fun s1 _ => connection_measure s1)
    (fun _ s' _ => station_sound (station s') /\ scratch_ok (conn_task s') /\ kept s s' /\
      (next_pn (sta (station s')) <= B)%Z))
    with (fuel := fuel) (s := s) (e := e) as (p & s' & e' & Hr & HR); [|done|done|by exists p, s', e'].
  intros s1 e1 (Hs1 & Hc1 & Hb1 & Hk1). pose proof (connection_round_spec info B s1 e1 HB Hs1 Hc1 Hb1) as Hrd.
  destruct (connection_round interface info s1 e1) as [[[r s2] e2]|]; [|done].
  destruct Hrd as (Hs2 & Hc2 & Hk2 & Hp2 & Ha). pose proof (kept_trans _ _ _ Hk1 Hk2).
  destruct r; [|done|done]. by destruct (Ha eq_refl).
Qed.

(** ** The transmission of MSDUs *)

Definition tx_after (tx : option (Z * Z * nat)) (k : nat) : option (Z * Z * nat) :=
  (fun '(pn, id, slot) => ((pn + Z.of_nat k)%Z, id, slot)) <$> tx.

(** The frames of MSDUs, with consecutive packet numbers from [tx] on. *)
Definition msdu_frames info (tx : option (Z * Z * nat)) (frames : list EthernetFrame) : list sent_frame :=
  imap (fun j f => SentMsdu (bss_bssid (info_bss info)) (own_address info) f (tx_after tx j)) frames.

(** The MSDUs parse as [frames], and the frames fit a transmit buffer. *)
Definition msdus_parse (msdus : list (list Z)) (frames : list EthernetFrame) : Prop :=
  Forall2 (fun m f => parse_ethernet m = Some f /\ forall b, is_Some (msdu_frame_len f b)) msdus frames.

Definition msdu_weight (t : msdu_task) : nat := match t with MAlloc _ => 0 | _ => 1 end.
Definition msdu_measure s : nat := 2 * length (pq_contents (net_tx s)) + msdu_weight (msdu_tx s).

(** What the task works on is the front of the queue. *)
Definition msdu_task_ok s : Prop :=
  match msdu_tx s with
  | MIdle => True
  | MOffChannel m => head (pq_contents (net_tx s)) = Some m
  | MAlloc f => exists m, head (pq_contents (net_tx s)) = Some m /\ parse_ethernet m = Some f
  end.

(** [k] MSDUs later. *)
Record msdu_progress info s0 e0 (frames : list EthernetFrame) (k : nat) s e : Prop := {
  mp_queue : pq_contents (net_tx s) = drop k (pq_contents (net_tx s0));
  mp_bound : k <= length frames;
  mp_buffers : tx_buffers e + k = tx_buffers e0;
  mp_tx : next_tx (sta (station s)) = tx_after (next_tx (sta (station s0))) k;
  mp_station : exists x, let st := station s0 in
    station s = MkStation x (lmac st) (receiver_address_filter st) (bssid_filter st) (router st) (running st)
      (runner_waiting st) (link_up st) (hardware_address st)
      (Connect.sent st ++ msdu_frames info (next_tx (sta st)) (take k frames)) /\
    tracker x = tracker (sta st) /\ keys_sound x;
  mp_task : msdu_task_ok s;
  mp_rest : conn_task s = conn_task s0 /\ net_rx s = net_rx s0;
  mp_off_channel : forall m, msdu_tx s = MOffChannel m ->
    msdu_tx s0 = MOffChannel m \/ in_off_channel_operation interface (station s0) = true;
}.

(** Why the task waits. *)
Definition msdu_waits (frames : list EthernetFrame) (k : nat) s e : Prop :=
  match msdu_tx s with
  | MIdle => k = length frames
  | MOffChannel _ => completion_wait_poll (lmac (station s)) = PollPending
  | MAlloc f => frames !! k = Some f /\ tx_buffers e = 0
  end.

Lemma tx_after_0 tx : tx_after tx 0 = tx.
Proof. destruct tx as [[[pn id] slot]|]; simpl; [|done]. by rewrite Z.add_0_r. Qed.

Lemma tx_after_S tx k :
  tx_after tx (S k) = (fun '(pn, id, slot) => ((pn + 1)%Z, id, slot)) <$> tx_after tx k.
Proof. destruct tx as [[[pn id] slot]|]; simpl; [|done]. do 3 f_equal. lia. Qed.

Lemma msdu_frames_snoc info tx frames k f :
  frames !! k = Some f ->
  msdu_frames info tx (take (S k) frames) = msdu_frames info tx (take k frames) ++
    [SentMsdu (bss_bssid (info_bss info)) (own_address info) f (tx_after tx k)].
Proof.
  intros Hf. unfold msdu_frames. rewrite (take_S_r _ _ _ Hf), imap_app. f_equal. simpl.
  rewrite length_take_le; [by rewrite Nat.add_0_r|]. apply lookup_lt_Some in Hf. lia.
Qed.

Lemma msdu_progress_start info s0 e0 frames :
  keys_sound (sta (station s0)) -> msdu_task_ok s0 -> msdu_progress info s0 e0 frames 0 s0 e0.
Proof.
  intros Hk Ht. split; [done|lia|lia|by rewrite tx_after_0| |done|done|by left].
  exists (sta (station s0)). simpl. rewrite take_0, app_nil_r. by destruct (station s0).
Qed.

Lemma msdu_progress_lmac info s0 e0 frames k s e :
  msdu_progress info s0 e0 frames k s e -> lmac (station s) = lmac (station s0).
Proof. intros Hk. by destruct (mp_station _ _ _ _ _ _ _ Hk) as (x & -> & _). Qed.

(** Only the task's place in its loop changes. *)
Lemma msdu_progress_task info s0 e0 frames k s e t :
  msdu_progress info s0 e0 frames k s e -> msdu_task_ok (set_msdu s t) ->
  (forall m, t = MOffChannel m -> in_off_channel_operation interface (station s0) = true) ->
  msdu_progress info s0 e0 frames k (set_msdu s t) e.
Proof. intros [] Ht Hm. split; try done. intros m Heq. right. by eapply Hm. Qed.

Lemma msdu_parse_spec info s0 e0 frames k s e m :
  msdus_parse (pq_contents (net_tx s0)) frames -> msdu_progress info s0 e0 frames k s e ->
  head (pq_contents (net_tx s)) = Some m -> msdu_tx s = MIdle \/ msdu_tx s = MOffChannel m ->
  exists s', msdu_parse s m e = Done (RAgain, s', e) /\
    msdu_progress info s0 e0 frames k s' e /\ msdu_measure s' < msdu_measure s.
Proof.
  intros Hp Hk Hm Ht. destruct Hk as [Hq]. rewrite Hq in Hm. rewrite head_lookup, lookup_drop in Hm.
  destruct (Forall2_lookup_l _ _ _ _ _ Hp Hm) as (f & Hf & Hparse & _).
  unfold msdu_parse. rewrite Hparse. eexists. split; [done|]. split.
  - apply msdu_progress_task; [by split| |done]. exists m. cbn [net_tx set_msdu]. by rewrite Hq, head_lookup, lookup_drop.
  - unfold msdu_measure. cbn [net_tx msdu_tx set_msdu]. destruct Ht as [-> | ->]; simpl; lia.
Qed.

Lemma msdu_transmit_spec info s0 e0 frames k s e f :
  msdus_parse (pq_contents (net_tx s0)) frames ->
  (next_pn (sta (station s0)) + Z.of_nat (length frames) <= MAX_PN)%Z ->
  msdu_progress info s0 e0 frames k s e -> msdu_tx s = MAlloc f -> tx_buffers e <> 0 ->
  exists s', msdu_transmit info s f e = Done (RAgain, s', take_buffer e) /\
    msdu_progress info s0 e0 frames (S k) s' (take_buffer e) /\ msdu_measure s' < msdu_measure s.
Proof.
  intros Hp Hpn Hk Ht He. pose proof max_packet_number as Hmax.
  destruct Hk as [Hq Hbound Hbuf Htx (x & Hst & Htr & Hks) Htask Hrest _].
  unfold msdu_task_ok in Htask. rewrite Ht in Htask. destruct Htask as (m & Hm & Hf).
  rewrite Hq, head_lookup, lookup_drop, Nat.add_0_r in Hm.
  destruct (Forall2_lookup_l _ _ _ _ _ Hp Hm) as (f' & Hl & Hf' & Hfit).
  rewrite Hf in Hf'. injection Hf' as <-. pose proof (lookup_lt_Some _ _ _ Hl) as Hlt.
  assert (next_pn (sta (station s)) <= MAX_PN)%Z as Hle.
  { unfold next_pn in *. rewrite Htx. destruct (next_tx (sta (station s0))) as [[[pn id] slot]|];
      simpl in *; lia. }
  assert (keys_sound (sta (station s))) as Hks' by by rewrite Hst.
  unfold msdu_transmit. pose proof (msdu_protection_spec (sta (station s)) Hks' ltac:(lia)) as Hprot.
  assert (forall cs, crypto_state (sta (station s)) = Some cs ->
    exists h, crypto_header (tx_state (cs, key_slots (sta (station s)))).1.1
      (tx_state (cs, key_slots (sta (station s)))).1.2 = Some h) as Hhead.
  { intros cs Hcs. destruct (Hks' cs Hcs) as (_ & _ & Hb). apply header_for; [|lia].
    unfold next_pn, next_tx in Hle. rewrite Hcs in Hle. cbn [mbind option_bind] in Hle.
    revert Hb Hle. destruct (tx_state _) as [[pn id] slot]. simpl. lia. }
  destruct (msdu_protection (sta (station s))) as [p x'] eqn:Hm'.
  destruct Hprot as (-> & Hks2 & Htr2 & _ & Hn2).
  destruct (Hfit (bool_decide (is_Some (next_tx (sta (station s)))))) as [len Hlen].
  assert (exists h, match next_tx (sta (station s)) with
    | Some (pn, key_id, _) => h ← expect (crypto_header pn key_id); mret (Some h)
    | None => mret None end = Done h) as [h ->].
  { unfold next_tx. destruct (crypto_state (sta (station s))) as [cs|] eqn:Hcs; [|by eexists].
    destruct (Hhead cs eq_refl) as [h Hh]. revert Hh. cbn [mbind option_bind].
    destruct (tx_state _) as [[pn id] slot]. cbn [fst snd]. intros ->. by eexists. }
  cbn [mbind outcome_bind]. rewrite Hlen. eexists. split; [done|]. split.
  - split; [..|by cbn|done]; cbn [net_tx set_net_tx set_station set_msdu station sta with_sent with_sta msdu_tx].
    + rewrite pq_done_contents, Hq. by rewrite tail_drop.
    + lia.
    + unfold take_buffer. cbn [tx_buffers]. lia.
    + by rewrite Hn2, Htx, tx_after_S.
    + exists x'. cbv zeta. rewrite (msdu_frames_snoc _ _ _ k f), app_assoc, <- Htx by done.
      rewrite Htr2, Hst. split_and!; [|done|done]. by destruct (station s0).
    + done.
  - unfold msdu_measure. cbn [net_tx set_net_tx set_station set_msdu msdu_tx].
    rewrite pq_done_contents, Hq, Ht. destruct (drop k _) as [|m0 l] eqn:Hd; [|simpl; lia].
    apply (f_equal (fun l => l !! 0)) in Hd. rewrite lookup_drop, Nat.add_0_r in Hd. simpl in Hd. congruence.
Qed.

(** A poll sends a prefix of the queue, in order, and stops only for a reason. *)
Lemma run_msdu_tx_spec info fuel s0 e0 frames :
  keys_sound (sta (station s0)) -> msdu_task_ok s0 ->
  msdus_parse (pq_contents (net_tx s0)) frames ->
  (next_pn (sta (station s0)) + Z.of_nat (length frames) <= MAX_PN)%Z ->
  msdu_measure s0 < fuel ->
  exists k s e, run_msdu_tx interface fuel info s0 e0 = Some (Done (PollPending, s, e)) /\
    msdu_progress info s0 e0 frames k s e /\ msdu_waits frames k s e.
Proof.
  intros Hks Ht Hp Hpn Hf.
  destruct (rounds_spec (msdu_round interface info)
    (fun s e => exists k, msdu_progress info s0 e0 frames k s e)
    (fun s _ => msdu_measure s)
    (fun p s e => p = PollPending /\ exists k, msdu_progress info s0 e0 frames k s e /\
       msdu_waits frames k s e)) with (fuel := fuel) (s := s0) (e := e0)
    as (p & s & e & Hr & -> & k & Hk & Hw); [| |done|by exists k, s, e].
  2: { exists 0. by apply msdu_progress_start. }
  intros s e [k Hk]. unfold msdu_round. pose proof (mp_task _ _ _ _ _ _ _ Hk) as Htask.
  unfold msdu_task_ok in Htask. pose proof (Forall2_length _ _ _ Hp) as Hlen.
  destruct (msdu_tx s) as [|m|f] eqn:Hm.
  - rewrite pq_front_contents. destruct (head (pq_contents (net_tx s))) as [m|] eqn:Hh.
    + assert (exists s', msdu_parse s m e = Done (RAgain, s', e) /\
        (exists k, msdu_progress info s0 e0 frames k s' e) /\ msdu_measure s' < msdu_measure s)
        as (s' & Hs' & Hk' & Hlt).
      { destruct (msdu_parse_spec info s0 e0 frames k s e m) as (s' & ? & ? & ?); eauto 8. }
      destruct (in_off_channel_operation interface (station s)) eqn:Hoff; [|by rewrite Hs'].
      unfold completion_first_poll. destruct (completion_wait_needed _); [|by rewrite Hs'].
      destruct (completion_wait_poll _) as [[]|] eqn:Hc; [by rewrite Hs'|].
      cbn [mret outcome_ret]. split; [done|]. exists k. split; [|done].
      apply msdu_progress_task; [done|done|intros m' _].
      unfold in_off_channel_operation, lmac_channel in *. by rewrite <- (msdu_progress_lmac _ _ _ _ _ _ _ Hk).
    + cbn [mret outcome_ret]. split; [done|]. exists k. split; [done|]. unfold msdu_waits. rewrite Hm.
      rewrite (mp_queue _ _ _ _ _ _ _ Hk), head_lookup, lookup_drop, Nat.add_0_r in Hh.
      apply lookup_ge_None in Hh. pose proof (mp_bound _ _ _ _ _ _ _ Hk). lia.
  - destruct (completion_wait_poll _) as [[]|] eqn:Hc.
    + destruct (msdu_parse_spec info s0 e0 frames k s e m) as (s' & -> & Hk' & Hlt); eauto.
    + cbn [mret outcome_ret]. split; [done|]. exists k. split; [done|]. unfold msdu_waits. by rewrite Hm.
  - case_decide as He.
    + cbn [mret outcome_ret]. split; [done|]. exists k. split; [done|]. unfold msdu_waits. rewrite Hm.
      split; [|done]. destruct Htask as (m & Hh & Hf').
      rewrite (mp_queue _ _ _ _ _ _ _ Hk), head_lookup, lookup_drop, Nat.add_0_r in Hh.
      destruct (Forall2_lookup_l _ _ _ _ _ Hp Hh) as (f' & Hl & Hf2 & _). congruence.
    + destruct (msdu_transmit_spec info s0 e0 frames k s e f) as (s' & -> & Hk' & Hlt); eauto.
Qed.

(** ** Polls of the runner *)

(** Link and address are those of the connection that runs; without one nothing is under
    way. *)
Record runner_ok s : Prop := {
  ro_sound : station_sound (station s);
  ro_task : scratch_ok (conn_task s);
  ro_msdu : msdu_task_ok s;
  ro_link : match running (station s) with
    | Some info => link_up (station s) = true /\ hardware_address (station s) = own_address info
    | None => link_up (station s) = false /\ conn_task s = CSelect /\ msdu_tx s = MIdle
    end;
}.

Definition tracked st : bool := connected (tracker (sta st)).

(** What a poll of the connection state does. *)
Lemma runner_poll_cases st :
  station_sound st ->
  exists st', runner_poll interface st = Done st' /\ station_sound st' /\
    background st' = background st /\ requested st' = requested st /\
    next_tx (sta st') = next_tx (sta st) /\
    match running st with
    | None => connection_state (tracker (sta st')) = connection_state (tracker (sta st)) /\
        ((running st' = None /\ link_up st' = link_up st) \/
         exists info, running st' = Some info /\ tracked st = true /\ link_up st' = true /\
           hardware_address st' = own_address info)
    | Some info =>
        (running st' = Some info /\ link_up st' = link_up st /\ hardware_address st' = hardware_address st) \/
        (running st' = None /\ link_up st' = false /\ tracked st' = false)
    end.
Proof.
  intros [Hl Hr Hk Hf].
  assert (forall t, keys_sound (set_tracker (sta st) t)) as Hkt by (intros t; exact Hk).
  unfold runner_poll. destruct (running st) as [info|].
  - destruct (wait_for_disconnection_total (runner_waiting st) (tracker (sta st))) as (p & t & -> & Ht).
    cbn [expect mbind outcome_bind]. destruct p as [reason|].
    + unfold runner_disconnected.
      destruct (unlock_own_spec interface interface_ok (with_sta st (set_tracker (sta st) t)) Hl)
        as (cs & -> & Hl' & _).
      cbn [mbind outcome_bind]. eexists. split; [done|]. split; [by split; [exact Hl'|..]|].
      split_and!; [done..|]. by right.
    + eexists. split; [done|]. split; [by split|]. split_and!; [done..|]. by left.
  - destruct (wait_for_connection_total (runner_waiting st) (tracker (sta st))) as (p & t & -> & Ht & Hinfo).
    cbn [expect mbind outcome_bind].
    destruct p as [info|]; (eexists; split; [done|]; split; [by split|]); split_and!; try done.
    + right. exists info. split_and!; [done| |done|done]. unfold tracked, connected.
      by rewrite (Hinfo info eq_refl).
    + by left.
Qed.

(** Enough packet numbers for the frames a poll may send, and MSDUs that can be sent. *)
Definition pn_after s (frames : list EthernetFrame) : Z :=
  (next_pn (sta (station s)) + Z.of_nat (4 * length (background (station s)) + 5 + length frames))%Z.
Definition packet_numbers_left s (frames : list EthernetFrame) : Prop := (pn_after s frames <= MAX_PN)%Z.
Definition runnable s frames : Prop :=
  msdus_parse (pq_contents (net_tx s)) frames /\ packet_numbers_left s frames.

Definition runner_fuel s : nat :=
  4 * length (background (station s)) + 2 * length (pq_contents (net_tx s)) + 6.

Lemma connection_measure_bound s : connection_measure s <= 4 * length (background (station s)) + 5.
Proof. unfold connection_measure. destruct (conn_task s), (requested _); simpl; lia. Qed.

Lemma link_kept s s' :
  runner_ok s -> is_Some (running (station s)) -> running (station s') = running (station s) ->
  link_up (station s') = link_up (station s) -> hardware_address (station s') = hardware_address (station s) ->
  match running (station s') with
  | Some info => link_up (station s') = true /\ hardware_address (station s') = own_address info
  | None => link_up (station s') = false /\ conn_task s' = CSelect /\ msdu_tx s' = MIdle
  end.
Proof. intros [_ _ _ Hl] [info Hi] -> -> ->. by rewrite Hi in *. Qed.

(** No connection, and none to come. *)
Lemma runner_round_idle fuel s e :
  runner_ok s -> running (station s) = None -> tracked (station s) = false ->
  exists s' e', runner_round interface fuel s e = Some (Done (RPending, s', e')) /\ runner_ok s' /\
    running (station s') = None /\ next_tx (sta (station s')) = next_tx (sta (station s)) /\
    connection_state (tracker (sta (station s'))) = connection_state (tracker (sta (station s))).
Proof.
  intros [Hs Hcs Hm Hl] Hr Ht. unfold runner_round.
  destruct (runner_poll_cases (station s) Hs) as (st & -> & Hs' & _ & _ & Htx & Hc).
  rewrite Hr in *. destruct Hc as [Hst [[Hn Hlk]|(info & _ & Hc & _)]]; [|congruence].
  rewrite Hn. eexists _, _. split; [done|]. split; [|by split_and!].
  split; [done|done|done|]. cbn [station set_station conn_task msdu_tx]. rewrite Hn, Hlk. done.
Qed.

(** A connection that is not yet taken over. *)
Lemma runner_round_start fuel s e frames :
  runner_ok s -> running (station s) = None -> runnable s frames ->
  exists r s' e', runner_round interface fuel s e = Some (Done (r, s', e')) /\ runner_ok s' /\
    pn_after s' frames = pn_after s frames /\
    (r = RPending \/ r = RAgain /\ is_Some (running (station s')) /\ runnable s' frames /\
       runner_fuel s' = runner_fuel s).
Proof.
  intros [Hs Hcs Hm Hl] Hr [Hp Hn]. unfold runner_round.
  destruct (runner_poll_cases (station s) Hs) as (st & -> & Hs' & Hb & _ & Htx & Hc).
  assert (forall s', station s' = st -> pn_after s' frames = pn_after s frames) as Hpn.
  { intros s' Hst. unfold pn_after, next_pn. by rewrite Hst, Hb, Htx. }
  rewrite Hr in *. destruct Hc as [_ [[Hn' Hlk]|(info & Hi & _ & Hlk & Ha)]].
  - rewrite Hn'. eexists _, _, _. split; [done|]. split; [|split; [by apply Hpn|by left]].
    split; [done|done|done|]. cbn [station set_station conn_task msdu_tx]. by rewrite Hn', Hlk.
  - rewrite Hi. eexists _, _, _. split; [done|]. split.
    + split; [done|done|done|]. cbn [station connection_begun]. by rewrite Hi.
    + split; [by apply Hpn|]. right. split; [done|]. split; [by eexists|].
      split; [split; [done|unfold packet_numbers_left in *; by rewrite Hpn]|].
      unfold runner_fuel. cbn [station connection_begun net_tx]. by rewrite Hb.
Qed.

(** The end of a connection, by whichever future. *)
Lemma connection_over_ok s st :
  station_sound st -> running st = None -> link_up st = false -> runner_ok (connection_over s st).
Proof. intros Hs Hr Hl. split; [done|done|done|]. cbn [station connection_over]. by rewrite Hr. Qed.

Lemma runner_disconnected_ok st reason :
  station_sound st ->
  exists st', runner_disconnected interface st reason = Done st' /\ station_sound st' /\
    running st' = None /\ link_up st' = false /\ tracked st' = false /\
    connection_state (tracker (sta st')) = Disconnected reason /\ bssid_filter st' = None /\
    ~ holds (lmac_channel st') interface.
Proof.
  intros [Hl Hr Hk Hf]. unfold runner_disconnected.
  destruct (unlock_own_spec interface interface_ok st Hl) as (cs & -> & Hl' & Hn).
  cbn [mbind outcome_bind]. eexists. split; [done|]. split; [by split; [exact Hl'|..]|]. by split_and!.
Qed.

Lemma runner_disconnected_tx st reason st' :
  runner_disconnected interface st reason = Done st' -> next_tx (sta st') = next_tx (sta st).
Proof.
  unfold runner_disconnected, unlock_own_channel. intros Hd.
  apply outcome_bind_Done in Hd as (st1 & Hu & Hd).
  apply outcome_bind_Done in Hu as (cs & _ & Hu). injection Hu as <-. by injection Hd as <-.
Qed.

(** A connection that runs: it goes on waiting, or it is over. *)
Lemma runner_round_connected fuel s e frames info :
  runner_ok s -> running (station s) = Some info -> runnable s frames -> runner_fuel s <= fuel ->
  exists r s' e', runner_round interface fuel s e = Some (Done (r, s', e')) /\ runner_ok s' /\
    (next_pn (sta (station s')) <= pn_after s frames)%Z /\
    (r = RPending \/ r = RAgain /\ running (station s') = None /\ tracked (station s') = false).
Proof.
  intros Hok Hr [Hp Hn] Hf. pose proof Hok as [Hs Hcs Hm Hl]. unfold runner_round.
  destruct (runner_poll_cases (station s) Hs) as (st & -> & Hs' & Hb & Hrq & Htx & Hc).
  set (s1 := set_station s st).
  assert (next_pn (sta (station s1)) = next_pn (sta (station s))) as Hpn
    by (unfold next_pn; cbn; by rewrite Htx).
  rewrite Hr in *. destruct Hc as [(Hi & Hlk & Ha)|(Hi & Hlk & Ht)]; rewrite Hi.
  2: { eexists _, _, _. split; [done|]. split; [by apply connection_over_ok|].
       split; [change (station (connection_over s st)) with (station s1); unfold pn_after; lia|by right]. }
  assert (background (station s1) = background (station s)) as Hb1 by done.
  pose proof (connection_measure_bound s1) as Hcm. rewrite Hb1 in Hcm.
  unfold packet_numbers_left, pn_after in *. unfold runner_fuel in Hf. pose proof (Forall2_length _ _ _ Hp) as Hlen.
  destruct (run_connection_spec info
    (next_pn (sta (station s)) + Z.of_nat (4 * length (background (station s)) + 5)) fuel s1 e)
    as (p & s2 & e2 & -> & Hs2 & Hcs2 & Hk & Hpn2); [lia|done|done|unfold budget; lia|lia|].
  destruct Hk as [Hq _ Ht _ Hrun _ Hlink Haddr _].
  destruct p as [reason|].
  - destruct (runner_disconnected_ok (station s2) reason Hs2) as (st' & Hd & Hs3 & Hr3 & Hl3 & Ht3 & _).
    rewrite Hd. apply runner_disconnected_tx in Hd.
    eexists _, _, _. split; [done|]. split; [by apply connection_over_ok|]. split; [|by right].
    unfold next_pn in *. cbn [station connection_over]. rewrite Hd. lia.
  - destruct (run_msdu_tx_spec info fuel s2 e2 frames) as (k & s3 & e3 & -> & Hprog & _).
    + apply Hs2.
    + unfold msdu_task_ok in *. by rewrite Ht, Hq.
    + by rewrite Hq.
    + lia.
    + unfold msdu_measure. rewrite Hq. change (net_tx s1) with (net_tx s).
      destruct (msdu_tx s2); simpl; lia.
    + eexists _, _, _. split; [done|].
      destruct Hprog as [_ Hkb _ Htx3 (x & Hst & Htr & Hks) Htask [Hct _] _].
      split; [|split; [|by left]].
      * split; [|by rewrite Hct|done|].
        -- rewrite Hst. by destruct Hs2; split.
        -- cbv zeta in Hst. rewrite Hst. cbn [running link_up hardware_address].
           rewrite Hrun, Hlink, Haddr. cbn [station s1 set_station]. rewrite Hi, Hlk, Ha. exact Hl.
      * unfold next_pn in *. rewrite Htx3. destruct (next_tx (sta (station s2))) as [[[pn id] slot]|]; simpl in *; lia.
Qed.

(** Starting over from a connection that is over. *)
Lemma runner_run_idle n fuel s e :
  runner_ok s -> running (station s) = None -> tracked (station s) = false ->
  exists s', runner_run interface (S n) fuel s e = Some (Done s') /\ runner_ok s' /\
    running (station s') = None /\ next_tx (sta (station s')) = next_tx (sta (station s)) /\
    connection_state (tracker (sta (station s'))) = connection_state (tracker (sta (station s))).
Proof.
  intros Hok Hr Ht. destruct (runner_round_idle fuel s e Hok Hr Ht) as (s' & e' & Hs & Ho & Hn & Hc).
  simpl. rewrite Hs. by exists s'.
Qed.

(** A poll of the runner returns, and takes no more packet numbers than it may. *)
Lemma runner_run_total fuel s e frames :
  runner_ok s -> runnable s frames -> runner_fuel s <= fuel ->
  exists s', runner_run interface 3 fuel s e = Some (Done s') /\ runner_ok s' /\
    (next_pn (sta (station s')) <= pn_after s frames)%Z.
Proof.
  intros Hok Hrn Hf.
  assert (forall n s e info, runner_ok s -> running (station s) = Some info -> runnable s frames ->
    runner_fuel s <= fuel ->
    exists s', runner_run interface (S (S n)) fuel s e = Some (Done s') /\ runner_ok s' /\
      (next_pn (sta (station s')) <= pn_after s frames)%Z) as Hconn.
  { intros n s1 e1 info Ho1 Hr1 Hn1 Hf1.
    destruct (runner_round_connected fuel s1 e1 frames info Ho1 Hr1 Hn1 Hf1)
      as (r & s' & e' & Hr & Ho & Hpn & [-> |(-> & Hn & Ht)]); simpl; rewrite Hr; [by exists s'|].
    destruct (runner_run_idle n fuel s' e' Ho Hn Ht) as (s2 & Hs2 & Ho2 & _ & Htx & _). exists s2.
    split; [done|]. split; [done|]. unfold next_pn in *. by rewrite Htx. }
  destruct (running (station s)) as [info|] eqn:Hr; [by eapply Hconn|].
  destruct (runner_round_start fuel s e frames Hok Hr Hrn) as (r & s' & e' & Hs & Ho & Hpn & Hc).
  rewrite <- Hpn. simpl. rewrite Hs. destruct Hc as [-> |(-> & [info Hi] & Hrn' & Hf')].
  { exists s'. split; [done|]. split; [done|]. unfold pn_after. lia. }
  change (exists s2, runner_run interface 2 fuel s' e' = Some (Done s2) /\ runner_ok s2 /\
    (next_pn (sta (station s2)) <= pn_after s' frames)%Z).
  eapply Hconn; [done|done|done|lia].
Qed.

(** ** The background queue *)

(** A frame that ends no connection, and one that does. *)
Definition harmless (f : list Z) : Prop :=
  is_key_frame f = Done false /\ background_frame_of f <> Some BgDeauthentication.
Definition deauthenticates (f : list Z) : Prop :=
  is_key_frame f = Done false /\ background_frame_of f = Some BgDeauthentication.

(** The first deauthentication of the queue ends the connection. *)
Lemma background_deauth info fuel l d rest s e :
  station_sound (station s) -> conn_task s = CSelect -> requested (station s) = false ->
  background (station s) = l ++ d :: rest -> Forall harmless l -> deauthenticates d ->
  length l < fuel ->
  exists s' e', run_connection interface fuel info s e = Some (Done (PollReady Deauthenticated, s', e')) /\
    station_sound (station s') /\ kept s s'.
Proof.
  intros Hs Ht Hr Hb Hl [Hd1 Hd2]. revert s e fuel Hs Ht Hr Hb.
  assert (forall s f l, station_sound (station s) -> conn_task s = CSelect -> requested (station s) = false ->
    background (station s) = f :: l -> is_key_frame f = Done false -> exists r, forall e,
      connection_round interface info s e = (let s := set_station s (with_router (station s) r) in
        match handle_bg_rx f with
        | Some (RxDisconnected reason) => mret (RReturn reason, s, e)
        | Some BeaconReceived => mret (RAgain, s, reset_ticker e)
        | None => mret (RAgain, s, e)
        end) /\ background (with_router (station s) r) = l) as Hround.
  { intros s f l' Hs Ht Hr Hb Hf. pose proof (receive_background (station s)) as Hrx.
    rewrite Hb in Hrx. destruct Hrx as (r & Hrx & Hl'). exists r. intros e. split; [|done].
    unfold connection_round. rewrite Ht, (requested_spec _ Hs), Hr. cbn [mbind outcome_bind].
    by rewrite Hrx, Hf. }
  induction Hl as [|f l [Hf1 Hf2] Hl IH]; intros s e fuel Hs Ht Hr Hb Hlen;
    (destruct fuel as [|fuel]; [simpl in Hlen; lia|]); unfold run_connection; simpl rounds.
  - destruct (Hround s d rest Hs Ht Hr Hb Hd1) as (r & Hrd). destruct (Hrd e) as [-> Hb'].
    destruct (sound_received _ _ _ _ Hs Hb Hb') as [Hs1 _].
    unfold handle_bg_rx. rewrite Hd2. cbn. eexists _, _. split; [done|]. split; [done|by split].
  - destruct (Hround s f _ Hs Ht Hr Hb Hf1) as (r & Hrd). destruct (Hrd e) as [-> Hb'].
    set (s1 := set_station s (with_router (station s) r)).
    assert (exists e1, (let s := s1 in match handle_bg_rx f with
        | Some (RxDisconnected reason) => mret (RReturn reason, s, e)
        | Some BeaconReceived => mret (RAgain, s, reset_ticker e)
        | None => mret (RAgain, s, e)
        end) = Done (RAgain, s1, e1)) as [e1 ->].
    { unfold handle_bg_rx. destruct (background_frame_of f) as [[|]|]; [done|by eexists..]. }
    destruct (IH s1 e1 fuel) as (s' & e' & Hrun & Hs' & Hk); [|done|done|done|simpl in Hlen; lia|].
    { by destruct (sound_received _ _ _ _ Hs Hb Hb'). }
    exists s', e'. split; [exact Hrun|]. split; [done|]. eapply kept_trans; [|exact Hk]. by split.
Qed.
End RunnerFacts.
