(* ===== verification/StaRunnerProps.v ===== *)
(** * Properties of the station's runner

    A poll of the connection task returns; what the transmission of MSDUs sends and why it
    stops; an MSDU that does not parse blocks it; how a connection ends, also by a
    deauthentication that is older than it; what reaches the network stack. *)
From S2P Require Import Prelude Bytes Network Platform Async Lmac Locks KeySlots RxRouter Eapol Rsn Bss.
From S2P Require Import Sta StaRouter Connect ConnectFacts ConnectProps StaRunner StaRunnerFacts.

Section RunnerProps.
Context `{ConnectLaws, !Ieee80211Laws, !CryptoHeaderLaws, !KeyHalLaws, StaWire}.
Context {Sg Ch W Q : Type -> Type}
  `{SignalLaws Sg, ChannelLaws Ch, WatchLaws W, PacketQueueLaws Q, !RadioLaws}.
Context (interface : nat) (interface_ok : interface < INTERFACE_COUNT).
Notation Station := (Station (Sg := Sg) (Ch := Ch) (W := W)).
Notation StaInterface := (StaInterface (Sg := Sg) (Ch := Ch) (W := W) (Q := Q)).
Implicit Types (st : Station) (s : StaInterface) (info : ConnectionInfo) (e : Ready).

(** ** Transmission *)

(** A poll of the runner returns: whatever state the connection is in, whatever frames
    are queued for it, and whatever buffers and timers are ready, three rounds of its
    loop, and rounds of the inner loops linear in the queues, are enough, nothing
    panics, and the invariant holds again: locks and keys are sound, and link and
    hardware address are those of the running connection.  It needs that the queued
    MSDUs can be sent, and that the 48-bit packet numbers are not used up. *)
Theorem runner_poll_returns s e frames :
  runner_ok s -> msdus_parse (pq_contents (net_tx s)) frames -> packet_numbers_left s frames ->
  exists s', runner_run interface 3 (runner_fuel s) s e = Some (Done s') /\ runner_ok s'.
Proof.
  intros Hok Hp Hn.
  destruct (runner_run_total interface interface_ok (runner_fuel s) s e frames) as (s' & Hr & Hok' & _); [done..|].
  by exists s'.
Qed.

(** Whether an MSDU is held back: our own off-channel operation is in progress, and none
    was ever completed. *)
Definition held_back s : bool :=
  in_off_channel_operation interface (station s) &&
  match completion_wait_poll (lmac (station s)) with PollPending => true | PollReady _ => false end.

Lemma not_held_back info s e frames k s' e' m :
  msdu_progress interface info s e frames k s' e' -> held_back s = false -> msdu_tx s = MIdle ->
  msdu_tx s' = MOffChannel m -> completion_wait_poll (lmac (station s')) <> PollPending.
Proof.
  intros Hk Hh Hi Hm. destruct (mp_off_channel _ _ _ _ _ _ _ _ Hk m Hm) as [?|Hoff]; [congruence|].
  unfold held_back in Hh. rewrite Hoff, (msdu_progress_lmac _ _ _ _ _ _ _ _ Hk) in *.
  intros Hp. by rewrite Hp in Hh.
Qed.

Lemma held_back_waits info s e :
  held_back s = true -> msdu_tx s = MIdle ->
  exists t, run_msdu_tx interface (S (msdu_measure s)) info s e =
    Some (Done (PollPending, set_msdu s t, e)).
Proof.
  intros [Hoff Hp]%andb_true_iff Hi. unfold run_msdu_tx. simpl rounds. unfold msdu_round. rewrite Hi.
  assert (s = set_msdu s MIdle) as Hsame by (destruct s; simpl in *; by subst).
  destruct (pq_front (net_tx s)) as [m|]; [|exists MIdle; cbn; by rewrite <- Hsame].
  rewrite Hoff. unfold completion_first_poll.
  assert (completion_wait_needed (lmac (station s)) = true) as ->.
  { unfold in_off_channel_operation, completion_wait_needed, off_channel_operation_in_progress in *.
    apply bool_decide_eq_true in Hoff. unfold lmac_channel in Hoff. rewrite Hoff. done. }
  destruct (completion_wait_poll _); [done|]. by exists (MOffChannel m).
Qed.

(** C10 MSDUs are sent in order, each once, to the connection's BSS under its address, with
    consecutive packet numbers and the pairwise key if there is one, and as many as
    there are transmit buffers; what is not sent stays in the queue.  Nothing is sent
    during the interface's first off-channel operation, but an operation
    of another interface, which has tuned the radio elsewhere, and a completion of
    long ago hold nothing back. *)
Theorem msdus_sent_in_order info s e frames :
  keys_sound (sta (station s)) -> msdu_tx s = MIdle -> msdus_parse (pq_contents (net_tx s)) frames ->
  (next_pn (sta (station s)) + Z.of_nat (length frames) <= MAX_PN)%Z ->
  exists k s' e',
    run_msdu_tx interface (S (msdu_measure s)) info s e = Some (Done (PollPending, s', e')) /\
    k = (if held_back s then 0 else tx_buffers e `min` length frames) /\
    Connect.sent (station s') = Connect.sent (station s) ++
      msdu_frames info (next_tx (sta (station s))) (take k frames) /\
    pq_contents (net_tx s') = drop k (pq_contents (net_tx s)).
Proof.
  intros Hks Hi Hp Hpn. destruct (held_back s) eqn:Hh.
  - destruct (held_back_waits info s e Hh Hi) as (t & Hr). exists 0, (set_msdu s t), e.
    split; [exact Hr|]. split; [done|]. split; [by rewrite take_0, app_nil_r|done].
  - destruct (run_msdu_tx_spec interface interface_ok info (S (msdu_measure s)) s e frames)
      as (k & s' & e' & Hr & Hk & Hw); [done|by unfold msdu_task_ok; rewrite Hi|done|done|lia|].
    exists k, s', e'. split; [done|].
    destruct (mp_station _ _ _ _ _ _ _ _ Hk) as (x & Hst & _ & _). cbv zeta in Hst.
    pose proof (mp_buffers _ _ _ _ _ _ _ _ Hk) as Hbuf. pose proof (mp_bound _ _ _ _ _ _ _ _ Hk) as Hb.
    split; [|split; [by rewrite Hst|by apply (mp_queue _ _ _ _ _ _ _ _ Hk)]].
    unfold msdu_waits in Hw. destruct (msdu_tx s') as [|m|f] eqn:Hm; [lia| |].
    + by destruct (not_held_back info s e frames k s' e' m Hk Hh Hi Hm).
    + destruct Hw as [Hf He]. apply lookup_lt_Some in Hf. lia.
Qed.

(** C32 An MSDU that is not an Ethernet frame stops the interface for ever: the loop goes
    back to its start without taking it off the queue and without an await that is
    pending, so the poll of the connection task does not return, with any fuel. *)
Theorem malformed_msdu_blocks info s e m :
  msdu_tx s = MIdle -> head (pq_contents (net_tx s)) = Some m -> parse_ethernet m = None ->
  held_back s = false -> forall fuel, run_msdu_tx interface fuel info s e = None.
Proof.
  intros Hi Hm Hp Hh.
  assert (msdu_round interface info s e = Done (RAgain, s, e)) as Hround.
  { assert (msdu_parse s m e = Done (RAgain, s, e)) as Hagain.
    { unfold msdu_parse. rewrite Hp. destruct s; simpl in *; by subst. }
    unfold msdu_round. rewrite Hi, pq_front_contents, Hm.
    destruct (in_off_channel_operation interface (station s)) eqn:Hoff; [|done].
    unfold completion_first_poll. destruct (completion_wait_needed _); [|done].
    unfold held_back in Hh. rewrite Hoff in Hh. by destruct (completion_wait_poll _). }
  induction fuel as [|fuel IH]; [done|]. unfold run_msdu_tx. simpl. by rewrite Hround.
Qed.

(** ** The end of a connection *)

(** The router as it is, or without the oldest frame of the background queue. *)
Definition router_rx s s' : Prop :=
  router (station s') = router (station s) \/
  router (station s') = snd (receive (router (station s)) Background).

Lemma transmit_key_frame_link st bssid own payload kck res st' (s : StaInterface) :
  station s = st -> transmit_key_frame st bssid own payload kck = Done (res, st') ->
  kept s (set_station s st') /\ router st' = router st /\ lmac st' = lmac st.
Proof.
  unfold transmit_key_frame. intros <- Hk.
  apply outcome_bind_Done in Hk as (bytes & _ & Hk). apply outcome_bind_Done in Hk as ([p st1] & Hpr & Hk).
  assert (kept s (set_station s st1) /\ router st1 = router (station s) /\ lmac st1 = lmac (station s)) as [[] [? ?]].
  { destruct (is_pairwise _); [by injection Hpr as <- <-|]. unfold protect_key_frame in Hpr.
    destruct (crypto_state _); [|by injection Hpr as <- <-].
    destruct (tx_crypto_info _) as [[[? ?] ?] ?].
    apply outcome_bind_Done in Hpr as (pr & _ & Hpr). by destruct pr; injection Hpr as <- <-. }
  by destruct p; injection Hk as <- <-.
Qed.

Lemma connection_round_kept info s e r s' e' :
  connection_round interface info s e = Done (r, s', e') -> kept s s' /\ router_rx s s'.
Proof.
  unfold connection_round, router_rx. intros Hc. destruct (conn_task s) as [| |b|rp| |].
  - apply outcome_bind_Done in Hc as (req & _ & Hc). destruct req.
    + destruct (completion_first_poll _); injection Hc as <- <- <-; by split; [|left].
    + destruct (receive (router (station s)) Background) as [[f|] r0].
      * apply outcome_bind_Done in Hc as (key & _ & Hc). destruct key.
        -- apply outcome_bind_Done in Hc as (started & _ & Hc).
           destruct started; injection Hc as <- <- <-; by split; [|right].
        -- destruct (handle_bg_rx f) as [[]|]; injection Hc as <- <- <-; by split; [|right].
      * destruct (_ && _); injection Hc as <- <- <-; by split; [|left].
  - destruct (completion_wait_poll _); injection Hc as <- <- <-; by split; [|left].
  - case_decide; [injection Hc as <- <- <-; by split; [|left]|].
    apply outcome_bind_Done in Hc as ([r0 st] & Hk & Hc). injection Hc as <- <- <-.
    unfold key_frame_reply in Hk. destruct (crypto_state _); [|injection Hk as <- <-; by split; [|left]].
    apply outcome_bind_Done in Hk as ([[? ?] ?] & _ & Hk). injection Hk as <- <-. by split; [|left].
  - case_decide; [injection Hc as <- <- <-; by split; [|left]|].
    apply outcome_bind_Done in Hc as ([r0 st] & Hk & Hc).
    eapply transmit_key_frame_link in Hk as (Hst & Hrt & _); [|done]. destruct Hst.
    destruct r0; injection Hc as <- <- <-; by split; [|left].
  - destruct (reply_completed e); injection Hc as <- <- <-; by split; [|left].
  - case_decide; injection Hc as <- <- <-; by split; [|left].
Qed.

(** What the transmission of MSDUs leaves alone. *)
Definition same_link s s' : Prop :=
  running (station s') = running (station s) /\ lmac (station s') = lmac (station s).

Lemma msdu_round_link info s e r s' e' :
  msdu_round interface info s e = Done (r, s', e') -> same_link s s'.
Proof.
  unfold msdu_round, msdu_parse, same_link. intros Hm. destruct (msdu_tx s) as [|m|f].
  - destruct (pq_front (net_tx s)) as [m|]; [|by injection Hm as <- <- <-].
    destruct (in_off_channel_operation _ _); [|by injection Hm as <- <- <-].
    by destruct (completion_first_poll _); injection Hm as <- <- <-.
  - by destruct (completion_wait_poll _); injection Hm as <- <- <-.
  - case_decide; [by injection Hm as <- <- <-|]. unfold msdu_transmit in Hm.
    destruct (msdu_protection _) as [p x]. apply outcome_bind_Done in Hm as (h & _ & Hm).
    by destruct (msdu_frame_len _ _); injection Hm as <- <- <-.
Qed.

Lemma rounds_keep {A} (body : StaInterface -> Ready -> outcome (round A * StaInterface * Ready))
    (R : StaInterface -> StaInterface -> Prop) :
  (forall s, R s s) -> (forall s1 s2 s3, R s1 s2 -> R s2 s3 -> R s1 s3) ->
  (forall s e r s' e', body s e = Done (r, s', e') -> R s s') ->
  forall fuel s e p s' e', rounds body fuel s e = Some (Done (p, s', e')) -> R s s'.
Proof.
  intros Hrefl Htrans Hb. induction fuel as [|fuel IH]; intros s e p s' e' Hr; [done|].
  simpl in Hr. destruct (body s e) as [[[[| |a] s1] e1]|] eqn:Hs; [|by injection Hr as <- <- <-; eapply Hb..|done].
  eapply Htrans; [by eapply Hb|by eapply IH].
Qed.

Lemma run_msdu_tx_link info fuel s e p s' e' :
  run_msdu_tx interface fuel info s e = Some (Done (p, s', e')) -> same_link s s'.
Proof.
  apply (rounds_keep _ same_link); [done|unfold same_link; naive_solver congruence|].
  by apply msdu_round_link.
Qed.

(** C12 However a connection ends, by the control, a deauthentication or the beacon timeout,
    the runner leaves the same state: the channel lock is given back and the BSSID
    filter cleared, the link is down, the reason is signalled, both futures are
    dropped, and of the queued MSDUs exactly the oldest is lost; the others wait for
    the next connection. *)
Theorem connection_end fuel s e r s' e' :
  locks_ok (lmac_channel (station s)) -> is_Some (running (station s)) ->
  runner_round interface fuel s e = Some (Done (r, s', e')) -> running (station s') = None ->
  r = RAgain /\ ~ holds (lmac_channel (station s')) interface /\ bssid_filter (station s') = None /\
  link_up (station s') = false /\
  (exists reason, connection_state (tracker (sta (station s'))) = Disconnected reason) /\
  conn_task s' = CSelect /\ msdu_tx s' = MIdle /\
  pq_contents (net_tx s') = tail (pq_contents (net_tx s)) /\ net_rx s' = net_rx s.
Proof.
  intros Hl [info Hi] Hr Hn. unfold runner_round in Hr.
  assert (forall s1 : StaInterface, pq_contents (match pq_front (net_tx s1) with
    | Some _ => pq_done (net_tx s1) | None => net_tx s1 end) = tail (pq_contents (net_tx s1))) as Hq.
  { intros s1. rewrite pq_front_contents. destruct (pq_contents (net_tx s1)) as [|m l] eqn:Hc; simpl; [by rewrite Hc|].
    by rewrite pq_done_contents, Hc. }
  assert (forall st reason st', locks_ok (lmac_channel st) -> runner_disconnected interface st reason = Done st' ->
    ~ holds (lmac_channel st') interface /\ bssid_filter st' = None /\ link_up st' = false /\
    running st' = None /\ exists reason, connection_state (tracker (sta st')) = Disconnected reason) as Hd.
  { intros st reason st' Hl1 Hd. unfold runner_disconnected in Hd.
    destruct (unlock_own_spec interface interface_ok st Hl1) as (cs & Hu & _ & Hnh).
    rewrite Hu in Hd. injection Hd as <-. split_and!; try done. by eexists. }
  destruct (runner_poll interface (station s)) as [st|] eqn:Hp; [|done]. rewrite Hi in Hr.
  unfold runner_poll in Hp. rewrite Hi in Hp.
  apply outcome_bind_Done in Hp as ([p t] & _ & Hp). destruct p as [reason|].
  - apply Hd in Hp as (Hnh & Hbf & Hlk & Hrn & Hrs); [|done]. rewrite Hrn in Hr. injection Hr as <- <- <-.
    split_and!; try done. apply Hq.
  - injection Hp as <-. cbn [running with_runner] in Hr.
    destruct (run_connection _ _ _ _ _) as [[[[p s1] e1]|]|] eqn:Hc; [|done|done].
    apply (rounds_keep _ kept kept_refl kept_trans) in Hc as Hk;
      [|intros; by eapply connection_round_kept].
    destruct p as [reason|].
    + injection Hr as Hr. apply outcome_bind_Done in Hr as (st' & Hdis & Hr). injection Hr as <- <- <-.
      apply Hd in Hdis as (Hnh & Hbf & Hlk & Hrn & Hrs); [|by rewrite (kp_channel _ _ Hk)].
      split_and!; try done; cbn [net_tx net_rx connection_over].
      * rewrite Hq. by rewrite (kp_net_tx _ _ Hk).
      * by rewrite (kp_net_rx _ _ Hk).
    + destruct (run_msdu_tx _ _ _ _ _) as [[[[p s2] e2]|]|] eqn:Hm; [|done|done]. injection Hr as <- <- <-.
      apply run_msdu_tx_link in Hm as [Hrun _].
      rewrite Hrun, (kp_running _ _ Hk) in Hn. done.
Qed.

(** ** Routing *)

Lemma routed_to_background s d h :
  tracked (station s) = false -> frame_header d = Some h ->
  is_multicast (fh_address_1 h) = true \/
    default (fh_address_1 h) (connecting_address (station s)) = fh_address_1 h ->
  off_channel_operation_in_progress (lmac_channel (station s)) = false ->
  frame_relevant_for_operation (foreground_queue_state (router (station s))) (fh_generic h) = false ->
  length (background (station s)) <
    ch_capacity (queue (queue_state (router (station s)) Background)) ->
  exists s1, routing_receive interface s d = Done s1 /\
    background (station s1) = background (station s) ++ [d].
Proof.
  intros Ht Hh Ha Ho Hf Hroom. unfold routing_receive. rewrite Hh. cbn [fmap option_fmap option_map].
  assert (routing_decision (routing_state interface (station s)) (Some (routed_frame d h)) = Done RRoute) as ->.
  { unfold routing_decision, routing_state, routed_frame.
    cbn [rf_multicast rf_address_1 rs_own_address rs_in_off_channel_operation rs_off_channel_operation_in_progress
         rs_connected]. unfold tracked in Ht. rewrite Ht, Ho, andb_false_r.
    assert (connection_info (tracker (sta (station s))) = None) as ->.
    { unfold connection_info, map_connection_info. unfold connected in Ht. by destruct (connection_state _). }
    destruct (is_multicast (fh_address_1 h)); [done|]. destruct Ha as [?|Ha]; [done|]. simpl.
    destruct (connecting_address (station s)) as [a|]; [|done]. simpl in Ha. subst a.
    by rewrite bool_decide_false by auto. }
  unfold route_frame. rewrite Hh. cbn [fmap option_fmap option_map]. unfold route_choice. rewrite Hf.
  cbn [CONCORRUENT_OPERATIONS_SUPPORTED sta_operations negb orb].
  destruct (ch_try_send_room (queue (queue_state (router (station s)) Background)) d Hroom)
    as (c & -> & Hc & _). by eexists.
Qed.

(** A connection that the control has not ended goes on. *)
Lemma runner_poll_connected st info :
  running st = Some info -> tracked st = true ->
  exists t, runner_poll interface st = Done (with_runner (with_sta st (set_tracker (sta st) t))
      (Some info) true (link_up st) (hardware_address st)) /\
    connection_state t = connection_state (tracker (sta st)).
Proof.
  intros Hr Ht. unfold runner_poll. rewrite Hr.
  destruct (wait_for_disconnection_spec (runner_waiting st) (tracker (sta st))) as (p & t & -> & Hst & Hp);
    [unfold tracked in Ht; congruence|].
  cbn [expect mbind outcome_bind]. destruct p as [reason|]; [|by exists t].
  unfold tracked, connected in Ht. by rewrite Hp in Ht.
Qed.

(** C31 A deauthentication of the past ends the next connection: one that arrives while the
    station is not connected is kept in the background queue, which nothing clears, and
    the first poll after the runner has taken a new connection over ends it, however
    much later, unless the queue holds a key frame or another deauthentication before it.  Only
    its type is looked at, not its transmitter, its BSSID or its protection. *)
Theorem stale_deauthentication s d h s1 s2 st e fuel :
  tracked (station s) = false -> frame_header d = Some h -> deauthenticates d ->
  is_multicast (fh_address_1 h) = true \/
    default (fh_address_1 h) (connecting_address (station s)) = fh_address_1 h ->
  off_channel_operation_in_progress (lmac_channel (station s)) = false ->
  frame_relevant_for_operation (foreground_queue_state (router (station s))) (fh_generic h) = false ->
  length (background (station s)) <
    ch_capacity (queue (queue_state (router (station s)) Background)) ->
  Forall harmless (background (station s)) ->
  runner_ok s2 -> running (station s2) = None -> requested interface (station s2) = false ->
  routing_receive interface s d = Done s1 -> background (station s2) = background (station s1) ->
  runner_poll interface (station s2) = Done st -> is_Some (running st) ->
  length (background (station s)) < fuel ->
  exists s3, runner_run interface 3 fuel s2 e = Some (Done s3) /\ running (station s3) = None /\
    connection_state (tracker (sta (station s3))) = Disconnected Deauthenticated.
Proof.
  intros Ht Hh Hd Ha Ho Hf Hroom Hl Hok Hr Hrq Hrcv Hb Hp [info Hi] Hfuel.
  destruct (routed_to_background s d h) as (s1' & Hrcv' & Hbg1); [done..|].
  rewrite Hrcv' in Hrcv. injection Hrcv as ->. rewrite Hbg1 in Hb. pose proof Hok as [Hs2 _ _ _].
  destruct (runner_poll_cases interface interface_ok (station s2) Hs2)
    as (st' & Hp' & Hst & Hbg & Hreq & _ & _). rewrite Hp in Hp'. injection Hp' as <-.
  change (runner_run interface 3 fuel s2 e) with
    (match runner_round interface fuel s2 e with
     | None => None | Some Panic => Some Panic
     | Some (Done (RAgain, s, e)) => runner_run interface 2 fuel s e
     | Some (Done (_, s, _)) => Some (Done s) end).
  unfold runner_round at 1. rewrite Hp, Hr, Hi. set (s3 := connection_begun s2 st).
  assert (exists s4 e4, runner_round interface fuel s3 e = Some (Done (RAgain, s4, e4)) /\ runner_ok s4 /\
    running (station s4) = None /\
    connection_state (tracker (sta (station s4))) = Disconnected Deauthenticated) as (s4 & e4 & Hrd4 & Hok4 & Hr4 & Hst4).
  - assert (tracked (station s3) = true) as Ht3.
    { destruct (runner_poll_cases interface interface_ok (station s2) Hs2)
        as (st' & Hp' & _ & _ & _ & _ & Hc). rewrite Hp in Hp'. injection Hp' as <-. rewrite Hr in Hc.
      destruct Hc as [Heq [[Hn _]|(info' & _ & Hc & _)]]; [congruence|].
      unfold tracked, connected in *. cbn [station s3 connection_begun]. by rewrite Heq. }
    destruct (runner_poll_connected (station s3) info Hi Ht3) as (t & Hp3 & Hst3).
    unfold runner_round. rewrite Hp3. cbn [station s3 connection_begun]. rewrite Hi.
    cbn [running with_runner].
    set (s4 := set_station _ _). pose proof Hst as [Hl3 Hq3 Hk3 Hf3].
    destruct (background_deauth interface interface_ok info fuel (background (station s)) d [] s4 e)
      as (s5 & e5 & -> & Hs5 & Hk); [by split|done| | |done..|].
    { change (requested interface st = false). by rewrite Hreq. }
    { change (background st = background (station s) ++ [d]). by rewrite Hbg. }
    destruct (runner_disconnected_ok interface interface_ok (station s5) Deauthenticated Hs5)
      as (st5 & -> & Hs6 & Hr6 & Hl6 & Ht6 & Hst6 & _).
    eexists _, _. split; [done|]. split; [by apply connection_over_ok|done].
  - assert (tracked (station s4) = false) as Ht4 by (unfold tracked, connected; by rewrite Hst4).
    destruct (runner_run_idle interface interface_ok 0 fuel s4 e4 Hok4 Hr4 Ht4) as (s5 & Hs5 & _ & Hr5 & _ & Hst5).
    exists s5. split; [|split; [done|congruence]].
    transitivity (runner_run interface 1 fuel s4 e4); [|done].
    simpl. by rewrite Hrd4.
Qed.

(** ** What reaches the network stack *)

(** The Ethernet frame of an MSDU, if it is an LLC frame and fits the MTU; the longest
    prefix of MSDUs that have one. *)
Definition msdu_ethernet (f : SubFrame) : option EthernetFrame :=
  '(ether_type, data) ← parse_snap_llc (sf_payload f);
  let frame := MkEthernetFrame (sf_destination f) (sf_source f) ether_type data in
  if decide (ethernet_frame_len frame <= MTU) then Some frame else None.
Fixpoint msdu_prefix (l : list SubFrame) : list EthernetFrame :=
  match l with
  | [] => []
  | f :: l => match msdu_ethernet f with Some frame => frame :: msdu_prefix l | None => [] end
  end.
Definition payload_msdus (p : ReadPayload) (source destination : list Z) : list SubFrame :=
  match p with
  | Single b => [MkSubFrame destination source b]
  | AMSDU l => l
  end.

Definition room (q : Q EthernetFrame) : nat := pq_capacity q - length (pq_contents q).
(** [q'] is [q] with [frames], as far as there is room. *)
Definition filled (q q' : Q EthernetFrame) (frames : list EthernetFrame) : Prop :=
  pq_contents q' = pq_contents q ++ take (room q) frames /\ pq_capacity q' = pq_capacity q.

Lemma downlink_spec (q : Q EthernetFrame) f :
  let '(ok, q') := handle_downlink_msdu q (sf_payload f) (sf_source f) (sf_destination f) in
  match msdu_ethernet f with
  | Some frame => if decide (room q = 0) then ok = false /\ q' = q
      else ok = true /\ pq_contents q' = pq_contents q ++ [frame] /\ pq_capacity q' = pq_capacity q
  | None => ok = false /\ q' = q
  end.
Proof.
  clear interface_ok.
  unfold handle_downlink_msdu, msdu_ethernet, room. destruct (parse_snap_llc (sf_payload f)) as [[ty data]|]; [|done].
  cbn [mbind option_bind]. rewrite pq_room_contents.
  destruct (decide (length (pq_contents q) < pq_capacity q)) as [Hr|Hr].
  - rewrite bool_decide_true by done. case_decide; [|done]. rewrite decide_False by lia.
    split; [done|]. rewrite pq_push_contents, pq_push_capacity; [done|].
    by rewrite pq_room_contents, bool_decide_true.
  - rewrite bool_decide_false by done. case_decide; [|done]. by rewrite decide_True by lia.
Qed.

Lemma sub_frames_spec (q : Q EthernetFrame) l : filled q (snd (handle_sub_frames q l)) (msdu_prefix l).
Proof.
  clear interface_ok.
  revert q. induction l as [|f l IH]; intros q; simpl.
  { unfold filled. by rewrite take_nil, app_nil_r. }
  pose proof (downlink_spec q f) as Hd.
  destruct (handle_downlink_msdu _ _ _ _) as [ok q'].
  assert (filled q q []) as Hsame by (unfold filled; by rewrite take_nil, app_nil_r).
  destruct (msdu_ethernet f) as [fr|]; [case_decide as Hroom|].
  - destruct Hd as [-> ->]. unfold filled. rewrite Hroom. simpl. by rewrite app_nil_r.
  - destruct Hd as (-> & Hc & Hcap). destruct (IH q') as [Hc' Hcap']. split; [|congruence].
    rewrite Hc', Hc, <- app_assoc. f_equal. unfold room in *. rewrite Hc, Hcap, length_app. simpl.
    destruct (pq_capacity q - length (pq_contents q)) as [|n] eqn:Hn; [done|]. simpl.
    by replace (pq_capacity q - (length (pq_contents q) + 1)) with n by lia.
  - by destruct Hd as [-> ->].
Qed.

Lemma single_spec (q : Q EthernetFrame) payload source destination :
  filled q (snd (handle_downlink_msdu q payload source destination))
    (msdu_prefix [MkSubFrame destination source payload]).
Proof.
  clear interface_ok.
  pose proof (sub_frames_spec q [MkSubFrame destination source payload]) as Hs. simpl in Hs.
  by destruct (handle_downlink_msdu _ _ _ _) as [[] ?].
Qed.

(** The data path: the check of the packet number, then the hand-over. *)
Lemma handle_data_rx_spec s buffer frame :
  parse_data_frame buffer = Some frame ->
  exists p cs s', accept_data_frame (crypto_state (sta (station s))) frame = Done (p, cs) /\
    handle_data_rx s frame = Done s' /\
    s' = set_net_rx (set_station s (with_sta (station s) (set_crypto (sta (station s)) cs))) (net_rx s') /\
    match p with
    | Some (q, source, destination) =>
        filled (net_rx s) (net_rx s') (msdu_prefix (payload_msdus q source destination))
    | None => net_rx s' = net_rx s
    end.
Proof.
  clear interface_ok. intros Hp. unfold handle_data_rx.
  destruct (accept_data_frame_Done (crypto_state (sta (station s))) buffer frame Hp) as (p & cs & ->).
  cbn [mbind outcome_bind mret outcome_ret]. eexists p, cs, _. split; [done|]. split; [done|].
  destruct p as [[[[b|l] src] dst]|]; (split; [done|]); cbn [net_rx set_net_rx payload_msdus];
    [apply single_spec|apply sub_frames_spec|done].
Qed.

(** The routing task takes a frame up to the test for key frames: the station is connected, the
    frame addressed to it or to a group, and no other interface is off channel. *)
Definition heard s (h : FrameHeader) : Prop :=
  (exists info, connection_info (tracker (sta (station s))) = Some info /\
    (is_multicast (fh_address_1 h) = true \/ fh_address_1 h = own_address info)) /\
  (in_off_channel_operation interface (station s) = true \/
   off_channel_operation_in_progress (lmac_channel (station s)) = false).

Lemma connected_info st : connected (tracker (sta st)) = true <-> is_Some (connection_info (tracker (sta st))).
Proof.
  clear interface_ok. unfold connected, connection_info, map_connection_info.
  destruct (connection_state (tracker (sta st))); split; try done; by eexists.
Qed.

(** The decision on such a frame, and on any other while connected. *)
Lemma routing_decision_heard s buffer h :
  connected (tracker (sta (station s))) = true ->
  (heard s h /\ routing_decision (routing_state interface (station s)) (Some (routed_frame buffer h)) =
    (is_eapol ← is_key_frame buffer;
     if (is_eapol : bool) then mret RRoute else if fh_is_data h then
       match parse_data_frame buffer with
       | None => mret RDrop
       | Some data =>
           mret (if in_off_channel_operation interface (station s) then RDrop else RHandleData data)
       end else mret RRoute)) \/
  (~ heard s h /\ routing_decision (routing_state interface (station s)) (Some (routed_frame buffer h)) = Done RDrop).
Proof.
  clear interface_ok. intros Hconn. pose proof Hconn as [info Hinfo]%connected_info.
  unfold routing_decision, routing_state, routed_frame, heard.
  cbn [rf_multicast rf_address_1 rf_is_eapol rf_is_data rf_data_frame rs_own_address
       rs_in_off_channel_operation rs_off_channel_operation_in_progress rs_connected].
  rewrite Hinfo, Hconn.
  destruct (negb (is_multicast (fh_address_1 h)) && _) eqn:Haddr.
  { right. split; [|done]. intros [(info' & [= <-] & Ha) _].
    apply andb_true_iff in Haddr as [Hm%negb_true_iff Ho%bool_decide_eq_true]. destruct Ha; congruence. }
  destruct (negb (in_off_channel_operation _ _) && _) eqn:Hoff.
  { right. split; [|done]. intros [_ Ho].
    apply andb_true_iff in Hoff as [Hn%negb_true_iff Hp]. destruct Ho; congruence. }
  left. split; [|done]. apply andb_false_iff in Haddr, Hoff. split.
  - exists info. split; [done|]. destruct Haddr as [Hm%negb_false_iff|Ha%bool_decide_eq_false]; [by left|right].
    symmetry. by apply dec_stable.
  - destruct Hoff as [Hn%negb_false_iff|Hp]; auto.
Qed.

(** C11 What reaches the network stack: a received frame gives it packets only if the
    station is connected, no interface is off channel, the frame is a data frame but no
    key frame, addressed to the station or a group, and the data path accepts its
    payload; then they are the MSDUs of the payload in order, up to the first that
    is no LLC frame, does not fit the MTU or finds no free buffer.  The routing task
    panics exactly on a frame of which the test for key frames does, as the parser does on a
    CCMP header that is cut off, if it takes that frame while connected. *)
Theorem network_stack_input s buffer :
  let st := station s in
  (routing_receive interface s buffer = Panic <->
   exists h, frame_header buffer = Some h /\ heard s h /\ is_key_frame buffer = Panic) /\
  match routing_receive interface s buffer with
  | Panic => True
  | Done s' =>
      net_rx s' = net_rx s \/
      exists info h frame destination source p cs,
        connection_info (tracker (sta st)) = Some info /\
        off_channel_operation_interface (lmac_channel st) = None /\
        frame_header buffer = Some h /\ fh_is_data h = true /\ is_key_frame buffer = Done false /\
        (is_multicast (fh_address_1 h) = true \/ fh_address_1 h = own_address info) /\
        parse_data_frame buffer = Some frame /\
        destination_address frame = Some destination /\ source_address frame = Some source /\
        accept_data_frame (crypto_state (sta st)) frame = Done (Some (p, source, destination), cs) /\
        filled (net_rx s) (net_rx s') (msdu_prefix (payload_msdus p source destination))
  end.
Proof.
  clear interface_ok. intros st. subst st. unfold routing_receive.
  assert (forall h, frame_header buffer = Some h -> ~ heard s h \/ is_key_frame buffer <> Panic ->
    ~ exists h, frame_header buffer = Some h /\ heard s h /\ is_key_frame buffer = Panic) as Hno.
  { intros h Hh Hn (h' & Hh' & Hr & Hk). rewrite Hh in Hh'. injection Hh' as <-. by destruct Hn. }
  destruct (frame_header buffer) as [h|] eqn:Hh; cbn [fmap option_fmap option_map].
  2: { split; [split; [done|by intros (? & ? & _)]|by left]. }
  destruct (connected (tracker (sta (station s)))) eqn:Hconn.
  2: { assert (~ heard s h) as Hn.
       { intros [(info & Hi & _) _]. assert (is_Some (connection_info (tracker (sta (station s))))) as Hs by eauto.
         apply connected_info in Hs. congruence. }
       pose proof (routing_decision_open (routing_state interface (station s)) (Some (routed_frame buffer h)) Hconn)
         as [-> | ->]; (split; [split; [done|intros Hp; by destruct (Hno h eq_refl (or_introl Hn))]|by left]). }
  destruct (routing_decision_heard s buffer h Hconn) as [[Hr ->]|[Hn ->]].
  2: { split; [split; [done|intros Hp; by destruct (Hno h eq_refl (or_introl Hn))]|by left]. }
  destruct (is_key_frame buffer) as [key|] eqn:Hkey; cbn [mbind outcome_bind].
  2: { split; [split; [by exists h|done]|done]. }
  assert (~ exists h', Some h = Some h' /\ heard s h' /\ Done key = Panic) as Hno' by naive_solver.
  destruct key; [by split; [split|left]|]. destruct (fh_is_data h) eqn:Hisdata; [|by split; [split|left]].
  destruct (parse_data_frame buffer) as [frame|] eqn:Hp; [|by split; [split|left]].
  destruct (in_off_channel_operation interface (station s)) eqn:Hin; [by split; [split|left]|].
  cbn [mbind outcome_bind mret outcome_ret].
  destruct (handle_data_rx_spec s buffer frame Hp) as (acc & cs & s' & Hacc & -> & _ & Hrx).
  split; [by split|]. destruct acc as [[[p src] dst]|]; [right|by left].
  destruct (accept_data_frame_addresses _ _ _ _ _ _ Hacc) as [Hdst Hsrc].
  destruct Hr as [(info & Hinfo & Ha) [?|Hoff]]; [congruence|].
  exists info, h, frame, dst, src, p, cs. split_and!; try done.
  unfold off_channel_operation_in_progress in Hoff. apply bool_decide_eq_false in Hoff. by apply eq_None_not_Some.
Qed.

(** C19 The data path with keys, on any frame that parses and without a panic: a frame
    without a destination or source address in its header is dropped, and so is a
    protected one whose CCMP header has reserved bits set.  Otherwise the payload of a
    protected frame is handed to the network stack exactly if its wire key id names a key
    (for group traffic, which the destination decides, one of the four group keys, else the
    pairwise key with id zero), and its packet number is above the floor of that key, which
    it then becomes; no other key is touched.  What is handed over are the MSDUs of the
    payload in order, up to the first that has no LLC header, exceeds the MTU or finds no
    free buffer.  A frame that is not protected is delivered whatever the keys. *)
Theorem data_frame_delivery s buffer frame (cs : CryptoState) :
  parse_data_frame buffer = Some frame -> crypto_state (sta (station s)) = Some cs ->
  exists s' cs', handle_data_rx s frame = Done s' /\
    s' = set_net_rx (set_station s (with_sta (station s)
      (set_crypto (sta (station s)) (Some cs')))) (net_rx s') /\
    let m := key_slots (sta (station s)) in
    let delivered q source destination :=
      filled (net_rx s) (net_rx s') (msdu_prefix (payload_msdus q source destination)) in
    match destination_address frame, source_address frame, data_key_id frame,
      potentially_wrapped_payload frame with
    | Some destination, Some source, Some key_id, Done (Some (CryptoWrapped q pn)) =>
        let r := if is_multicast destination then KGroup (Z.to_nat key_id) else KPair in
        let valid := (is_multicast destination = true \/ key_id = 0%Z) /\
          exists t, assoc_of (cs, m) r = Some t /\ (tksa_replay_counter t < pn)%Z in
        (forall r', r' <> r -> assoc_of (cs', m) r' = assoc_of (cs, m) r') /\
        ((valid /\ floor_of (cs', m) r = pn /\ delivered q source destination) \/
         (~ valid /\ cs' = cs /\ net_rx s' = net_rx s))
    | Some destination, Some source, Some _, Done (Some (Unwrapped q)) =>
        cs' = cs /\ delivered q source destination
    | _, _, _, _ => cs' = cs /\ net_rx s' = net_rx s
    end.
Proof.
  clear interface_ok. intros Hp Hst.
  destruct (handle_data_rx_spec s buffer frame Hp) as (p & c & s' & Hacc & Hs & Heq & Hrx).
  rewrite Hst in Hacc. destruct (accept_data_frame_keys _ _ _ _ Hacc) as (cs' & -> & _).
  exists s', cs'. split; [done|]. split; [done|]. cbv zeta. unfold accept_data_frame in Hacc.
  destruct (destination_address frame) as [dst|], (source_address frame) as [src|],
    (data_key_id frame) as [key_id|]; try (by injection Hacc as <- <-).
  destruct (potentially_wrapped_payload frame) as [[[q|q pn]|]|]; [|..|by injection Hacc as <- <-|done].
  { by injection Hacc as <- <-. }
  pose proof (process_wrapped_spec cs (key_slots (sta (station s))) (is_multicast dst) key_id q pn) as Hw.
  cbn [mbind outcome_bind mret outcome_ret] in Hacc.
  destruct (process_potentially_wrapped_payload _ _ _ _) as [p1 st1]. injection Hacc as <- <-.
  destruct Hw as [Ho [(-> & Hv & Hf)|(-> & Hv & ->)]]; (split; [done|]); [left|right]; (split; [exact Hv|by split]).
Qed.

End RunnerProps.

(** ** Witnesses *)

(** Frames as they are on the wire, as far as the examples need them. *)
#[export] Instance plain_sta_wire : StaWire := {
  frame_header := fun b =>
    if decide (24 <= length b)
    then Some (MkFrameHeader (take 6 (drop 4 b)) (bool_decide (Z.modulo (default 0%Z (b !! 0)) 16 = 8%Z))
           (MkGenericFrame (if decide (b !! 0 = Some 0x80%Z) then Beacon else OtherFrame) false))
    else None;
  background_frame_of := fun b =>
    match b !! 0 with
    | Some 0xc0%Z => Some BgDeauthentication
    | Some 0x80%Z => Some BgBeacon
    | _ => None
    end;
  parse_snap_llc := fun b =>
    if decide (8 <= length b)
    then Some (u16_be (default 0%Z (b !! 6)) (default 0%Z (b !! 7)), drop 8 b) else None;
  msdu_frame_len := fun f protected =>
    let n := 32 + length (eth_payload f) + (if (protected : bool) then 16 else 0) in
    if decide (n <= TX_BUFFER_SIZE) then Some n else None;
}.

#[export] Instance plain_crypto_headers : CryptoHeaderLaws.
Proof. split; [done|]. intros. by eexists. Qed.

Definition demo_interface : Type := StaInterface (Sg := option) (Ch := list_chan) (W := option) (Q := list_packets).

(** Connected to [demo_bss], with a beacon in the background queue and two MSDUs. *)
Definition demo_beacon : list Z := 0x80%Z :: replicate 30 2%Z.
Definition demo_msdu (n : Z) : list Z := replicate 6 3%Z ++ demo_own ++ [8; 0; n]%Z.
Definition demo_eth (n : Z) : EthernetFrame := MkEthernetFrame (replicate 6 3%Z) demo_own 0x0800 [n].

Definition demo_router (background : list (list Z)) :=
  MkRxRouter (Ch := list_chan) (Sg := option) (Op := StaRxRouterOperation) (queue_state_new 4)
    (MkQueueState (ListChan background 4) None) None.
Definition demo_running (t : ConnectionStateTracker) (background : list (list Z)) :=
  MkStation (MkSta t (Some demo_crypto.1) demo_crypto.2 demo_own) (lmac_new (W := option) radio_off)
    (Some demo_own) (Some demo_bssid) (demo_router background) (Some demo_info) false true demo_own [].
Definition demo_runner : demo_interface :=
  MkStaInterface (demo_running (MkConnectionStateTracker (Connected demo_info) None) [demo_beacon])
    CSelect MIdle (ListPackets [demo_msdu 1; demo_msdu 2] 4) (ListPackets [] 4).
Definition demo_ready : Ready := MkReady 2 false false.

Lemma demo_parse : msdus_parse [demo_msdu 1; demo_msdu 2] [demo_eth 1; demo_eth 2].
Proof. repeat constructor; intros []; vm_compute; by eexists. Qed.

Lemma demo_keys : rsn_inv demo_crypto.
Proof.
  eapply (crypto_state_new_inv demo_manager demo_slots (MkKeySlot 4 0) demo_bssid demo_associations
    demo_replay demo_ptk demo_gtk tt tt demo_crypto.1 demo_crypto.2); vm_compute; reflexivity.
Qed.

Lemma demo_keys_sound t : keys_sound (Sg := option) (MkSta t (Some demo_crypto.1) demo_crypto.2 demo_own).
Proof.
  intros cs Hcs. injection Hcs as <-. split; [exact demo_keys|]. split.
  { repeat constructor; vm_compute; lia. }
  split_and!; vm_compute; [discriminate..|reflexivity].
Qed.

Lemma demo_runner_ok : runner_ok demo_runner.
Proof.
  split; [split; [done|done|apply demo_keys_sound|by repeat constructor]|done|done|done].
Qed.

Lemma runner_poll_returns_witness :
  exists s', runner_run 0 3 (runner_fuel demo_runner) demo_runner demo_ready = Some (Done s') /\ runner_ok s'.
Proof.
  apply (runner_poll_returns 0 wifi_interface demo_runner demo_ready [demo_eth 1; demo_eth 2]);
    [exact demo_runner_ok|exact demo_parse|].
  unfold packet_numbers_left, pn_after. vm_compute. discriminate.
Defined.

Lemma msdus_sent_in_order_witness :
  exists s' e', run_msdu_tx 0 6 demo_info demo_runner demo_ready = Some (Done (PollPending, s', e')) /\
    Connect.sent (station s') =
      [SentMsdu demo_bssid demo_own (demo_eth 1) (Some (1%Z, 0%Z, 4));
       SentMsdu demo_bssid demo_own (demo_eth 2) (Some (2%Z, 0%Z, 4))] /\
    pq_contents (net_tx s') = [].
Proof.
  destruct (msdus_sent_in_order 0 wifi_interface demo_info demo_runner demo_ready [demo_eth 1; demo_eth 2])
    as (k & s' & e' & Hr & Hk & Hs & Hq); [apply demo_keys_sound|done|exact demo_parse|..].
  { vm_compute. discriminate. }
  vm_compute in Hk. subst k. exists s', e'. split; [exact Hr|]. split; [exact Hs|exact Hq].
Defined.

(** A packet of three bytes. *)
Definition demo_malformed : demo_interface := set_net_tx demo_runner (ListPackets [[1; 2; 3]%Z] 4).

Lemma malformed_msdu_blocks_witness :
  run_msdu_tx 0 100 demo_info demo_malformed demo_ready = None.
Proof. by apply (malformed_msdu_blocks 0 demo_info demo_malformed demo_ready [1; 2; 3]%Z). Defined.

(** The control disconnects; the station's lock is free already. *)
Definition demo_ending : demo_interface :=
  set_station demo_runner
    (demo_running (MkConnectionStateTracker (Disconnected User) (Some tt)) [demo_beacon]).
Definition demo_ended : demo_interface :=
  match runner_round 0 1 demo_ending demo_ready with
  | Some (Done (_, s, _)) => s
  | _ => demo_ending
  end.

Lemma connection_end_witness :
  link_up (station demo_ended) = false /\ pq_contents (net_tx demo_ended) = [demo_msdu 2].
Proof.
  destruct (connection_end 0 wifi_interface 1 demo_ending demo_ready RAgain demo_ended demo_ready)
    as (_ & _ & _ & Hl & _ & _ & _ & Hq & _); [done|by eexists|reflexivity|reflexivity|].
  split; [exact Hl|exact Hq].
Defined.

(** A deauthentication arrives before the connection. *)
Definition demo_deauth : list Z := 0xc0%Z :: 0%Z :: 0%Z :: 0%Z :: demo_own ++ replicate 16 9%Z.
Definition demo_before_connection : demo_interface :=
  MkStaInterface (MkStation (sta_new demo_manager demo_own) (lmac_new radio_off) None None
    (demo_router []) None true false demo_own []) CSelect MIdle (ListPackets [] 4) (ListPackets [] 4).
Definition demo_deauth_kept : demo_interface :=
  match routing_receive 0 demo_before_connection demo_deauth with
  | Done s => s
  | Panic => demo_before_connection
  end.
Definition demo_then_connected : demo_interface :=
  let s := demo_deauth_kept in
  set_station s (with_sta (station s) (set_tracker (sta (station s))
    (signal_state (tracker (sta (station s))) (Connected demo_info)))).
Definition demo_taken_over : Station (Sg := option) (Ch := list_chan) (W := option) :=
  match runner_poll 0 (station demo_then_connected) with
  | Done st => st
  | Panic => station demo_then_connected
  end.

Lemma stale_deauthentication_witness :
  exists s, runner_run 0 3 1 demo_then_connected demo_ready = Some (Done s) /\
    connection_state (tracker (sta (station s))) = Disconnected Deauthenticated.
Proof.
  destruct (stale_deauthentication 0 wifi_interface demo_before_connection demo_deauth
    (MkFrameHeader demo_own false (MkGenericFrame OtherFrame false)) demo_deauth_kept demo_then_connected
    demo_taken_over demo_ready 1) as (s & Hr & _ & Hs);
    [reflexivity|reflexivity|split; reflexivity|by right|reflexivity|reflexivity|vm_compute; lia|
     constructor|split; [split; [done|done|by intros cs|by repeat constructor]|done|done|done]|reflexivity|reflexivity|reflexivity|reflexivity|
     reflexivity|by eexists|simpl; lia|].
  by exists s.
Defined.

(** A protected frame of the AP, with packet number 1, the wire key id 0 and one byte of data. *)
Definition demo_protected : list Z :=
  [0x08; 0x42; 0; 0]%Z ++ replicate 6 4%Z ++ demo_bssid ++ replicate 6 9%Z ++ [0; 0]%Z ++
  [1; 0; 0; 0x20; 0; 0; 0; 0]%Z ++ [0xaa; 0xaa; 3; 0; 0; 0; 8; 0; 5]%Z.

Lemma data_frame_delivery_witness :
  exists frame s', parse_data_frame demo_protected = Some frame /\
    handle_data_rx demo_runner frame = Done s' /\
    pq_contents (net_rx s') = [MkEthernetFrame (replicate 6 4%Z) (replicate 6 9%Z) 0x0800 [5%Z]].
Proof.
  destruct (parse_data_frame demo_protected) as [frame|] eqn:Hp; [|by vm_compute in Hp].
  destruct (data_frame_delivery demo_runner demo_protected frame demo_crypto.1)
    as (s' & cs' & Hs & _ & Hd); [exact Hp|reflexivity|].
  exists frame, s'. split; [done|]. split; [exact Hs|]. vm_compute in Hp. injection Hp as <-.
  destruct Hd as [_ [(_ & _ & [Hf _])|(Hv & _)]]; [rewrite Hf; by vm_compute|].
  destruct Hv. split; [by right|]. eexists. split; reflexivity.
Defined.

(** A protected frame to us whose CCMP header is cut off after four bytes. *)
Definition demo_broken : list Z :=
  [0x08; 0x42; 0; 0]%Z ++ demo_own ++ demo_bssid ++ replicate 6 9%Z ++ [0; 0]%Z ++ [1; 0; 0; 0x20]%Z.

Lemma network_stack_input_witness :
  routing_receive 0 demo_runner demo_broken = Panic /\ ccmp_ok demo_broken = false.
Proof.
  split; [|reflexivity]. apply (proj1 (network_stack_input 0 demo_runner demo_broken)).
  eexists. split; [reflexivity|]. split; [|reflexivity].
  split; [|by right]. eexists. split; [reflexivity|]. by left.
Defined.
