(* ===== verification/OffChannelProps.v ===== *)
(** * Off-channel operations and the station

    The request protocol of foa/src/lmac with a station on the other side: a station that
    runs a connection grants a request at its next poll, so an operation of another
    interface begins; one that has just been disconnected answers nothing. *)
From S2P Require Import Prelude Bytes Network Platform Async Lmac Locks KeySlots RxRouter Eapol Rsn Bss.
From S2P Require Import Sta StaRouter Connect ConnectFacts ConnectProps StaRunner StaRunnerFacts StaRunnerProps.

Section OffChannel.
Context `{ConnectLaws, !Ieee80211Laws, !CryptoHeaderLaws, !KeyHalLaws, StaWire}.
Context {Sg Ch W Q : Type -> Type}
  `{SignalLaws Sg, ChannelLaws Ch, WatchLaws W, PacketQueueLaws Q, !RadioLaws}.
Context (interface : nat) (interface_ok : interface < INTERFACE_COUNT).
Notation Station := (Station (Sg := Sg) (Ch := Ch) (W := W)).
Notation StaInterface := (StaInterface (Sg := Sg) (Ch := Ch) (W := W) (Q := Q)).
Implicit Types (st : Station) (s : StaInterface) (info : ConnectionInfo) (e : Ready).

Definition requesters s : list OffChannelRequestState := lm_requesters (lmac (station s)).
Definition granted (rs : list OffChannelRequestState) : list OffChannelRequestState :=
  <[interface := Granted]> rs.

(** All a station does to the requests: it grants its own. *)
Definition requests_step s s' : Prop :=
  requesters s' = requesters s \/ requesters s' = granted (requesters s).

Lemma granted_twice rs : granted (granted rs) = granted rs.
Proof. unfold granted. by rewrite list_insert_insert_eq. Qed.
Lemma requests_step_refl s : requests_step s s.
Proof. by left. Qed.
Lemma requests_step_trans s1 s2 s3 : requests_step s1 s2 -> requests_step s2 s3 -> requests_step s1 s3.
Proof.
  unfold requests_step. intros [Ha|Ha] [Hb|Hb]; rewrite Hb, Ha, ?granted_twice; auto.
Qed.
Lemma granted_stays s1 s2 rs :
  requests_step s1 s2 -> requesters s1 = granted rs -> requesters s2 = granted rs.
Proof. intros [Hs|Hs] Hg; rewrite Hs, Hg, ?granted_twice; done. Qed.

Lemma grant_request_granted s :
  requested interface (station s) = true ->
  requesters (set_station s (grant_request interface (station s))) = granted (requesters s).
Proof.
  intros Hr. apply bool_decide_eq_true in Hr. unfold requesters, granted, grant_request. cbn.
  apply list_eq. intros j. destruct (decide (j = interface)) as [->|Hne].
  - rewrite list_lookup_alter_eq, Hr, list_lookup_insert_eq; [done|]. by eapply lookup_lt_Some.
  - by rewrite list_lookup_alter_ne, list_lookup_insert_ne by done.
Qed.

Lemma off_channel_requested_Done st b :
  off_channel_requested interface st = Done b -> b = requested interface st.
Proof.
  unfold off_channel_requested, requested, wait_for_request.
  destruct (lm_requesters (lmac st) !! interface) as [r|]; [|done]. simpl.
  case_decide as Hr; intros [= <-]; symmetry.
  - apply bool_decide_eq_true. by subst.
  - apply bool_decide_eq_false. intros [=]. by subst.
Qed.

(** A round changes the lower MAC only by granting a request. *)
Lemma connection_round_lmac info s e r s' e' :
  connection_round interface info s e = Done (r, s', e') ->
  (lmac (station s') = lmac (station s) /\ (conn_task s = CSelect -> requested interface (station s) = false)) \/
  (conn_task s = CSelect /\ requested interface (station s) = true /\
   lmac (station s') = lmac (grant_request interface (station s))).
Proof.
  unfold connection_round. intros Hc. destruct (conn_task s) as [| |b|rp| |].
  - apply outcome_bind_Done in Hc as (req & Hreq & Hc). apply off_channel_requested_Done in Hreq as ->.
    destruct (requested interface (station s)).
    + right. by destruct (completion_first_poll _); injection Hc as <- <- <-.
    + left. destruct (receive (router (station s)) Background) as [[f|] r0].
      * apply outcome_bind_Done in Hc as (key & _ & Hc). destruct key.
        -- apply outcome_bind_Done in Hc as (started & _ & Hc). by destruct started; injection Hc as <- <- <-.
        -- by destruct (handle_bg_rx f) as [[]|]; injection Hc as <- <- <-.
      * by destruct (_ && _); injection Hc as <- <- <-.
  - left. by destruct (completion_wait_poll _); injection Hc as <- <- <-.
  - left. case_decide; [by injection Hc as <- <- <-|].
    apply outcome_bind_Done in Hc as ([r0 st] & Hk & [= <- <- <-]).
    unfold key_frame_reply in Hk. destruct (crypto_state _); [|by injection Hk as <- <-].
    apply outcome_bind_Done in Hk as ([[? ?] ?] & _ & Hk). by injection Hk as <- <-.
  - left. case_decide; [by injection Hc as <- <- <-|].
    apply outcome_bind_Done in Hc as ([r0 st] & Hk & Hc).
    eapply transmit_key_frame_link in Hk as (_ & _ & Hk); [|done].
    split; [|done]. rewrite <- Hk. by destruct r0; injection Hc as <- <- <-.
  - left. by destruct (reply_completed e); injection Hc as <- <- <-.
  - left. case_decide; by injection Hc as <- <- <-.
Qed.

Lemma connection_round_requests info s e r s' e' :
  connection_round interface info s e = Done (r, s', e') ->
  requests_step s s' /\
  (conn_task s = CSelect -> requested interface (station s) = true ->
   requesters s' = granted (requesters s)).
Proof.
  intros Hc. unfold requests_step, requesters.
  apply connection_round_lmac in Hc as [[-> Hn]|(_ & Hr & ->)].
  - split; [by left|]. intros Ht Hr. by rewrite (Hn Ht) in Hr.
  - pose proof (grant_request_granted _ Hr) as Hg. unfold requesters in Hg. cbn [station set_station] in Hg.
    rewrite Hg. split; [by right|done].
Qed.

Lemma run_connection_requests info fuel s e p s' e' :
  run_connection interface fuel info s e = Some (Done (p, s', e')) ->
  requests_step s s' /\
  (conn_task s = CSelect -> requested interface (station s) = true ->
   requesters s' = granted (requesters s)).
Proof.
  assert (forall fuel s e p s' e',
    run_connection interface fuel info s e = Some (Done (p, s', e')) -> requests_step s s') as Hkeep.
  { intros f s1 e1 p1 s2 e2. apply (rounds_keep _ requests_step requests_step_refl requests_step_trans).
    intros. by eapply connection_round_requests. }
  intros Hr. split; [by eapply Hkeep|]. intros Ht Hreq. destruct fuel as [|fuel]; [done|].
  unfold run_connection in Hr. simpl in Hr.
  destruct (connection_round interface info s e) as [[[[| |a] s1] e1]|] eqn:Hc; [| | |done];
    apply connection_round_requests in Hc as [_ Hg]; specialize (Hg Ht Hreq).
  - eapply granted_stays; [by eapply Hkeep|done].
  - by injection Hr as <- <- <-.
  - by injection Hr as <- <- <-.
Qed.

(** The polls of the connection state grant nothing. *)
Lemma runner_disconnected_requests st reason st' :
  runner_disconnected interface st reason = Done st' -> lm_requesters (lmac st') = lm_requesters (lmac st).
Proof.
  unfold runner_disconnected, unlock_own_channel. intros Hd.
  apply outcome_bind_Done in Hd as (st1 & Hu & Hd).
  apply outcome_bind_Done in Hu as (cs & _ & Hu). injection Hu as <-. by injection Hd as <-.
Qed.

Lemma runner_poll_requests st st' :
  runner_poll interface st = Done st' -> lm_requesters (lmac st') = lm_requesters (lmac st).
Proof.
  unfold runner_poll. destruct (running st) as [info|]; intros Hp;
    apply outcome_bind_Done in Hp as ([p t] & _ & Hp); destruct p;
    try (by injection Hp as <-). by apply runner_disconnected_requests in Hp.
Qed.

Lemma runner_round_requests fuel s e r s' e' :
  runner_round interface fuel s e = Some (Done (r, s', e')) -> requests_step s s'.
Proof.
  unfold runner_round. destruct (runner_poll interface (station s)) as [st|] eqn:Hp; [|done].
  apply runner_poll_requests in Hp.
  destruct (running (station s)) as [info|]; destruct (running st) eqn:Hrun;
    try (intros [= <- <- <-]; by left).
  destruct (run_connection interface fuel info (set_station s st) e) as [[[[p s1] e1]|]|] eqn:Hc; [|done..].
  apply run_connection_requests in Hc as [Hc _].
  assert (requests_step s s1) as Hs by (unfold requests_step, requesters in *; cbn in Hc; by rewrite Hp in Hc).
  destruct p as [reason|].
  - intros [= Hr]. apply outcome_bind_Done in Hr as (st' & Hd & Hr). injection Hr as <- <- <-.
    apply runner_disconnected_requests in Hd. unfold requests_step, requesters. cbn.
    by rewrite Hd.
  - destruct (run_msdu_tx _ _ _ _ _) as [[[[p s2] e2]|]|] eqn:Hm; [|done..]. intros [= <- <- <-].
    apply run_msdu_tx_link in Hm as [_ Hl]. unfold requests_step, requesters. by rewrite Hl.
Qed.

(** The round of a connection that goes on. *)
Lemma runner_round_grants fuel s e r s' e' info :
  running (station s) = Some info -> tracked (station s) = true ->
  conn_task s = CSelect -> requested interface (station s) = true ->
  runner_round interface fuel s e = Some (Done (r, s', e')) -> requesters s' = granted (requesters s).
Proof.
  intros Hrun Htr Ht Hreq. unfold runner_round.
  destruct (runner_poll interface (station s)) as [st|] eqn:Hp; [|done].
  pose proof (runner_poll_requests _ _ Hp) as Hl.
  assert (running st = Some info) as Hrun'.
  { unfold runner_poll in Hp. rewrite Hrun in Hp.
    destruct (wait_for_disconnection_spec (runner_waiting (station s)) (tracker (sta (station s))))
      as (p & t & Hw & _ & Hc); [intros _ Hf; unfold tracked in Htr; congruence|].
    rewrite Hw in Hp. cbn [expect mbind outcome_bind] in Hp.
    destruct p; [|by injection Hp as <-]. unfold tracked, connected in Htr. by rewrite Hc in Htr. }
  rewrite Hrun, Hrun'.
  destruct (run_connection interface fuel info (set_station s st) e) as [[[[p s1] e1]|]|] eqn:Hc; [|done..].
  apply run_connection_requests in Hc as [_ Hg].
  assert (requesters s1 = granted (requesters s)) as Hs.
  { unfold requesters in *. cbn in Hg. rewrite Hg, Hl; [done..|]. unfold requested in *. by rewrite Hl. }
  destruct p as [reason|].
  - intros [= Hr]. apply outcome_bind_Done in Hr as (st' & Hd & Hr). injection Hr as <- <- <-.
    apply runner_disconnected_requests in Hd. unfold requesters in *. cbn. by rewrite Hd.
  - destruct (run_msdu_tx _ _ _ _ _) as [[[[p s2] e2]|]|] eqn:Hm; [|done..]. intros [= <- <- <-].
    apply run_msdu_tx_link in Hm as [_ Hl2]. unfold requesters. by rewrite Hl2.
Qed.

Lemma runner_run_S n fuel s e :
  runner_run interface (S n) fuel s e =
    match runner_round interface fuel s e with
    | None => None
    | Some Panic => Some Panic
    | Some (Done (RAgain, s, e)) => runner_run interface n fuel s e
    | Some (Done (_, s, _)) => Some (Done s)
    end.
Proof. done. Qed.

Lemma runner_run_requests n fuel s e s' :
  runner_run interface n fuel s e = Some (Done s') -> requests_step s s'.
Proof.
  revert s e. induction n as [|n IH]; intros s e Hr; [done|]. simpl in Hr.
  destruct (runner_round interface fuel s e) as [[[[r s1] e1]|]|] eqn:Hs; [|done..].
  apply runner_round_requests in Hs.
  destruct r; [by eapply requests_step_trans; [|eapply IH]|by injection Hr as <-..].
Qed.

(** All requests answered by the station that was asked. *)
Lemma poll_requests_granted rs (waits : list wait_slot) :
  length waits = length rs ->
  (forall j, waits !! j = Some None -> rs !! j = Some Granted) ->
  (forall j r, waits !! j = Some (Some r) -> r = Ok tt) ->
  snd (poll_requests rs waits) = replicate (length waits) (Some (Ok tt)).
Proof.
  revert waits. induction rs as [|r rs IH]; intros [|w waits] Hlen Hn Hs; try done.
  specialize (IH waits ltac:(simpl in Hlen; lia) (fun j => Hn (S j)) (fun j => Hs (S j))).
  simpl. destruct (poll_requests rs waits) as [rs' ws']. simpl in IH. subst ws'.
  destruct w as [w|].
  - by rewrite (Hs 0 w eq_refl).
  - specialize (Hn 0 eq_refl). simpl in Hn. injection Hn as ->. done.
Qed.

Lemma begin_poll_ready (lm : LMac (W := W)) i waits :
  length waits = length (lm_requesters lm) ->
  (forall j, waits !! j = Some None -> lm_requesters lm !! j = Some Granted) ->
  (forall j r, waits !! j = Some (Some r) -> r = Ok tt) ->
  exists op waits' lm', begin_poll lm i waits = (PollReady (Ok op), waits', lm') /\
    off_channel_operation_interface (lm_channel lm') = Some i.
Proof.
  intros Hlen Hn Hs. pose proof (poll_requests_granted _ _ Hlen Hn Hs) as Hp.
  unfold begin_poll. destruct (poll_requests _ _) as [rs ws]. simpl in Hp. subst ws.
  rewrite bool_decide_true by (apply Forall_replicate; by eexists).
  assert (first_error (replicate (length waits) (Some (Ok tt))) = None) as ->
    by (clear; by induction (length waits)).
  by eexists _, _, _.
Qed.

Lemma poll_requests_pending rs (waits : list wait_slot) j :
  waits !! j = Some None -> rs !! j = Some Requested -> snd (poll_requests rs waits) !! j = Some None.
Proof.
  revert waits j. induction rs as [|r rs IH]; intros [|w waits] [|j] Hw Hr; try done; simpl in *.
  - injection Hw as ->. injection Hr as ->. by destruct (poll_requests rs waits).
  - specialize (IH _ _ Hw Hr). destruct (poll_requests rs waits) as [rs' ws']. simpl in IH.
    destruct w; [done|]. by destruct (request_poll r) as [[p s] l].
Qed.

(** An operation that asked the interface waits. *)
Lemma begin_poll_pending st i waits :
  waits !! interface = Some None -> requested interface st = true ->
  fst (fst (begin_poll (lmac st) i waits)) = PollPending.
Proof.
  intros Hw Hr. apply bool_decide_eq_true in Hr. pose proof (poll_requests_pending _ _ _ Hw Hr) as Hp.
  unfold begin_poll. destruct (poll_requests _ _) as [rs ws]. simpl in Hp.
  rewrite bool_decide_false; [done|]. intros Hall. rewrite Forall_lookup in Hall.
  by destruct (Hall _ _ Hp).
Qed.

(** ** What an operation of another interface finds *)

(** C13 A station in the way of an off-channel operation does not stop it: when another
    interface asks and the station that holds the channel runs a connection and waits in
    its select, its next poll returns with the request granted, so the asking
    interface's next poll begins the operation.  This holds whatever frames the
    station has to handle in that poll (none with a CCMP header that the parser panics
    on), also when it loses its connection there. *)
Theorem off_channel_granted (lm0 : LMac (W := W)) i asked waits s e frames info :
  locks_ok (lm_channel lm0) -> length (lm_requesters lm0) = INTERFACE_COUNT ->
  begin_start lm0 = Ok (asked, waits, lmac (station s)) ->
  holds (lm_channel lm0) interface -> ~ locked_elsewhere (lm_channel lm0) interface ->
  runner_ok s -> runnable s frames -> running (station s) = Some info -> tracked (station s) = true ->
  conn_task s = CSelect ->
  exists s' op waits' lm',
    runner_run interface 3 (runner_fuel s) s e = Some (Done s') /\ runner_ok s' /\
    fst (fst (begin_poll (lmac (station s)) i waits)) = PollPending /\
    begin_poll (lmac (station s')) i waits = (PollReady (Ok op), waits', lm') /\
    off_channel_operation_interface (lm_channel lm') = Some i.
Proof.
  intros Hlocks Hlen Hbegin (l & c & Hl & Hown) Halone Hok Hrn Hrun Htr Ht.
  unfold begin_start in Hbegin. case_match; [done|]. rewrite Hl in Hbegin.
  unfold locks_ok in Hlocks. rewrite Hl in Hlocks. destruct Hlocks as [Hll _].
  injection Hbegin as <- <- Hlm. set (waits := (fun locked : bool => _) <$> l).
  assert (length waits = INTERFACE_COUNT) as Hwl by (unfold waits; by rewrite length_fmap).
  assert (forall j, waits !! j = Some None -> j = interface) as Hw1.
  { unfold waits. intros j Hj. rewrite list_lookup_fmap in Hj.
    destruct (l !! j) as [[]|] eqn:Hlj; [|done..]. destruct (decide (j = interface)) as [|Hne]; [done|].
    exfalso. apply Halone. exists j. split; [done|]. by exists l, c. }
  assert (forall j r, waits !! j = Some (Some r) -> r = Ok tt) as Hw2.
  { unfold waits. intros j r Hj. rewrite list_lookup_fmap in Hj. destruct (l !! j) as [[]|]; simpl in Hj; congruence. }
  assert (waits !! interface = Some None) as Hw3 by (unfold waits; by rewrite list_lookup_fmap, Hown).
  assert (requested interface (station s) = true) as Hreq.
  { apply bool_decide_eq_true. rewrite <- Hlm. cbn [lm_requesters with_requesters].
    rewrite lookup_zip_with, Hown. destruct (lookup_lt_is_Some_2 (lm_requesters lm0) interface) as [r ->]; [congruence|].
    done. }
  destruct (runner_run_total interface interface_ok (runner_fuel s) s e frames Hok Hrn ltac:(done)) as (s' & Hr & Hok' & _).
  assert (requesters s' = granted (requesters s)) as Hg.
  { rewrite runner_run_S in Hr. destruct (runner_round interface (runner_fuel s) s e) as [[[[r s1] e1]|]|] eqn:Hs; [|done..].
    apply (runner_round_grants _ _ _ _ _ _ info) in Hs; [|done..].
    destruct r; [|by injection Hr as <-..].
    eapply granted_stays; [by eapply runner_run_requests|done]. }
  destruct (begin_poll_ready (lmac (station s')) i waits) as (op & waits' & lm' & Hb & Ho).
  - etransitivity; [exact Hwl|]. symmetry. by apply Hok'.
  - intros j ->%Hw1. change (requesters s' !! interface = Some Granted). rewrite Hg. unfold granted.
    rewrite list_lookup_insert_eq; [done|]. unfold requesters. destruct Hok as [[_ Hrl _ _] _ _ _]. rewrite Hrl. done.
  - done.
  - exists s', op, waits', lm'. split_and!; try done. by apply begin_poll_pending.
Qed.

(** Polls of the runner, each with what it finds ready. *)
Fixpoint runner_polls (fuel : nat) s (es : list Ready) : option (outcome StaInterface) :=
  match es with
  | [] => Some (Done s)
  | e :: es =>
      match runner_run interface 3 fuel s e with
      | Some (Done s) => runner_polls fuel s es
      | r => r
      end
  end.

(** A station without a connection whose interface was asked. *)
Record deaf s : Prop := {
  df_ok : runner_ok s;
  df_idle : running (station s) = None;
  df_untracked : tracked (station s) = false;
  df_requested : requested interface (station s) = true;
}.

Lemma runner_run_deaf n fuel s e :
  deaf s -> exists s', runner_run interface (S n) fuel s e = Some (Done s') /\ deaf s' /\
    lm_channel (lmac (station s')) = lm_channel (lmac (station s)).
Proof.
  intros [Hok Hi Ht Hr]. destruct (runner_run_idle interface interface_ok n fuel s e Hok Hi Ht)
    as (s' & Hs & Hok' & Hi' & _ & Hst).
  exists s'. split; [done|].
  assert (lmac (station s') = lmac (station s)) as Hl.
  { rewrite runner_run_S in Hs. unfold runner_round in Hs.
    destruct (runner_poll interface (station s)) as [st|] eqn:Hp; [|done]. rewrite Hi in Hs.
    unfold runner_poll in Hp. rewrite Hi in Hp.
    destruct (wait_for_connection_total (runner_waiting (station s)) (tracker (sta (station s))))
      as (p & t & Hw & _ & Hc). rewrite Hw in Hp. cbn [expect mbind outcome_bind] in Hp.
    destruct p as [info|].
    - specialize (Hc info eq_refl). unfold tracked, connected in Ht. by rewrite Hc in Ht.
    - injection Hp as <-. by injection Hs as <-. }
  split; [|by rewrite Hl]. split; [done|done| |by unfold requested in *; rewrite Hl].
  unfold tracked, connected in *. by rewrite Hst.
Qed.

Lemma runner_polls_deaf fuel s es :
  deaf s -> exists s', runner_polls fuel s es = Some (Done s') /\ deaf s' /\
    lm_channel (lmac (station s')) = lm_channel (lmac (station s)).
Proof.
  revert s. induction es as [|e es IH]; intros s Hd; [by exists s|].
  destruct (runner_run_deaf 2 fuel s e Hd) as (s1 & Hr & Hd1 & Hc1).
  destruct (IH s1 Hd1) as (s2 & Hr2 & Hd2 & Hc2). exists s2. split; [|split; [done|congruence]].
  cbn [runner_polls]. by rewrite Hr.
Qed.

(** C33 A request that its station has not seen when it is disconnected is never answered:
    if the disconnection is signalled before the runner's next poll, that poll gives
    the channel lock back but leaves the request standing, and neither it nor any number of
    later polls grants or rejects it, so the interface that asked waits for ever (unless
    the station connects again), although nobody holds the channel any more. *)
Theorem off_channel_request_orphaned i waits s e es info fuel :
  runner_ok s -> running (station s) = Some info -> tracked (station s) = false ->
  (runner_waiting (station s) = true -> signaled (tracker (sta (station s)))) ->
  requested interface (station s) = true -> waits !! interface = Some None ->
  exists s', runner_polls fuel s (e :: es) = Some (Done s') /\
    running (station s') = None /\ ~ holds (lmac_channel (station s')) interface /\
    fst (fst (begin_poll (lmac (station s')) i waits)) = PollPending.
Proof.
  intros Hok Hrun Ht Hw Hreq Hwait. pose proof Hok as [Hs _ _ _].
  destruct (wait_for_disconnection_spec (runner_waiting (station s)) (tracker (sta (station s))))
    as (p & t & Hp & Hst & Hc); [by intros ?%Hw|].
  destruct p as [reason|]; [|destruct Hc as [Hc _]; unfold tracked in Ht; congruence].
  destruct (runner_disconnected_ok interface interface_ok (with_sta (station s) (set_tracker (sta (station s)) t)) reason)
    as (st & Hd & Hs1 & Hr1 & Hl1 & Ht1 & _ & _ & Hn1).
  { by destruct Hs; split. }
  assert (runner_round interface fuel s e = Some (Done (RAgain, connection_over s st, e))) as Hround.
  { unfold runner_round, runner_poll. rewrite Hrun, Hp. cbn [expect mbind outcome_bind].
    by rewrite Hd, Hr1. }
  apply runner_disconnected_requests in Hd.
  assert (deaf (connection_over s st)) as Hdeaf.
  { split; [by apply connection_over_ok|done|done|]. unfold requested in *. cbn [station connection_over].
    by rewrite Hd. }
  destruct (runner_run_deaf 1 fuel _ e Hdeaf) as (s1 & Hr & Hd1 & Hc1).
  destruct (runner_polls_deaf fuel s1 es Hd1) as (s2 & Hr2 & Hd2 & Hc2).
  exists s2. split; [|split; [apply Hd2|split]].
  - cbn [runner_polls]. by rewrite runner_run_S, Hround, Hr.
  - unfold lmac_channel. rewrite Hc2, Hc1. exact Hn1.
  - apply begin_poll_pending; [done|by apply Hd2].
Qed.
End OffChannel.

(** ** Witnesses *)

(** Interface 0 holds the channel for its connection when interface 1 asks. *)
Definition demo_held : LMac (W := option) :=
  MkLMac (MkChannelState (Some ([true; false; false; false], 6%Z)) None radio_off)
    (replicate INTERFACE_COUNT NotRequested) None.
Definition demo_waits : list wait_slot := [None; Some (Ok tt); Some (Ok tt); Some (Ok tt)].
Definition demo_asked : LMac (W := option) :=
  with_requesters demo_held [Requested; NotRequested; NotRequested; NotRequested].
Definition demo_asked_station (state : ConnectionState) : demo_interface :=
  set_station demo_runner
    (with_lmac (demo_running (MkConnectionStateTracker state None) [demo_beacon]) demo_asked).

Lemma demo_asked_ok state : runner_ok (demo_asked_station state).
Proof.
  split; [split; [|done|apply demo_keys_sound|by repeat constructor]|done|done|done].
  split; [done|]. by left.
Qed.

Lemma off_channel_granted_witness :
  exists s' op waits' lm',
    runner_run 0 3 (runner_fuel (demo_asked_station (Connected demo_info)))
      (demo_asked_station (Connected demo_info)) demo_ready = Some (Done s') /\
    begin_poll (lmac (station s')) 1 demo_waits = (PollReady (Ok op), waits', lm') /\
    off_channel_operation_interface (lm_channel lm') = Some 1.
Proof.
  destruct (off_channel_granted 0 wifi_interface demo_held 1 [true; false; false; false] demo_waits
    (demo_asked_station (Connected demo_info)) demo_ready [demo_eth 1; demo_eth 2] demo_info)
    as (s' & op & waits' & lm' & Hr & _ & _ & Hb & Ho).
  - split; [done|]. by left.
  - done.
  - reflexivity.
  - by eexists _, _.
  - intros (j & Hj & l & c & [= <- <-] & Hl). destruct j as [|[|[|[|j]]]]; done.
  - apply demo_asked_ok.
  - split; [exact demo_parse|]. unfold packet_numbers_left, pn_after. vm_compute. discriminate.
  - done.
  - done.
  - done.
  - exists s', op, waits', lm'. split; [exact Hr|]. by split.
Defined.

Lemma off_channel_request_orphaned_witness :
  exists s', runner_polls 0 10 (demo_asked_station (Disconnected User)) [demo_ready; demo_ready] = Some (Done s') /\
    running (station s') = None /\
    fst (fst (begin_poll (lmac (station s')) 1 demo_waits)) = PollPending.
Proof.
  destruct (off_channel_request_orphaned 0 wifi_interface 1 demo_waits (demo_asked_station (Disconnected User))
    demo_ready [demo_ready] demo_info 10) as (s' & Hr & Hn & _ & Hb);
    [apply demo_asked_ok|done|done|done|done|done|].
  exists s'. split; [exact Hr|done].
Defined.
