(* ===== verification/StaSystem.v ===== *)
(** * A station interface: foa_sta/src/lib.rs

    The interface as [new_sta_interface] makes it, and as a machine over everything that
    happens to it: calls of the control, each with the steps of other tasks while it
    waits, polls of the connection task, received frames, packets of the network stack,
    and what other interfaces do to the channel and to off-channel operations. *)
From S2P Require Import Prelude Bytes Network Platform Async Lmac Locks KeySlots RxRouter Eapol Rsn Bss Sta.
From S2P Require Import StaRouter Connect StaRunner.

Section StaSystem.
Context `{ConnectCrypto, Ieee80211, StaWire}.
Context {Sg Ch W Q : Type -> Type} `{Signal Sg, Channel Ch, Watch W, PacketQueue Q, Radio}.
Context (interface RX_QUEUE_DEPTH NET_TX_BUFFERS NET_RX_BUFFERS : nat).
Notation Station := (Station (Sg := Sg) (Ch := Ch) (W := W)).
Notation StaInterface := (StaInterface (Sg := Sg) (Ch := Ch) (W := W) (Q := Q)).
Notation fut := (fut (W := Station) (Own := own_event) (Other := task_step) (Error := StaError)).
Implicit Types (s : StaInterface) (st : Station).

(** [StaResources::new] and [new_sta_interface] on a virtual interface with the filters
    [ra] and [bssid]; the depths are those of the configuration. *)
Definition new_sta_interface (m : KeySlotManager) (lm : LMac (W := W)) (ra bssid : option (list Z))
  (base_mac : list Z) : outcome StaInterface :=
  mac ← get_factory_mac_for_interface interface base_mac;
  mret (MkStaInterface
    (MkStation (sta_new m mac) lm ra bssid (router_new RX_QUEUE_DEPTH) None false false mac [])
    CSelect MIdle (pq_new NET_TX_BUFFERS) (pq_new NET_RX_BUFFERS)).

(** [randomize_mac_address], for what [random_mac_address] returned, and [get_aid]. *)
Definition sta_randomize_mac_address st (random : list Z) : result StaError (list Z) * Station :=
  let '(r, x) := set_mac_address (sta st) random in
  (match r with Ok _ => Ok random | Err e => Err e end, with_sta st x).
Definition get_aid st : option Z := aid <$> connection_info (tracker (sta st)).

Inductive sta_system_action : Type :=
| YConnect (map_passphrase : list Z -> list Z -> nat -> list Z) (snonce : list Z) (bss : BSS)
    (config : option ConnectionConfig) (creds : option Credentials) (env : list (event own_event task_step))
| YDisconnect (env : list (event own_event task_step))
| YRekey (env : list (event own_event task_step))
| YSetMac (address : list Z)
| YReceive (buffer : list Z)
| YQueueMsdu (msdu : list Z)
| YTakePacket
| YPoll (e : Ready)
| YMac (o : mac_action).

(** The calls that borrow the control. *)
Definition is_control (a : sta_system_action) : bool :=
  match a with
  | YConnect _ _ _ _ _ _ | YDisconnect _ | YRekey _ | YSetMac _ => true
  | _ => false
  end.

(** A call of the control that ended, by itself or by a drop: if the runner ended its
    connection meanwhile, it also dropped what that connection was doing. *)
Definition after_call s st : StaInterface :=
  match running (station s), running st with
  | Some _, None => connection_over s st
  | _, _ => set_station s st
  end.

Inductive sta_system_output : Type :=
| YOCall (r : option (result StaError unit))
| YOSetMac (r : result StaError unit)
| YODone.

Definition call_step s (m : fut unit) (env : list (event own_event task_step))
  : option (outcome (StaInterface * sta_system_output)) :=
  match m (station s) env with
  | Panic => Some Panic
  | Done (Suspended, _) => None
  | Done (Returned r _, st) => Some (Done (after_call s st, YOCall (Some r)))
  | Done (Dropped, st) => Some (Done (after_call s st, YOCall None))
  end.

(** The fuel of a poll: rounds for full queues. *)
Definition poll_fuel : nat := 4 * RX_QUEUE_DEPTH + 2 * NET_TX_BUFFERS + 6.

(** A poll that runs out of fuel counts as a panic. *)
Definition sta_system_step s (a : sta_system_action)
  : option (outcome (StaInterface * sta_system_output)) :=
  match a with
  | YConnect mp snonce bss config creds env =>
      call_step s (control_connect interface mp snonce bss config creds) env
  | YDisconnect env => call_step s (control_disconnect interface) env
  | YRekey env => call_step s (request_group_rekey interface) env
  | YSetMac address =>
      let '(r, x) := set_mac_address (sta (station s)) address in
      Some (Done (set_station s (with_sta (station s) x), YOSetMac r))
  | YReceive buffer => Some (s ← routing_receive interface s buffer; mret (s, YODone))
  | YQueueMsdu msdu =>
      if pq_has_room (net_tx s) then Some (Done (set_net_tx s (pq_push (net_tx s) msdu), YODone))
      else None
  | YTakePacket => Some (Done (set_net_rx s (pq_done (net_rx s)), YODone))
  | YPoll e =>
      match runner_run interface 3 poll_fuel s e with
      | Some (Done s) => Some (Done (s, YODone))
      | _ => Some Panic
      end
  | YMac o =>
      match mac_step interface (lmac (station s)) o with
      | Done lm => Some (Done (set_station s (with_lmac (station s) lm), YODone))
      | Panic => Some Panic
      end
  end.
End StaSystem.
