(* ===== verification/StaSystemFacts.v ===== *)
(** * Facts about the whole station interface

    Calls of the control keep what only the runner changes: link and address go with the
    running connection, the queues of the router are as they were.  With the
    triples of ConnectFacts.v every action keeps the interface in order. *)
From stdpp Require Import relations.
From S2P Require Import Prelude Bytes Network Platform Async Resume Lmac Locks KeySlots RxRouter Eapol Rsn Bss.
From S2P Require Import Sta StaRouter Connect ConnectBuilt ConnectFacts ConnectProps StaRunner StaRunnerFacts StaRunnerProps StaSystem.

Section SystemFacts.
Context `{ConnectLaws, !Ieee80211Laws, !CryptoHeaderLaws, !KeyHalLaws, StaWire}.
Context {Sg Ch W Q : Type -> Type}
  `{SignalLaws Sg, ChannelLaws Ch, WatchLaws W, PacketQueueLaws Q, !RadioLaws}.
Context (interface : nat) (interface_ok : interface < INTERFACE_COUNT).
Notation Station := (Station (Sg := Sg) (Ch := Ch) (W := W)).
Notation StaInterface := (StaInterface (Sg := Sg) (Ch := Ch) (W := W) (Q := Q)).
Notation fut := (fut (W := Station) (Own := own_event) (Other := task_step) (Error := StaError)).
Implicit Types (st : Station) (s : StaInterface) (x : Sta (Sg := Sg)) (info : ConnectionInfo) (e : Ready).

(** ** Keys *)

(** The soundness of the keys does not depend on the slots that are free. *)
Lemma same_crypto x x' :
  crypto_state x' = crypto_state x -> keys_sound x -> keys_sound x' /\ next_tx x' = next_tx x.
Proof.
  intros Hc Hk. split; [|unfold next_tx; by rewrite Hc].
  intros cs Hcs. rewrite Hc in Hcs. destruct (Hk cs Hcs) as ([Hsl Ha Hd] & Hu & Hb). by split.
Qed.

Lemma next_pn_nonneg x : keys_sound x -> (0 <= next_pn x)%Z.
Proof.
  intros Hk. unfold next_pn, next_tx. destruct (crypto_state x) as [cs|] eqn:Hc; [|done].
  destruct (Hk cs Hc) as (_ & _ & Hb & _). cbn [mbind option_bind]. by destruct (tx_state _) as [[pn id] slot].
Qed.

(** The keys of an exchange are sound, and their packet numbers start over. *)
Lemma installed_sound (cp : ConnectionParameters) bss g p x keys :
  setup_ok (Some (g, p)) ->
  handshake_result (connection_pmk cp bss) (cp_own_address cp) (cp_snonce cp) (bss_bssid bss) keys ->
  crypto_state x = Some (MkCryptoState keys.2 g None 0 p keys.1) ->
  keys_sound x /\ next_pn x = 1%Z.
Proof.
  intros Hset Hk Hc. pose proof Hset as [Hg [Hgu _]%Forall_app].
  destruct (crypto_state_new_Done interface interface_ok (key_slots x) g p (bss_bssid bss) _ _ _ _ _ Hk Hset) as [m Hm].
  destruct Hk as (anonce & gtk & id & counter & Hid & Hsa & _).
  destruct (crypto_state_new_inv _ _ _ _ _ _ _ _ _ _ _ _ Hg Hsa Hm) as [[Hsl Ha Hd] _].
  assert (tx_state (MkCryptoState keys.2 g None 0 p keys.1, key_slots x) = (1%Z, 0%Z, key_slot_index p)) as Htx.
  { unfold initial_associations in Hsa. case_decide; [|done]. injection Hsa as Hsa.
    unfold tx_state. cbn [fst security_associations]. by rewrite <- Hsa. }
  split.
  - intros cs Hcs. rewrite Hc in Hcs. injection Hcs as <-. split; [by split|]. split; [done|].
    rewrite Htx. simpl. lia.
  - unfold next_pn, next_tx. rewrite Hc. cbn [mbind option_bind]. by rewrite Htx.
Qed.

(** ** Calls of the control *)

(** The locks and keys are sound, the router is idle, [n] bounds the packet numbers. *)
Definition calm (n : Z) st : Prop :=
  idle_router st /\ keys_sound (sta st) /\ (next_pn (sta st) <= n)%Z.

Lemma calm_sta n st x :
  calm n st -> crypto_state x = crypto_state (sta st) -> calm n (with_sta st x).
Proof.
  intros (Hi & Hk & Hn) Hc. destruct (same_crypto _ _ Hc Hk) as [Hk' Ht].
  split; [done|]. split; [done|]. unfold next_pn in *. cbn [sta with_sta]. by rewrite Ht.
Qed.

Lemma calm_stable n : stable (task_run interface) (calm n).
Proof.
  apply undisturbed_stable; [done|by intros st [[] _]|].
  intros st st' ((Hl & Hbg & Hfg) & Hk & Hn) Hu.
  destruct (same_crypto _ _ (un_crypto _ _ _ Hu) Hk) as [Hk' Ht].
  split; [|split; [done|unfold next_pn in *; by rewrite Ht]].
  unfold idle_router. rewrite (un_router _ _ _ Hu). split; [by apply (un_locks _ _ _ Hu)|done].
Qed.

Lemma calm_weaken n n' st : (n <= n')%Z -> calm n st -> calm n' st.
Proof. intros Hn (Hi & Hk & Hp). split; [done|]. split; [done|lia]. Qed.

Lemma calm_wait {A} n (f : own_event -> option A) :
  triple (calm n) (await (task_run interface) f : fut A) (fun _ => calm n) (calm n).
Proof. apply triple_await; [apply calm_stable|done|done]. Qed.

Lemma calm_compute {A} n (f : Station -> A) : triple (calm n) (get f : fut A) (fun _ => calm n) (calm n).
Proof. by apply triple_sync. Qed.

Lemma calm_run n cp bss :
  (1 <= n)%Z -> triple (calm n) (connection_run interface cp bss) (fun _ => calm n) (calm n).
Proof.
  intros Hn0 st env (Hi & Hk & Hn).
  pose proof (triple_connection_run_any interface interface_ok False false cp bss (key_slots (sta st))
    (crypto_state (sta st)) ltac:(done) ltac:(done) st env) as Ht.
  ospecialize (Ht _); [by split_and!|].
  assert (forall st', idle_router st' -> crypto_state (sta st') = crypto_state (sta st) -> calm n st') as Hsame.
  { intros st' Hi' Hc. destruct (same_crypto _ _ Hc Hk) as [Hk' Htx].
    split; [done|]. split; [done|]. unfold next_pn in *. by rewrite Htx. }
  destruct (connection_run _ _ _ st env) as [[[[aid|err] rest| |] st']|]; try done.
  - destruct Ht as ([Hi' _] & _ & (slots & _ & Hin) & _). destruct slots as [[g p]|]; [|by apply Hsame].
    destruct Hin as (Hg & keys & Hkeys & Hc).
    destruct (installed_sound cp bss g p (sta st') keys Hg Hkeys Hc) as [Hk' Hpn].
    split; [done|]. split; [done|lia].
  - destruct Ht as (Hi' & [Hc _] & _). by apply Hsame.
  - destruct Ht as (Hi' & [Hc _] & _). by apply Hsame.
Qed.

Lemma calm_disconnect_station n info :
  triple (calm n) (disconnect_station interface info) (fun _ => calm n) (calm n).
Proof.
  apply (triple_bind _ _ _ (fun _ => calm n)).
  { apply triple_sync. intros st Hst. by apply calm_sta. }
  intros []. apply (triple_bind _ _ _ (fun _ => calm n)); [apply calm_wait|intros []].
  apply triple_sync. by intros st Hst.
Qed.

Lemma calm_connect n mp snonce bss config creds :
  (1 <= n)%Z ->
  triple (calm n) (control_connect interface mp snonce bss config creds) (fun _ => calm n) (calm n).
Proof.
  intros Hn. unfold control_connect. destruct (_ && _); [by apply triple_fail|].
  eapply triple_bind; [apply calm_compute|intros info].
  apply (triple_bind _ _ _ (fun _ => calm n)).
  { destruct info as [info|]; [|by apply triple_done].
    destruct (bool_decide _); [by apply triple_fail|apply calm_disconnect_station]. }
  intros []. eapply triple_bind; [apply calm_compute|intros address]. cbv zeta.
  eapply triple_bind; [by apply calm_run|intros aid].
  apply triple_sync. intros st Hst. by apply calm_sta.
Qed.

Lemma calm_disconnect n : triple (calm n) (control_disconnect interface) (fun _ => calm n) (calm n).
Proof.
  eapply triple_bind; [apply calm_compute|intros [info|]]; [|by apply triple_fail].
  apply (triple_bind _ _ _ (fun _ => calm n)); [|intros []; apply calm_disconnect_station].
  apply triple_sync. intros st ((Hl & Hops) & Hk).
  destruct (unlock_own_spec interface interface_ok st Hl) as (cs & -> & Hl' & _). by split.
Qed.

Lemma calm_rekey n :
  (n < u_max 64)%Z ->
  triple (calm n) (request_group_rekey interface) (fun _ => calm (n + 1)) (calm (n + 1)).
Proof.
  intros Hn. assert (forall st, calm n st -> calm (n + 1) st) as Hmore by (intros st; apply calm_weaken; lia).
  eapply triple_bind; [|intros [info|]].
  { eapply triple_weaken; [apply (calm_compute n)|done|intros a st Hst; exact Hst|done]. }
  2: { by apply triple_fail. }
  apply (triple_bind _ _ _ (fun _ => calm n)); [apply triple_sync|intros [[kck counter]|]].
  { intros st Hst. destruct (crypto_state (sta st)) as [cs|] eqn:Hcs; [|done].
    destruct (next_group_request cs) as [r cs'] eqn:Hreq. destruct Hst as (Hi & Hk & Hp).
    destruct (Hk cs Hcs) as ([Hsl Ha Hd] & Hu & Hb).
    assert (cs' = cs \/ exists c, cs' = set_request_counter cs c) as [-> |[c ->]].
    { unfold next_group_request in Hreq. case_match; [case_match|]; injection Hreq as _ <-; eauto. }
    all: (split; [exact Hi|]); (split; [intros cs' [= <-]; by split|]);
      unfold next_pn, next_tx in *; rewrite Hcs in Hp; exact Hp. }
  2: { by apply triple_fail. }
  unfold send_group_request, send_eapol_key_frame.
  apply (triple_bind _ _ _ (fun _ => calm n)); [|intros []].
  { eapply triple_weaken; [apply (calm_wait n)|done|intros a st Hst; exact Hst|done]. }
  apply (triple_bind _ _ _ (fun _ => calm (n + 1))); [apply triple_sync|intros r].
  { intros st (Hi & Hk & Hp).
    destruct (transmit_key_frame_spec interface interface_ok st (bss_bssid (info_bss info)) (own_address info) (group_request counter) kck Hk)
      as (res & x & fs & -> & Hk' & _ & _ & Hp'); [lia|].
    split; [exact Hi|]. split; [done|]. cbn [sta]. lia. }
  apply (triple_bind _ _ _ (fun _ => calm (n + 1))).
  { by apply triple_of_result. }
  intros []. eapply triple_bind; [apply calm_wait|intros [[]|]];
    [by apply triple_done|by apply triple_fail..].
Qed.

(** ** What the runner owns *)

(** Link and address are those of the running connection. *)
Definition link_ok st : Prop :=
  match running st with
  | Some info => link_up st = true /\ hardware_address st = own_address info
  | None => link_up st = false
  end.

(** Bounded queues of the router. *)
Definition frames_in st q : list (list Z) := ch_contents (queue (queue_state (router st) q)).
Definition bounded (depth : nat) st : Prop := forall q,
  ch_capacity (queue (queue_state (router st) q)) = depth /\ length (frames_in st q) <= depth.

(** Also no frame is queued of which the test for key frames panics. *)
Definition in_order (depth : nat) st : Prop :=
  link_ok st /\ mac_width (lmac st) /\ bounded depth st /\ Forall recognised (background st).

Lemma task_run_in_order depth : undisturbing (task_run interface) (in_order depth).
Proof.
  assert (forall st reason st', in_order depth st -> runner_disconnected interface st reason = Done st' ->
    in_order depth st') as Hd.
  { intros st reason st' (Hl & Hr & Hb) Hd. unfold runner_disconnected, unlock_own_channel in Hd.
    apply outcome_bind_Done in Hd as (st1 & Hu & Hd).
    apply outcome_bind_Done in Hu as (cs & Hc & Hu). injection Hu as <-. injection Hd as <-.
    split; [done|]. split; [|done]. by apply (mac_apply_width (lmac st) (OUnlock interface));
      [simpl; rewrite Hc|]. }
  intros st o st' (Hl & Hr & Hb) Ht. destruct o as [|reason|o]; simpl in Ht.
  - unfold runner_poll in Ht. destruct (running st) as [info|] eqn:Hi;
      apply outcome_bind_Done in Ht as ([p t] & _ & Ht); destruct p;
      try (injection Ht as <-; unfold link_ok in *; rewrite Hi in Hl; done).
    by eapply Hd; [|exact Ht].
  - destruct (running st); [|by injection Ht as <-].
    destruct (connected _); [|by injection Ht as <-]. by eapply Hd; [|exact Ht].
  - apply outcome_bind_Done in Ht as (lm & Hm & Ht). injection Ht as <-. split; [done|]. split; [|done].
    unfold mac_step in Hm. destruct (mac_allowed _ o); [by eapply mac_apply_width|by injection Hm as <-].
Qed.

Lemma control_in_order depth st st' : in_order depth st -> rtc (control_step interface) st st' -> in_order depth st'.
Proof.
  intros Hs Hr. induction Hr as [|st st1 st' Hst _ IH]; [done|]. apply IH. clear IH.
  destruct Hs as (Hl & Hw & Hb & Hf), Hst as [f|r Hq|own bssid|x|o lm _ Ho]; try done.
  - split; [done|]. split; [done|]. unfold bounded, frames_in, background in *. cbn [router with_router].
    split; [intros q; by rewrite (Hq q)|by rewrite (Hq Background)].
  - split; [done|]. split; [|done]. by eapply mac_apply_width.
Qed.

Lemma call_keeps_order {A} depth (m : fut A) :
  built (task_run interface) (rtc (control_step interface)) A m ->
  partial (in_order depth) m (fun _ => in_order depth) (in_order depth).
Proof.
  intros Hm. eapply built_partial; [done|apply control_in_order|apply task_run_in_order].
Qed.

(** ** What a poll of the runner leaves alone *)

(** The operations of the router; queues only become shorter. *)
Record polled s s' : Prop := {
  po_operations : forall q, operation (router (station s')) q = operation (router (station s)) q;
  po_capacity : ch_capacity (queue (queue_state (router (station s')) Background)) =
    ch_capacity (queue (queue_state (router (station s)) Background));
  po_background : background (station s') `suffix_of` background (station s);
  po_foreground : queue (queue_state (router (station s')) Foreground) =
    queue (queue_state (router (station s)) Foreground);
  po_net : exists k, pq_contents (net_tx s') = drop k (pq_contents (net_tx s));
  po_net_capacity : pq_capacity (net_tx s') = pq_capacity (net_tx s);
}.

Lemma polled_same s s' :
  router (station s') = router (station s) -> net_tx s' = net_tx s -> polled s s'.
Proof. intros Hr Hn. split; unfold background; rewrite ?Hr, ?Hn; try done. by exists 0. Qed.

Lemma polled_trans s1 s2 s3 : polled s1 s2 -> polled s2 s3 -> polled s1 s3.
Proof.
  intros [Ho1 Hc1 Hb1 Hf1 [k1 Hn1] Hp1] [Ho2 Hc2 Hb2 Hf2 [k2 Hn2] Hp2].
  split; [intros q; by rewrite Ho2|congruence|by etrans|congruence| |congruence].
  exists (k1 + k2). by rewrite Hn2, Hn1, drop_drop.
Qed.

Lemma polled_rx s s' : kept s s' -> router_rx s s' -> polled s s'.
Proof.
  intros Hk [Hr|Hr]; [by apply polled_same; [|apply (kp_net_tx _ _ Hk)]|].
  assert (exists l c, router (station s') =
      set_queue_state (router (station s)) Background (MkQueueState c (operation (router (station s)) Background)) /\
      ch_contents (queue (queue_state (router (station s)) Background)) = l ++ ch_contents c /\
      ch_capacity c = ch_capacity (queue (queue_state (router (station s)) Background))) as (l & c & Hrt & Hl & Hcap).
  { unfold receive in Hr. destruct (ch_try_receive _) as [[f c]|] eqn:Hrx; simpl in Hr.
    - exists [f], c. split; [done|]. split; [by apply ch_try_receive_contents|by eapply ch_try_receive_capacity].
    - exists [], (queue (queue_state (router (station s)) Background)). split; [|done].
      rewrite Hr. by destruct (router (station s)) as [? [] ?]. }
  split; unfold background; rewrite ?Hrt, ?(kp_net_tx _ _ Hk); try done; [by intros []| |by exists 0].
  rewrite Hl. by exists l.
Qed.

Lemma polled_done s s' :
  router (station s') = router (station s) -> net_tx s' = pq_done (net_tx s) -> polled s s'.
Proof.
  intros Hr Hn. split; unfold background; rewrite ?Hr, ?Hn, ?pq_done_contents, ?pq_done_capacity; try done.
  exists 1. by destruct (pq_contents (net_tx s)).
Qed.

Lemma polled_msdu info s e r s' e' :
  msdu_round interface info s e = Done (r, s', e') -> polled s s'.
Proof.
  unfold msdu_round, msdu_parse. intros Hm. destruct (msdu_tx s) as [|m|f].
  - destruct (pq_front (net_tx s)) as [m|]; [|injection Hm as <- <- <-; by apply polled_same].
    destruct (in_off_channel_operation _ _); [|injection Hm as <- <- <-; by apply polled_same].
    destruct (completion_first_poll _); injection Hm as <- <- <-; by apply polled_same.
  - destruct (completion_wait_poll _); injection Hm as <- <- <-; by apply polled_same.
  - case_decide; [injection Hm as <- <- <-; by apply polled_same|]. unfold msdu_transmit in Hm.
    destruct (msdu_protection _) as [p x]. apply outcome_bind_Done in Hm as (h & _ & Hm).
    destruct (msdu_frame_len _ _); injection Hm as <- <- <-; [by apply polled_done|by apply polled_same].
Qed.

Lemma polled_over s st : router st = router (station s) -> polled s (connection_over s st).
Proof.
  intros Hr. destruct (pq_front (net_tx s)) eqn:Hf.
  - apply polled_done; [done|]. cbn [net_tx connection_over]. by rewrite Hf.
  - apply polled_same; [done|]. cbn [net_tx connection_over]. by rewrite Hf.
Qed.

Lemma runner_disconnected_router st reason st' :
  runner_disconnected interface st reason = Done st' -> router st' = router st.
Proof.
  unfold runner_disconnected, unlock_own_channel. intros Hd.
  apply outcome_bind_Done in Hd as (st1 & Hu & Hd).
  apply outcome_bind_Done in Hu as (cs & _ & Hu). injection Hu as <-. by injection Hd as <-.
Qed.

Lemma runner_poll_router st st' : runner_poll interface st = Done st' -> router st' = router st.
Proof.
  unfold runner_poll. destruct (running st) as [info|]; intros Hp;
    apply outcome_bind_Done in Hp as ([p t] & _ & Hp); destruct p;
    try (by injection Hp as <-). by apply runner_disconnected_router in Hp.
Qed.

Lemma polled_round fuel s e r s' e' :
  runner_round interface fuel s e = Some (Done (r, s', e')) -> polled s s'.
Proof.
  unfold runner_round. destruct (runner_poll interface (station s)) as [st|] eqn:Hp; [|done].
  apply runner_poll_router in Hp. intros Hr.
  destruct (running (station s)) as [info|]; destruct (running st);
    try (injection Hr as <- <- <-; first [by apply polled_over|by apply polled_same]).
  assert (polled s (set_station s st)) as Hpre by by apply polled_same.
  destruct (run_connection interface fuel info (set_station s st) e) as [[[[p s1] e1]|]|] eqn:Hc; [|done..].
  apply (rounds_keep _ polled (fun s => polled_same s s eq_refl eq_refl) polled_trans) in Hc.
  2: { intros ????? [? ?]%connection_round_kept. by apply polled_rx. }
  pose proof (polled_trans _ _ _ Hpre Hc) as Hs1.
  destruct p as [reason|].
  - injection Hr as Hr. apply outcome_bind_Done in Hr as (st' & Hd & Hr). injection Hr as <- <- <-.
    eapply polled_trans; [exact Hs1|]. apply polled_over. by eapply runner_disconnected_router.
  - destruct (run_msdu_tx _ _ _ _ _) as [[[[p s2] e2]|]|] eqn:Hm; [|done..]. injection Hr as <- <- <-.
    eapply polled_trans; [exact Hs1|].
    apply (rounds_keep _ polled (fun s => polled_same s s eq_refl eq_refl) polled_trans) in Hm; [done|].
    intros. by eapply polled_msdu.
Qed.

Lemma polled_run n fuel s e s' : runner_run interface n fuel s e = Some (Done s') -> polled s s'.
Proof.
  revert s e. induction n as [|n IH]; intros s e Hr; [done|]. simpl in Hr.
  destruct (runner_round interface fuel s e) as [[[[r s1] e1]|]|] eqn:Hs; [|done..].
  apply polled_round in Hs.
  destruct r; [by eapply polled_trans; [|eapply IH]|by injection Hr as <-..].
Qed.
End SystemFacts.
