(* ===== verification/StaSystemProps.v ===== *)
(** * Properties of the whole station interface

    An interface stays in order over everything that may happen to it, from
    [new_sta_interface] on, as long as the outside is as [action_in_order] says: nothing
    panics, every poll returns, and link, locks and keys agree with the connection. *)
From stdpp Require Import relations.
From S2P Require Import Prelude Bytes Network Platform Async Resume Lmac Locks KeySlots RxRouter Eapol Rsn Bss.
From S2P Require Import Sta StaRouter Connect ConnectBuilt ConnectFacts ConnectProps StaRunner StaRunnerFacts StaRunnerProps.
From S2P Require Import StaSystem StaSystemFacts.

Section SystemProps.
Context `{ConnectLaws, !Ieee80211Laws, !CryptoHeaderLaws, !KeyHalLaws, StaWire}.
Context {Sg Ch W Q : Type -> Type}
  `{SignalLaws Sg, ChannelLaws Ch, WatchLaws W, PacketQueueLaws Q, !RadioLaws}.
Context (interface : nat) (interface_ok : interface < INTERFACE_COUNT).
Context (RX_QUEUE_DEPTH NET_TX_BUFFERS NET_RX_BUFFERS : nat).
Notation Station := (Station (Sg := Sg) (Ch := Ch) (W := W)).
Notation StaInterface := (StaInterface (Sg := Sg) (Ch := Ch) (W := W) (Q := Q)).
Notation fut := (fut (W := Station) (Own := own_event) (Other := task_step) (Error := StaError)).
Implicit Types (st : Station) (s : StaInterface) (e : Ready) (n : Z).

(** ** The invariant *)

(** With the operations [ops] of the router; [n] bounds the packet numbers. *)
Record interface_with (ops : RxRouterQueue -> option StaRxRouterOperation) n s : Prop := {
  io_runner : runner_ok s;
  io_operations : forall q, operation (router (station s)) q = ops q;
  io_bounded : bounded RX_QUEUE_DEPTH (station s);
  io_net : pq_capacity (net_tx s) = NET_TX_BUFFERS /\ length (pq_contents (net_tx s)) <= NET_TX_BUFFERS;
  io_frames : exists frames, msdus_parse (pq_contents (net_tx s)) frames;
  io_pn : (next_pn (sta (station s)) <= n)%Z;
}.
Definition interface_in_order : Z -> StaInterface -> Prop := interface_with (fun _ => None).

Lemma in_order_calm n s :
  interface_in_order n s -> calm n (station s) /\ in_order RX_QUEUE_DEPTH (station s).
Proof.
  intros [[[Hl Hr Hk Hf] _ _ Hlink] Hi Hb _ _ Hn]. split.
  - split; [|done]. by split_and!.
  - split; [|by split; [split; [apply locks_ok_width|]|]]. unfold link_ok. destruct (running (station s)); [done|by destruct Hlink].
Qed.

(** A station in order under an interface in order. *)
Lemma in_order_station n n' s st :
  interface_in_order n s -> calm n' st -> in_order RX_QUEUE_DEPTH st ->
  (is_Some (running st) \/ running (station s) = None) ->
  interface_in_order n' (set_station s st).
Proof.
  intros [[_ Hct Hm Hlink] _ _ Hnet Hfr _] ((Hl & Hbg & Hfg) & Hk & Hn) (Hlk & [_ Hr] & Hb & Hf) Hrun.
  split; try done; [|by intros []]. split; [by split|done|done|].
  cbn [station set_station conn_task msdu_tx]. unfold link_ok in Hlk.
  destruct (running st); [done|]. destruct Hrun as [[? ?]|Hrun]; [done|]. rewrite Hrun in Hlink.
  by destruct Hlink.
Qed.

Lemma in_order_over n n' s st :
  interface_in_order n s -> calm n' st -> in_order RX_QUEUE_DEPTH st -> running st = None ->
  interface_in_order n' (connection_over s st).
Proof.
  intros [_ _ _ [Hcap Hlen] [frames Hfr] _] ((Hl & Hbg & Hfg) & Hk & Hn) (Hlk & [_ Hr] & Hb & Hf) Hrun.
  unfold link_ok in Hlk. rewrite Hrun in Hlk.
  assert (exists k, pq_contents (net_tx (connection_over s st)) = drop k (pq_contents (net_tx s)) /\
    pq_capacity (net_tx (connection_over s st)) = pq_capacity (net_tx s)) as (k & Hk' & Hc').
  { cbn [net_tx connection_over]. destruct (pq_front (net_tx s)); [|by exists 0].
    exists 1. rewrite pq_done_contents, pq_done_capacity. split; [|done]. by destruct (pq_contents (net_tx s)). }
  split; [|by intros []|done| | |done].
  - by apply connection_over_ok.
  - rewrite Hc', Hk', length_drop. split; [done|lia].
  - exists (drop k frames). unfold msdus_parse. rewrite Hk'. by apply Forall2_drop.
Qed.

(** ** Actions *)

(** What the outside does: packets that can be sent, frames whose CCMP header the parser
    reads, others' interfaces. *)
Definition sendable (msdu : list Z) : Prop :=
  exists f, parse_ethernet msdu = Some f /\ forall b, is_Some (msdu_frame_len f b).
Definition action_in_order (a : sta_system_action) : Prop :=
  match a with
  | YQueueMsdu msdu => sendable msdu
  | YReceive buffer => ccmp_ok buffer = true
  | _ => True
  end.

Lemma call_in_order n n' s (m : fut unit) env :
  interface_in_order n s -> triple (calm n) m (fun _ => calm n') (calm n') ->
  built (task_run interface) (rtc (control_step interface)) unit m ->
  match call_step s m env with
  | Some Panic => False
  | Some (Done (s', _)) => interface_in_order n' s'
  | None => True
  end.
Proof.
  intros Hs Hm Hk. destruct (in_order_calm n s Hs) as [Hc Ho].
  specialize (Hm (station s) env Hc). apply (call_keeps_order interface RX_QUEUE_DEPTH) in Hk. specialize (Hk (station s) env Ho). unfold call_step, after_call.
  assert (forall st, calm n' st -> in_order RX_QUEUE_DEPTH st -> interface_in_order n'
    match running (station s), running st with Some _, None => connection_over s st | _, _ => set_station s st end) as Hafter.
  { intros st Hc' Ho'. destruct (running (station s)) as [info|] eqn:Hr.
    - destruct (running st) eqn:Hr'; [|by eapply in_order_over].
      eapply in_order_station; [done..|left; rewrite Hr'; by eexists].
    - eapply in_order_station; [done..|by right]. }
  destruct (m (station s) env) as [[[[[]|err] rest| |] st]|]; eauto.
Qed.

Lemma mac_in_order (lm : LMac (W := W)) o :
  locks_ok (lm_channel lm) -> length (lm_requesters lm) = INTERFACE_COUNT ->
  exists lm', mac_step interface lm o = Done lm' /\ locks_ok (lm_channel lm') /\
    length (lm_requesters lm') = INTERFACE_COUNT.
Proof.
  intros Hl Hr. destruct (mac_step_spec interface lm o Hl) as (lm' & Hs & [Hok _] & Hr').
  exists lm'. auto.
Qed.

(** A received data frame changes replay counters only. *)
Lemma accepted_keys_sound (x : Sta (Sg := Sg)) frame p cs :
  keys_sound x -> accept_data_frame (crypto_state x) frame = Done (p, cs) ->
  keys_sound (set_crypto x cs) /\ next_tx (set_crypto x cs) = next_tx x.
Proof.
  intros Hk Ha. destruct (crypto_state x) as [cs0|] eqn:Hcs.
  2: { apply accept_data_frame_open in Ha as ->. by apply same_crypto. }
  apply accept_data_frame_keys in Ha as (cs1 & -> & [->|(is_group & key_id & payload & ->)]); [by apply same_crypto|].
  destruct (process_potentially_wrapped_payload cs0 is_group key_id payload) as [q cs1] eqn:Hq. cbn [snd].
  assert (rsn_step [] [] (cs0, key_slots x) (RData is_group key_id payload) =
    Some (Done ((cs1, key_slots x), RODelivered q))) as Hstep by (unfold rsn_step; by rewrite Hq).
  pose proof (rsn_step_tx _ _ _ _ _ _ Hstep) as Htx. cbn [Rsn.sent] in Htx.
  pose proof (rsn_step_slots _ _ _ _ _ _ Hstep) as Hsl. cbn [fst] in Hsl.
  apply rsn_step_effect in Hstep as [Hinv _]. destruct (Hk cs0 Hcs) as (Hi0 & Hu0 & Hb0).
  split.
  - intros cs2 [= <-]. rewrite Hsl. split_and!; [by apply Hinv|done|..];
      cbn [set_crypto key_slots]; rewrite Htx; lia.
  - unfold next_tx. cbn [set_crypto crypto_state key_slots]. rewrite Hcs.
    cbn [mbind option_bind]. by rewrite Htx.
Qed.

(** Routing a frame overfills no queue, and a queue holds nothing else in addition. *)
Lemma route_frame_bounded st buffer res r :
  bounded RX_QUEUE_DEPTH st -> route_frame (fun b => fh_generic <$> frame_header b) (router st) buffer = (res, r) ->
  bounded RX_QUEUE_DEPTH (with_router st r) /\
  (background (with_router st r) = background st \/ background (with_router st r) = background st ++ [buffer]).
Proof.
  intros Hb. unfold route_frame.
  destruct (fh_generic <$> frame_header buffer) as [g|]; [|intros [= _ <-]; auto].
  destruct (route_choice _ g) as [q|]; [|intros [= _ <-]; auto].
  destruct (ch_try_send _ buffer) as [c|] eqn:Hc; [|intros [= _ <-]; auto]. intros [= _ <-].
  assert (queue (queue_state (set_queue_state (router st) q
    (MkQueueState c (operation (router st) q))) q) = c) as Hqc by by destruct q.
  split.
  - intros q'. specialize (Hb q') as [Hcap Hlen]. destruct (decide (q' = q)) as [->|Hq].
    2: { unfold frames_in in *. by destruct q, q'. }
    unfold frames_in in *. cbn [router with_router]. rewrite Hqc.
    rewrite (ch_try_send_capacity _ _ _ _ Hc), (ch_try_send_contents _ _ _ _ Hc), length_app.
    split; [done|]. simpl.
    assert (length (ch_contents (queue (queue_state (router st) q))) <
      ch_capacity (queue (queue_state (router st) q))); [|lia].
    apply Nat.nle_gt. intros Hfull. apply (proj2 (ch_try_send_full _ _ buffer)) in Hfull. congruence.
  - unfold background. cbn [router with_router]. destruct q; [by left|right].
    rewrite Hqc. by apply ch_try_send_contents.
Qed.

(** A received frame changes replay counters, the router's queues, or the packets for
    the network stack. *)
Lemma receive_in_order ops n s buffer :
  interface_with ops n s -> ccmp_ok buffer = true ->
  exists s', routing_receive interface s buffer = Done s' /\ interface_with ops n s'.
Proof.
  intros Hs Hok. apply is_key_frame_Done in Hok.
  pose proof Hs as [[[Hl Hr Hk Hf] Hct Hm Hlink] Hi Hb Hnet Hfr Hn]. unfold routing_receive.
  destruct (routing_decision_Done (routing_state interface (station s)) (routed_frame buffer <$> frame_header buffer))
    as (d & -> & Hd); [by destruct (frame_header buffer)|]. cbn [mbind outcome_bind].
  destruct d as [|frame|]; [by eexists| |].
  - destruct Hd as (f & Hfh & Hp). destruct (frame_header buffer) as [h|]; [|done]. injection Hfh as <-.
    destruct (handle_data_rx_spec s buffer frame Hp) as (p & cs & s' & Hacc & Hrx & Heq & _).
    exists s'. split; [done|]. destruct (accepted_keys_sound _ _ _ _ Hk Hacc) as [Hk' Hn']. rewrite Heq.
    split; [split; [by split|done..]|done|done|done|done|]. unfold next_pn in *. cbn [station set_net_rx set_station sta with_sta].
    by rewrite Hn'.
  - destruct (route_frame _ (router (station s)) buffer) as [res r] eqn:Hrt. cbn [snd]. eexists. split; [done|].
    destruct (route_frame_state _ _ _ _ _ Hrt) as [_ Hops].
    apply route_frame_bounded in Hrt as [Hb' Hbg]; [|done].
    split; [|intros q; by rewrite <- (Hi q), <- (Hops q)|done..].
    split; [split; [done..|]|done..]. cbn [station set_station].
    destruct Hbg as [-> | ->]; [done|]. apply Forall_app. split; [done|]. by apply Forall_singleton.
Qed.

(** The most packet numbers an action takes. *)
Definition packet_numbers_per_action : Z := Z.of_nat (4 * RX_QUEUE_DEPTH + NET_TX_BUFFERS + 5).

Lemma poll_in_order ops n s e :
  interface_with ops n s -> (n + packet_numbers_per_action <= MAX_PN)%Z ->
  exists s', runner_run interface 3 (poll_fuel RX_QUEUE_DEPTH NET_TX_BUFFERS) s e = Some (Done s') /\
    interface_with ops (n + packet_numbers_per_action) s' /\ polled s s'.
Proof.
  intros [Hok Hi Hb [Hnc Hnl] [frames Hfr] Hn] Hmax. unfold packet_numbers_per_action in *.
  destruct (Hb Background) as [Hcap Hbg]. pose proof (Forall2_length _ _ _ Hfr) as Hlen.
  change (frames_in (station s) Background) with (background (station s)) in Hbg.
  assert (pn_after s frames <= n + Z.of_nat (4 * RX_QUEUE_DEPTH + NET_TX_BUFFERS + 5))%Z as Hpn
    by (unfold pn_after; lia).
  destruct (runner_run_total interface interface_ok (poll_fuel RX_QUEUE_DEPTH NET_TX_BUFFERS) s e frames Hok)
    as (s' & Hr & Hok' & Hpn').
  - split; [done|]. unfold packet_numbers_left. lia.
  - unfold runner_fuel, poll_fuel. lia.
  - exists s'. split; [done|]. apply (polled_run interface) in Hr as Hpo.
    split; [|done]. destruct Hpo as [Hops Hcap' Hb' Hfg [k Hnet] Hnc'].
    split; [done|intros q; by rewrite Hops| | | |lia].
    { intros []; unfold frames_in; [rewrite Hfg; apply (Hb Foreground)|].
      split; [congruence|]. apply suffix_length in Hb'. unfold background, frames_in in *. lia. }
    + rewrite Hnc', Hnet, length_drop. split; [done|lia].
    + exists (drop k frames). unfold msdus_parse. rewrite Hnet. by apply Forall2_drop.
Qed.

Lemma in_order_weaken ops n n' s :
  (n <= n')%Z -> interface_with ops n s -> interface_with ops n' s.
Proof. clear interface_ok. intros Hn [? ? ? ? ? ?]. split; try done. lia. Qed.

(** Only polls take packet numbers. *)
Definition action_cost (a : sta_system_action) : nat := match a with YPoll _ => 1 | _ => 0 end.

Lemma action_cost_bounds a :
  (0 <= Z.of_nat (action_cost a) * packet_numbers_per_action <= packet_numbers_per_action)%Z.
Proof. clear interface_ok. unfold packet_numbers_per_action. destruct a; simpl action_cost; lia. Qed.

(** Everything that is not a call of the control leaves the operations of the router. *)
Lemma other_in_order ops n s a :
  interface_with ops n s -> action_in_order a -> is_control a = false ->
  (n + Z.of_nat (action_cost a) * packet_numbers_per_action <= MAX_PN)%Z ->
  match sta_system_step interface RX_QUEUE_DEPTH NET_TX_BUFFERS s a with
  | Some Panic => False
  | Some (Done (s', _)) => interface_with ops (n + Z.of_nat (action_cost a) * packet_numbers_per_action) s'
  | None => True
  end.
Proof.
  intros Hs Ha Hc Hn.
  assert (forall s', interface_with ops n s' ->
    interface_with ops (n + Z.of_nat (action_cost a) * packet_numbers_per_action) s') as Hmore.
  { intros s'. apply in_order_weaken. pose proof (action_cost_bounds a). lia. }
  destruct a as [mp snonce bss config creds env|env|env|address|buffer|msdu| |e|o]; try done;
    cbn [sta_system_step].
  - destruct (receive_in_order ops n s buffer Hs Ha) as (s' & -> & Hs'). by apply Hmore.
  - destruct (pq_has_room (net_tx s)) eqn:Hroom; [|done]. apply Hmore.
    destruct Hs as [[Hss Hct Hm Hl] Hi Hb [Hcap Hlen] [frames Hfr] Hp]. destruct Ha as (f & Hparse & Hfit).
    assert (length (pq_contents (net_tx s)) < pq_capacity (net_tx s)) as Hlt
      by (rewrite pq_room_contents in Hroom; by apply bool_decide_eq_true in Hroom).
    split; [split; [done|done| |done]|done|done| | |done]; unfold msdu_task_ok in *; cbn [net_tx msdu_tx set_net_tx] in *.
    + rewrite pq_push_contents by done. destruct (pq_contents (net_tx s)), (msdu_tx s); simpl in *; naive_solver.
    + rewrite pq_push_capacity, pq_push_contents, length_app by done. simpl. split; [done|lia].
    + exists (frames ++ [f]). rewrite pq_push_contents by done. apply Forall2_app; [done|]. by repeat constructor.
  - apply Hmore. destruct Hs as [[? ? ? ?] ? ? ? ? ?]. by split.
  - cbn [action_cost] in *. rewrite Z.mul_1_l in *.
    destruct (poll_in_order ops n s e Hs Hn) as (s' & -> & Hs' & _). done.
  - destruct Hs as [[[Hl Hr Hk Hf] Hct Hm Hlink] Hi Hb Hnet Hfr Hp].
    destruct (mac_in_order (lmac (station s)) o Hl Hr) as (lm & -> & Hl' & Hr').
    apply Hmore. split; [by split; [split|..]|done..].
Qed.

(** Every action keeps the interface in order. *)
Lemma step_in_order n s a :
  interface_in_order n s -> action_in_order a -> (1 <= n)%Z ->
  (n + packet_numbers_per_action <= MAX_PN)%Z ->
  match sta_system_step interface RX_QUEUE_DEPTH NET_TX_BUFFERS s a with
  | Some Panic => False
  | Some (Done (s', _)) => interface_in_order (n + packet_numbers_per_action) s'
  | None => True
  end.
Proof.
  intros Hs Ha Hn1 Hn. pose proof max_packet_number as Hmax.
  assert (forall s', interface_in_order n s' -> interface_in_order (n + packet_numbers_per_action) s') as Hmore.
  { intros s'. apply in_order_weaken. unfold packet_numbers_per_action. lia. }
  assert (forall st, calm n st -> calm (n + packet_numbers_per_action) st) as Hcalm.
  { intros st. apply (calm_weaken interface interface_ok). unfold packet_numbers_per_action. lia. }
  assert (is_control a = false -> match sta_system_step interface RX_QUEUE_DEPTH NET_TX_BUFFERS s a with
    | Some Panic => False
    | Some (Done (s', _)) => interface_in_order (n + packet_numbers_per_action) s'
    | None => True
    end) as Hother.
  { intros Hc. pose proof (action_cost_bounds a) as Hcost.
    pose proof (other_in_order _ n s a Hs Ha Hc ltac:(lia)) as Ho.
    destruct (sta_system_step _ _ _ s a) as [[[s' o]|]|]; [|done..].
    eapply in_order_weaken; [|exact Ho]. lia. }
  destruct a as [mp snonce bss config creds env|env|env|address|buffer|msdu| |e|o]; try by apply Hother.
  all: clear Hother; cbn [sta_system_step].
  - apply (call_in_order n); [done| |by apply made_connect].
    eapply triple_weaken; [by apply (calm_connect interface interface_ok n)|done|auto..].
  - apply (call_in_order n); [done| |].
    + eapply triple_weaken; [by apply (calm_disconnect interface interface_ok n)|done|auto..].
    + by apply made_disconnect.
  - apply (call_in_order n); [done| |by apply made_rekey].
    eapply triple_weaken; [apply (calm_rekey interface interface_ok n); unfold packet_numbers_per_action in Hn; lia|done|intros ? st|intros st];
      apply (calm_weaken interface interface_ok); unfold packet_numbers_per_action; lia.
  - unfold set_mac_address. destruct (connected _); apply Hmore; destruct Hs as [[[? ? Hk ?] ? ? ?] ? ? ? ? ?];
      (split; [by split|done..]).
Qed.

(** [new_sta_interface] gives an interface in order. *)
Lemma new_in_order m (lm : LMac (W := W)) ra bssid base_mac s :
  locks_ok (lm_channel lm) -> length (lm_requesters lm) = INTERFACE_COUNT ->
  new_sta_interface interface RX_QUEUE_DEPTH NET_TX_BUFFERS NET_RX_BUFFERS m lm ra bssid base_mac = Done s ->
  interface_in_order 1 s.
Proof.
  intros Hl Hr Hnew. apply outcome_bind_Done in Hnew as (mac & _ & Hnew). injection Hnew as <-.
  split; [split; [split; [done|done|by intros cs|]|done|done|done]|by intros []| | | |done].
  { unfold background. cbn. by rewrite ch_new_contents. }
  - intros []; unfold frames_in; cbn; rewrite ch_new_capacity, ch_new_contents; (split; [done|simpl; lia]).
  - cbn [net_tx]. rewrite pq_new_capacity, pq_new_contents. split; [done|simpl; lia].
  - exists []. cbn [net_tx]. rewrite pq_new_contents. constructor.
Qed.

(** A station interface stays in order and never hangs: from [new_sta_interface] on, after
    any sequence of calls of the control (connect, disconnect and rekey, whatever
    happens in them, also dropped ones), polls of the connection task, received frames of
    any content but with a CCMP header that the parser reads, queued and taken packets,
    and channel and off-channel operations of all
    interfaces, the next action ends (a poll within its fuel), and the interface is in order:
    its locks and keys are sound, link and address are those of the connection that
    runs, without one nothing is under way.  It needs packets that can be sent, and fewer
    actions than there are packet numbers for. *)
Theorem interface_stays_in_order m (lm : LMac (W := W)) ra bssid base_mac s acts :
  locks_ok (lm_channel lm) -> length (lm_requesters lm) = INTERFACE_COUNT ->
  new_sta_interface interface RX_QUEUE_DEPTH NET_TX_BUFFERS NET_RX_BUFFERS m lm ra bssid base_mac = Done s ->
  Forall action_in_order acts ->
  (1 + Z.of_nat (length acts) * packet_numbers_per_action <= MAX_PN)%Z ->
  match run (sta_system_step interface RX_QUEUE_DEPTH NET_TX_BUFFERS) s acts with
  | Some Panic => False
  | Some (Done (s', _)) => runner_ok s' /\
      (next_pn (sta (station s')) <= 1 + Z.of_nat (length acts) * packet_numbers_per_action)%Z
  | None => True
  end.
Proof.
  intros Hl Hr Hnew Hacts Hmax. pose proof (new_in_order _ _ _ _ _ _ Hl Hr Hnew) as Hs.
  assert (forall n, (1 <= n)%Z -> interface_in_order n s ->
    (n + Z.of_nat (length acts) * packet_numbers_per_action <= MAX_PN)%Z ->
    match run (sta_system_step interface RX_QUEUE_DEPTH NET_TX_BUFFERS) s acts with
    | Some Panic => False
    | Some (Done (s', _)) => interface_in_order (n + Z.of_nat (length acts) * packet_numbers_per_action) s'
    | None => True
    end) as Hrun.
  { clear Hnew Hs Hmax. revert s. induction Hacts as [|a acts Ha _ IH]; intros s n Hn Hs Hmax.
    { simpl. eapply in_order_weaken; [|done]. lia. }
    assert (0 <= packet_numbers_per_action)%Z as Hk by (unfold packet_numbers_per_action; lia).
    assert (n + packet_numbers_per_action + Z.of_nat (length acts) * packet_numbers_per_action =
      n + Z.of_nat (length (a :: acts)) * packet_numbers_per_action)%Z as Heq by (simpl length; lia).
    pose proof (step_in_order n s a Hs Ha Hn ltac:(nia)) as Hstep. simpl run.
    destruct (sta_system_step _ _ _ s a) as [[[s1 o]|]|]; [|done..].
    specialize (IH s1 (n + packet_numbers_per_action)%Z ltac:(lia) Hstep ltac:(lia)). rewrite <- Heq.
    by destruct (run _ s1 acts) as [[[s2 os]|]|]. }
  specialize (Hrun 1%Z ltac:(lia) Hs Hmax).
  destruct (run _ s acts) as [[[s' os]|]|]; [|done..]. split; apply Hrun.
Qed.
End SystemProps.

(** ** Witness *)

(** A station connects to a WPA2 network, sends two packets, hears a beacon, hands a
    packet up, answers an off-channel request, is deauthenticated and rekeys in vain. *)
Definition demo_life : list sta_system_action :=
  [YConnect demo_passphrase (replicate 32 9%Z) demo_bss None (Some (Passphrase [1]%Z)) demo_wpa2_env;
   YPoll demo_ready; YQueueMsdu (demo_msdu 1); YQueueMsdu (demo_msdu 2); YReceive demo_beacon;
   YPoll demo_ready; YTakePacket; YMac OBegin; YPoll demo_ready; YReceive demo_deauth; YPoll demo_ready;
   YRekey []; YSetMac (replicate 6 4%Z)].
Definition demo_new : demo_interface :=
  match new_sta_interface 0 4 4 4 demo_manager (lmac_new (W := option) radio_off) None None demo_own with
  | Done s => s
  | Panic => demo_runner
  end.
Definition demo_lived : demo_interface :=
  match run (sta_system_step 0 4 4) demo_new demo_life with Some (Done (s, _)) => s | _ => demo_new end.

Lemma demo_run_ends : exists os, run (sta_system_step 0 4 4) demo_new demo_life = Some (Done (demo_lived, os)).
Proof. eexists. vm_compute. reflexivity. Qed.

Lemma demo_life_ends :
  connection_state (tracker (sta (station demo_lived))) = Disconnected Deauthenticated /\
  mac_address (sta (station demo_lived)) = replicate 6 4%Z /\
  length (Connect.sent (station demo_lived)) = 7.
Proof. vm_compute. repeat split. Qed.

Lemma demo_sendable : Forall action_in_order demo_life.
Proof. repeat constructor; try reflexivity; (eexists; split; [reflexivity|]; intros []; vm_compute; by eexists). Qed.

Lemma interface_stays_in_order_witness :
  runner_ok demo_lived /\
  connection_state (tracker (sta (station demo_lived))) = Disconnected Deauthenticated /\
  mac_address (sta (station demo_lived)) = replicate 6 4%Z /\
  length (Connect.sent (station demo_lived)) = 7.
Proof.
  destruct demo_run_ends as [os Hr].
  pose proof (interface_stays_in_order 0 wifi_interface 4 4 4 demo_manager (lmac_new (W := option) radio_off)
    None None demo_own demo_new demo_life) as Ht.
  rewrite Hr in Ht. destruct Ht as [Hok _];
    [done|done|reflexivity|exact demo_sendable|vm_compute; discriminate|].
  split; [exact Hok|exact demo_life_ends].
Defined.
