(* ===== verification/StaScan.v ===== *)
(** * Scans of a station: foa/src/util/operations/scan.rs, foa_sta/src/operations/scan.rs

    [scan] as an async function of the whole interface: the wait for an off-channel
    operation and its grants, the router operation, the stays on the channels with their
    timeout, and the drops of both operations on every way out.  What happens at
    its awaits are the full steps of everything that is not the control.  The callback works on
    [sc_found], the variables it captures.  The control's scans, [connect_by_ssid], and
    the machine of an interface with them. *)
From S2P Require Import Prelude Bytes Network Platform Async Lmac KeySlots RxRouter Eapol Rsn Bss Sta Scan.
From S2P Require Import StaRouter Connect StaRunner StaSystem.

(** The crates' and the driver's part: beacons, the signal strength of a frame, and the
    channel the radio is on. *)
Class ScanWire `{Radio} : Type := {
  parse_beacon : list Z -> option BeaconFrame;
  frame_rssi : list Z -> Z;
  get_channel : ChannelController -> Z;
}.

(** The task is polled; it is polled because the timer of its timeout has expired. *)
Inductive scan_event : Type :=
| SWake
| STimeout.

Section StaScan.
Context `{ConnectCrypto, Ieee80211, StaWire, ScanWire}.
Context {Sg Ch W Q : Type -> Type} `{Signal Sg, Channel Ch, Watch W, PacketQueue Q}.
Context (interface RX_QUEUE_DEPTH NET_TX_BUFFERS : nat).
Notation Station := (Station (Sg := Sg) (Ch := Ch) (W := W)).
Notation StaInterface := (StaInterface (Sg := Sg) (Ch := Ch) (W := W) (Q := Q)).
Implicit Types (s : StaInterface) (st : Station).

(** ** The state of a scan *)

(** [sc_calls]: the calls on the interface's part of the driver so far. *)
Record Scanner (F : Type) : Type := MkScanner {
  sc_interface : StaInterface;
  sc_calls : list InterfaceCall;
  sc_found : F;
}.
Arguments MkScanner {F} _ _ _.
Arguments sc_interface {F} _.
Arguments sc_calls {F} _.
Arguments sc_found {F} _.

Section Scans.
Context {F : Type}.
Implicit Types (w : Scanner F).

Definition sc_station w : Station := station (sc_interface w).
Definition sc_lmac w : LMac (W := W) := lmac (sc_station w).
Definition on_interface w s : Scanner F := MkScanner s (sc_calls w) (sc_found w).
Definition on_station w st : Scanner F := on_interface w (set_station (sc_interface w) st).
Definition on_lmac w (lm : LMac) : Scanner F := on_station w (with_lmac (sc_station w) lm).
Definition on_router w r : Scanner F := on_station w (with_router (sc_station w) r).
Definition on_calls w (calls : list InterfaceCall) : Scanner F :=
  MkScanner (sc_interface w) (sc_calls w ++ calls) (sc_found w).
Definition on_found w (found : F) : Scanner F := MkScanner (sc_interface w) (sc_calls w) found.

(** The control is borrowed by the scan; an action that makes no sense does not happen. *)
Definition other_task w (a : sta_system_action) : outcome (Scanner F) :=
  if is_control a then mret w
  else match sta_system_step interface RX_QUEUE_DEPTH NET_TX_BUFFERS (sc_interface w) a with
  | Some m => '(s, _) ← m; mret (on_interface w s)
  | None => mret w
  end.

Notation fut := (fut (W := Scanner F) (Own := scan_event) (Other := sta_system_action)
  (Error := StaError)).
Local Open Scope fut_scope.

Definition observe {A} (f : Scanner F -> A) : fut A := sync (fun w => Done (f w, w)).

(** The next poll of the task. *)
Definition next_poll : fut scan_event := await other_task (fun e => Some e).

(** A future that is polled until it is ready. *)
Definition poll_until {A} (p : Scanner F -> poll A * Scanner F) : fut A :=
  loop (fun _ : unit =>
    r <- sync (fun w => Done (p w)) ;;
    match r with
    | PollReady a => done (inr a)
    | PollPending => next_poll ;;; done (inl tt)
    end) tt.

(** ** The off-channel operation *)

Definition begin_first (waiting : bool) w
  : poll (result LMacError (list wait_slot)) * Scanner F :=
  match begin_after_wait (sc_lmac w) waiting with
  | PollReady (Ok (_, waits, lm)) => (PollReady (Ok waits), on_lmac w lm)
  | PollReady (Err e) => (PollReady (Err e), w)
  | PollPending => (PollPending, w)
  end.

Definition begin_next (waits : list wait_slot) w
  : (poll (result LMacError OffChannelOperation) * list wait_slot) * Scanner F :=
  let '(p, waits, lm) := begin_poll (sc_lmac w) interface waits in
  ((p, waits), on_lmac w lm).

(** [begin_interface_off_channel_operation]. *)
Definition begin_off_channel : fut OffChannelOperation :=
  waiting <- observe (fun w => completion_wait_needed (sc_lmac w)) ;;
  started <- poll_until (begin_first waiting) ;;
  match started with
  | Err e => fail (LMacFailure e)
  | Ok waits =>
      loop (fun waits =>
        r <- sync (fun w => Done (begin_next waits w)) ;;
        match r with
        | (PollReady (Ok op), _) => done (inr op)
        | (PollReady (Err e), _) => fail (LMacFailure e)
        | (PollPending, waits) => next_poll ;;; done (inl waits)
        end) waits
  end.

(** [Drop for OffChannelOperation]. *)
Definition end_off_channel (op : OffChannelOperation) w : Scanner F :=
  let '(lm, calls) := op_drop (sc_lmac w) op in
  on_calls (on_lmac w lm) calls.

(** ** The router operation *)

Definition start_first w : bool * Scanner F :=
  let r := router (sc_station w) in
  if start_must_wait r Foreground SCAN_OPERATION then (false, w)
  else (true, on_router w (start_operation_internal r Foreground SCAN_OPERATION)).
Definition start_next w : poll unit * Scanner F :=
  let '(p, r) := start_poll (router (sc_station w)) Foreground SCAN_OPERATION in
  (p, on_router w r).

(** [start_operation] with [SCAN_OPERATION]. *)
Definition start_scanning : fut unit :=
  started <- sync (fun w => Done (start_first w)) ;;
  if (started : bool) then done tt else poll_until start_next.

(** The drop of the operation, if it was started. *)
Definition end_scanning w : Scanner F :=
  let r := router (sc_station w) in
  match operation r Foreground with
  | Some _ => on_router w (scoped_drop r Foreground)
  | None => w
  end.

(** ** Channels *)

Section Callback.
Context {Res : Type}.
Context (rx_cb : F -> BeaconFrame -> list Z -> Z -> PostChannelScanAction Res * F).

(** A poll of [scan_on_channel]: it takes frames until the queue is empty or the
    callback stops it; [None]: the fuel ran out. *)
Fixpoint drain (fuel : nat) (channel : Z) w : option (option Res * Scanner F) :=
  match fuel with
  | 0 => None
  | S fuel =>
      match receive (router (sc_station w)) Foreground with
      | (PollPending, _) => Some (None, w)
      | (PollReady received, r) =>
          let w := on_router w r in
          match parse_beacon received with
          | None => drain fuel channel w
          | Some beacon =>
              match rx_cb (sc_found w) beacon received channel with
              | (Stop res, found) => Some (Some res, on_found w found)
              | (Continue, found) => drain fuel channel (on_found w found)
              end
          end
      end
  end.

(** One round per frame a full queue holds, and one that finds it empty. *)
Definition drain_queue (channel : Z) : fut (option Res) :=
  sync (fun w => expect (drain (S RX_QUEUE_DEPTH) channel w)).

(** [scan_on_channel] under [with_timeout]: every poll polls the scan first, and only
    then looks at the timer. *)
Definition stay (channel : Z) : fut (PostChannelScanAction Res) :=
  loop (fun expired : bool =>
    r <- drain_queue channel ;;
    match r with
    | Some res => done (inr (Stop res))
    | None =>
        if expired then done (inr Continue)
        else
          e <- next_poll ;;
          done (inl match e with STimeout => true | SWake => false end)
    end) false.

Definition tune (channel : Z) : fut (result LMacError unit) :=
  sync (fun w => let '(r, lm) := op_set_channel (sc_lmac w) channel in Done (r, on_lmac w lm)).

(** One pass over the channels. *)
Fixpoint scan_channels (channels : list Z) : fut (option Res) :=
  match channels with
  | [] => done None
  | channel :: channels =>
      tuned <- tune channel ;;
      match tuned with
      | Err e => fail (LMacFailure e)
      | Ok _ =>
          action <- stay channel ;;
          match action with
          | Stop res => done (Some res)
          | Continue => scan_channels channels
          end
      end
  end.

Definition set_scanning_mode (op : OffChannelOperation) (mode : ScanningMode) : fut unit :=
  sync (fun w => Done (tt, on_calls w (op_set_scanning_mode op mode))).

(** [scan] that is not continuous.  The operations are dropped in the reverse order of
    their creation. *)
Definition scan_once (config : option ScanConfig) : fut (option Res) :=
  op <- begin_off_channel ;;
  res <- guard (fun w => Done (end_off_channel op w)) (
    let config := default scan_config_default config in
    current <- observe (fun w => get_channel (channel_controller (lm_channel (sc_lmac w)))) ;;
    guard (fun w => Done (end_scanning w)) (
      start_scanning ;;;
      set_scanning_mode op ScanBeaconsOnly ;;;
      res <- scan_channels (strategy_channels (strategy config) current) ;;
      sync (fun w => Done (res, end_scanning w)))) ;;
  sync (fun w => Done (res, end_off_channel op w)).
End Callback.
End Scans.

(** ** The scans of the control (control.rs) *)

(** [find_ess]. *)
Definition find_ess (config : option ScanConfig) (ssid : list Z)
  : fut (W := Scanner unit) (Own := scan_event) (Other := sta_system_action) (Error := StaError) BSS :=
  (res <- scan_once (search_cb frame_rssi ssid) config ;;
   match res with Some bss => done bss | None => fail UnableToFindEss end)%fut.

(** [scan]; [max_bss]: the capacity of the list of networks. *)
Definition control_scan (config : option ScanConfig) (max_bss : nat)
  : fut (W := Scanner (gmap (list Z) BSS)) (Own := scan_event) (Other := sta_system_action)
      (Error := StaError) unit :=
  (scan_once (enumerate_cb frame_rssi max_bss) config ;;; done tt)%fut.

(** ** The interface with scans *)

Notation scan_env := (list (event scan_event sta_system_action)).

(** [ZConnectBySsid]: [connect_by_ssid], with the events of the search and of the
    connection set-up, which begins in the poll that ends the search. *)
Inductive scan_system_action : Type :=
| ZInterface (a : sta_system_action)
| ZFindEss (config : option ScanConfig) (ssid : list Z) (env : scan_env)
| ZScan (config : option ScanConfig) (max_bss : nat) (found : gmap (list Z) BSS) (env : scan_env)
| ZConnectBySsid (map_passphrase : list Z -> list Z -> nat -> list Z) (snonce ssid : list Z)
    (config : option ConnectionConfig) (creds : option Credentials) (env : scan_env)
    (connect_env : list (event own_event task_step)).

(** A call that was dropped has no result. *)
Inductive scan_system_output : Type :=
| ZOInterface (o : sta_system_output)
| ZOFindEss (r : option (result StaError BSS)) (calls : list InterfaceCall)
| ZOScan (r : option (result StaError unit)) (found : gmap (list Z) BSS) (calls : list InterfaceCall)
| ZOConnect (r : option (result StaError unit)) (calls : list InterfaceCall).

(** A run of a scan: its result and what is left, if it does not still wait. *)
Definition scan_step {F A} s (found : F) env
  (m : Async.fut (W := Scanner F) (Own := scan_event) (Other := sta_system_action) (Error := StaError) A)
  : option (outcome (option (result StaError A) * Scanner F)) :=
  match m (MkScanner s [] found) env with
  | Panic => Some Panic
  | Done (Suspended, _) => None
  | Done (Returned r _, w) => Some (Done (Some r, w))
  | Done (Dropped, w) => Some (Done (None, w))
  end.

Definition then_done {A B} (m : option (outcome A)) (f : A -> outcome B) : option (outcome B) :=
  match m with Some m => Some (x ← m; f x) | None => None end.

(** [connect_by_ssid]. *)
Definition connect_by_ssid s (mp : list Z -> list Z -> nat -> list Z) (snonce ssid : list Z)
  (config : option ConnectionConfig) (creds : option Credentials) env
  (connect_env : list (event own_event task_step))
  : option (outcome (StaInterface * scan_system_output)) :=
  match scan_step s tt env (find_ess None ssid) with
  | Some (Done (Some (Ok bss), w)) =>
      then_done (call_step (sc_interface w)
          (control_connect interface mp snonce bss config creds) connect_env)
        (fun '(s, o) =>
           mret (s, ZOConnect (match o with YOCall r => r | _ => None end) (sc_calls w)))
  | Some (Done (Some (Err e), w)) => Some (Done (sc_interface w, ZOConnect (Some (Err e)) (sc_calls w)))
  | Some (Done (None, w)) => Some (Done (sc_interface w, ZOConnect None (sc_calls w)))
  | Some Panic => Some Panic
  | None => None
  end.

Definition scan_system_step s (a : scan_system_action)
  : option (outcome (StaInterface * scan_system_output)) :=
  match a with
  | ZInterface a =>
      then_done (sta_system_step interface RX_QUEUE_DEPTH NET_TX_BUFFERS s a)
        (fun '(s, o) => mret (s, ZOInterface o))
  | ZFindEss config ssid env =>
      then_done (scan_step s tt env (find_ess config ssid))
        (fun '(r, w) => mret (sc_interface w, ZOFindEss r (sc_calls w)))
  | ZScan config max_bss found env =>
      then_done (scan_step s found env (control_scan config max_bss))
        (fun '(r, w) => mret (sc_interface w, ZOScan r (sc_found w) (sc_calls w)))
  | ZConnectBySsid mp snonce ssid config creds env connect_env =>
      connect_by_ssid s mp snonce ssid config creds env connect_env
  end.
End StaScan.


Arguments MkScanner {_ _ _ _ _ _ _ _} _ _ _.
Arguments sc_interface {_ _ _ _ _ _ _ _} _.
Arguments sc_calls {_ _ _ _ _ _ _ _} _.
Arguments sc_found {_ _ _ _ _ _ _ _} _.
