(* ===== verification/StaScanProps.v ===== *)
(** * Properties of a station's scans

    A scan among everything else that happens to the interface: it gives back what it
    took on every way out, its result is that of the scan of Scan.v over frames that the
    interface received, and the interface with scans stays in order. *)
From S2P Require Import Prelude Bytes Network Platform Async Lmac Locks KeySlots RxRouter Eapol Rsn Bss Sta Scan.
From S2P Require Import StaRouter Connect ConnectBuilt ConnectFacts ConnectProps StaRunner StaRunnerFacts StaRunnerProps.
From S2P Require Import StaSystem StaSystemFacts StaSystemProps StaScan.

Section ScanFacts.
Context `{ConnectLaws, !Ieee80211Laws, !CryptoHeaderLaws, !KeyHalLaws, StaWire}.
Context {Sg Ch W Q : Type -> Type}
  `{SignalLaws Sg, ChannelLaws Ch, WatchLaws W, PacketQueueLaws Q, !RadioLaws, !ScanWire}.
Context (interface : nat) (interface_ok : interface < INTERFACE_COUNT).
Context (RX_QUEUE_DEPTH NET_TX_BUFFERS : nat).
Notation Station := (Station (Sg := Sg) (Ch := Ch) (W := W)).
Notation StaInterface := (StaInterface (Sg := Sg) (Ch := Ch) (W := W) (Q := Q)).
Notation Scanner := (Scanner (Sg := Sg) (Ch := Ch) (W := W) (Q := Q)).
Notation system_step := (sta_system_step interface RX_QUEUE_DEPTH NET_TX_BUFFERS).
Notation interface_with := (interface_with RX_QUEUE_DEPTH NET_TX_BUFFERS).
Notation per_action := (packet_numbers_per_action RX_QUEUE_DEPTH NET_TX_BUFFERS).
Notation env := (list (event scan_event sta_system_action)).
Implicit Types (st : Station) (s : StaInterface) (n : Z).
Implicit Types (ops : RxRouterQueue -> option StaRxRouterOperation).

(** ** What a scan does to the interface *)

Lemma lmac_in_order ops n s o lm :
  interface_with ops n s -> mac_step interface (lmac (station s)) o = Done lm ->
  interface_with ops n (set_station s (with_lmac (station s) lm)).
Proof.
  intros [[[Hl Hr Hk Hf] Hct Hm Hlink] Hi Hb Hnet Hfr Hp] Ho.
  destruct (mac_in_order interface (lmac (station s)) o Hl Hr) as (lm' & Ho' & Hl' & Hr').
  rewrite Ho in Ho'. injection Ho' as <-. split; [by split; [split|..]|done..].
Qed.

Lemma router_in_order ops ops' n s r :
  interface_with ops n s -> same_queues (router (station s)) r ->
  (forall q, operation r q = ops' q) ->
  interface_with ops' n (set_station s (with_router (station s) r)).
Proof.
  intros [[[Hl Hr Hk Hf] Hct Hm Hlink] Hi Hb Hnet Hfr Hp] Hq Hops.
  split; [split; [split; [done..|]|done|done|done]|done| |done..].
  { unfold background in *. cbn [station set_station router with_router]. by rewrite (Hq Background). }
  intros q. unfold frames_in. cbn [station set_station router with_router]. rewrite (Hq q). apply Hb.
Qed.

Lemma receive_queue_in_order ops n s q f r :
  interface_with ops n s -> receive (router (station s)) q = (PollReady f, r) ->
  interface_with ops n (set_station s (with_router (station s) r)) /\
  frames_in (station s) q = f :: frames_in (with_router (station s) r) q.
Proof.
  intros [[[Hl Hr Hk Hf] Hct Hm Hlink] Hi Hb Hnet Hfr Hp] Hrx. unfold receive in Hrx.
  destruct (ch_try_receive _) as [[f' c]|] eqn:Hc; [|done]. injection Hrx as -> <-.
  pose proof (ch_try_receive_contents _ _ _ _ Hc) as Hcont.
  pose proof (ch_try_receive_capacity _ _ _ _ Hc) as Hcap.
  set (r := set_queue_state (router (station s)) q _).
  assert (queue (queue_state r q) = c) as Hqc by by destruct q.
  split; [|unfold frames_in; cbn [router with_router]; by rewrite Hqc].
  split; [split; [split; [done..|]|done|done|done]| | |done..].
  - unfold background in *. cbn [station set_station router with_router]. destruct q; [done|].
    rewrite Hqc. rewrite Hcont in Hf. by apply Forall_inv_tail in Hf.
  - intros q'. rewrite <- (Hi q'). by destruct q, q'.
  - intros q'. unfold frames_in. cbn [station set_station router with_router].
    destruct (decide (q' = q)) as [->|Hq].
    + rewrite Hqc. destruct (Hb q) as [Hcq Hlq]. unfold frames_in in Hlq. rewrite Hcont in Hlq.
      simpl in Hlq. split; [congruence|lia].
    + replace (queue_state r q') with (queue_state (router (station s)) q') by (by destruct q, q').
      apply Hb.
Qed.

(** Frames come to a queue of the router by being received. *)
Lemma routed_frames s s' q f buffer :
  routing_receive interface s buffer = Done s' -> f ∈ frames_in (station s') q ->
  f ∈ frames_in (station s) q \/ f = buffer.
Proof.
  unfold routing_receive. intros Hs. apply outcome_bind_Done in Hs as (d & _ & Hs).
  destruct d as [|frame|]; [injection Hs as <-; by left| |].
  - unfold handle_data_rx in Hs. apply outcome_bind_Done in Hs as ([p cs] & _ & Hs).
    destruct p as [[[[] ?] ?]|]; injection Hs as <-; by left.
  - injection Hs as <-. unfold route_frame. destruct (fh_generic <$> frame_header buffer) as [g|]; [|by left].
    destruct (route_choice _ g) as [q'|]; [|by left].
    destruct (ch_try_send _ buffer) as [c|] eqn:Hc; [|by left].
    unfold frames_in. cbn [snd station set_station router with_router].
    destruct (decide (q = q')) as [->|Hq].
    + set (r := set_queue_state _ _ _). assert (queue (queue_state r q') = c) as -> by by destruct q'.
      rewrite (ch_try_send_contents _ _ _ _ Hc). intros [Hf|Hf%list_elem_of_singleton]%elem_of_app; auto.
    + left. by destruct q, q'.
Qed.

Lemma other_frames s a s' o f :
  is_control a = false -> system_step s a = Some (Done (s', o)) ->
  f ∈ frames_in (station s') Foreground ->
  f ∈ frames_in (station s) Foreground \/ a = YReceive f.
Proof.
  intros Hc Hs Hf. destruct a as [mp snonce bss config creds env|env|env|address|buffer|msdu| |e|o']; try done;
    cbn [sta_system_step] in Hs.
  - apply (inj Some) in Hs. apply outcome_bind_Done in Hs as (s1 & Hrx & Hs). injection Hs as <- <-.
    apply (routed_frames _ _ _ _ _ Hrx) in Hf as [Hf| ->]; auto.
  - destruct (pq_has_room _); [|done]. injection Hs as <- <-. by left.
  - injection Hs as <- <-. by left.
  - destruct (runner_run _ _ _ s e) as [[s1|]|] eqn:Hr; try done. injection Hs as <- <-.
    apply (polled_run interface) in Hr. unfold frames_in in *.
    rewrite (po_foreground _ _ Hr) in Hf. by left.
  - destruct (mac_step _ _ _); [|done]. injection Hs as <- <-. by left.
Qed.

(** ** The assertion a scan is proved with *)

Definition foreground_only (op : option StaRxRouterOperation) (q : RxRouterQueue)
  : option StaRxRouterOperation := match q with Foreground => op | Background => None end.

Definition event_in_order (ev : event scan_event sta_system_action) : Prop :=
  match ev with EvOther a => action_in_order a | _ => True end.

(** The packet numbers that what happens takes. *)
Definition event_cost (ev : event scan_event sta_system_action) : nat :=
  match ev with EvOther a => action_cost a | _ => 0 end.
Definition event_costs (evs : env) : Z := (Z.of_nat (sum_list (event_cost <$> evs)) * per_action)%Z.

Lemma event_costs_nonneg evs : (0 <= event_costs evs)%Z.
Proof. apply Z.mul_nonneg_nonneg; apply Nat2Z.is_nonneg. Qed.

Lemma event_costs_cons ev evs :
  event_costs (ev :: evs) = (Z.of_nat (event_cost ev) * per_action + event_costs evs)%Z.
Proof. unfold event_costs. cbn [fmap list_fmap sum_list]. by rewrite Nat2Z.inj_add, Z.mul_add_distr_r. Qed.

Lemma event_costs_app evs1 evs2 : event_costs (evs1 ++ evs2) = (event_costs evs1 + event_costs evs2)%Z.
Proof.
  induction evs1 as [|ev evs1 IH]; [done|]. cbn [app].
  by rewrite !event_costs_cons, IH, Z.add_assoc.
Qed.

Section Scanning.
Context {F : Type} (M : Z) (M_ok : (M <= MAX_PN)%Z) (G : list Z -> Prop).
Implicit Types (w : Scanner F) (rest : env).
Notation fut := (fut (W := Scanner F) (Own := scan_event) (Other := sta_system_action)
  (Error := StaError)).
Notation other_task := (other_task interface RX_QUEUE_DEPTH NET_TX_BUFFERS (F := F)).
Notation foresees := (foresees (W := Scanner F)).

(** With the operation [op]: the interface is in order with packet numbers for what is
    left, the frames in the queue and those to come are [G], and [R] of the calls and of what the
    callback found. *)
Record scanning (op : option StaRxRouterOperation) (R : list InterfaceCall -> F -> Prop) rest w : Prop := {
  sg_events : Forall event_in_order rest;
  sg_interface : interface_with (foreground_only op) (M - event_costs rest) (sc_interface w);
  sg_queued : forall f, f ∈ frames_in (sc_station w) Foreground -> G f;
  sg_to_come : forall f, EvOther (YReceive f) ∈ rest -> G f;
  sg_rest : R (sc_calls w) (sc_found w);
}.

Lemma per_action_pos : (0 <= per_action)%Z.
Proof. apply Nat2Z.is_nonneg. Qed.

Lemma scanning_skip op R ev rest w : scanning op R (ev :: rest) w -> scanning op R rest w.
Proof.
  intros [Hev Hi Hq Hc HR]. apply Forall_cons in Hev as [_ Hev]. split; [done| |done| |done].
  - eapply in_order_weaken; [|exact Hi]. rewrite event_costs_cons. pose proof per_action_pos. nia.
  - intros f Hf. apply Hc. by right.
Qed.

Lemma scanning_foreseeing op R : foreseeing other_task (scanning op R).
Proof.
  split.
  - intros e rest w. apply scanning_skip.
  - intros a rest w Hw. pose proof Hw as [Hev Hi Hq Hc HR]. unfold StaScan.other_task.
    destruct (is_control a) eqn:Hca; [by eapply scanning_skip|].
    apply Forall_cons in Hev as [Ha Hev]. pose proof (event_costs_nonneg rest) as Hpos.
    rewrite event_costs_cons in Hi. cbn [event_cost] in Hi.
    pose proof (other_in_order interface interface_ok RX_QUEUE_DEPTH NET_TX_BUFFERS _ _ _ a Hi Ha Hca) as Hs.
    ospecialize (Hs _); [lia|].
    pose proof (other_frames (sc_interface w) a) as Hf.
    destruct (system_step (sc_interface w) a) as [[[s' o]|]|]; [|done|by eapply scanning_skip].
    cbn [mbind outcome_bind]. split; [done| | | |done].
    + eapply in_order_weaken; [|exact Hs]. lia.
    + intros f Hin. destruct (Hf s' o f Hca eq_refl Hin) as [Hin'| ->]; [by apply Hq|].
      apply Hc. by left.
    + intros f Hin. apply Hc. by right.
  - intros rest w [Hev Hi Hq Hc HR]. split; [done| |done| |done].
    + eapply in_order_weaken; [|exact Hi]. pose proof (event_costs_nonneg (EvDrop :: rest)).
      change (event_costs []) with 0%Z. lia.
    + intros f Hf. by apply elem_of_nil in Hf.
Qed.

Lemma scanning_weaken op (R R' : list InterfaceCall -> F -> Prop) rest w :
  scanning op R rest w -> (forall calls found, R calls found -> R' calls found) -> scanning op R' rest w.
Proof. intros [] HR. split; auto. Qed.

(** The changes the scan itself makes. *)
Lemma scanning_lmac op R rest w o lm :
  scanning op R rest w -> mac_step interface (sc_lmac w) o = Done lm ->
  scanning op R rest (on_lmac w lm).
Proof. intros [Hev Hi Hq Hc HR] Ho. split; try done. by eapply lmac_in_order. Qed.

Lemma scanning_router op op' R rest w r :
  scanning op R rest w -> same_queues (router (sc_station w)) r ->
  (forall q, operation r q = foreground_only op' q) -> scanning op' R rest (on_router w r).
Proof.
  intros [Hev Hi Hq Hc HR] Hr Ho. split; try done; [by eapply router_in_order|].
  intros f. unfold frames_in. cbn [router with_router sc_station on_router on_station on_interface].
  change (frames_in (with_router (sc_station w) r) Foreground) with
    (ch_contents (queue (queue_state r Foreground))).
  intros Hf. apply Hq. unfold frames_in. by rewrite <- (Hr Foreground).
Qed.

Lemma scanning_calls op (R R' : list InterfaceCall -> F -> Prop) rest w calls :
  scanning op R rest w -> R' (sc_calls w ++ calls) (sc_found w) -> scanning op R' rest (on_calls w calls).
Proof. by intros [Hev Hi Hq Hc HR] HR'; split. Qed.

Lemma scanning_operation op R rest w q :
  scanning op R rest w -> operation (router (sc_station w)) q = foreground_only op q.
Proof. intros Hw. apply (io_operations _ _ _ _ _ (sg_interface _ _ _ _ Hw)). Qed.

(** ** Rules *)

Lemma foresees_next_poll op R (E : env -> Scanner F -> Prop) :
  (forall rest w, scanning op R rest w -> E rest w) ->
  foresees (scanning op R) (next_poll interface RX_QUEUE_DEPTH NET_TX_BUFFERS : fut scan_event)
    (fun _ => scanning op R) E.
Proof. intros HE. by apply foresees_await; [apply scanning_foreseeing|..]. Qed.

Lemma foresees_poll_until {A} op R (p : Scanner F -> poll A * Scanner F)
  (Q' : A -> env -> Scanner F -> Prop) (E : env -> Scanner F -> Prop) :
  (forall rest w, scanning op R rest w -> E rest w) ->
  (forall rest w, scanning op R rest w ->
     match p w with
     | (PollReady a, w') => Q' a rest w'
     | (PollPending, w') => scanning op R rest w'
     end) ->
  foresees (scanning op R) (poll_until interface RX_QUEUE_DEPTH NET_TX_BUFFERS p : fut A) Q' E.
Proof.
  intros HE Hp. apply (foresees_loop (fun _ => scanning op R)). intros [].
  eapply (foresees_bind _ _ _ (fun a rest w => match a with
    | PollReady a => Q' a rest w | PollPending => scanning op R rest w end)).
  - apply foresees_sync. intros rest w Hw. specialize (Hp rest w Hw).
    by destruct (p w) as [[a|] w'].
  - intros [a|]; [by apply foresees_done|].
    eapply foresees_bind; [by apply foresees_next_poll|]. intros e. by apply foresees_done.
Qed.

(** ** The two operations *)

Lemma begin_spec R :
  foresees (scanning None R) (begin_off_channel interface RX_QUEUE_DEPTH NET_TX_BUFFERS : fut OffChannelOperation)
    (fun (op : OffChannelOperation) rest w => op_interface op = interface /\ scanning None R rest w)
    (scanning None R).
Proof.
  unfold begin_off_channel. eapply (foresees_bind _ _ _ (fun _ => scanning None R)).
  { by apply foresees_sync. }
  intros waiting. eapply (foresees_bind _ _ _ (fun _ => scanning None R)).
  { apply foresees_poll_until; [done|]. intros rest w Hw. unfold begin_first, begin_after_wait.
    assert (match begin_start (sc_lmac w) with
      | Ok (_, _, lm) => scanning None R rest (on_lmac w lm) | Err _ => True end) as Hb.
    { destruct (begin_start (sc_lmac w)) as [[[asked waits] lm]|] eqn:Hb; [|done].
      eapply (scanning_lmac _ _ _ _ OBegin); [done|]. cbn [mac_step mac_allowed mac_apply]. by rewrite Hb. }
    destruct waiting; [destruct (completion_wait_poll _); [|done]|];
      by destruct (begin_start (sc_lmac w)) as [[[asked waits] lm]|]. }
  intros [waits|e]; [|by apply foresees_fail]. apply (foresees_loop (fun _ => scanning None R)).
  clear waits. intros waits.
  eapply (foresees_bind _ _ _ (fun (r : poll (result LMacError OffChannelOperation) * list wait_slot) rest w =>
    (forall op, fst r = PollReady (Ok op) -> op_interface op = interface) /\ scanning None R rest w)).
  { apply foresees_sync. intros rest w Hw. unfold begin_next.
    destruct (begin_poll (sc_lmac w) interface waits) as [[p ws] lm] eqn:Hb. split.
    - intros op Hp. apply begin_poll_requests in Hb as [_ Hop]. by destruct (Hop op Hp) as [-> _].
    - eapply (scanning_lmac _ _ _ _ (OPollBegin interface waits)); [done|]. cbn [mac_step mac_allowed mac_apply]. by rewrite Hb. }
  intros [[[op|e]|] ws].
  - apply foresees_done. intros rest w [Hop Hw]. by split; [apply Hop|].
  - apply foresees_fail. by intros rest w [_ Hw].
  - eapply (foresees_bind _ _ _ (fun _ => scanning None R)).
    + eapply foresees_weaken; [by apply (foresees_next_poll None R (scanning None R))|by intros rest w [_ Hw]|done..].
    + intros e. by apply foresees_done.
Qed.

Lemma start_spec R :
  foresees (scanning None R) (start_scanning interface RX_QUEUE_DEPTH NET_TX_BUFFERS : fut unit)
    (fun _ => scanning (Some Scanning) R) (scanning None R).
Proof.
  assert (forall rest w r, scanning None R rest w -> same_queues (router (sc_station w)) r ->
    operation r Background = operation (router (sc_station w)) Background ->
    operation r Foreground = Some Scanning -> scanning (Some Scanning) R rest (on_router w r)) as Hst.
  { intros rest w r Hw Hq Hbg Hfg. apply (scanning_router None); [done..|].
    intros []; [done|]. rewrite Hbg. by apply (scanning_operation _ _ _ _ Background Hw). }
  unfold start_scanning. eapply (foresees_bind _ _ _ (fun b : bool =>
    scanning (if b then Some Scanning else None) R)).
  { apply foresees_sync. intros rest w Hw. unfold start_first.
    destruct (start_must_wait _ _ _); [done|]. apply Hst; [done| |by destruct (router _)..].
    by destruct (router _); intros []. }
  intros []; [by apply foresees_done|].
  apply foresees_poll_until; [done|]. intros rest w Hw. unfold start_next, start_poll.
  destruct (sg_wait _) as [[u g]|].
  - apply Hst; [done| |by destruct (router _)..]. by destruct (router _); intros [].
  - apply (scanning_router None); [done|done|]. intros q. by apply (scanning_operation _ _ _ _ q Hw).
Qed.

Lemma end_scanning_spec op R rest w :
  scanning op R rest w -> scanning None R rest (end_scanning w).
Proof.
  intros Hw. pose proof (scanning_operation _ _ _ _ Foreground Hw) as Hfg.
  pose proof (scanning_operation _ _ _ _ Background Hw) as Hbg. unfold end_scanning. rewrite Hfg.
  destruct op as [op|]; [|done]. simpl. apply (scanning_router (Some op)); [done| |].
  - by destruct (router _); intros [].
  - intros []; [by destruct (router _)|].
    transitivity (operation (router (sc_station w)) Background); [by destruct (router _)|exact Hbg].
Qed.

(** No operation, and the radio on the home channel. *)
Definition resting (lm : LMac (W := W)) : Prop :=
  off_channel_operation_in_progress (lm_channel lm) = false /\
  forall ch, home_channel (lm_channel lm) = Some ch -> valid_channel ch = true ->
    current_channel (channel_controller (lm_channel lm)) = Some ch.

Lemma end_off_channel_spec op R R' rest w o :
  scanning op R rest w -> op_interface o = interface ->
  (forall calls found, R calls found -> R' (calls ++ [SetScanningMode interface ScanDisabled]) found) ->
  scanning op R' rest (end_off_channel o w) /\ resting (sc_lmac (end_off_channel o w)).
Proof.
  intros Hw Ho HR. unfold end_off_channel. destruct (op_drop (sc_lmac w) o) as [lm calls] eqn:Hd.
  assert (calls = [SetScanningMode interface ScanDisabled]) as ->.
  { unfold op_drop, op_set_scanning_mode in Hd. rewrite Ho in Hd. by injection Hd as _ <-. }
  split.
  - apply (scanning_calls _ R); [|apply HR, Hw]. eapply (scanning_lmac _ _ _ _ (OEnd o)); [done|].
    cbn [mac_step mac_allowed mac_apply]. by rewrite Hd.
  - split.
    + pose proof (op_drop_ends (sc_lmac w) o) as He. rewrite Hd in He. exact He.
    + intros ch Hh Hv. cbn in *. pose proof (op_drop_locks (sc_lmac w) o) as Hl. rewrite Hd in Hl.
      unfold home_channel in Hh. cbn in Hl. rewrite Hl in Hh.
      destruct (op_drop_home (sc_lmac w) o ch Hh Hv) as (_ & _ & Hc). rewrite Hd in Hc. exact Hc.
Qed.

(** ** The stays on the channels *)

Section Callback.
Context {Res : Type} (rx_cb : F -> BeaconFrame -> list Z -> Z -> PostChannelScanAction Res * F).
Notation on_channel := (scan_on_channel parse_beacon rx_cb).

Lemma scan_on_channel_app ch l1 l2 found :
  on_channel ch (l1 ++ l2) found =
  match on_channel ch l1 found with
  | (Stop res, found) => (Stop res, found)
  | (Continue, found) => on_channel ch l2 found
  end.
Proof.
  revert found. induction l1 as [|f l1 IH]; intros found; [done|]. simpl.
  destruct (parse_beacon f) as [b|]; [|apply IH].
  destruct (rx_cb found b f ch) as [[|res] found']; [apply IH|done].
Qed.

(** The callback has seen frames that are [G]; [calls] is unchanged. *)
Definition heard_on ch (calls : list InterfaceCall) (found : F) (a : PostChannelScanAction Res)
  (c : list InterfaceCall) (found' : F) : Prop :=
  c = calls /\ exists l, Forall G l /\ on_channel ch l found = (a, found').

Definition drained (r : option Res) : PostChannelScanAction Res :=
  match r with Some res => Stop res | None => Continue end.

Lemma drain_spec ch calls found op fuel rest w :
  scanning op (heard_on ch calls found Continue) rest w ->
  length (frames_in (sc_station w) Foreground) < fuel ->
  exists r w', drain rx_cb fuel ch w = Some (r, w') /\
    scanning op (heard_on ch calls found (drained r)) rest w'.
Proof.
  revert w. induction fuel as [|fuel IH]; intros w Hw Hl; [lia|]. simpl.
  destruct (receive (router (sc_station w)) Foreground) as [[f|] r] eqn:Hr; [|by exists None, w].
  destruct Hw as [Hev Hi Hq Hc [HR (l & HG & Hon)]].
  destruct (receive_queue_in_order _ _ _ _ _ _ Hi Hr) as [Hi' Hf].
  change (station (sc_interface w)) with (sc_station w) in *.
  assert (G f) as Hgf by (apply Hq; rewrite Hf; by left).
  assert (forall found', on_channel ch (l ++ [f]) found = (Continue, found') ->
    scanning op (heard_on ch calls found Continue) rest (on_found (on_router w r) found')) as Hgo.
  { intros found' Hon'. split; [done|done| |done|].
    - intros f' Hin. apply Hq. rewrite Hf. by right.
    - split; [done|]. exists (l ++ [f]). split; [by apply Forall_app; split; [|repeat constructor]|done]. }
  rewrite Hf in Hl. apply Nat.succ_lt_mono in Hl.
  pose proof (scan_on_channel_app ch l [f] found) as Happ. rewrite Hon in Happ. simpl in Happ.
  destruct (parse_beacon f) as [b|].
  - destruct (rx_cb (sc_found w) b f ch) as [[|res] found'] eqn:Hcb.
    + apply (IH (on_found (on_router w r) found')); [by apply Hgo|exact Hl].
    + exists (Some res). eexists. split; [done|]. split; [done|done| |done|].
      * intros f' Hin. apply Hq. rewrite Hf. by right.
      * split; [done|]. exists (l ++ [f]). split; [by apply Forall_app; split; [|repeat constructor]|done].
  - apply (IH (on_router w r)); [|exact Hl].
    replace (on_router w r) with (on_found (on_router w r) (sc_found w)) by (by destruct w).
    by apply Hgo.
Qed.

Lemma foresees_drain ch calls found op E :
  foresees (scanning op (heard_on ch calls found Continue))
    (drain_queue RX_QUEUE_DEPTH rx_cb ch : fut (option Res))
    (fun r => scanning op (heard_on ch calls found (drained r))) E.
Proof.
  apply foresees_sync. intros rest w Hw.
  destruct (drain_spec ch calls found op (S RX_QUEUE_DEPTH) rest w Hw) as (r & w' & -> & Hw'); [|done].
  pose proof (proj2 (io_bounded _ _ _ _ _ (sg_interface _ _ _ _ Hw) Foreground)). unfold sc_station. lia.
Qed.

Lemma stay_spec ch calls found op (E : env -> Scanner F -> Prop) :
  (forall rest w, scanning op (heard_on ch calls found Continue) rest w -> E rest w) ->
  foresees (scanning op (fun c f => c = calls /\ f = found))
    (stay interface RX_QUEUE_DEPTH NET_TX_BUFFERS rx_cb ch : fut (PostChannelScanAction Res))
    (fun a => scanning op (heard_on ch calls found a)) E.
Proof.
  intros HE. unfold stay.
  apply (foresees_weaken (scanning op (heard_on ch calls found Continue)) _ _
    (fun a => scanning op (heard_on ch calls found a)) _ E); [|clear HE|done..].
  2: { intros rest w Hw. eapply scanning_weaken; [exact Hw|]. intros c f [-> ->]. split; [done|].
       by exists []. }
  apply (foresees_loop (fun _ => scanning op (heard_on ch calls found Continue))).
  intros expired. eapply foresees_bind; [apply foresees_drain|].
  intros [res|]; [by apply foresees_done|]. destruct expired; [by apply foresees_done|].
  eapply foresees_bind; [by apply foresees_next_poll|]. intros e. by apply foresees_done.
Qed.

(** ** The pass, and the scan *)

Lemma scan_pass_ext heard heard' channels k (lm : LMac (W := W)) found res :
  (forall j, k <= j -> heard j = heard' j) ->
  scan_pass parse_beacon rx_cb heard channels k lm found res =
  scan_pass parse_beacon rx_cb heard' channels k lm found res.
Proof.
  revert k lm found. induction channels as [|ch channels IH]; intros k lm found Hh; [done|]. simpl.
  destruct (op_set_channel lm ch) as [[[]|e] lm']; [|done]. rewrite (Hh k) by lia.
  destruct (on_channel ch (heard' k) found) as [[|r] found']; [|done].
  apply IH. intros j Hj. apply Hh. lia.
Qed.

(** The pass of Scan.v over the frames that each stay heard, from any state of the lower
    MAC: it ends in the same way. *)
Definition passes (channels : list Z) (found : F) (res : option Res) (found' : F) : Prop :=
  forall k, exists heard, (forall j, Forall G (heard j)) /\
    forall lm : LMac (W := W), exists k' lm',
      scan_pass parse_beacon rx_cb heard channels k lm found None = (Ok res, k', lm', found').

Lemma passes_nil found : passes [] found None found.
Proof. intros k. exists (fun _ => []). split; [by intros j|]. intros lm. by exists k, lm. Qed.

Lemma passes_cons ch channels found l a found1 res found2 :
  valid_channel ch = true -> Forall G l -> on_channel ch l found = (a, found1) ->
  match a with
  | Stop r => res = Some r /\ found2 = found1
  | Continue => passes channels found1 res found2
  end -> passes (ch :: channels) found res found2.
Proof.
  intros Hv Hl Hon Ha k.
  assert (exists heard, (forall j, Forall G (heard j)) /\ heard k = l /\
    (a = Continue -> forall lm : LMac (W := W), exists k' lm',
      scan_pass parse_beacon rx_cb heard channels (S k) lm found1 None = (Ok res, k', lm', found2)))
    as (heard & HG & Hk & Hrest).
  { destruct a as [|r].
    - destruct (Ha (S k)) as (heard & HG & Hp).
      exists (fun j => if decide (j = k) then l else heard j). split; [|split].
      + intros j. by destruct (decide (j = k)).
      + by rewrite decide_True.
      + intros _ lm. destruct (Hp lm) as (k' & lm' & Hp'). exists k', lm'. rewrite <- Hp'.
        apply scan_pass_ext. intros j Hj. rewrite decide_False; [done|lia].
    - exists (fun _ => l). by split; [|split]. }
  exists heard. split; [done|]. intros lm. simpl.
  destruct (op_set_channel_valid lm ch Hv) as [lm' ->]. rewrite Hk, Hon.
  destruct a as [|r]; [by apply Hrest|]. destruct Ha as [-> ->]. by exists (S k), lm'.
Qed.

Lemma channels_spec channels calls found (E : env -> Scanner F -> Prop) :
  (forall rest w, scanning (Some Scanning) (fun c _ => c = calls) rest w -> E rest w) ->
  foresees (scanning (Some Scanning) (fun c f => c = calls /\ f = found))
    (scan_channels interface RX_QUEUE_DEPTH NET_TX_BUFFERS rx_cb channels : fut (option Res))
    (fun res => scanning (Some Scanning) (fun c f => c = calls /\ passes channels found res f)) E.
Proof.
  intros HE. revert found. induction channels as [|ch channels IH]; intros found.
  { apply foresees_done. intros rest w Hw. eapply scanning_weaken; [exact Hw|].
    intros c f [-> ->]. split; [done|apply passes_nil]. }
  simpl. eapply (foresees_bind _ _ _ (fun (r : result LMacError unit) rest w =>
    (r = Ok tt -> valid_channel ch = true) /\
    scanning (Some Scanning) (fun c f => c = calls /\ f = found) rest w)).
  { apply foresees_sync. intros rest w Hw. unfold tune.
    destruct (op_set_channel (sc_lmac w) ch) as [r lm] eqn:Ht. split.
    - intros ->. unfold op_set_channel in Ht. destruct (valid_channel ch) eqn:Hv; [done|].
      by rewrite set_channel_invalid in Ht.
    - eapply (scanning_lmac _ _ _ _ (OTune ch)); [done|]. cbn [mac_step mac_allowed mac_apply]. by rewrite Ht. }
  intros [[]|e].
  2: { apply foresees_fail. intros rest w [_ Hw]. apply HE. eapply scanning_weaken; [exact Hw|].
       by intros c f [-> _]. }
  eapply (foresees_bind _ _ _ (fun a rest w => valid_channel ch = true /\
    scanning (Some Scanning) (heard_on ch calls found a) rest w)).
  { intros w rest [Hv Hw]. specialize (Hv eq_refl).
    pose proof (stay_spec ch calls found (Some Scanning) E) as Hs. ospecialize (Hs _).
    { intros rest' w' Hw'. apply HE. eapply scanning_weaken; [exact Hw'|]. by intros c f [-> _]. }
    specialize (Hs w rest Hw).
    by destruct (stay _ _ _ rx_cb ch w rest) as [[[[a|e] rest'| |] w']|]. }
  intros [|res].
  - intros w rest [Hv Hw]. pose proof Hw as [? ? ? ? [Hc (l & Hl & Hon)]].
    specialize (IH (sc_found w) w rest). ospecialize (IH _); [by split|].
    destruct (scan_channels _ _ _ rx_cb channels w rest) as [[[[res|e] rest'| |] w']|]; try done.
    eapply scanning_weaken; [exact IH|]. intros c f [-> Hp]. split; [done|].
    by eapply passes_cons.
  - apply foresees_done. intros rest w [Hv Hw]. eapply scanning_weaken; [exact Hw|].
    intros c f [-> (l & Hl & Hon)]. split; [done|]. by eapply passes_cons.
Qed.

(** Whatever way a scan ends: its operations are over, and scanning mode is off. *)
Definition scan_over (calls : list InterfaceCall) rest w : Prop :=
  scanning None (fun c _ => c = calls \/
    c = calls ++ [SetScanningMode interface ScanDisabled] \/
    c = calls ++ [SetScanningMode interface ScanBeaconsOnly; SetScanningMode interface ScanDisabled]) rest w /\
  (sc_calls w <> calls -> resting (sc_lmac w)).

Lemma scan_once_spec config calls found :
  foresees (scanning None (fun c f => c = calls /\ f = found))
    (scan_once interface RX_QUEUE_DEPTH NET_TX_BUFFERS rx_cb config : fut (option Res))
    (fun res rest w => scan_over calls rest w /\ resting (sc_lmac w) /\
       sc_calls w = calls ++ [SetScanningMode interface ScanBeaconsOnly; SetScanningMode interface ScanDisabled] /\
       exists current, passes (strategy_channels (strategy (default scan_config_default config)) current)
         found res (sc_found w))
    (scan_over calls).
Proof.
  unfold scan_once. set (channels := strategy_channels _).
  assert (forall op R rest w, op_interface op = interface -> scanning None R rest w ->
    (forall c f, R c f -> c = calls \/ c = calls ++ [SetScanningMode interface ScanBeaconsOnly]) ->
    scan_over calls rest (end_off_channel op w)) as Hend.
  { intros op R rest w Hop Hw HR. eapply end_off_channel_spec in Hw as [Hw Hrest]; [|exact Hop|].
    - split; [exact Hw|by intros _].
    - intros c f Hc. destruct (HR c f Hc) as [-> | ->]; right; [by left|right].
      by rewrite <- app_assoc. }
  eapply (foresees_bind _ _ _ (fun op rest w => op_interface op = interface /\
    scanning None (fun c f => c = calls /\ f = found) rest w)).
  { eapply foresees_weaken; [apply begin_spec|done|done|]. intros rest w Hw. split.
    - eapply scanning_weaken; [exact Hw|]. intros c f [-> _]. by left.
    - intros Hne. destruct (sg_rest _ _ _ _ Hw) as [Hc _]. by destruct Hne. }
  intros op. eapply (foresees_bind _ _ _ (fun res rest w => op_interface op = interface /\
    scanning None (fun c f => c = calls ++ [SetScanningMode interface ScanBeaconsOnly] /\
      exists current, passes (channels current) found res f) rest w)).
  2: { intros res. apply foresees_sync. intros rest w [Hop Hw].
       split; [apply (Hend op _ rest w Hop Hw); intros c f [-> _]; by right|].
       eapply (end_off_channel_spec _ _ (fun c f => c = calls ++ [_; _] /\
         exists current, passes (channels current) found res f)) in Hw as [Hw Hrest]; [|exact Hop|].
       - split; [exact Hrest|]. apply (sg_rest _ _ _ _ Hw).
       - intros c f [-> Hp]. rewrite <- app_assoc. by split. }
  apply foresees_pure. intros Hop.
  apply (foresees_guard _ _ _ _ (scanning None (fun c _ =>
    c = calls \/ c = calls ++ [SetScanningMode interface ScanBeaconsOnly]))).
  2: { intros rest w Hw. by apply (Hend op _ rest w Hop Hw). }
  eapply (foresees_bind _ _ _ (fun _ => scanning None (fun c f => c = calls /\ f = found))).
  { by apply foresees_sync. }
  intros current.
  apply (foresees_guard _ _ _ _ (fun rest w => exists o, scanning o (fun c _ =>
    c = calls \/ c = calls ++ [SetScanningMode interface ScanBeaconsOnly]) rest w)).
  2: { intros rest w [o Hw]. by eapply end_scanning_spec. }
  eapply (foresees_bind _ _ _ (fun _ => scanning (Some Scanning) (fun c f => c = calls /\ f = found))).
  { eapply foresees_weaken; [apply start_spec|done|done|]. intros rest w Hw. exists None.
    eapply scanning_weaken; [exact Hw|]. intros c f [-> _]. by left. }
  intros []. eapply (foresees_bind _ _ _ (fun _ => scanning (Some Scanning)
    (fun c f => c = calls ++ [SetScanningMode interface ScanBeaconsOnly] /\ f = found))).
  { apply foresees_sync. intros rest w Hw. eapply scanning_calls; [exact Hw|].
    destruct (sg_rest _ _ _ _ Hw) as [-> ->]. unfold op_set_scanning_mode. by rewrite Hop. }
  intros []. eapply foresees_bind.
  { apply (channels_spec (channels current) (calls ++ [_]) found). intros rest w Hw. exists (Some Scanning).
    eapply scanning_weaken; [exact Hw|]. intros c f ->. by right. }
  intros res. apply foresees_sync. intros rest w Hw. split; [done|].
  eapply end_scanning_spec, scanning_weaken; [exact Hw|]. intros c f [-> Hp]. split; [done|by exists current].
Qed.
End Callback.
End Scanning.
End ScanFacts.

(** ** Properties *)

Section ScanProps.
Context `{ConnectLaws, !Ieee80211Laws, !CryptoHeaderLaws, !KeyHalLaws, StaWire}.
Context {Sg Ch W Q : Type -> Type}
  `{SignalLaws Sg, ChannelLaws Ch, WatchLaws W, PacketQueueLaws Q, !RadioLaws, !ScanWire}.
Context (interface : nat) (interface_ok : interface < INTERFACE_COUNT).
Context (RX_QUEUE_DEPTH NET_TX_BUFFERS : nat).
Notation StaInterface := (StaInterface (Sg := Sg) (Ch := Ch) (W := W) (Q := Q)).
Notation Scanner := (Scanner (Sg := Sg) (Ch := Ch) (W := W) (Q := Q)).
Notation interface_in_order := (interface_in_order RX_QUEUE_DEPTH NET_TX_BUFFERS).
Notation per_action := (packet_numbers_per_action RX_QUEUE_DEPTH NET_TX_BUFFERS).
Notation env := (list (event scan_event sta_system_action)).
Notation scan_fut F := (fut (W := Scanner F) (Own := scan_event) (Other := sta_system_action)
  (Error := StaError)).
Implicit Types (s : StaInterface) (n : Z) (evs : env).

(** The frames a scan can hear: those already in the router's queue, and those received
    while it runs. *)
Definition hearable s evs (f : list Z) : Prop :=
  f ∈ frames_in (station s) Foreground \/ EvOther (YReceive f) ∈ evs.

Definition spent n evs : Z := (n + event_costs RX_QUEUE_DEPTH NET_TX_BUFFERS evs)%Z.

Lemma scanning_start {F} n s evs (found : F) :
  interface_in_order n s -> Forall event_in_order evs ->
  scanning RX_QUEUE_DEPTH NET_TX_BUFFERS (spent n evs) (hearable s evs) None
    (fun c f => c = [] /\ f = found) evs (MkScanner s [] found).
Proof.
  intros [Hs Ho Hb Hnet Hfr Hn] Hev. split; [done| | | |done].
  - split; [done| |done..|unfold spent; rewrite Z.add_simpl_r; exact Hn]. intros []; apply Ho.
  - by left.
  - by right.
Qed.

Lemma scanning_end {F} M G op R rest (w : Scanner F) :
  scanning RX_QUEUE_DEPTH NET_TX_BUFFERS M G op R rest w -> op = None ->
  interface_in_order M (sc_interface w).
Proof.
  intros [_ [Hs Ho Hb Hnet Hfr Hn] _ _ _] ->. split; try done; [intros []; apply Ho|].
  etrans; [exact Hn|]. apply Z.le_sub_nonneg, event_costs_nonneg.
Qed.

(** What a scan that is over leaves: an interface in order; scanning mode off if it was on, no
    off-channel operation and the home channel if it had begun. *)
Definition given_back {F} n evs (w : Scanner F) : Prop :=
  interface_in_order (spent n evs) (sc_interface w) /\
  (sc_calls w = [] \/ last (sc_calls w) = Some (SetScanningMode interface ScanDisabled) /\
     resting (sc_lmac w)).

Lemma scan_over_given_back {F} n G evs rest (w : Scanner F) :
  scan_over interface RX_QUEUE_DEPTH NET_TX_BUFFERS (spent n evs) G [] rest w -> given_back n evs w.
Proof.
  intros [Hw Hr]. split; [by eapply scanning_end|].
  destruct (sg_rest _ _ _ _ _ _ _ _ Hw) as [Hc|[Hc|Hc]]; rewrite Hc in *; [by left|right..];
    (split; [done|by apply Hr]).
Qed.

(** C23 A scan of the station is the scan over its channels: whatever else happens to
    the interface while it waits ([event_in_order]), it never panics, and when it returns, fails or is dropped, the
    router's operation, the off-channel operation and the scanning mode are given back,
    the radio is on the home channel, and the interface is in order.  A scan that returns has
    the result, and has called the callback, as the scan of Scan.v does over some
    frames for each stay, all from the router's queue or received meanwhile. *)
Theorem station_scan_refines {F Res : Type}
  (rx_cb : F -> BeaconFrame -> list Z -> Z -> PostChannelScanAction Res * F) config found n s evs :
  interface_in_order n s -> Forall event_in_order evs -> (spent n evs <= MAX_PN)%Z ->
  match scan_once interface RX_QUEUE_DEPTH NET_TX_BUFFERS rx_cb config (MkScanner s [] found) evs with
  | Panic => False
  | Done (Suspended, _) => True
  | Done (p, w) => given_back n evs w /\ forall res rest, p = Returned (Ok res) rest ->
      sc_calls w = [SetScanningMode interface ScanBeaconsOnly; SetScanningMode interface ScanDisabled] /\
      exists current, let channels := strategy_channels (strategy (default scan_config_default config)) current in
        exists heard, (forall k f, f ∈ heard k -> hearable s evs f) /\
        forall lm : LMac (W := W), exists lm',
          scan_loop parse_beacon rx_cb heard 1 false channels 0 lm found None = Some (Ok res, lm', sc_found w)
  end.
Proof.
  intros Hs Hev HM.
  pose proof (scan_once_spec interface interface_ok RX_QUEUE_DEPTH NET_TX_BUFFERS (spent n evs) HM
    (hearable s evs) rx_cb config [] found (MkScanner s [] found) evs (scanning_start n s evs found Hs Hev))
    as Hspec.
  destruct (scan_once _ _ _ rx_cb config _ evs) as [[[[res|e] rest| |] w]|]; try done.
  - destruct Hspec as (Hover & _ & Hcalls & current & Hp). split; [by eapply scan_over_given_back|].
    intros res' rest' [= <- _]. split; [done|]. exists current. cbv zeta.
    destruct (Hp 0) as (heard & HG & Hpass). exists heard. split.
    + intros k f Hf. by apply (proj1 (Forall_forall _ _) (HG k)).
    + intros lm. destruct (Hpass lm) as (k' & lm' & Hpass'). exists lm'. simpl. by rewrite Hpass'.
  - split; [by eapply scan_over_given_back|done].
  - split; [by eapply scan_over_given_back|done].
Qed.

(** Searching for a network finds only networks: [find_ess] never panics, gives back
    what it took however it ends, and the network it returns is that of a beacon with the
    searched name among the frames in the router's queue and those received since. *)
Theorem find_ess_sound config ssid n s evs :
  interface_in_order n s -> Forall event_in_order evs -> (spent n evs <= MAX_PN)%Z ->
  match find_ess interface RX_QUEUE_DEPTH NET_TX_BUFFERS config ssid (MkScanner s [] tt) evs with
  | Panic => False
  | Done (Suspended, _) => True
  | Done (p, w) => given_back n evs w /\ forall bss rest, p = Returned (Ok bss) rest ->
      exists f, hearable s evs f /\ names parse_beacon frame_rssi ssid f bss
  end.
Proof.
  intros Hs Hev HM. unfold find_ess, bind_fut.
  pose proof (scan_once_spec interface interface_ok RX_QUEUE_DEPTH NET_TX_BUFFERS (spent n evs) HM
    (hearable s evs) (search_cb frame_rssi ssid) config [] tt (MkScanner s [] tt) evs
    (scanning_start n s evs tt Hs Hev)) as Hspec.
  destruct (scan_once _ _ _ _ config _ evs) as [[[[res|e] rest| |] w]|]; try done.
  - destruct Hspec as (Hover & _ & _ & current & Hp). apply scan_over_given_back in Hover.
    destruct res as [bss|]; (split; [done|]); [|done]. intros bss' rest' [= <- _].
    destruct (Hp 0) as (heard & HG & Hpass). destruct (Hpass (sc_lmac w)) as (k' & lm' & Hpass').
    pose proof (search_pass parse_beacon frame_rssi ssid heard (strategy_channels
      (strategy (default scan_config_default config)) current) 0 (sc_lmac w)) as Hse.
    rewrite Hpass' in Hse. destruct Hse as (i & f & _ & Hf & Hn). exists f. split; [|done].
    by apply (proj1 (Forall_forall _ _) (HG i)).
  - split; [by eapply scan_over_given_back|done].
  - split; [by eapply scan_over_given_back|done].
Qed.

(** ** The machine *)

Lemma ends_given_back {F A} (m : scan_fut F A) n s evs (found : F) :
  interface_in_order n s -> Forall event_in_order evs ->
  (let over := scan_over interface RX_QUEUE_DEPTH NET_TX_BUFFERS (spent n evs) (hearable s evs) [] in
   foresees (scanning RX_QUEUE_DEPTH NET_TX_BUFFERS (spent n evs) (hearable s evs) None
     (fun c f => c = [] /\ f = found)) m (fun _ => over) over) ->
  match scan_step s found evs m with
  | Some Panic => False
  | Some (Done (_, w)) => given_back n evs w
  | None => True
  end.
Proof.
  cbv zeta. intros Hs Hev Hm. specialize (Hm (MkScanner s [] found) evs (scanning_start n s evs found Hs Hev)).
  unfold scan_step. destruct (m _ evs) as [[[[a|e] rest| |] w]|]; try done;
    by eapply scan_over_given_back.
Qed.

Lemma find_ess_given_back config ssid n s evs :
  interface_in_order n s -> Forall event_in_order evs -> (spent n evs <= MAX_PN)%Z ->
  match scan_step s tt evs (find_ess interface RX_QUEUE_DEPTH NET_TX_BUFFERS config ssid) with
  | Some Panic => False
  | Some (Done (_, w)) => given_back n evs w
  | None => True
  end.
Proof.
  intros Hs Hev HM. apply ends_given_back; [done..|]. cbv zeta.
  eapply foresees_bind; [by apply scan_once_spec|]. intros [bss|].
  - apply foresees_done. by intros rest w [Ho _].
  - apply foresees_fail. by intros rest w [Ho _].
Qed.

Lemma control_scan_given_back config max_bss found n s evs :
  interface_in_order n s -> Forall event_in_order evs -> (spent n evs <= MAX_PN)%Z ->
  match scan_step s found evs (control_scan interface RX_QUEUE_DEPTH NET_TX_BUFFERS config max_bss) with
  | Some Panic => False
  | Some (Done (_, w)) => given_back n evs w
  | None => True
  end.
Proof.
  intros Hs Hev HM. apply ends_given_back; [done..|]. cbv zeta.
  eapply foresees_bind; [by apply scan_once_spec|]. intros res.
  apply foresees_done. by intros rest w [Ho _].
Qed.

(** What the outside does, and the packet numbers an action may use. *)
Definition scan_action_in_order (a : scan_system_action) : Prop :=
  match a with
  | ZInterface a => action_in_order a
  | ZFindEss _ _ evs | ZScan _ _ _ evs | ZConnectBySsid _ _ _ _ _ evs _ => Forall event_in_order evs
  end.
Definition polls evs : nat := sum_list (event_cost <$> evs).
Definition scan_cost (a : scan_system_action) : nat :=
  match a with
  | ZInterface _ => 1
  | ZFindEss _ _ evs | ZScan _ _ _ evs => polls evs
  | ZConnectBySsid _ _ _ _ _ evs _ => S (polls evs)
  end.
Definition scan_costs (acts : list scan_system_action) : Z :=
  (Z.of_nat (sum_list (scan_cost <$> acts)) * per_action)%Z.

Lemma scan_costs_cons a acts :
  scan_costs (a :: acts) = (Z.of_nat (scan_cost a) * per_action + scan_costs acts)%Z.
Proof. unfold scan_costs. cbn [fmap list_fmap sum_list]. by rewrite Nat2Z.inj_add, Z.mul_add_distr_r. Qed.

Lemma scan_costs_nonneg acts : (0 <= scan_costs acts)%Z.
Proof. apply Z.mul_nonneg_nonneg; apply Nat2Z.is_nonneg. Qed.

Notation scan_system_step := (scan_system_step interface RX_QUEUE_DEPTH NET_TX_BUFFERS).

Lemma scan_step_in_order n s a :
  interface_in_order n s -> scan_action_in_order a -> (1 <= n)%Z ->
  (n + Z.of_nat (scan_cost a) * per_action <= MAX_PN)%Z ->
  match scan_system_step s a with
  | Some Panic => False
  | Some (Done (s', _)) => interface_in_order (n + Z.of_nat (scan_cost a) * per_action) s'
  | None => True
  end.
Proof.
  intros Hs Ha Hn HM. pose proof (per_action_pos RX_QUEUE_DEPTH NET_TX_BUFFERS) as Hpos.
  destruct a as [a|config ssid evs|config max_bss found evs|mp snonce ssid config creds evs cenv];
    cbn [StaScan.scan_system_step scan_cost scan_action_in_order] in *; unfold connect_by_ssid, then_done.
  - rewrite Z.mul_1_l in *.
    pose proof (step_in_order interface interface_ok RX_QUEUE_DEPTH NET_TX_BUFFERS n s a Hs Ha Hn HM) as Hstep.
    by destruct (sta_system_step _ _ _ s a) as [[[s' o]|]|].
  - pose proof (find_ess_given_back config ssid n s evs Hs Ha HM) as Hg.
    destruct (scan_step s tt evs _) as [[[r w]|]|]; [|done..]. apply Hg.
  - pose proof (control_scan_given_back config max_bss found n s evs Hs Ha HM) as Hg.
    destruct (scan_step s found evs _) as [[[r w]|]|]; [|done..]. apply Hg.
  - assert (n + Z.of_nat (S (polls evs)) * per_action = spent n evs + per_action)%Z as Hcost
      by (unfold spent; by rewrite Nat2Z.inj_succ, Z.mul_succ_l, Z.add_assoc).
    rewrite Hcost in *. assert (n <= spent n evs)%Z as Hspent.
    { unfold spent. rewrite <- (Z.add_0_r n) at 1. apply Z.add_le_mono_l, event_costs_nonneg. }
    pose proof (find_ess_given_back None ssid n s evs Hs Ha ltac:(lia)) as Hg.
    assert (forall s', interface_in_order (spent n evs) s' -> interface_in_order (spent n evs + per_action) s') as Hmore.
    { intros s'. apply in_order_weaken. lia. }
    destruct (scan_step s tt evs _) as [[[[[bss|e]|] w]|]|]; [|by apply Hmore, Hg..|done|done].
    pose proof (step_in_order interface interface_ok RX_QUEUE_DEPTH NET_TX_BUFFERS (spent n evs)
      (sc_interface w) (YConnect mp snonce bss config creds cenv) (proj1 Hg) I ltac:(lia) HM) as Hstep.
    cbn [sta_system_step] in Hstep. by destruct (call_step _ _ _) as [[[s' o]|]|].
Qed.

(** C3 A station interface with scans stays in order: from [new_sta_interface] on, after any
    sequence of connects, also by name, disconnects, rekeys, searches and scans (whatever
    happens in them, also dropped ones), polls of the connection task, received frames,
    queued and taken packets, and operations of all interfaces on the channel, the next
    action neither panics nor hangs, and the interface is in order: locks and keys are sound, link
    and address are those of the connection that runs, and no operation of the router is left.
    It needs, and without them the code does hang or panic, that every queued packet
    is an Ethernet frame that fits a transmit buffer ([sendable]), that no received
    frame is a protected data frame with a broken or truncated CCMP header, on
    which the parser panics ([ccmp_ok]; the rest of a frame is arbitrary), and that the
    48-bit packet numbers last for the actions. *)
Theorem station_stays_in_order NET_RX_BUFFERS m (lm : LMac (W := W)) ra bssid base_mac s acts :
  locks_ok (lm_channel lm) -> length (lm_requesters lm) = INTERFACE_COUNT ->
  new_sta_interface interface RX_QUEUE_DEPTH NET_TX_BUFFERS NET_RX_BUFFERS m lm ra bssid base_mac = Done s ->
  Forall scan_action_in_order acts -> (1 + scan_costs acts <= MAX_PN)%Z ->
  match run scan_system_step s acts with
  | Some Panic => False
  | Some (Done (s', _)) => runner_ok s' /\ (forall q, operation (router (station s')) q = None) /\
      (next_pn (sta (station s')) <= 1 + scan_costs acts)%Z
  | None => True
  end.
Proof.
  intros Hl Hr Hnew Hacts Hmax.
  pose proof (new_in_order interface interface_ok RX_QUEUE_DEPTH NET_TX_BUFFERS NET_RX_BUFFERS _ _ _ _ _ _ Hl Hr Hnew) as Hs.
  assert (forall n, (1 <= n)%Z -> interface_in_order n s -> (n + scan_costs acts <= MAX_PN)%Z ->
    match run scan_system_step s acts with
    | Some Panic => False
    | Some (Done (s', _)) => interface_in_order (n + scan_costs acts) s'
    | None => True
    end) as Hrun.
  { clear Hnew Hs Hmax. revert s. induction Hacts as [|a acts Ha _ IH]; intros s n Hn Hs Hmax.
    { simpl. eapply in_order_weaken; [|exact Hs]. pose proof (scan_costs_nonneg []). lia. }
    rewrite scan_costs_cons, Z.add_assoc in *. pose proof (scan_costs_nonneg acts) as Hpos.
    pose proof (scan_step_in_order n s a Hs Ha Hn ltac:(lia)) as Hstep. simpl run.
    destruct (scan_system_step s a) as [[[s1 o]|]|]; [|done..].
    specialize (IH s1 (n + Z.of_nat (scan_cost a) * per_action)%Z). ospecialize (IH _ Hstep Hmax).
    { transitivity n; [done|]. rewrite <- (Z.add_0_r n) at 1. apply Z.add_le_mono_l.
      apply Z.mul_nonneg_nonneg; apply Nat2Z.is_nonneg. }
    by destruct (run _ s1 acts) as [[[s2 os]|]|]. }
  specialize (Hrun 1%Z ltac:(lia) Hs Hmax).
  destruct (run _ s acts) as [[[s' os]|]|]; [|done..]. split; [apply Hrun|]. split; apply Hrun.
Qed.

(** ** A scan that need not wait *)

Lemma begin_at_once {F} (w : Scanner F) evs :
  off_channel_operation_in_progress (lm_channel (sc_lmac w)) = false ->
  locks (lm_channel (sc_lmac w)) = None ->
  exists op lm, begin_off_channel interface RX_QUEUE_DEPTH NET_TX_BUFFERS w evs =
    Done (Returned (Ok op) evs, on_lmac w lm).
Proof.
  intros Hp Hl. assert (begin_first false w = (PollReady (Ok []), w)) as Hb.
  { unfold begin_first, begin_after_wait, begin_start. rewrite Hp, Hl. by destruct w as [[[] ? ? ? ?] ? ?]. }
  assert (exists op lm, begin_next interface [] w = ((PollReady (Ok op), []), on_lmac w lm)) as (op & lm & Hn).
  { unfold begin_next, begin_poll. destruct (lm_requesters (sc_lmac w)); by eexists _, _. }
  exists op, lm. unfold begin_off_channel. eapply bind_then; [reflexivity|]. cbv beta.
  unfold completion_wait_needed. rewrite Hp.
  eapply bind_then.
  { apply loop_returned. eapply bind_then; [unfold sync; by rewrite Hb|reflexivity]. }
  apply loop_returned. eapply bind_then; [unfold sync; by rewrite Hn|reflexivity].
Qed.

Lemma start_at_once {F} (w : Scanner F) evs :
  operation (router (sc_station w)) Background = None ->
  exists r, start_scanning interface RX_QUEUE_DEPTH NET_TX_BUFFERS w evs =
    Done (Returned (Ok tt) evs, on_router w r) /\
    queue (queue_state r Foreground) = queue (queue_state (router (sc_station w)) Foreground).
Proof.
  intros Hb. exists (start_operation_internal (router (sc_station w)) Foreground SCAN_OPERATION). split.
  - assert (start_first w = (true, on_router w
      (start_operation_internal (router (sc_station w)) Foreground SCAN_OPERATION))) as Hst.
    { unfold start_first, start_must_wait, can_start_operation. simpl opposite. by rewrite Hb. }
    unfold start_scanning. eapply bind_then; [unfold sync; by rewrite Hst|reflexivity].
  - by destruct (router _).
Qed.

Lemma drain_at_once {F Res} (rx_cb : F -> BeaconFrame -> list Z -> Z -> PostChannelScanAction Res * F)
  fuel ch (w : Scanner F) f frames b res found :
  frames_in (sc_station w) Foreground = f :: frames -> parse_beacon f = Some b ->
  rx_cb (sc_found w) b f ch = (Stop res, found) ->
  exists w', drain rx_cb (S fuel) ch w = Some (Some res, w') /\ frames_in (sc_station w') Foreground = frames.
Proof.
  intros Hf Hb Hcb. simpl. unfold receive.
  destruct (ch_try_receive_cons _ _ _ Hf) as (c & -> & Hc & _). rewrite Hb, Hcb.
  eexists. split; [done|]. exact Hc.
Qed.

(** C28 A scan hears frames from before it: nothing empties the router's queue when a scan
    begins, so a beacon that an earlier scan left there ends a search at once, before
    anything is received, with a network that may be gone and whatever channel it was heard on. *)
Theorem stale_beacon_found config ssid n s f frames bss channel channels :
  interface_in_order n s ->
  off_channel_operation_in_progress (lm_channel (lmac (station s))) = false ->
  locks (lm_channel (lmac (station s))) = None ->
  (forall current, strategy_channels (strategy (default scan_config_default config)) current =
     channel :: channels) -> valid_channel channel = true ->
  frames_in (station s) Foreground = f :: frames -> names parse_beacon frame_rssi ssid f bss ->
  exists w, find_ess interface RX_QUEUE_DEPTH NET_TX_BUFFERS config ssid (MkScanner s [] tt) [] =
      Done (Returned (Ok bss) [], w) /\ frames_in (sc_station w) Foreground = frames.
Proof.
  intros Hs Hp Hl Hch Hv Hf (b & Hb & Hname & Hbss).
  destruct (begin_at_once (MkScanner s [] tt) [] Hp Hl) as (op & lm & Hbegin).
  set (w1 := on_lmac (MkScanner s [] tt) lm) in *.
  destruct (start_at_once w1 []) as (r & Hstart & Hq); [apply (io_operations _ _ _ _ _ Hs Background)|].
  set (w2 := on_calls (on_router w1 r) (op_set_scanning_mode op ScanBeaconsOnly)).
  destruct (op_set_channel_valid (sc_lmac w2) channel Hv) as [lm' Htune].
  set (w3 := on_lmac w2 lm').
  assert (frames_in (sc_station w3) Foreground = f :: frames) as Hf3.
  { rewrite <- Hf. unfold frames_in. cbn in Hq |- *. by rewrite Hq. }
  destruct (drain_at_once (search_cb frame_rssi ssid) RX_QUEUE_DEPTH channel w3 f frames b bss tt Hf3 Hb)
    as (w4 & Hdrain & Hf4).
  { unfold search_cb. rewrite decide_False by (by intros Hn; apply Hn). by rewrite Hbss. }
  assert (scan_channels interface RX_QUEUE_DEPTH NET_TX_BUFFERS (search_cb frame_rssi ssid) (channel :: channels) w2 [] =
    Done (Returned (Ok (Some bss)) [], w4)) as Hpass.
  { cbn [scan_channels]. eapply (bind_then _ _ _ _ (Ok tt) [] w3); [unfold tune, sync; by rewrite Htune|].
    eapply (bind_then _ _ _ _ (Stop bss) [] w4); [|reflexivity]. apply loop_returned.
    eapply (bind_then _ _ _ _ (Some bss) [] w4); [unfold drain_queue, sync; by rewrite Hdrain|reflexivity]. }
  exists (end_off_channel op (end_scanning w4)). split.
  - unfold find_ess. eapply (bind_then _ _ _ _ (Some bss)); [|reflexivity].
    unfold scan_once. eapply bind_then; [exact Hbegin|].
    eapply (bind_then _ _ _ _ (Some bss) [] (end_scanning w4)); [|reflexivity].
    apply guard_returned. eapply bind_then; [reflexivity|]. rewrite Hch. apply guard_returned.
    eapply bind_then; [exact Hstart|]. eapply bind_then; [reflexivity|].
    eapply bind_then; [exact Hpass|reflexivity].
  - rewrite <- Hf4. unfold end_off_channel, end_scanning, frames_in. destruct (op_drop _ op).
    cbn. destruct (operation _ Foreground); [|done]. by destruct (router _).
Qed.
End ScanProps.

(** ** Witnesses *)

(** Beacons with a name of one byte, on channel six, of open networks. *)
#[export] Instance plain_scan_wire : ScanWire := {
  parse_beacon := fun b =>
    if decide (b !! 0 = Some 0x80%Z)
    then Some (MkBeaconFrame (Some [default 0%Z (b !! 24)]) (Some 6%Z) (take 6 (drop 16 b)) None)
    else None;
  frame_rssi := fun _ => (-40)%Z;
  get_channel := fun c => default 1%Z c;
}.

Definition demo_network (name : Z) : list Z :=
  [0x80; 0; 0; 0]%Z ++ replicate 6 0xff%Z ++ replicate 12 name ++ [0; 0; name]%Z.
Definition demo_network_bss (name : Z) : BSS := MkBSS [name] 6 (replicate 6 name) (-40) Open.

(** Two beacons come before the scan is polled; the first is the one it looks for. *)
Definition demo_scan_env : list (event scan_event sta_system_action) :=
  [EvOther (YReceive (demo_network 65)); EvOther (YReceive (demo_network 66)); EvOwn SWake].
Definition demo_open_env : list (event own_event task_step) :=
  EvOwn EBuffer :: answered_after 0 [0]%Z ++ EvOwn EBuffer :: answered_after 0 [1; 0]%Z.

(** A search, one for a network that was heard in passing, a scan that hears
    nothing on one channel, and a connection by name. *)
Definition demo_searches : list scan_system_action :=
  [ZFindEss None [65]%Z demo_scan_env; ZFindEss None [66]%Z [];
   ZScan (Some (MkScanConfig 200 (Single 3))) 4 ∅ [EvOwn SWake; EvOwn STimeout];
   ZConnectBySsid demo_passphrase (replicate 32 9%Z) [65]%Z None None demo_scan_env demo_open_env;
   ZInterface (YPoll demo_ready)].
Notation demo_run acts := (run (scan_system_step 0 4 4) demo_new acts).
Definition demo_after (acts : list scan_system_action) : demo_interface :=
  match demo_run acts with Some (Done (s, _)) => s | _ => demo_new end.

Lemma demo_searches_end : exists os,
  demo_run demo_searches = Some (Done (demo_after demo_searches, os)) /\
  os !! 1 = Some (ZOFindEss (Some (Ok (demo_network_bss 66)))
    [SetScanningMode 0 ScanBeaconsOnly; SetScanningMode 0 ScanDisabled]) /\
  os !! 2 = Some (ZOScan (Some (Ok tt)) ∅
    [SetScanningMode 0 ScanBeaconsOnly; SetScanningMode 0 ScanDisabled]) /\
  (info_bss <$> running (station (demo_after demo_searches))) = Some (demo_network_bss 65).
Proof. eexists. vm_compute. repeat split. Qed.

Lemma demo_searches_in_order : Forall scan_action_in_order demo_searches.
Proof. repeat constructor. Qed.

Lemma demo_new_in_order : interface_in_order 4 4 1 demo_new.
Proof. by apply (new_in_order 0 wifi_interface 4 4 4 demo_manager (lmac_new (W := option) radio_off) None None demo_own). Qed.

Lemma station_stays_in_order_witness :
  runner_ok (demo_after demo_searches) /\
  (info_bss <$> running (station (demo_after demo_searches))) = Some (demo_network_bss 65).
Proof.
  destruct demo_searches_end as (os & Hr & _ & _ & Hc). split; [|exact Hc].
  pose proof (station_stays_in_order 0 wifi_interface 4 4 4 demo_manager (lmac_new (W := option) radio_off)
    None None demo_own demo_new demo_searches) as Ht.
  rewrite Hr in Ht. destruct Ht as (Hok & _);
    [done|done|reflexivity|exact demo_searches_in_order|vm_compute; discriminate|exact Hok].
Defined.

Notation demo_scanner F := (Scanner (Sg := option) (Ch := list_chan) (W := option) (Q := list_packets) F).
Definition demo_state {A F} (d : demo_scanner F)
  (p : outcome (progress (Own := scan_event) (Other := sta_system_action) (Error := StaError) A *
    demo_scanner F)) : demo_scanner F :=
  match p with Done (_, w) => w | Panic => d end.

(** A scan of two channels for networks: one beacon on the first, none on the second. *)
Definition demo_two_channels : option ScanConfig := Some (MkScanConfig 200 (Custom [3; 6]%Z)).
Definition demo_stay_env : list (event scan_event sta_system_action) :=
  [EvOther (YReceive (demo_network 65)); EvOwn STimeout; EvOwn SWake; EvOwn STimeout].
Definition demo_scanned : demo_scanner _ := demo_state (MkScanner demo_new [] ∅)
  (scan_once 0 4 4 (enumerate_cb frame_rssi 4) demo_two_channels (MkScanner demo_new [] ∅) demo_stay_env).

Lemma demo_scan_returns :
  scan_once 0 4 4 (enumerate_cb frame_rssi 4) demo_two_channels (MkScanner demo_new [] ∅) demo_stay_env =
  Done (Returned (Ok None) [], demo_scanned).
Proof. vm_compute. reflexivity. Qed.
Lemma demo_scan_found : sc_found demo_scanned !! replicate 6 65%Z = Some (demo_network_bss 65).
Proof. vm_compute. reflexivity. Qed.

Lemma station_scan_refines_witness :
  given_back 0 4 4 1 demo_stay_env demo_scanned /\
  sc_calls demo_scanned = [SetScanningMode 0 ScanBeaconsOnly; SetScanningMode 0 ScanDisabled] /\
  sc_found demo_scanned !! replicate 6 65%Z = Some (demo_network_bss 65).
Proof.
  pose proof (station_scan_refines 0 wifi_interface 4 4 (enumerate_cb frame_rssi 4)
    demo_two_channels ∅ 1 demo_new demo_stay_env demo_new_in_order) as Ht.
  rewrite demo_scan_returns in Ht.
  destruct Ht as [Hg Hres]; [by repeat constructor|vm_compute; discriminate|].
  destruct (Hres None [] eq_refl) as [Hcalls _]. split; [exact Hg|]. split; [exact Hcalls|exact demo_scan_found].
Defined.

Lemma demo_search_returns : find_ess 0 4 4 None [65]%Z (MkScanner demo_new [] tt) demo_scan_env =
  Done (Returned (Ok (demo_network_bss 65)) [],
    demo_state (MkScanner demo_new [] tt) (find_ess 0 4 4 None [65]%Z (MkScanner demo_new [] tt) demo_scan_env)).
Proof. vm_compute. reflexivity. Qed.

Lemma find_ess_sound_witness :
  exists f, hearable demo_new demo_scan_env f /\
    names parse_beacon frame_rssi [65]%Z f (demo_network_bss 65).
Proof.
  pose proof (find_ess_sound 0 wifi_interface 4 4 None [65]%Z 1 demo_new demo_scan_env demo_new_in_order) as Ht.
  rewrite demo_search_returns in Ht.
  destruct Ht as [_ Hres]; [by repeat constructor|vm_compute; discriminate|].
  exact (Hres _ [] eq_refl).
Defined.

(** What the first search leaves, with the beacon it did not look for still queued. *)
Definition demo_searched : demo_interface := demo_after (take 1 demo_searches).

Lemma demo_searched_in_order : exists n, interface_in_order 4 4 n demo_searched.
Proof.
  exists (1 + Z.of_nat (scan_cost (ZFindEss None [65]%Z demo_scan_env)) * packet_numbers_per_action 4 4)%Z.
  pose proof (scan_step_in_order 0 wifi_interface 4 4 1 demo_new (ZFindEss None [65]%Z demo_scan_env) demo_new_in_order) as Ht.
  assert (exists o, scan_system_step 0 4 4 demo_new (ZFindEss None [65]%Z demo_scan_env) = Some (Done (demo_searched, o))) as [o Ho]
    by (eexists; vm_compute; reflexivity).
  rewrite Ho in Ht. apply Ht; [by repeat constructor|done|vm_compute; discriminate].
Qed.

Lemma stale_beacon_found_witness : exists w,
  find_ess 0 4 4 None [66]%Z (MkScanner demo_searched [] tt) [] =
    Done (Returned (Ok (demo_network_bss 66)) [], w).
Proof.
  destruct demo_searched_in_order as [n Hn].
  destruct (stale_beacon_found 0 4 4 None [66]%Z n demo_searched (demo_network 66) []
    (demo_network_bss 66) 1%Z [6; 11; 2; 7; 12; 3; 8; 13; 4; 9; 5; 10]%Z Hn) as (w & Hw & _);
    [vm_compute; reflexivity|vm_compute; reflexivity|reflexivity|reflexivity|vm_compute; reflexivity| |].
  - eexists. split; [vm_compute; reflexivity|]. split; vm_compute; reflexivity.
  - exists w. exact Hw.
Defined.
