(* ===== verification/Compose.v ===== *)
(** * Several interfaces on one lower MAC

    [MacClient]: an interface as a machine that sees the lower MAC the interfaces share,
    and [MacClientLaws], what it promises to the others and relies on: its own steps change the
    lower MAC by actions of its own interface only, and it bears whatever actions of other
    interfaces happen between its steps.  The system of interfaces interleaves their steps,
    and [compose_safe] shows that what each interface is proved to keep, it keeps in the
    system.  Machines of two kinds make one by [sum]. *)
From S2P Require Import Prelude Platform Lmac Locks.

Section Compose.
Context {W : Type -> Type} `{RadioLaws, Watch W}.
Notation LMac := (LMac (W := W)).
Notation own i := (fun j => j = i).

(** [client_step i s a]: a step of interface [i] by itself; [client_mac i s o]: what
    another interface's action [o] is to it. *)
Class MacClient (S A : Type) : Type := {
  client_lmac : nat -> S -> LMac;
  client_step : nat -> S -> A -> option (outcome S);
  client_mac : nat -> S -> mac_action -> outcome S;
}.

(** [client_ok i acts s]: interface [i] is in order and can take its actions [acts]. *)
Class MacClientLaws (S A : Type) `{MacClient S A} : Type := {
  client_ok : nat -> list A -> S -> Prop;
  client_locks i acts s : client_ok i acts s -> locks_ok (lm_channel (client_lmac i s));
  client_safe i acts a s : client_ok i (a :: acts) s ->
    match client_step i s a with
    | Some Panic => False
    | Some (Done s') => client_ok i acts s'
    | None => True
    end;
  client_rely i acts s o : client_ok i acts s -> exists s', client_mac i s o = Done s' /\
    client_ok i acts s' /\ mac_step i (client_lmac i s) o = Done (client_lmac i s');
  client_guarantee i acts s a s' : client_ok i acts s -> client_step i s a = Some (Done s') ->
    mac_reach (own i) (client_lmac i s) (client_lmac i s');
}.

(** ** The system *)

Section System.
Context {S A : Type} `{MacClientLaws S A}.
Implicit Types (ss : list S) (s : S) (a : A) (os : list mac_action).

Fixpoint client_macs (i : nat) s os : outcome S :=
  match os with
  | [] => mret s
  | o :: os => s ← client_mac i s o; client_macs i s os
  end.

(** A step of interface [i]: what it does to the lower MAC is done to all. *)
Inductive system_step ss : nat * A -> list S -> Prop :=
| system_step_of i a s s' os ss' :
    ss !! i = Some s -> client_step i s a = Some (Done s') ->
    Forall (fun o => mac_allowed (own i) o = true) os ->
    mac_runs (client_lmac i s) os = Done (client_lmac i s') ->
    length ss' = length ss -> ss' !! i = Some s' ->
    (forall j t, j <> i -> ss !! j = Some t -> exists t', ss' !! j = Some t' /\ client_macs j t os = Done t') ->
    system_step ss (i, a) ss'.

Inductive system_run ss : list (nat * A) -> list S -> Prop :=
| system_nil : system_run ss [] ss
| system_snoc acts ss1 x ss2 :
    system_run ss acts ss1 -> system_step ss1 x ss2 -> system_run ss (acts ++ [x]) ss2.

(** The actions of interface [i] in a run. *)
Definition actions_of (i : nat) (acts : list (nat * A)) : list A :=
  omap (fun '(j, a) => if decide (j = i) then Some a else None) acts.

(** Every interface is in order and can take its actions, and all see the same lower MAC. *)
Record system_ok (acts : list (nat * A)) ss : Prop := {
  sy_clients : forall i s, ss !! i = Some s -> client_ok i (actions_of i acts) s;
  sy_shared : forall i j s t, ss !! i = Some s -> ss !! j = Some t -> client_lmac i s = client_lmac j t;
}.

(** Others' actions, as interface [i] takes them. *)
Lemma client_macs_ok i acts s os lm :
  client_ok i acts s -> Forall (fun o => mac_allowed (fun j => j <> i) o = true) os ->
  mac_runs (client_lmac i s) os = Done lm ->
  exists s', client_macs i s os = Done s' /\ client_ok i acts s' /\ client_lmac i s' = lm.
Proof.
  revert s. induction os as [|o os IH]; intros s Hs Ho Hr.
  { injection Hr as <-. by exists s. }
  apply Forall_cons in Ho as [Ho Hos].
  destruct (client_rely i acts s o Hs) as (s1 & Hm & Hs1 & Hl). simpl. rewrite Hm.
  unfold mac_step in Hl. rewrite Ho in Hl. simpl in Hr. rewrite Hl in Hr. by apply IH.
Qed.

Lemma allowed_to_others i j o :
  j <> i -> mac_allowed (own i) o = true -> mac_allowed (fun k => k <> j) o = true.
Proof.
  intros Hne. destruct o as [k ch|k|k|k| |k ws|ch|op]; simpl; try done;
    intros [-> Hk]%bool_decide_eq_true; by apply bool_decide_eq_true.
Qed.

Lemma actions_of_own i a acts : actions_of i ((i, a) :: acts) = a :: actions_of i acts.
Proof. unfold actions_of. simpl. by rewrite decide_True. Qed.
Lemma actions_of_other i j a acts : j <> i -> actions_of j ((i, a) :: acts) = actions_of j acts.
Proof. intros Hne. unfold actions_of. simpl. by rewrite decide_False. Qed.

(** The other interfaces follow a step of interface [i]. *)
Lemma others_follow i x acts ss s os lm :
  system_ok ((i, x) :: acts) ss -> ss !! i = Some s ->
  Forall (fun o => mac_allowed (own i) o = true) os -> mac_runs (client_lmac i s) os = Done lm ->
  forall j t, j <> i -> ss !! j = Some t ->
  exists t', client_macs j t os = Done t' /\ client_ok j (actions_of j acts) t' /\ client_lmac j t' = lm.
Proof.
  intros [Hc Hsh] Hi Ho Hr j t Hne Hj. apply client_macs_ok.
  - rewrite <- (actions_of_other i j x) by done. by apply Hc.
  - eapply Forall_impl; [exact Ho|]. intros o. by apply allowed_to_others.
  - by rewrite <- (Hsh i j s t).
Qed.

(** The state after a step of interface [i] to [s'], explained by [os]. *)
Definition follow (i : nat) s' os ss : list S :=
  imap (fun j t => if decide (j = i) then s' else
    match client_macs j t os with Done t' => t' | Panic => t end) ss.

Lemma follow_step i a acts ss s s' os :
  system_ok ((i, a) :: acts) ss -> ss !! i = Some s -> client_step i s a = Some (Done s') ->
  Forall (fun o => mac_allowed (own i) o = true) os ->
  mac_runs (client_lmac i s) os = Done (client_lmac i s') ->
  system_step ss (i, a) (follow i s' os ss).
Proof.
  intros Hok Hi Hs Ho Hr. pose proof (others_follow i a acts ss s os _ Hok Hi Ho Hr) as Hf.
  eapply system_step_of; [done..| | |]; unfold follow.
  - by rewrite length_imap.
  - rewrite list_lookup_imap, Hi. simpl. by rewrite decide_True.
  - intros j t Hne Hj. rewrite list_lookup_imap, Hj. simpl. rewrite decide_False by done.
    destruct (Hf j t Hne Hj) as (t' & -> & _). by eexists.
Qed.

(** An interface can always take its step in the system. *)
Lemma system_progress i a acts ss s s' :
  system_ok ((i, a) :: acts) ss -> ss !! i = Some s -> client_step i s a = Some (Done s') ->
  exists ss', system_step ss (i, a) ss'.
Proof.
  intros Hok Hi Hs. pose proof (sy_clients _ _ Hok i s Hi) as Hc.
  destruct (client_guarantee i _ s a s' Hc Hs) as (os & Ho & Hr). eexists. by eapply follow_step.
Qed.

Lemma system_step_ok i a acts ss ss' :
  system_ok ((i, a) :: acts) ss -> system_step ss (i, a) ss' -> system_ok acts ss'.
Proof.
  intros Hok Hst. inversion Hst as [i' a' s s' os ss2 Hi Hs Ho Hr Hlen Hi' Hf]; subst.
  pose proof (sy_clients _ _ Hok i s Hi) as Hc. rewrite actions_of_own in Hc.
  pose proof (client_safe i _ a s Hc) as Hsafe. rewrite Hs in Hsafe.
  pose proof (others_follow i a acts ss s os _ Hok Hi Ho Hr) as Hfol.
  assert (forall j t', ss' !! j = Some t' -> client_ok j (actions_of j acts) t' /\ client_lmac j t' = client_lmac i s') as Hall.
  { intros j t' Hj. destruct (decide (j = i)) as [->|Hne]; [by rewrite Hi' in Hj; simplify_eq|].
    destruct (lookup_lt_is_Some_2 ss j) as [t Ht]; [rewrite <- Hlen; by eapply lookup_lt_Some|].
    destruct (Hf j t Hne Ht) as (t2 & Ht2 & Hm). destruct (Hfol j t Hne Ht) as (t3 & Hm3 & Hok3 & Hl3).
    rewrite Hm in Hm3. simplify_eq. done. }
  split.
  - intros j t Hj. by apply Hall.
  - intros j k t u Hj Hk. destruct (Hall j t Hj) as [_ ->], (Hall k u Hk) as [_ ->]. done.
Qed.

(** What interfaces keep by themselves they keep together. *)
Lemma compose_safe ss acts rest ss' :
  system_ok (acts ++ rest) ss -> system_run ss acts ss' -> system_ok rest ss'.
Proof.
  intros Hok Hr. revert rest Hok. induction Hr as [|acts ss1 [i a] ss2 Hr IH Hst]; intros rest Hok; [done|].
  eapply system_step_ok; [|exact Hst]. apply IH. by rewrite <- app_assoc in Hok.
Qed.
(** Running a system, each step with its explanation. *)
Fixpoint system_exec ss (xs : list (nat * A * list mac_action)) : option (list S) :=
  match xs with
  | [] => Some ss
  | (i, a, os) :: xs =>
      s ← ss !! i;
      match client_step i s a with
      | Some (Done s') => system_exec (follow i s' os ss) xs
      | _ => None
      end
  end.

Fixpoint explained ss (xs : list (nat * A * list mac_action)) : Prop :=
  match xs with
  | [] => True
  | (i, a, os) :: xs =>
      match ss !! i with
      | Some s =>
          match client_step i s a with
          | Some (Done s') => forallb (mac_allowed (own i)) os = true /\
              mac_runs (client_lmac i s) os = Done (client_lmac i s') /\ explained (follow i s' os ss) xs
          | _ => False
          end
      | None => False
      end
  end.

Lemma system_run_cons ss x ss1 acts ss2 :
  system_step ss x ss1 -> system_run ss1 acts ss2 -> system_run ss (x :: acts) ss2.
Proof.
  intros Hst Hr. induction Hr as [|acts ss2 y ss3 Hr IH Hy].
  - apply (system_snoc ss [] ss x); [constructor|done].
  - apply (system_snoc ss (x :: acts) ss2 y); [exact IH|done].
Qed.

Lemma system_exec_run ss xs ss' rest :
  system_ok ((fst <$> xs) ++ rest) ss -> explained ss xs -> system_exec ss xs = Some ss' ->
  system_run ss (fst <$> xs) ss'.
Proof.
  revert ss. induction xs as [|[[i a] os] xs IH]; intros ss Hok He Hx.
  { injection Hx as <-. constructor. }
  cbn [explained system_exec] in *. destruct (ss !! i) as [s|] eqn:Hi; [|done]. simpl in Hx.
  destruct (client_step i s a) as [[s'|]|] eqn:Hs; [|done..]. destruct He as (Ho & Hr & He).
  assert (Forall (fun o => mac_allowed (own i) o = true) os) as Hos.
  { apply Forall_forall. intros o Hin. by apply (proj1 (forallb_forall _ _) Ho), list_elem_of_In. }
  pose proof (follow_step i a _ ss s s' os Hok Hi Hs Hos Hr) as Hst.
  cbn [fmap list_fmap fst]. eapply system_run_cons; [exact Hst|]. apply IH; [|done..].
  exact (system_step_ok i a _ ss _ Hok Hst).
Qed.

(** ** One interface of the system by itself *)

(** Its own steps and the actions of others, in their order. *)
Fixpoint client_run (i : nat) s (xs : list (A + mac_action)) : option (outcome S) :=
  match xs with
  | [] => Some (Done s)
  | inl a :: xs =>
      match client_step i s a with Some (Done s) => client_run i s xs | r => r end
  | inr o :: xs =>
      match client_mac i s o with Done s => client_run i s xs | Panic => Some Panic end
  end.

Lemma client_run_app i s xs1 xs2 s1 :
  client_run i s xs1 = Some (Done s1) -> client_run i s (xs1 ++ xs2) = client_run i s1 xs2.
Proof.
  revert s. induction xs1 as [|[a|o] xs1 IH]; intros s; simpl; [by intros [= ->]|..].
  - destruct (client_step i s a) as [[s2|]|]; [apply IH|done..].
  - destruct (client_mac i s o) as [s2|]; [apply IH|done].
Qed.

Lemma client_run_macs i s os s1 :
  client_macs i s os = Done s1 -> client_run i s (inr <$> os) = Some (Done s1).
Proof.
  revert s. induction os as [|o os IH]; intros s; simpl; [by intros [= ->]|].
  destruct (client_mac i s o) as [s2|]; [apply IH|done].
Qed.

(** A run of the system is, for each interface, a run of its machine with what the others
    do in between. *)
Lemma system_run_alone ss acts ss' i s :
  system_run ss acts ss' -> ss !! i = Some s ->
  exists xs s', ss' !! i = Some s' /\ client_run i s xs = Some (Done s') /\
    omap (fun x => match x with inl a => Some a | inr _ => None end) xs = actions_of i acts /\
    forall o, inr o ∈ xs -> mac_allowed (fun j => j <> i) o = true.
Proof.
  intros Hr Hi. induction Hr as [|acts ss1 [k a] ss2 Hr IH Hst].
  { exists [], s. split_and!; [done..|]. by intros o ?%elem_of_nil. }
  destruct IH as (xs & s1 & Hs1 & Hx & Ha & Ho).
  assert (actions_of i (acts ++ [(k, a)]) = actions_of i acts ++ actions_of i [(k, a)]) as ->
    by apply omap_app.
  inversion Hst as [k' a' u u' os ss3 Hk Hs Hos Hm Hlen Hk' Hf]; subst.
  destruct (decide (k = i)) as [->|Hne].
  - rewrite Hs1 in Hk. injection Hk as <-. exists (xs ++ [inl a]), u'. split; [done|].
    rewrite (client_run_app _ _ _ _ _ Hx). cbn [client_run]. rewrite Hs. split; [done|].
    rewrite omap_app, Ha, actions_of_own. split; [done|]. intros o [?|Hin]%elem_of_app; [auto|].
    by apply list_elem_of_singleton in Hin.
  - destruct (Hf i s1 (not_eq_sym Hne) Hs1) as (s2 & Hs2 & Hm2). exists (xs ++ (inr <$> os)), s2.
    split; [done|]. rewrite (client_run_app _ _ _ _ _ Hx), (client_run_macs _ _ _ _ Hm2). split; [done|].
    rewrite omap_app, Ha, (actions_of_other k i a) by done. split.
    + f_equal. clear. by induction os.
    + intros o [?|Hin]%elem_of_app; [auto|]. apply list_elem_of_fmap in Hin as (o' & [= <-] & Hin).
      apply (allowed_to_others k); [done|]. by apply (proj1 (Forall_forall _ _) Hos).
Qed.
End System.

(** ** Interfaces of two kinds *)

#[export] Instance sum_client {S1 A1 S2 A2 : Type} `{MacClient S1 A1, MacClient S2 A2} :
  MacClient (S1 + S2) (A1 + A2) := {
  client_lmac i s := match s with inl s => client_lmac i s | inr s => client_lmac i s end;
  client_step i s a :=
    match s, a with
    | inl s, inl a => match client_step i s a with
        | Some m => Some (s ← m; mret (inl s)) | None => None end
    | inr s, inr a => match client_step i s a with
        | Some m => Some (s ← m; mret (inr s)) | None => None end
    | _, _ => None
    end;
  client_mac i s o :=
    match s with
    | inl s => s ← client_mac i s o; mret (inl s)
    | inr s => s ← client_mac i s o; mret (inr s)
    end;
}.

(** The actions of one kind. *)
Definition lefts {A1 A2 : Type} (acts : list (A1 + A2)) : list A1 :=
  omap (fun a => match a with inl a => Some a | inr _ => None end) acts.
Definition rights {A1 A2 : Type} (acts : list (A1 + A2)) : list A2 :=
  omap (fun a => match a with inr a => Some a | inl _ => None end) acts.

#[export] Instance sum_client_laws {S1 A1 S2 A2 : Type} `{MacClientLaws S1 A1, MacClientLaws S2 A2} :
  MacClientLaws (S1 + S2) (A1 + A2).
Proof.
  refine {| client_ok := fun i acts s => match s with
    | inl s => client_ok i (lefts acts) s
    | inr s => client_ok i (rights acts) s end |}.
  - intros i acts [s|s] Hs; exact (client_locks i _ s Hs).
  - intros i acts [a|a] [s|s] Hs; simpl in *; try done.
    + pose proof (client_safe i _ a s Hs) as Hc. by destruct (client_step i s a) as [[s'|]|].
    + pose proof (client_safe i _ a s Hs) as Hc. by destruct (client_step i s a) as [[s'|]|].
  - intros i acts [s|s] o Hs; destruct (client_rely i _ s o Hs) as (s' & Hm & Hok & Hl); simpl;
      rewrite Hm; by eexists.
  - intros i acts [s|s] [a|a] s' Hs Hst; simpl in *; try done;
      destruct (client_step i s a) as [[s1|]|] eqn:Hc; try done; injection Hst as <-;
      by eapply client_guarantee.
Defined.
End Compose.
