(* ===== verification/StaTask.v ===== *)
(** * A station interface one event at a time

    The interface of StaSystem.v and StaScan.v with calls that take time: a call of the
    control is begun, waits, and goes on with each event until it returns or is dropped.
    While it waits, other interfaces act on the lower MAC between its events. *)
From S2P Require Import Prelude Bytes Network Platform Async Lmac Locks KeySlots RxRouter Eapol Rsn Bss Sta Scan.
From S2P Require Import StaRouter Connect StaRunner StaSystem StaScan.

(** The calls of the control that wait. *)
Inductive control_call : Type :=
| CConnect (map_passphrase : list Z -> list Z -> nat -> list Z) (snonce : list Z) (bss : BSS)
    (config : option ConnectionConfig) (creds : option Credentials)
| CDisconnect
| CRekey.
Inductive scan_call : Type :=
| CFindEss (config : option ScanConfig) (ssid : list Z)
| CScan (config : option ScanConfig) (max_bss : nat) (found : gmap (list Z) BSS)
| CConnectBySsid (map_passphrase : list Z -> list Z -> nat -> list Z) (snonce ssid : list Z)
    (config : option ConnectionConfig) (creds : option Credentials).

Notation control_events := (list (event own_event task_step)).
Notation scan_events := (list (event scan_event sta_system_action)).

Section StaTask.
Context `{ConnectCrypto, Ieee80211, StaWire, ScanWire}.
Context {Sg Ch W Q : Type -> Type} `{Signal Sg, Channel Ch, Watch W, PacketQueue Q}.
Context (interface RX_QUEUE_DEPTH NET_TX_BUFFERS : nat).
Notation Station := (Station (Sg := Sg) (Ch := Ch) (W := W)).
Notation StaInterface := (StaInterface (Sg := Sg) (Ch := Ch) (W := W) (Q := Q)).
Notation fut := (fut (W := Station) (Own := own_event) (Other := task_step) (Error := StaError)).
Implicit Types (s : StaInterface) (c : control_call) (sc : scan_call).

Definition control_fut c : fut unit :=
  match c with
  | CConnect mp snonce bss config creds => control_connect interface mp snonce bss config creds
  | CDisconnect => control_disconnect interface
  | CRekey => request_group_rekey interface
  end.

(** The interface, and the call that waits: where it began, and what has happened since. *)
Inductive StaTask : Type :=
| TkReady s
| TkCalling s c (env : control_events)
| TkScanning s sc (env : scan_events).
Implicit Types (t : StaTask).

(** The call after the events so far: it waits, or the interface is free again. *)
Definition calling s c (env : control_events) : outcome (StaTask * option scan_system_output) :=
  match call_step s (control_fut c) env with
  | None => mret (TkCalling s c env, None)
  | Some m => '(s, o) ← m; mret (TkReady s, Some (ZOInterface o))
  end.

(** The connection set-up of [connect_by_ssid] begins in the poll that ends the search. *)
Definition scanning_call s sc (env : scan_events) : outcome (StaTask * option scan_system_output) :=
  let finish m := match m with
    | None => mret (TkScanning s sc env, None)
    | Some m => '(s, o) ← m; mret (TkReady s, Some o)
    end in
  match sc with
  | CFindEss config ssid =>
      finish (scan_system_step interface RX_QUEUE_DEPTH NET_TX_BUFFERS s (ZFindEss config ssid env))
  | CScan config max_bss found =>
      finish (scan_system_step interface RX_QUEUE_DEPTH NET_TX_BUFFERS s (ZScan config max_bss found env))
  | CConnectBySsid mp snonce ssid config creds =>
      match scan_step s tt env (find_ess interface RX_QUEUE_DEPTH NET_TX_BUFFERS None ssid) with
      | None => mret (TkScanning s sc env, None)
      | Some m =>
          '(r, w) ← m;
          match r with
          | Some (Ok bss) => calling (sc_interface w) (CConnect mp snonce bss config creds) []
          | Some (Err e) => mret (TkReady (sc_interface w), Some (ZOConnect (Some (Err e)) (sc_calls w)))
          | None => mret (TkReady (sc_interface w), Some (ZOConnect None (sc_calls w)))
          end
      end
  end.

(** The state of the lower MAC, as the interface sees it. *)
Definition after_events {F A} (r : outcome (progress (Own := scan_event) (Other := sta_system_action)
    (Error := StaError) A * Scanner F)) s : StaInterface :=
  match r with Done (_, w) => sc_interface w | Panic => s end.
Definition task_interface t : StaInterface :=
  match t with
  | TkReady s => s
  | TkCalling s c env =>
      match control_fut c (station s) env with
      | Done (_, st) => after_call s st
      | Panic => s
      end
  | TkScanning s (CFindEss config ssid) env =>
      after_events (find_ess interface RX_QUEUE_DEPTH NET_TX_BUFFERS config ssid (MkScanner s [] tt) env) s
  | TkScanning s (CScan config max_bss found) env =>
      after_events (control_scan interface RX_QUEUE_DEPTH NET_TX_BUFFERS config max_bss (MkScanner s [] found) env) s
  | TkScanning s (CConnectBySsid _ _ ssid _ _) env =>
      after_events (find_ess interface RX_QUEUE_DEPTH NET_TX_BUFFERS None ssid (MkScanner s [] tt) env) s
  end.
Definition task_lmac t : LMac := lmac (station (task_interface t)).

(** ** The machine *)

Inductive station_action : Type :=
| XAct (a : sta_system_action)
| XCall c
| XScan sc
| XEvent (e : event own_event task_step)
| XScanEvent (e : event scan_event sta_system_action).

(** What is the interface's own, and does not wait. *)
Definition own_action (a : sta_system_action) : bool :=
  match a with YSetMac _ => true | YMac _ => false | _ => negb (is_control a) end.
Definition own_control_event (e : event own_event task_step) : bool :=
  match e with EvOther (TMac _) => false | _ => true end.
Definition own_scan_event (e : event scan_event sta_system_action) : bool :=
  match e with EvOther a => own_action a && negb (is_control a) | _ => true end.

Definition station_step t (x : station_action) : option (outcome (StaTask * option scan_system_output)) :=
  match t, x with
  | TkReady s, XAct a =>
      if own_action a then
        match sta_system_step interface RX_QUEUE_DEPTH NET_TX_BUFFERS s a with
        | Some m => Some ('(s, o) ← m; mret (TkReady s, Some (ZOInterface o)))
        | None => None
        end
      else None
  | TkReady s, XCall c => Some (calling s c [])
  | TkReady s, XScan sc => Some (scanning_call s sc [])
  | TkCalling s c env, XEvent e =>
      if own_control_event e then Some (calling s c (env ++ [e])) else None
  | TkScanning s sc env, XScanEvent e =>
      if own_scan_event e then Some (scanning_call s sc (env ++ [e])) else None
  | _, _ => None
  end.

(** What another interface does. *)
Definition station_mac t (o : mac_action) : outcome StaTask :=
  match t with
  | TkReady s =>
      lm ← mac_step interface (lmac (station s)) o;
      mret (TkReady (set_station s (with_lmac (station s) lm)))
  | TkCalling s c env => '(t, _) ← calling s c (env ++ [EvOther (TMac o)]); mret t
  | TkScanning s sc env => '(t, _) ← scanning_call s sc (env ++ [EvOther (YMac o)]); mret t
  end.
End StaTask.
