(* ===== verification/StaTaskFacts.v ===== *)
(** * Facts about stations one event at a time

    What a station does to the lower MAC: everything an own step of the machine of
    StaTask.v changes there is a sequence of actions of its own interface, and what others do
    while a call waits reaches the state of the call as it is. *)
From stdpp Require Import relations.
From S2P Require Import Prelude Bytes Network Platform Async Resume Lmac Locks KeySlots RxRouter Eapol Rsn Bss Sta.
From S2P Require Import Scan StaRouter Connect ConnectBuilt ConnectFacts ConnectProps StaRunner StaRunnerFacts.
From S2P Require Import StaRunnerProps OffChannelProps StaSystem StaSystemFacts StaSystemProps StaScan StaScanProps StaTask.

Section Reach.
Context `{ConnectLaws, !Ieee80211Laws, !CryptoHeaderLaws, !KeyHalLaws, StaWire}.
Context {Sg Ch W Q : Type -> Type}
  `{SignalLaws Sg, ChannelLaws Ch, WatchLaws W, PacketQueueLaws Q, !RadioLaws, !ScanWire}.
Context (interface : nat) (interface_ok : interface < INTERFACE_COUNT).
Context (RX_QUEUE_DEPTH NET_TX_BUFFERS : nat).
Notation Station := (Station (Sg := Sg) (Ch := Ch) (W := W)).
Notation StaInterface := (StaInterface (Sg := Sg) (Ch := Ch) (W := W) (Q := Q)).
Notation reach := (mac_reach (fun i => i = interface)).
Implicit Types (st : Station) (s : StaInterface) (lm : LMac (W := W)) (info : ConnectionInfo).

Notation if_lmac s := (lmac (station s)).

(** ** The runner *)

Lemma own_allowed o i : o = OUnlock i \/ o = OGrant i -> i = interface ->
  mac_allowed (fun i => i = interface) o = true.
Proof. by intros [-> | ->] ->; apply bool_decide_eq_true. Qed.

Lemma reach_eq lm lm' : lm' = lm -> reach lm lm'.
Proof. intros ->. apply mac_reach_refl. Qed.

Lemma grant_reach st : reach (lmac st) (lmac (grant_request interface st)).
Proof. apply (mac_reach_one _ _ (OGrant interface)); [by eapply own_allowed; [right|]|done]. Qed.

Lemma runner_disconnected_reach st reason st' :
  runner_disconnected interface st reason = Done st' -> reach (lmac st) (lmac st').
Proof.
  unfold runner_disconnected, unlock_own_channel. intros Hd.
  apply outcome_bind_Done in Hd as (st1 & Hu & [= <-]). apply outcome_bind_Done in Hu as (cs & Hu & [= <-]).
  apply (mac_reach_one _ _ (OUnlock interface)); [by eapply own_allowed; [left|]|]. simpl. by rewrite Hu.
Qed.

Lemma runner_poll_reach st st' : runner_poll interface st = Done st' -> reach (lmac st) (lmac st').
Proof.
  unfold runner_poll. destruct (running st) as [info|]; intros Hp;
    apply outcome_bind_Done in Hp as ([p t] & _ & Hp); destruct p;
    try (injection Hp as <-; apply mac_reach_refl). by apply runner_disconnected_reach in Hp.
Qed.

Lemma connection_round_reach info s e r s' e' :
  connection_round interface info s e = Done (r, s', e') -> reach (if_lmac s) (if_lmac s').
Proof.
  intros Hc. apply connection_round_lmac in Hc as [[Hl _]|(_ & _ & Hl)].
  - by apply reach_eq.
  - rewrite Hl. apply grant_reach.
Qed.

Definition reached s s' : Prop := reach (if_lmac s) (if_lmac s').
Lemma reached_refl s : reached s s.
Proof. apply mac_reach_refl. Qed.
Lemma reached_trans s1 s2 s3 : reached s1 s2 -> reached s2 s3 -> reached s1 s3.
Proof. apply mac_reach_trans. Qed.

Lemma runner_round_reach fuel s e r s' e' :
  runner_round interface fuel s e = Some (Done (r, s', e')) -> reached s s'.
Proof.
  unfold runner_round. destruct (runner_poll interface (station s)) as [st|] eqn:Hp; [|done].
  apply runner_poll_reach in Hp.
  destruct (running (station s)) as [info|]; destruct (running st) eqn:Hrun;
    try (intros [= <- <- <-]; exact Hp).
  destruct (run_connection interface fuel info (set_station s st) e) as [[[[p s1] e1]|]|] eqn:Hc; [|done..].
  apply (rounds_keep _ reached reached_refl reached_trans) in Hc; [|apply connection_round_reach].
  assert (reached s s1) as Hs by (eapply mac_reach_trans; [exact Hp|exact Hc]). destruct p as [reason|].
  - intros [= Hr]. apply outcome_bind_Done in Hr as (st' & Hd & [= <- <- <-]).
    eapply mac_reach_trans; [exact Hs|]. by apply runner_disconnected_reach in Hd.
  - destruct (run_msdu_tx _ _ _ _ _) as [[[[p s2] e2]|]|] eqn:Hm; [|done..]. intros [= <- <- <-].
    apply run_msdu_tx_link in Hm as [_ Hl]. unfold reached. by rewrite Hl.
Qed.

Lemma runner_run_reach n fuel s e s' : runner_run interface n fuel s e = Some (Done s') -> reached s s'.
Proof.
  revert s e. induction n as [|n IH]; intros s e Hr; [done|]. rewrite runner_run_S in Hr.
  destruct (runner_round interface fuel s e) as [[[[r s1] e1]|]|] eqn:Hs; [|done..].
  apply runner_round_reach in Hs.
  destruct r; [by eapply reached_trans; [|eapply IH]|by injection Hr as <-..].
Qed.

(** Own actions of the interface. *)
Lemma own_action_reach s a s' o :
  own_action a = true -> sta_system_step interface RX_QUEUE_DEPTH NET_TX_BUFFERS s a = Some (Done (s', o)) ->
  reached s s'.
Proof.
  intros Ha Hs. destruct a as [mp snonce bss config creds env|env|env|address|buffer|msdu| |e|o']; try done;
    cbn [sta_system_step] in Hs.
  - destruct (set_mac_address _ _). injection Hs as <- <-. by apply reach_eq.
  - apply (inj Some) in Hs. apply outcome_bind_Done in Hs as (s1 & Hrx & Hs). injection Hs as <- <-.
    apply reach_eq. unfold routing_receive in Hrx. apply outcome_bind_Done in Hrx as (d & _ & Hrx).
    destruct d as [|frame|]; [by injection Hrx as <-| |by injection Hrx as <-; destruct (route_frame _ _ _)].
    unfold handle_data_rx in Hrx. apply outcome_bind_Done in Hrx as ([p cs] & _ & Hrx).
    by destruct p as [[[[] ?] ?]|]; injection Hrx as <-.
  - destruct (pq_has_room _); [|done]. injection Hs as <- <-. by apply reach_eq.
  - injection Hs as <- <-. by apply reach_eq.
  - destruct (runner_run _ _ _ s e) as [[s1|]|] eqn:Hr; try done. injection Hs as <- <-.
    by apply runner_run_reach in Hr.
Qed.

(** ** Calls of the control *)

Lemma control_step_reach st st' : rtc (control_step interface) st st' -> reach (lmac st) (lmac st').
Proof.
  intros Hr. induction Hr as [st|st st1 st' Hst _ IH]; [apply mac_reach_refl|].
  eapply mac_reach_trans; [|exact IH]. destruct Hst as [| | | |o lm Ho Hs]; try apply mac_reach_refl.
  by eapply mac_reach_one.
Qed.

Lemma control_fut_built c :
  built (task_run interface) (rtc (control_step interface)) unit
    (control_fut (Sg := Sg) (Ch := Ch) (W := W) interface c).
Proof. destruct c; [by apply made_connect|by apply made_disconnect|by apply made_rekey]. Qed.

Lemma rtc_rtc_reach st st' : rtc (rtc (control_step interface)) st st' -> reach (lmac st) (lmac st').
Proof.
  intros Hr. induction Hr as [st|st st1 st' Hst _ IH]; [apply mac_reach_refl|].
  eapply mac_reach_trans; [|exact IH]. by apply control_step_reach.
Qed.

(** The steps of the runner during a call. *)
Lemma task_run_reach st o st' :
  own_control_event (EvOther o) = true -> task_run interface st o = Done st' -> reach (lmac st) (lmac st').
Proof.
  intros Ho Ht. destruct o as [|reason|o]; simpl in Ht; [|destruct (running st)|done].
  - by apply runner_poll_reach.
  - destruct (connected _); [by apply runner_disconnected_reach in Ht|injection Ht as <-; apply mac_reach_refl].
  - injection Ht as <-. apply mac_reach_refl.
Qed.

(** ** Scans *)

Section ScanFutures.
Context {F : Type}.
Notation Scanner := (Scanner F (Sg := Sg) (Ch := Ch) (W := W) (Q := Q)).
Notation fut := (fut (W := Scanner) (Own := scan_event) (Other := sta_system_action) (Error := StaError)).
Implicit Types (w : Scanner).

Definition scan_own w w' : Prop := reach (sc_lmac w) (sc_lmac w').

Notation made := (built (other_task interface RX_QUEUE_DEPTH NET_TX_BUFFERS) scan_own _).

Lemma scan_same w w' : sc_lmac w' = sc_lmac w -> scan_own w w'.
Proof. apply reach_eq. Qed.

Lemma scan_mac w o lm :
  mac_allowed (fun i => i = interface) o = true -> mac_apply (sc_lmac w) o = Done lm ->
  scan_own w (on_lmac w lm).
Proof. apply mac_reach_one. Qed.

Lemma made_pure {A} (f : Scanner -> A * Scanner) :
  (forall w, scan_own w (snd (f w))) -> made (sync (fun w => Done (f w)) : fut A).
Proof. intros Hf. apply built_sync. intros w a w' [= Hw]. specialize (Hf w). by rewrite Hw in Hf. Qed.

Lemma made_observe {A} (f : Scanner -> A) : made (observe f : fut A).
Proof. apply built_sync. intros w a w' [= <- <-]. by apply scan_same. Qed.

Lemma next_poll_rest {B} (f : scan_event -> fut B) w env r rest w' :
  (forall e, made (f e)) ->
  bind_fut (next_poll interface RX_QUEUE_DEPTH NET_TX_BUFFERS) f w env = Done (Returned (Ok r) rest, w') ->
  length rest < length env.
Proof.
  intros Hf. unfold bind_fut, next_poll.
  destruct (await _ _ w env) as [[[[e|e] rest1| |] w1]|] eqn:Hs; try done.
  apply await_rest in Hs. intros Hr. eapply built_rest in Hr; [|apply Hf]. lia.
Qed.

(** The body of a loop that works, and goes on only after the next poll. *)
Lemma takes_next_poll {X A B} (m : X -> fut B) (f : X -> B -> fut (X + A)) :
  (forall x, made (m x)) ->
  (forall x b w env x' rest w', f x b w env = Done (Returned (Ok (inl x')) rest, w') -> length rest < length env) ->
  takes_event (fun x => bind_fut (m x) (f x)).
Proof.
  intros Hm Ht x w env x' rest w'. unfold bind_fut.
  destruct (m x w env) as [[[[b|e] rest1| |] w1]|] eqn:Hs; try done.
  eapply built_rest in Hs; [|by apply Hm]. intros Hb%Ht. lia.
Qed.

Lemma made_poll_until {A} (p : Scanner -> poll A * Scanner) :
  (forall w, scan_own w (snd (p w))) ->
  made (poll_until interface RX_QUEUE_DEPTH NET_TX_BUFFERS p : fut A).
Proof.
  intros Hp. unfold poll_until. apply built_loop.
  - apply (takes_next_poll (fun _ => _) (fun _ => _)); [intros _; by apply made_pure|].
    intros _ [a|] w env x' rest w'; [done|]. apply next_poll_rest. intros e. apply built_done.
  - intros []. apply built_bind; [by apply made_pure|]. intros [a|]; [apply built_done|].
    apply built_bind; [apply built_await|intros _; apply built_done].
Qed.

Lemma begin_first_own waiting w : scan_own w (snd (begin_first waiting w)).
Proof.
  unfold begin_first, begin_after_wait.
  assert (forall asked waits lm, begin_start (sc_lmac w) = Ok (asked, waits, lm) -> scan_own w (on_lmac w lm)) as Hb.
  { intros asked waits lm Hb. apply (scan_mac w OBegin); [done|]. simpl. by rewrite Hb. }
  destruct waiting; [destruct (completion_wait_poll _); [|by apply scan_same]|];
    destruct (begin_start (sc_lmac w)) as [[[asked waits] lm]|]; (by eapply Hb) || by apply scan_same.
Qed.

Lemma begin_next_own waits w : scan_own w (snd (begin_next interface waits w)).
Proof.
  unfold begin_next. destruct (begin_poll (sc_lmac w) interface waits) as [[p ws] lm] eqn:Hb.
  apply (scan_mac w (OPollBegin interface waits)); [done|]. simpl. by rewrite Hb.
Qed.

Lemma made_begin : made (begin_off_channel interface RX_QUEUE_DEPTH NET_TX_BUFFERS : fut OffChannelOperation).
Proof.
  unfold begin_off_channel. apply built_bind; [apply made_observe|intros waiting].
  apply built_bind; [apply made_poll_until, begin_first_own|]. intros [waits|e]; [|apply built_fail].
  apply built_loop.
  - apply (takes_next_poll (fun waits => sync (fun w => Done (begin_next interface waits w)))
      (fun waits r => match r with
        | (PollReady (Ok op), _) => done (inr op)
        | (PollReady (Err e), _) => fail (LMacFailure e)
        | (PollPending, waits) => bind_fut (next_poll interface RX_QUEUE_DEPTH NET_TX_BUFFERS) (fun _ => done (inl waits))
        end)).
    + intros ws. apply made_pure, begin_next_own.
    + intros ws0 [[[op|e]|] ws] w env x' rest w'; [done..|]. apply next_poll_rest. intros e. apply built_done.
  - intros ws. apply built_bind; [apply made_pure, begin_next_own|].
    intros [[[op|e]|] ws']; [apply built_done|apply built_fail|].
    apply built_bind; [apply built_await|intros _; apply built_done].
Qed.

Lemma start_next_own w : scan_own w (snd (start_next w)).
Proof. unfold start_next. by destruct (start_poll _ _ _); apply scan_same. Qed.

Lemma made_start : made (start_scanning interface RX_QUEUE_DEPTH NET_TX_BUFFERS : fut unit).
Proof.
  unfold start_scanning. apply built_bind.
  - apply made_pure. intros w. unfold start_first. destruct (start_must_wait _ _ _); by apply scan_same.
  - intros []; [apply built_done|]. apply made_poll_until, start_next_own.
Qed.

Lemma end_off_channel_own op w : scan_own w (end_off_channel op w).
Proof.
  unfold end_off_channel. destruct (op_drop (sc_lmac w) op) as [lm calls] eqn:Hd.
  apply (mac_reach_one _ _ (OEnd op)); [done|]. cbn [mac_apply]. by rewrite Hd.
Qed.

Lemma end_scanning_own w : scan_own w (end_scanning w).
Proof. unfold end_scanning. destruct (operation _ _); by apply scan_same. Qed.

Section Callback.
Context {Res : Type} (rx_cb : F -> BeaconFrame -> list Z -> Z -> PostChannelScanAction Res * F).

Lemma drain_lmac fuel channel w r w' : drain rx_cb fuel channel w = Some (r, w') -> sc_lmac w' = sc_lmac w.
Proof.
  revert w. induction fuel as [|fuel IH]; intros w; [done|]. simpl.
  destruct (receive _ _) as [[received|] r0]; [|by intros [= _ <-]].
  destruct (parse_beacon received) as [beacon|]; [|by intros ->%IH].
  destruct (rx_cb _ _ _ _) as [[|res] found]; [by intros ->%IH|by intros [= _ <-]].
Qed.

Lemma made_drain channel : made (drain_queue RX_QUEUE_DEPTH rx_cb channel : fut (option Res)).
Proof.
  apply built_sync. intros w r w' Hd. unfold expect in Hd.
  destruct (drain _ _ _ w) as [[r1 w1]|] eqn:Hw; [|done]. injection Hd as <- <-.
  by eapply scan_same, drain_lmac.
Qed.

Lemma made_stay channel :
  made (stay interface RX_QUEUE_DEPTH NET_TX_BUFFERS rx_cb channel : fut (PostChannelScanAction Res)).
Proof.
  unfold stay. apply built_loop.
  - apply (takes_next_poll (fun _ => drain_queue RX_QUEUE_DEPTH rx_cb channel) (fun expired r => _));
      [intros _; apply made_drain|].
    intros expired [res|] w env x' rest w'; [done|]. destruct expired; [done|].
    apply next_poll_rest. intros e. apply built_done.
  - intros expired. apply built_bind; [apply made_drain|]. intros [res|]; [apply built_done|].
    destruct expired; [apply built_done|]. apply built_bind; [apply built_await|intros e; apply built_done].
Qed.

Lemma made_tune channel : made (tune channel : fut (result LMacError unit)).
Proof.
  apply built_sync. intros w r w'. destruct (op_set_channel (sc_lmac w) channel) as [r1 lm] eqn:Ho.
  intros [= _ <-]. apply (scan_mac w (OTune channel)); [done|]. cbn [mac_apply]. by rewrite Ho.
Qed.

Lemma made_channels channels :
  made (scan_channels interface RX_QUEUE_DEPTH NET_TX_BUFFERS rx_cb channels : fut (option Res)).
Proof.
  induction channels as [|channel channels IH]; simpl; [apply built_done|].
  apply built_bind; [apply made_tune|]. intros [[]|e]; [|apply built_fail].
  apply built_bind; [apply made_stay|]. by intros [|res]; [|apply built_done].
Qed.

Lemma made_scan_once config :
  made (scan_once interface RX_QUEUE_DEPTH NET_TX_BUFFERS rx_cb config : fut (option Res)).
Proof.
  unfold scan_once. apply built_bind; [apply made_begin|intros op].
  apply built_bind; [apply built_guard|intros res; apply made_pure; intros w; apply end_off_channel_own].
  2: { intros w w' [= <-]. apply end_off_channel_own. }
  cbv zeta. apply built_bind; [apply made_observe|intros current].
  apply built_guard; [|intros w w' [= <-]; apply end_scanning_own].
  apply built_bind; [apply made_start|intros _].
  apply built_bind; [apply made_pure; intros w; by apply scan_same|intros _].
  apply built_bind; [apply made_channels|intros res]. apply made_pure. intros w. apply end_scanning_own.
Qed.
End Callback.
End ScanFutures.

Notation other_task := (other_task interface RX_QUEUE_DEPTH NET_TX_BUFFERS).

Lemma made_find_ess config ssid :
  built other_task scan_own BSS (find_ess interface RX_QUEUE_DEPTH NET_TX_BUFFERS config ssid).
Proof.
  unfold find_ess. apply built_bind; [apply made_scan_once|]. intros [bss|]; [apply built_done|apply built_fail].
Qed.

Lemma made_control_scan config max_bss :
  built other_task scan_own unit (control_scan interface RX_QUEUE_DEPTH NET_TX_BUFFERS config max_bss).
Proof. unfold control_scan. apply built_bind; [apply made_scan_once|intros _; apply built_done]. Qed.

Lemma scan_run_reach {F} (w w' : Scanner F) : rtc scan_own w w' -> scan_own w w'.
Proof.
  intros Hr. induction Hr as [w|w w1 w' Hst _ IH]; [apply mac_reach_refl|]. by eapply mac_reach_trans.
Qed.
End Reach.
