(* ===== verification/StaTaskProps.v ===== *)
(** * A station among other interfaces

    The machine of StaTask.v as a [MacClient]: its calls wait and go on, others act
    between their events, nothing panics, and what it does to the lower MAC is its own. *)
From stdpp Require Import relations.
From S2P Require Import Prelude Bytes Network Platform Async Resume Lmac Locks KeySlots RxRouter Eapol Rsn Bss Sta.
From S2P Require Import Scan StaRouter Connect ConnectBuilt ConnectFacts ConnectProps StaRunner StaRunnerFacts.
From S2P Require Import StaRunnerProps OffChannelProps StaSystem StaSystemFacts StaSystemProps StaScan StaScanProps StaTask.
From S2P Require Import StaTaskFacts Compose.

Section StationClient.
Context `{ConnectLaws, !Ieee80211Laws, !CryptoHeaderLaws, !KeyHalLaws, StaWire}.
Context {Sg Ch W Q : Type -> Type}
  `{SignalLaws Sg, ChannelLaws Ch, WatchLaws W, PacketQueueLaws Q, !RadioLaws, !ScanWire}.
Context (RX_QUEUE_DEPTH NET_TX_BUFFERS : nat).
Notation Station := (Station (Sg := Sg) (Ch := Ch) (W := W)).
Notation StaInterface := (StaInterface (Sg := Sg) (Ch := Ch) (W := W) (Q := Q)).
Notation StaTask := (StaTask (Sg := Sg) (Ch := Ch) (W := W) (Q := Q)).
Notation reach i := (mac_reach (fun j => j = i)).
Notation per_action := (packet_numbers_per_action RX_QUEUE_DEPTH NET_TX_BUFFERS).
Notation in_order := (interface_in_order RX_QUEUE_DEPTH NET_TX_BUFFERS).
Notation task_lmac i := (task_lmac i RX_QUEUE_DEPTH NET_TX_BUFFERS).
Notation calling := (calling (Sg := Sg) (Ch := Ch) (W := W) (Q := Q)).
Notation scanning_call i := (scanning_call (Sg := Sg) (Ch := Ch) (W := W) (Q := Q) i RX_QUEUE_DEPTH NET_TX_BUFFERS).
Implicit Types (st : Station) (s : StaInterface) (t : StaTask) (c : control_call) (sc : scan_call).

(** ** Calls of the control *)

Section One.
Context (interface : nat) (interface_ok : interface < INTERFACE_COUNT).

(** A call that waits has not come to its end. *)
Definition call_waits s c (env : control_events) : Prop :=
  exists st, control_fut interface c (station s) env = Done (Suspended, st).

Lemma after_call_lmac s st : lmac (station (after_call s st)) = lmac st.
Proof. unfold after_call. by destruct (running (station s)), (running st). Qed.

(** A call after some events, by what its future came to. *)
Lemma calling_spec s c env p st :
  control_fut interface c (station s) env = Done (p, st) ->
  exists t o, calling interface s c env = Done (t, o) /\ task_lmac interface t = lmac st /\
    match p with Suspended => t = TkCalling s c env | _ => t = TkReady (after_call s st) end.
Proof.
  intros Hf. unfold StaTask.calling, call_step. rewrite Hf.
  destruct p as [[[]|e] rest| |]; eexists _, _; (split; [done|]); (split; [|done]);
    unfold StaTask.task_lmac; simpl; rewrite ?Hf; by rewrite after_call_lmac.
Qed.

Lemma calling_panic s c env : control_fut interface c (station s) env = Panic -> calling interface s c env = Panic.
Proof. intros Hf. unfold StaTask.calling, call_step. by rewrite Hf. Qed.

Lemma call_resumes c : resumes (task_run interface) (rtc (control_step interface))
  (control_fut (Sg := Sg) (Ch := Ch) (W := W) interface c).
Proof. by apply built_resumes, control_fut_built. Qed.

(** What a call does when it begins, and with an event that is not another interface's. *)
Lemma calling_first s c t o :
  calling interface s c [] = Done (t, o) -> reach interface (lmac (station s)) (task_lmac interface t).
Proof.
  intros Hc. destruct (control_fut interface c (station s) []) as [[p st]|] eqn:Hf.
  - destruct (calling_spec s c [] p st Hf) as (t' & o' & Hc' & Hl & _). rewrite Hc in Hc'.
    injection Hc' as <- <-. rewrite Hl. apply rtc_rtc_reach. by eapply resumes_first; [apply call_resumes|].
  - apply calling_panic in Hf. by rewrite Hf in Hc.
Qed.

Lemma calling_own s c env e t o :
  call_waits s c env -> own_control_event e = true -> calling interface s c (env ++ [e]) = Done (t, o) ->
  reach interface (task_lmac interface (TkCalling s c env)) (task_lmac interface t).
Proof.
  intros [st Hw] He Hc. assert (task_lmac interface (TkCalling s c env) = lmac st) as Hl0.
  { unfold StaTask.task_lmac. simpl. rewrite Hw. apply after_call_lmac. }
  rewrite Hl0. clear Hl0.
  destruct (control_fut interface c (station s) (env ++ [e])) as [[p st']|] eqn:Hf.
  2: { apply calling_panic in Hf. by rewrite Hf in Hc. }
  destruct (calling_spec s c _ p st' Hf) as (t' & o' & Hc' & Hl & _). rewrite Hc in Hc'.
  injection Hc' as <- <-. rewrite Hl. destruct (is_other e) eqn:Ho.
  - destruct e as [|a|]; try done. rewrite (resumes_other _ _ _ _ _ _ _ (call_resumes c) Hw) in Hf.
    destruct (task_run interface st a) as [st2|] eqn:Ht; [|done]. injection Hf as _ <-.
    by eapply task_run_reach.
  - apply rtc_rtc_reach. by eapply resumes_own; [apply call_resumes|..].
Qed.

Lemma calling_other s c env o :
  call_waits s c env -> locks_ok (lm_channel (task_lmac interface (TkCalling s c env))) ->
  exists lm st, mac_step interface (task_lmac interface (TkCalling s c env)) o = Done lm /\
    control_fut interface c (station s) (env ++ [EvOther (TMac o)]) = Done (Suspended, st) /\ lmac st = lm.
Proof.
  intros [st Hw] Hl. assert (task_lmac interface (TkCalling s c env) = lmac st) as Hl0.
  { unfold StaTask.task_lmac. simpl. rewrite Hw. apply after_call_lmac. }
  rewrite Hl0 in *. destruct (mac_step_spec interface (lmac st) o Hl) as (lm & Hm & _).
  exists lm, (with_lmac st lm). split; [done|]. split; [|done].
  rewrite (resumes_other _ _ _ _ _ _ _ (call_resumes c) Hw). simpl. by rewrite Hm.
Qed.

(** ** Scans *)

(** Whether the scan that begins the call still waits, and the interface. *)
Definition scan_state s sc (env : scan_events) : outcome (bool * StaInterface) :=
  let summary {F A} (r : outcome (progress (Own := scan_event) (Other := sta_system_action)
      (Error := StaError) A * Scanner F)) :=
    '(p, w) ← r; mret (match p with Suspended => true | _ => false end, sc_interface w) in
  match sc with
  | CFindEss config ssid =>
      summary (find_ess interface RX_QUEUE_DEPTH NET_TX_BUFFERS config ssid (MkScanner s [] tt) env)
  | CScan config max_bss found =>
      summary (control_scan interface RX_QUEUE_DEPTH NET_TX_BUFFERS config max_bss (MkScanner s [] found) env)
  | CConnectBySsid _ _ ssid _ _ =>
      summary (find_ess interface RX_QUEUE_DEPTH NET_TX_BUFFERS None ssid (MkScanner s [] tt) env)
  end.

(** The step of another task on the interface alone. *)
Definition other_interface s (a : sta_system_action) : outcome StaInterface :=
  if is_control a then mret s
  else match sta_system_step interface RX_QUEUE_DEPTH NET_TX_BUFFERS s a with
  | Some m => '(s, _) ← m; mret s
  | None => mret s
  end.

Definition scan_waits s sc env : Prop := exists s1, scan_state s sc env = Done (true, s1).

Section OneScan.
Context {F A : Type}.
Notation fut := (Async.fut (W := Scanner F (Sg := Sg) (Ch := Ch) (W := W) (Q := Q)) (Own := scan_event)
  (Other := sta_system_action) (Error := StaError)).
Context (m : fut A).
Context (m_built : built (other_task interface RX_QUEUE_DEPTH NET_TX_BUFFERS) (scan_own interface) A m).

Lemma summary_first w b s1 :
  ('(p, w) ← m w []; mret (match p with Suspended => true | _ => false end, sc_interface w)) = Done (b, s1) ->
  reach interface (sc_lmac w) (lmac (station s1)).
Proof.
  intros Hs. apply outcome_bind_Done in Hs as ([p w1] & Hm & [= _ <-]).
  apply (scan_run_reach interface w w1). by eapply resumes_first; [by apply built_resumes|].
Qed.

Lemma summary_own w env e s1 b s2 :
  ('(p, w) ← m w env; mret (match p with Suspended => true | _ => false end, sc_interface w)) = Done (true, s1) ->
  is_other e = false ->
  ('(p, w) ← m w (env ++ [e]); mret (match p with Suspended => true | _ => false end, sc_interface w)) = Done (b, s2) ->
  reach interface (lmac (station s1)) (lmac (station s2)).
Proof.
  intros Hs He Hn. apply outcome_bind_Done in Hs as ([p w1] & Hm & [= Hp <-]).
  destruct p; try done. apply outcome_bind_Done in Hn as ([p w2] & Hm2 & [= _ <-]).
  apply (scan_run_reach interface w1 w2). by eapply resumes_own; [by apply built_resumes|..].
Qed.

Lemma summary_other w env a s1 :
  ('(p, w) ← m w env; mret (match p with Suspended => true | _ => false end, sc_interface w)) = Done (true, s1) ->
  ('(p, w) ← m w (env ++ [EvOther a]); mret (match p with Suspended => true | _ => false end, sc_interface w)) =
    (s ← other_interface s1 a; mret (true, s)).
Proof.
  intros Hs. apply outcome_bind_Done in Hs as ([p w1] & Hm & [= Hp <-]). destruct p; try done.
  rewrite (resumes_other _ _ _ _ _ _ a (built_resumes _ _ _ m_built) Hm).
  unfold other_task, other_interface. destruct (is_control a); [done|].
  by destruct (sta_system_step _ _ _ _ a) as [[[s' o]|]|].
Qed.
End OneScan.

Lemma scan_first s sc b s1 :
  scan_state s sc [] = Done (b, s1) -> reach interface (lmac (station s)) (lmac (station s1)).
Proof.
  destruct sc as [config ssid|config max_bss found|mp snonce ssid config creds]; simpl;
    [apply (summary_first _ (made_find_ess _ interface_ok _ _ _ _) (MkScanner s [] tt))
    |apply (summary_first _ (made_control_scan _ interface_ok _ _ _ _) (MkScanner s [] found))
    |apply (summary_first _ (made_find_ess _ interface_ok _ _ _ _) (MkScanner s [] tt))].
Qed.

Lemma scan_own_event s sc env e s1 b s2 :
  scan_state s sc env = Done (true, s1) -> is_other e = false -> scan_state s sc (env ++ [e]) = Done (b, s2) ->
  reach interface (lmac (station s1)) (lmac (station s2)).
Proof.
  destruct sc as [config ssid|config max_bss found|mp snonce ssid config creds]; simpl;
    [apply (summary_own _ (made_find_ess _ interface_ok _ _ _ _))|apply (summary_own _ (made_control_scan _ interface_ok _ _ _ _))
    |apply (summary_own _ (made_find_ess _ interface_ok _ _ _ _))].
Qed.

Lemma scan_other_event s sc env a s1 :
  scan_state s sc env = Done (true, s1) ->
  scan_state s sc (env ++ [EvOther a]) = (s ← other_interface s1 a; mret (true, s)).
Proof.
  destruct sc as [config ssid|config max_bss found|mp snonce ssid config creds]; simpl;
    [apply (summary_other _ (made_find_ess _ interface_ok _ _ _ _))|apply (summary_other _ (made_control_scan _ interface_ok _ _ _ _))
    |apply (summary_other _ (made_find_ess _ interface_ok _ _ _ _))].
Qed.

(** The call, by the state of its scan. *)
Lemma scan_lmac s sc env s1 :
  scan_state s sc env = Done (true, s1) -> task_lmac interface (TkScanning s sc env) = lmac (station s1).
Proof.
  unfold StaTask.task_lmac. destruct sc as [config ssid|config max_bss found|mp snonce ssid config creds]; simpl;
    intros Hs; apply outcome_bind_Done in Hs as ([p w1] & -> & [= _ <-]); done.
Qed.

Lemma scanning_spec s sc env b s1 t o :
  scan_state s sc env = Done (b, s1) -> scanning_call interface s sc env = Done (t, o) ->
  if b then t = TkScanning s sc env
  else t = TkReady s1 \/ exists mp snonce bss config creds o',
    calling interface s1 (CConnect mp snonce bss config creds) [] = Done (t, o').
Proof.
  destruct sc as [config ssid|config max_bss found|mp snonce ssid config creds]; simpl;
    unfold scan_step, then_done; intros Hs; apply outcome_bind_Done in Hs as ([p w1] & -> & [= <- <-]).
  - destruct p; simpl; intros [= <- _]; auto.
  - destruct p; simpl; intros [= <- _]; auto.
  - destruct p as [[bss|e] rest| |]; simpl.
    + intros Hc. right. by do 6 eexists.
    + intros [= <- _]; auto.
    + intros [= <- _]; auto.
    + intros [= <- _]; auto.
Qed.

Lemma scan_panics s sc env : scan_state s sc env = Panic -> scanning_call interface s sc env = Panic.
Proof.
  destruct sc as [config ssid|config max_bss found|mp snonce ssid config creds]; simpl;
    unfold scan_step, then_done.
  1, 3: by destruct (find_ess _ _ _ _ _ _ _) as [[? ?]|].
  by destruct (control_scan _ _ _ _ _ _ _) as [[? ?]|].
Qed.

Lemma scanning_reach s sc env b s1 t o :
  scan_state s sc env = Done (b, s1) -> scanning_call interface s sc env = Done (t, o) ->
  reach interface (lmac (station s1)) (task_lmac interface t).
Proof.
  intros Hs Hc. pose proof (scanning_spec s sc env b s1 t o Hs Hc) as Hsp. destruct b.
  - subst t. rewrite (scan_lmac _ _ _ _ Hs). apply mac_reach_refl.
  - destruct Hsp as [->|(mp & snonce & bss & config & creds & o' & Hc')]; [apply mac_reach_refl|].
    by eapply calling_first.
Qed.

(** ** One step *)

Definition waits t : Prop :=
  match t with
  | TkReady _ => True
  | TkCalling s c env => call_waits s c env
  | TkScanning s sc env => scan_waits s sc env
  end.

Lemma station_step_reach t x t' o :
  waits t -> station_step interface RX_QUEUE_DEPTH NET_TX_BUFFERS t x = Some (Done (t', o)) ->
  reach interface (task_lmac interface t) (task_lmac interface t').
Proof.
  intros Hw Hs. destruct t as [s|s c env|s sc env], x as [a|c'|sc'|e|e]; try done; cbn [station_step] in Hs.
  - destruct (own_action a) eqn:Ha; [|done].
    destruct (sta_system_step _ _ _ s a) as [[[s' o']|]|] eqn:Hst; try done. injection Hs as <- _.
    by eapply own_action_reach.
  - injection Hs as Hs. by apply calling_first in Hs.
  - injection Hs as Hs. destruct (scan_state s sc' []) as [[b s1]|] eqn:Hsc.
    + eapply mac_reach_trans; [by apply (scan_first s sc' b s1)|by eapply scanning_reach].
    + apply scan_panics in Hsc. congruence.
  - destruct (own_control_event e) eqn:He; [|done]. injection Hs as Hs. by eapply calling_own.
  - destruct (own_scan_event e) eqn:He; [|done]. injection Hs as Hs. destruct Hw as [s1 Hw].
    rewrite (scan_lmac _ _ _ _ Hw).
    destruct (scan_state s sc (env ++ [e])) as [[b s2]|] eqn:Hsc.
    2: { apply scan_panics in Hsc. congruence. }
    eapply mac_reach_trans; [|by eapply scanning_reach]. destruct (is_other e) eqn:Ho.
    + destruct e as [|a|]; try done. rewrite (scan_other_event _ _ _ _ _ Hw) in Hsc.
      apply outcome_bind_Done in Hsc as (s3 & Ht & [= _ <-]). apply andb_true_iff in He as [Ha Hc].
      unfold other_interface in Ht. destruct (is_control a); [done|].
      destruct (sta_system_step _ _ _ s1 a) as [[[s4 o4]|]|] eqn:Hst;
        [injection Ht as <-|done|injection Ht as <-; apply mac_reach_refl].
      by eapply own_action_reach.
    + by eapply scan_own_event.
Qed.

(** ** What a station needs *)

(** Packet numbers: a poll of the interface, a call, and a poll during a scan take some. *)
Definition task_cost (x : station_action) : nat :=
  match x with XAct _ | XCall _ | XScan _ => 1 | XEvent _ => 0 | XScanEvent e => event_cost e end.
Definition task_costs (xs : list station_action) : Z := (Z.of_nat (sum_list (task_cost <$> xs)) * per_action)%Z.

Lemma task_costs_cons x xs : task_costs (x :: xs) = (Z.of_nat (task_cost x) * per_action + task_costs xs)%Z.
Proof. unfold task_costs. cbn [fmap list_fmap sum_list]. by rewrite Nat2Z.inj_add, Z.mul_add_distr_r. Qed.
Lemma task_costs_nonneg xs : (0 <= task_costs xs)%Z.
Proof. apply Z.mul_nonneg_nonneg; apply Nat2Z.is_nonneg. Qed.

Definition task_action_ok (x : station_action) : Prop :=
  match x with XAct a => action_in_order a | XScanEvent e => event_in_order e | _ => True end.

(** The interface was in order when the call began, with packet numbers for the rest. *)
Definition task_numbers (xs : list station_action) t : Prop :=
  match t with
  | TkReady s => exists n, (1 <= n)%Z /\ in_order n s /\ (n + task_costs xs <= MAX_PN)%Z
  | TkCalling s c env => exists n, (1 <= n)%Z /\ in_order n s /\ (n + per_action + task_costs xs <= MAX_PN)%Z
  | TkScanning s sc env => Forall event_in_order env /\ exists n, (1 <= n)%Z /\ in_order n s /\
      (n + event_costs RX_QUEUE_DEPTH NET_TX_BUFFERS env + per_action + task_costs xs <= MAX_PN)%Z
  end.

Record task_ok (xs : list station_action) t : Prop := {
  tk_actions : Forall task_action_ok xs;
  tk_waits : waits t;
  tk_locks : locks_ok (lm_channel (task_lmac interface t));
  tk_numbers : task_numbers xs t;
}.

(** ** No call panics *)

Lemma calling_safe n s c env xs :
  in_order n s -> (1 <= n)%Z -> (n + per_action + task_costs xs <= MAX_PN)%Z ->
  match calling interface s c env with
  | Done (t, _) => waits t /\ task_numbers xs t
  | Panic => False
  end.
Proof.
  intros Hs Hn HM. pose proof (task_costs_nonneg xs) as Hx.
  assert (n + per_action <= MAX_PN)%Z as Hmax by lia.
  set (a := match c with
    | CConnect mp snonce bss config creds => YConnect mp snonce bss config creds env
    | CDisconnect => YDisconnect env | CRekey => YRekey env end).
  assert (action_in_order a) as Ha by by destruct c.
  assert (sta_system_step interface RX_QUEUE_DEPTH NET_TX_BUFFERS s a = call_step s (control_fut interface c) env) as Heq
    by by destruct c.
  pose proof (step_in_order interface interface_ok RX_QUEUE_DEPTH NET_TX_BUFFERS n s a Hs Ha Hn Hmax) as Hst.
  rewrite Heq in Hst. clear Heq Ha a. unfold StaTask.calling.
  destruct (call_step s _ env) as [[[s' o]|]|] eqn:Hc; [|done|].
  - split; [done|]. exists (n + per_action)%Z. split; [|done].
    pose proof (per_action_pos RX_QUEUE_DEPTH NET_TX_BUFFERS). lia.
  - split; [|by exists n]. unfold call_step in Hc. unfold waits, call_waits.
    destruct (control_fut interface c (station s) env) as [[[| |] st]|]; try done. by eexists.
Qed.

(** The scan that begins a call. *)
Lemma scan_state_safe n s sc env :
  in_order n s -> Forall event_in_order env -> (1 <= n)%Z ->
  (n + event_costs RX_QUEUE_DEPTH NET_TX_BUFFERS env <= MAX_PN)%Z ->
  match scan_state s sc env with
  | Done (false, s1) => in_order (n + event_costs RX_QUEUE_DEPTH NET_TX_BUFFERS env) s1
  | Done (true, _) => True
  | Panic => False
  end.
Proof.
  intros Hs He Hn HM. destruct sc as [config ssid|config max_bss found|mp snonce ssid config creds]; simpl;
    [pose proof (find_ess_given_back interface interface_ok _ _ config ssid n s env Hs He HM) as Hg
    |pose proof (control_scan_given_back interface interface_ok _ _ config max_bss found n s env Hs He HM) as Hg
    |pose proof (find_ess_given_back interface interface_ok _ _ None ssid n s env Hs He HM) as Hg];
    revert Hg; unfold scan_step;
    [destruct (find_ess _ _ _ _ _ _ _) as [[p w]|]|destruct (control_scan _ _ _ _ _ _ _) as [[p w]|]
    |destruct (find_ess _ _ _ _ _ _ _) as [[p w]|]]; try done; destruct p; try done; simpl; by intros [Hi _].
Qed.

Lemma scanning_safe n s sc env xs :
  in_order n s -> Forall event_in_order env -> (1 <= n)%Z ->
  (n + event_costs RX_QUEUE_DEPTH NET_TX_BUFFERS env + per_action + task_costs xs <= MAX_PN)%Z ->
  match scanning_call interface s sc env with
  | Done (t, _) => waits t /\ task_numbers xs t
  | Panic => False
  end.
Proof.
  intros Hs He Hn HM. pose proof (task_costs_nonneg xs) as Hx.
  pose proof (per_action_pos RX_QUEUE_DEPTH NET_TX_BUFFERS) as Hpos.
  pose proof (event_costs_nonneg RX_QUEUE_DEPTH NET_TX_BUFFERS env) as Hev.
  assert (n + event_costs RX_QUEUE_DEPTH NET_TX_BUFFERS env <= MAX_PN)%Z as Hmax by lia.
  pose proof (scan_state_safe n s sc env Hs He Hn Hmax) as Hsafe.
  destruct (scan_state s sc env) as [[b s1]|] eqn:Hsc; [|done].
  set (n1 := (n + event_costs RX_QUEUE_DEPTH NET_TX_BUFFERS env)%Z) in *.
  assert (b = false -> forall mp snonce bss config creds,
    match calling interface s1 (CConnect mp snonce bss config creds) [] with
    | Done (t, _) => waits t /\ task_numbers xs t | Panic => False end) as Hcall.
  { intros -> mp snonce bss config creds. apply (calling_safe n1); [done|lia|lia]. }
  assert (b = false -> task_numbers xs (TkReady s1)) as Hready.
  { intros ->. exists n1. split; [lia|]. split; [done|lia]. }
  assert (b = true -> waits (TkScanning s sc env) /\ task_numbers xs (TkScanning s sc env)) as Hwait.
  { intros ->. split; [by eexists|]. split; [done|]. by exists n. }
  revert Hsc. destruct sc as [config ssid|config max_bss found|mp snonce ssid config creds]; simpl;
    unfold scan_step, then_done; intros Hsc; apply outcome_bind_Done in Hsc as ([p w] & -> & [= <- <-]);
    destruct p as [[r|e] rest| |]; simpl;
    first [exact (conj I (Hready eq_refl))|exact (Hwait eq_refl)|apply (Hcall eq_refl)].
Qed.

(** ** The laws of a client *)

Lemma locks_follow t t' :
  reach interface (task_lmac interface t) (task_lmac interface t') ->
  locks_ok (lm_channel (task_lmac interface t)) -> locks_ok (lm_channel (task_lmac interface t')).
Proof. apply mac_reach_locks. Qed.

Lemma station_safe x xs t :
  task_ok (x :: xs) t ->
  match station_step interface RX_QUEUE_DEPTH NET_TX_BUFFERS t x with
  | Some Panic => False
  | Some (Done (t', _)) => task_ok xs t'
  | None => True
  end.
Proof.
  intros [Ha Hw Hl Hn]. apply Forall_cons in Ha as [Hx Ha].
  assert (match station_step interface RX_QUEUE_DEPTH NET_TX_BUFFERS t x with
    | Some Panic => False
    | Some (Done (t', _)) => waits t' /\ task_numbers xs t'
    | None => True
    end) as Hst.
  2: { destruct (station_step _ _ _ t x) as [[[t' o]|]|] eqn:Hs; [|done..]. destruct Hst as [Hw' Hn'].
       split; try done. apply (locks_follow t); [by eapply (station_step_reach t x)|done]. }
  pose proof (task_costs_nonneg xs) as Hpos. pose proof (per_action_pos RX_QUEUE_DEPTH NET_TX_BUFFERS) as Hper.
  destruct t as [s|s c env|s sc env], x as [a|c'|sc'|e|e]; try done; cbn [station_step task_numbers] in *;
    rewrite task_costs_cons in Hn; cbn [task_cost] in Hn.
  - destruct Hn as (n & Hn1 & Hs & Hn). destruct (own_action a); [|done].
    assert (n + per_action <= MAX_PN)%Z as Hmax by lia.
    pose proof (step_in_order interface interface_ok RX_QUEUE_DEPTH NET_TX_BUFFERS n s a Hs Hx Hn1 Hmax) as Hst.
    destruct (sta_system_step _ _ _ s a) as [[[s' o]|]|]; [|done..]. split; [done|].
    exists (n + per_action)%Z. split; [lia|]. split; [done|lia].
  - destruct Hn as (n & Hn1 & Hs & Hn). apply (calling_safe n); [done..|lia].
  - destruct Hn as (n & Hn1 & Hs & Hn). apply (scanning_safe n); [done..|].
    change (event_costs RX_QUEUE_DEPTH NET_TX_BUFFERS []) with 0%Z. lia.
  - destruct Hn as (n & Hn1 & Hs & Hn). destruct (own_control_event e); [|done].
    apply (calling_safe n); [done..|lia].
  - destruct Hn as (He & n & Hn1 & Hs & Hn). destruct (own_scan_event e); [|done].
    apply (scanning_safe n); [done|by apply Forall_app; split; [|constructor]|done|].
    rewrite event_costs_app, event_costs_cons. change (event_costs RX_QUEUE_DEPTH NET_TX_BUFFERS []) with 0%Z. lia.
Qed.

Lemma station_rely xs t o :
  task_ok xs t -> exists t', station_mac interface RX_QUEUE_DEPTH NET_TX_BUFFERS t o = Done t' /\
    task_ok xs t' /\ mac_step interface (task_lmac interface t) o = Done (task_lmac interface t').
Proof.
  intros [Ha Hw Hl Hn]. destruct (mac_step_spec interface (task_lmac interface t) o Hl) as (lm & Hm & [Hok _] & _).
  enough (exists t', station_mac interface RX_QUEUE_DEPTH NET_TX_BUFFERS t o = Done t' /\ waits t' /\
    task_numbers xs t' /\ task_lmac interface t' = lm) as (t' & Ht & Hw' & Hn' & <-).
  { exists t'. by split_and!. }
  destruct t as [s|s c env|s sc env]; cbn [station_mac task_numbers waits] in *.
  - change (task_lmac interface (TkReady s)) with (lmac (station s)) in Hm. rewrite Hm.
    eexists. split; [done|]. split; [done|]. split; [|done]. destruct Hn as (n & Hn1 & Hs & Hn).
    exists n. split; [done|]. split; [|done]. by eapply lmac_in_order.
  - destruct (calling_other s c env o Hw Hl) as (lm' & st & Hm' & Hf & <-). rewrite Hm in Hm'. injection Hm' as ->.
    destruct (calling_spec s c _ _ _ Hf) as (t' & o' & Hc & Hlm & ->). rewrite Hc.
    eexists. split; [done|]. split; [by eexists|]. split; [exact Hn|done].
  - destruct Hw as [s1 Hw]. rewrite (scan_lmac _ _ _ _ Hw) in Hm. destruct Hn as (He & n & Hn1 & Hs & Hn).
    assert (scan_state s sc (env ++ [EvOther (YMac o)]) =
      Done (true, set_station s1 (with_lmac (station s1) lm))) as Hsc.
    { rewrite (scan_other_event _ _ _ _ _ Hw). unfold other_interface. simpl. by rewrite Hm. }
    assert (task_numbers xs (TkScanning s sc (env ++ [EvOther (YMac o)]))) as Hn'.
    { split; [by apply Forall_app; split; [|repeat constructor]|]. exists n. split; [done|]. split; [done|].
      rewrite event_costs_app, event_costs_cons. change (event_costs RX_QUEUE_DEPTH NET_TX_BUFFERS []) with 0%Z.
      cbn [event_cost action_cost]. lia. }
    destruct Hn' as (He' & n' & Hn1' & Hs' & HM').
    pose proof (scanning_safe n' s sc _ xs Hs' He' Hn1' HM') as Hsafe.
    destruct (scanning_call interface s sc _) as [[t' o']|] eqn:Hc; [|done].
    pose proof (scanning_spec _ _ _ _ _ _ _ Hsc Hc) as Hsp. cbv iota in Hsp. subst t'.
    exists (TkScanning s sc (env ++ [EvOther (YMac o)])). destruct Hsafe as [Hw2 Hn2].
    split; [done|]. split; [done|]. split; [done|]. by rewrite (scan_lmac _ _ _ _ Hsc).
Qed.
End One.

(** ** Calls that take time are calls of the interface

    The interface as it was when the call that waits began. *)
Definition task_origin t : StaInterface :=
  match t with TkReady s | TkCalling s _ _ | TkScanning s _ _ => s end.

Notation scan_system_step i := (scan_system_step i RX_QUEUE_DEPTH NET_TX_BUFFERS).
Notation big_run i s acts := (run (scan_system_step i) s acts).

Lemma big_one i s a s' o : scan_system_step i s a = Some (Done (s', o)) ->
  exists acts os, big_run i s acts = Some (Done (s', os)).
Proof. intros Hs. exists [a], [o]. simpl. by rewrite Hs. Qed.

Lemma calling_big i s c env t o :
  calling i s c env = Done (t, o) ->
  exists acts os, big_run i s acts = Some (Done (task_origin t, os)).
Proof.
  intros Hc. unfold StaTask.calling in Hc.
  set (a := match c with
    | CConnect mp snonce bss config creds => YConnect mp snonce bss config creds env
    | CDisconnect => YDisconnect env | CRekey => YRekey env end).
  assert (scan_system_step i s (ZInterface a) =
    then_done (call_step s (control_fut i c) env) (fun '(s, o) => mret (s, ZOInterface o))) as Ha
    by (subst a; destruct c; reflexivity).
  destruct (call_step s (control_fut i c) env) as [[[s' o']|]|]; simpl in Hc; [|done|].
  - injection Hc as <- _. by eapply big_one.
  - injection Hc as <- _. by exists [], [].
Qed.

Lemma scanning_big i s sc env t o :
  scanning_call i s sc env = Done (t, o) ->
  exists acts os, big_run i s acts = Some (Done (task_origin t, os)).
Proof.
  intros Hc. destruct sc as [config ssid|config max_bss found|mp snonce ssid config creds];
    cbn [StaTask.scanning_call] in Hc.
  - destruct (StaScan.scan_system_step _ _ _ s _) as [[[s' o']|]|] eqn:Hs; simpl in Hc; [|done|].
    + injection Hc as <- _. by eapply big_one.
    + injection Hc as <- _. by exists [], [].
  - destruct (StaScan.scan_system_step _ _ _ s _) as [[[s' o']|]|] eqn:Hs; simpl in Hc; [|done|].
    + injection Hc as <- _. by eapply big_one.
    + injection Hc as <- _. by exists [], [].
  - assert (scan_system_step i s (ZFindEss None ssid env) =
      then_done (scan_step s tt env (find_ess i RX_QUEUE_DEPTH NET_TX_BUFFERS None ssid))
        (fun '(r, w) => mret (sc_interface w, ZOFindEss r (sc_calls w)))) as Hz by done.
    destruct (scan_step s tt env _) as [[[r w]|]|]; simpl in Hc; [|done|].
    + cbn [then_done mbind outcome_bind mret outcome_ret] in Hz. destruct r as [[bss|e]|]; [|injection Hc as <- _; by eapply big_one..].
      apply calling_big in Hc as (acts & os & Hr). exists (ZFindEss None ssid env :: acts), (ZOFindEss (Some (Ok bss)) (sc_calls w) :: os).
      apply run_cons. eexists _, _, _. split; [exact Hz|]. by split.
    + injection Hc as <- _. by exists [], [].
Qed.

Lemma station_step_big i t x t' o :
  station_step i RX_QUEUE_DEPTH NET_TX_BUFFERS t x = Some (Done (t', o)) ->
  exists acts os, big_run i (task_origin t) acts = Some (Done (task_origin t', os)).
Proof.
  intros Hs. destruct t as [s|s c env|s sc env], x as [a|c'|sc'|e|e]; try done; cbn [station_step] in Hs.
  - destruct (own_action a); [|done].
    destruct (sta_system_step _ _ _ s a) as [[[s' o']|]|] eqn:Hst; try done. injection Hs as <- _.
    apply (big_one i s (ZInterface a) s' (ZOInterface o')). simpl. by rewrite Hst.
  - injection Hs as Hs. by apply calling_big in Hs.
  - injection Hs as Hs. by apply scanning_big in Hs.
  - destruct (own_control_event e); [|done]. injection Hs as Hs. by apply calling_big in Hs.
  - destruct (own_scan_event e); [|done]. injection Hs as Hs. by apply scanning_big in Hs.
Qed.

Lemma station_mac_big i t o t' :
  station_mac i RX_QUEUE_DEPTH NET_TX_BUFFERS t o = Done t' ->
  exists acts os, big_run i (task_origin t) acts = Some (Done (task_origin t', os)).
Proof.
  destruct t as [s|s c env|s sc env]; cbn [station_mac]; intros Hs.
  - apply outcome_bind_Done in Hs as (lm & Hm & [= <-]).
    apply (big_one i s (ZInterface (YMac o)) _ (ZOInterface YODone)). simpl. by rewrite Hm.
  - apply outcome_bind_Done in Hs as ([t1 o1] & Hc & [= <-]). by apply calling_big in Hc.
  - apply outcome_bind_Done in Hs as ([t1 o1] & Hc & [= <-]). by apply scanning_big in Hc.
Qed.

#[export] Instance station_client : MacClient StaTask station_action := {
  client_lmac i t := task_lmac i t;
  client_step i t x :=
    match station_step i RX_QUEUE_DEPTH NET_TX_BUFFERS t x with
    | Some m => Some ('(t, _) ← m; mret t)
    | None => None
    end;
  client_mac i t o := station_mac i RX_QUEUE_DEPTH NET_TX_BUFFERS t o;
}.

#[export] Instance station_client_laws : MacClientLaws StaTask station_action.
Proof.
  refine {| client_ok := fun i xs t => i < INTERFACE_COUNT /\ task_ok i xs t |}.
  - intros i xs t [_ Ht]. by apply tk_locks in Ht.
  - intros i xs x t [Hi Ht]. pose proof (station_safe i Hi x xs t Ht) as Hs. simpl.
    by destruct (station_step _ _ _ t x) as [[[t' o]|]|].
  - intros i xs t o [Hi Ht]. destruct (station_rely i Hi xs t o Ht) as (t' & Hm & Ht' & Hl). by exists t'.
  - intros i xs t x t' [Hi Ht] Hs. simpl in Hs.
    destruct (station_step _ _ _ t x) as [[[t1 o]|]|] eqn:Hst; try done. injection Hs as <-.
    destruct Ht as [_ Hw _ _]. exact (station_step_reach i Hi t x t1 o Hw Hst).
Defined.
End StationClient.
