(* ===== verification/AwdlSync.v ===== *)
(** * AWDL time synchronisation: foa_awdl/src/peer.rs, [SynchronizationState]

    The slots of an AWDL channel sequence, the time at which one starts, and the
    synchronisation parameters that carry a station's epoch to its peers.  Instants
    and durations are integers of microseconds; [TU] is the crate's time unit.  The
    clock reading [now] is an argument where the code calls [Instant::now]. *)
From S2P Require Import Prelude Bytes Eapol.

(** What the code reads of a received action frame.  The two TLVs of each kind are
    the first of their kind in the frame. *)
Inductive ChannelSequence : Type :=
| Simple (channels : list Z)
| Legacy (channels : list (Z * Z))
| OpClass (channels : list (Z * Z)).

(** The fields that vary or are read; the others of the TLV are constants. *)
Record SynchronizationParametersTLV : Type := MkSynchronizationParametersTLV {
  next_channel_field : Z;
  tx_counter : Z;
  aw_period : Z;
  remaining_aw_length_field : Z;
  master_address_field : list Z;
  aw_seq_number_field : Z;
  channel_sequence_field : ChannelSequence;
}.

Record SynchronizationState : Type := MkSynchronizationState {
  channel_sequence : list Z;
  tsf_epoch_in_us : Z;
}.

Inductive OverlapSlotState : Type :=
| NoOverlappingSlots
| PeerNotInCache
| CurrentlyOverlapping
| OverlappingAt (timestamp : Z).

Section Sync.
Context (TU : Z).
Implicit Types (st : SynchronizationState) (d now : Z).

Definition AW_PER_SLOT : Z := 4.
Definition TU_PER_AW : Z := 16.
Definition SLOTS_PER_CHANNEL_SEQUENCE : Z := 16.
Definition AW_DURATION_IN_US : Z := (TU * TU_PER_AW)%Z.
Definition SLOT_DURATION : Z := (AW_PER_SLOT * TU_PER_AW * TU)%Z.
Definition CHANNEL_SEQUENCE_DURATION : Z := (SLOT_DURATION * SLOTS_PER_CHANNEL_SEQUENCE)%Z.

Definition sync_uninit : SynchronizationState := MkSynchronizationState (replicate 16 6%Z) 0.

Definition sync_new (channel now : Z) : SynchronizationState :=
  MkSynchronizationState (replicate 16 channel) now.

Definition sync_adopt_master st (master : SynchronizationState) : SynchronizationState :=
  MkSynchronizationState (channel_sequence st) (tsf_epoch_in_us master).

(** The product and the sum are of [u32]. *)
Definition recover_tsf_epoch (tlv : SynchronizationParametersTLV) (tx_delta rx_timestamp : Z) : Z :=
  let tu_since_first_aw :=
    wrapping 32 (wrapping 32 (aw_period tlv * aw_seq_number_field tlv) +
      remaining_aw_length_field tlv) in
  let elapsed_since_tsf_epoch := (TU * tu_since_first_aw - tx_delta)%Z in
  (rx_timestamp - elapsed_since_tsf_epoch)%Z.

Definition channels_of (c : ChannelSequence) : list Z :=
  match c with
  | Simple l => l
  | Legacy l => snd <$> l
  | OpClass l => fst <$> l
  end.

(** [from_af], on the frame's channel sequence TLV, its synchronisation TLV, and the
    transmission delay if it converts. *)
Definition sync_from_af (sequence : option ChannelSequence)
  (params : option SynchronizationParametersTLV) (tx_delta : option Z) (rx_timestamp : Z)
  : outcome (option SynchronizationState) :=
  match channels_of <$> sequence with
  | None => mret None
  | Some channels =>
      match params with
      | None => mret None
      | Some tlv =>
          delta ← expect tx_delta;
          mret (Some (MkSynchronizationState channels (recover_tsf_epoch tlv delta rx_timestamp)))
      end
  end.

Definition elapsed_since_tsf_epoch st now : Z := wrapping 64 (now - tsf_epoch_in_us st).

Definition aw_seq_number d : Z := wrapping 16 (d / AW_DURATION_IN_US).

Definition remaining_aw_length d : Z := wrapping 16 (d mod AW_DURATION_IN_US / TU).

Definition remaining_slot_length d : Z :=
  wrapping 16 (d mod (AW_DURATION_IN_US * AW_PER_SLOT) / TU).

Definition current_slot_index d : Z :=
  (aw_seq_number d / AW_PER_SLOT mod SLOTS_PER_CHANNEL_SEQUENCE)%Z.

Definition next_slot_index d : Z :=
  ((aw_seq_number d / AW_PER_SLOT + 1) mod SLOTS_PER_CHANNEL_SEQUENCE)%Z.

Definition next_channel st d : outcome Z :=
  expect (channel_sequence st !! Z.to_nat (next_slot_index d)).

Definition slot_start_timestamp st now (slot offset : Z) : Z :=
  let duration_since_epoch := wrapping 64 (now - tsf_epoch_in_us st) in
  let elapsed_since_chan_seq_start := (duration_since_epoch mod CHANNEL_SEQUENCE_DURATION)%Z in
  let channel_sequence_start_timestamp :=
    if decide (elapsed_since_chan_seq_start <= now)%Z
    then (now - elapsed_since_chan_seq_start)%Z else now in
  let time_to_slot_from_zero := (SLOT_DURATION * slot + offset)%Z in
  (channel_sequence_start_timestamp +
   if decide (time_to_slot_from_zero < elapsed_since_chan_seq_start)%Z
   then (time_to_slot_from_zero + CHANNEL_SEQUENCE_DURATION)%Z
   else time_to_slot_from_zero)%Z.

Definition multicast_slot_start_timestamp st now : Z := slot_start_timestamp st now 9 0.

Definition sequences_agree st (other : SynchronizationState) (slot : nat) : bool :=
  match channel_sequence st !! slot, channel_sequence other !! slot with
  | Some c, Some c' => bool_decide (c = c')
  | _, _ => false
  end.

Definition next_overlap_timestamp st (other : SynchronizationState) now : outcome OverlapSlotState :=
  let current_slot := Z.to_nat (current_slot_index (elapsed_since_tsf_epoch st now)) in
  c ← expect (channel_sequence st !! current_slot);
  c' ← expect (channel_sequence other !!
         Z.to_nat (current_slot_index (elapsed_since_tsf_epoch other now)));
  if decide (c = c') then mret CurrentlyOverlapping
  else mret
    match list_find (fun slot => sequences_agree st other slot = true)
            (seq current_slot (16 - current_slot) ++ seq 0 current_slot) with
    | Some (_, slot) => OverlappingAt (slot_start_timestamp st now (Z.of_nat slot) 0)
    | None => NoOverlappingSlots
    end.

Definition mif_transmition_time st now : Z :=
  let d := elapsed_since_tsf_epoch st now in
  let slot := if decide (remaining_slot_length d < 32)%Z
    then next_slot_index d else current_slot_index d in
  slot_start_timestamp st now slot (TU * 16).

Definition generate_tlv st now (master_address : list Z)
  : outcome SynchronizationParametersTLV :=
  let d := elapsed_since_tsf_epoch st now in
  channel ← next_channel st d;
  mret (MkSynchronizationParametersTLV channel (remaining_slot_length d) 16
    (remaining_aw_length d) master_address (aw_seq_number d)
    (Legacy ((fun c => (2%Z, c)) <$> channel_sequence st))).
End Sync.

Section SyncFacts.
Context (TU : Z) (TU_pos : (0 < TU)%Z) (TU_small : (TU < 2 ^ 16)%Z).
Implicit Types (st : SynchronizationState) (d now : Z).

Lemma AW_DURATION_eq : AW_DURATION_IN_US TU = (16 * TU)%Z.
Proof. unfold AW_DURATION_IN_US, TU_PER_AW. lia. Qed.
Lemma SLOT_DURATION_eq : SLOT_DURATION TU = (64 * TU)%Z.
Proof. unfold SLOT_DURATION, AW_PER_SLOT, TU_PER_AW. lia. Qed.
Lemma CHANNEL_SEQUENCE_DURATION_eq : CHANNEL_SEQUENCE_DURATION TU = (1024 * TU)%Z.
Proof. unfold CHANNEL_SEQUENCE_DURATION. rewrite SLOT_DURATION_eq.
  unfold SLOTS_PER_CHANNEL_SEQUENCE. lia. Qed.

(** The truncation of the window number to sixteen bits drops whole sequences. *)
Lemma aw_slot d : (0 <= d)%Z ->
  exists k, (aw_seq_number TU d / AW_PER_SLOT = d / (64 * TU) - 2 ^ 14 * k)%Z.
Proof.
  intros Hd. unfold aw_seq_number, AW_PER_SLOT, wrapping. rewrite AW_DURATION_eq.
  exists (d / (16 * TU) / 2 ^ 16)%Z.
  replace (d / (64 * TU))%Z with (d / (16 * TU) / 4)%Z
    by (rewrite Z.div_div by lia; f_equal; lia).
  set (q := (d / (16 * TU))%Z). rewrite (Z.mod_eq q (2 ^ 16)) by lia.
  replace (q - 2 ^ 16 * (q / 2 ^ 16))%Z with (q + (- (2 ^ 14 * (q / 2 ^ 16))) * 4)%Z by lia.
  rewrite Z.div_add by lia. lia.
Qed.

Lemma slots_exact d : (0 <= d)%Z ->
  current_slot_index TU d = (d / (64 * TU) mod 16)%Z /\
  next_slot_index TU d = ((d / (64 * TU) + 1) mod 16)%Z.
Proof.
  intros Hd. destruct (aw_slot d Hd) as [k Hk].
  unfold current_slot_index, next_slot_index, SLOTS_PER_CHANNEL_SEQUENCE. rewrite Hk.
  replace (d / (64 * TU) - 2 ^ 14 * k)%Z with (d / (64 * TU) + (- (2 ^ 10 * k)) * 16)%Z by lia.
  replace (d / (64 * TU) + - (2 ^ 10 * k) * 16 + 1)%Z
    with (d / (64 * TU) + 1 + - (2 ^ 10 * k) * 16)%Z by lia.
  by rewrite !Z.mod_add by lia.
Qed.

(** Where the clock is in the current channel sequence. *)
Lemma sequence_position d : (0 <= d)%Z ->
  (d mod (1024 * TU) = 64 * TU * current_slot_index TU d + d mod (64 * TU))%Z.
Proof.
  intros Hd. destruct (slots_exact d Hd) as [-> _].
  replace (1024 * TU)%Z with (64 * TU * 16)%Z by lia.
  rewrite Z.rem_mul_r by lia. lia.
Qed.

Lemma slot_start_eq st now slot offset :
  (tsf_epoch_in_us st <= now < tsf_epoch_in_us st + 2 ^ 64)%Z ->
  ((now - tsf_epoch_in_us st) mod (1024 * TU) <= now)%Z ->
  slot_start_timestamp TU st now slot offset =
    (let e := (now - tsf_epoch_in_us st) mod (1024 * TU) in
     let p := 64 * TU * slot + offset in
     now - e + if decide (p < e) then p + 1024 * TU else p)%Z.
Proof.
  intros Hnow He. unfold slot_start_timestamp.
  rewrite wrapping_small by (unfold in_width; lia).
  rewrite CHANNEL_SEQUENCE_DURATION_eq, SLOT_DURATION_eq.
  by rewrite (decide_True (P := (_ <= now)%Z)) by done.
Qed.

Lemma mod_shift a n r : (0 < n)%Z -> (0 <= r < n)%Z -> ((a - a mod n + r) mod n = r)%Z.
Proof.
  intros Hn Hr.
  replace (a - a mod n + r)%Z with (r + (a / n) * n)%Z by (rewrite (Z.mod_eq a n); lia).
  rewrite Z.mod_add by lia. by apply Z.mod_small.
Qed.

(** The slot in which a channel sequence stands, and its channel there. *)
Definition slot_of st now : nat := Z.to_nat (elapsed_since_tsf_epoch st now / SLOT_DURATION TU mod 16).
Definition channel_at st now : option Z := channel_sequence st !! slot_of st now.

(** A slot with the same channel in two sequences, and the first one from where the first
    of them stands, around the sequence. *)
Definition common_slot st (other : SynchronizationState) (i : nat) : Prop :=
  i < 16 /\ exists c, channel_sequence st !! i = Some c /\ channel_sequence other !! i = Some c.
Definition next_common_slot st (other : SynchronizationState) now (i : nat) : Prop :=
  common_slot st other i /\ forall j, common_slot st other j ->
    ((Z.of_nat i - Z.of_nat (slot_of st now)) mod 16 <= (Z.of_nat j - Z.of_nat (slot_of st now)) mod 16)%Z.

Lemma slot_of_current st now :
  Z.to_nat (current_slot_index TU (elapsed_since_tsf_epoch st now)) = slot_of st now /\ slot_of st now < 16.
Proof.
  clear TU_small. assert (0 <= elapsed_since_tsf_epoch st now)%Z as Hd.
  { unfold elapsed_since_tsf_epoch, wrapping. apply Z.mod_pos_bound. lia. }
  destruct (slots_exact _ Hd) as [-> _]. unfold slot_of. rewrite SLOT_DURATION_eq. split; [done|].
  pose proof (Z.mod_pos_bound (elapsed_since_tsf_epoch st now / (64 * TU)) 16 ltac:(lia)). lia.
Qed.

Lemma sequences_agree_spec st other i :
  i < 16 -> sequences_agree st other i = true <-> common_slot st other i.
Proof.
  clear TU_pos TU_small. intros Hi. unfold sequences_agree, common_slot.
  destruct (channel_sequence st !! i) as [c|], (channel_sequence other !! i) as [c'|];
    rewrite ?bool_decide_eq_true; naive_solver.
Qed.

(** The search goes around the sequence once. *)
Lemma around_lookup cur k : cur < 16 -> k < 16 ->
  (seq cur (16 - cur) ++ seq 0 cur) !! k = Some (Z.to_nat ((Z.of_nat cur + Z.of_nat k) mod 16)).
Proof.
  clear TU_pos TU_small. intros Hc Hk. destruct (decide (k < 16 - cur)).
  - rewrite lookup_app_l by (rewrite length_seq; lia). rewrite lookup_seq_lt by lia.
    rewrite Z.mod_small by lia. f_equal. lia.
  - rewrite lookup_app_r, length_seq by (rewrite length_seq; lia). rewrite lookup_seq_lt by lia.
    replace (Z.of_nat cur + Z.of_nat k)%Z with (Z.of_nat (cur + k - 16) + 1 * 16)%Z by lia.
    rewrite Z.mod_add, Z.mod_small by lia. f_equal. lia.
Qed.

Lemma around_index cur j : cur < 16 -> j < 16 ->
  (seq cur (16 - cur) ++ seq 0 cur) !! Z.to_nat ((Z.of_nat j - Z.of_nat cur) mod 16) = Some j.
Proof.
  clear TU_pos TU_small. intros Hc Hj.
  pose proof (Z.mod_pos_bound (Z.of_nat j - Z.of_nat cur) 16 ltac:(lia)).
  rewrite around_lookup by lia. rewrite Z2Nat.id by lia. rewrite Zplus_mod_idemp_r.
  replace (Z.of_nat cur + (Z.of_nat j - Z.of_nat cur))%Z with (Z.of_nat j) by lia.
  rewrite Z.mod_small by lia. f_equal. lia.
Qed.

(** What the next overlap is: the channels agree now, or the first common slot, or none. *)
Lemma next_overlap_spec st other now :
  length (channel_sequence st) = 16 -> length (channel_sequence other) = 16 ->
  match next_overlap_timestamp TU st other now with
  | Done CurrentlyOverlapping => channel_at st now = channel_at other now
  | Done (OverlappingAt t) => channel_at st now <> channel_at other now /\
      exists i, next_common_slot st other now i /\ t = slot_start_timestamp TU st now (Z.of_nat i) 0
  | Done NoOverlappingSlots => channel_at st now <> channel_at other now /\
      forall i, ~ common_slot st other i
  | Done PeerNotInCache | Panic => False
  end.
Proof.
  intros Hl Hl'. unfold next_overlap_timestamp, channel_at.
  destruct (slot_of_current st now) as [-> Hs], (slot_of_current other now) as [-> Hs'].
  destruct (lookup_lt_is_Some_2 (channel_sequence st) (slot_of st now)) as [c ->]; [lia|].
  destruct (lookup_lt_is_Some_2 (channel_sequence other) (slot_of other now)) as [c' ->]; [lia|].
  cbn [expect mbind outcome_bind]. case_decide as Hc; [by subst|]. cbn [mret outcome_ret].
  assert (forall j, j < 16 -> (seq (slot_of st now) (16 - slot_of st now) ++ seq 0 (slot_of st now)) !!
    Z.to_nat ((Z.of_nat j - Z.of_nat (slot_of st now)) mod 16) = Some j) as Hidx
    by (intros j; by apply around_index).
  destruct (list_find _ _) as [[k i]|] eqn:Hf.
  - apply list_find_Some in Hf as (Hk & Hi & Hmin). split; [congruence|]. exists i. split; [|done].
    assert (i < 16) as Hi16.
    { apply list_elem_of_lookup_2 in Hk. rewrite elem_of_app, !elem_of_seq in Hk. lia. }
    apply sequences_agree_spec in Hi; [|done]. split; [done|]. intros j Hj.
    pose proof (Z.mod_pos_bound (Z.of_nat j - Z.of_nat (slot_of st now)) 16 ltac:(lia)).
    pose proof (Z.mod_pos_bound (Z.of_nat i - Z.of_nat (slot_of st now)) 16 ltac:(lia)).
    apply Z.nlt_ge. intros Hlt. pose proof (proj1 Hj) as Hj16.
    assert (k = Z.to_nat ((Z.of_nat i - Z.of_nat (slot_of st now)) mod 16)) as ->.
    { eapply (NoDup_lookup _ _ _ i); [|exact Hk|by apply Hidx].
      apply NoDup_app. split; [apply NoDup_seq|]. split; [|apply NoDup_seq].
      intros x Hx Hx'. apply elem_of_seq in Hx, Hx'. lia. }
    apply (Hmin _ j) in Hidx; [|done|lia]. by apply Hidx, sequences_agree_spec.
  - split; [congruence|]. intros j Hj. apply list_find_None in Hf. rewrite Forall_lookup in Hf.
    eapply Hf; [by apply Hidx, Hj|]. by apply sequences_agree_spec; [apply Hj|].
Qed.
End SyncFacts.

(** ** Properties *)

Section SyncProperties.
Context (TU : Z) (TU_pos : (0 < TU)%Z).
Implicit Types (st : SynchronizationState) (now : Z).

(** C38 The start of a slot is the earliest one: with the peer's epoch in the past
    and the clock past the start of the channel sequence, [slot_start_timestamp] is
    the first instant not before [now] at which the channel sequence stands at the
    given slot and offset. *)
Theorem slot_start_earliest st now slot offset :
  (tsf_epoch_in_us st <= now < tsf_epoch_in_us st + 2 ^ 64)%Z ->
  ((now - tsf_epoch_in_us st) mod CHANNEL_SEQUENCE_DURATION TU <= now)%Z ->
  (0 <= SLOT_DURATION TU * slot + offset < CHANNEL_SEQUENCE_DURATION TU)%Z ->
  let at_start t := ((t - tsf_epoch_in_us st) mod CHANNEL_SEQUENCE_DURATION TU =
    SLOT_DURATION TU * slot + offset)%Z in
  let start := slot_start_timestamp TU st now slot offset in
  (now <= start)%Z /\ at_start start /\ forall t, (now <= t)%Z -> at_start t -> (start <= t)%Z.
Proof.
  rewrite CHANNEL_SEQUENCE_DURATION_eq, SLOT_DURATION_eq. intros Hnow He Hp. cbv zeta.
  rewrite slot_start_eq by done. cbv zeta.
  set (d := (now - tsf_epoch_in_us st)%Z) in *. set (n := (1024 * TU)%Z) in *.
  set (q := (64 * TU * slot + offset)%Z) in *.
  assert (0 < n)%Z as Hn by lia. pose proof (Z.mod_pos_bound d n Hn) as Hm.
  assert (exists j, (now - d mod n + (if decide (q < d mod n) then q + n else q) -
    tsf_epoch_in_us st = d - d mod n + q + j * n /\
    (j = 0 /\ d mod n <= q \/ j = 1 /\ q < d mod n))%Z) as (j & Hj & Hcase).
  { case_decide; [exists 1%Z|exists 0%Z]; lia. }
  assert (forall t, ((t - tsf_epoch_in_us st) mod n = q)%Z -> (now <= t)%Z ->
    (d - d mod n + q + j * n <= t - tsf_epoch_in_us st)%Z) as Hleast.
  { intros t Ht Hle. set (u := (t - tsf_epoch_in_us st)%Z) in *.
    pose proof (Z.div_mod u n ltac:(lia)) as Hu. pose proof (Z.div_mod d n ltac:(lia)) as Hd.
    assert (d <= u)%Z by lia. rewrite Ht in Hu.
    assert (d / n <= u / n)%Z by (apply Z.div_le_mono; lia).
    destruct Hcase as [[-> Hq]|[-> Hq]].
    - assert (n * (d / n) <= n * (u / n))%Z by (apply Z.mul_le_mono_nonneg_l; lia). lia.
    - assert (d / n <> u / n)%Z by (intros Heq; rewrite Heq in Hd; lia).
      assert (n * (d / n + 1) <= n * (u / n))%Z by (apply Z.mul_le_mono_nonneg_l; lia). lia. }
  split_and!.
  - case_decide; lia.
  - rewrite Hj, Z.mod_add by lia. by apply mod_shift.
  - intros t Hle Ht. specialize (Hleast t Ht Hle). lia.
Qed.

(** Synchronisation parameters carry the epoch: whoever recovers the epoch from
    the parameters generated at [now], on receiving them at [rx] after a delay of
    [delta], gets the sender's epoch rounded up by less than one [TU], plus what
    the sixteen-bit window number loses, whole multiples of the channel sequence,
    plus the time between generation and reception, plus the delay. *)
Theorem epoch_roundtrip st now master tlv delta rx :
  (TU < 2 ^ 16)%Z -> (tsf_epoch_in_us st <= now < tsf_epoch_in_us st + 2 ^ 64)%Z ->
  generate_tlv TU st now master = Done tlv ->
  let d := (now - tsf_epoch_in_us st)%Z in
  (recover_tsf_epoch TU tlv delta rx =
    tsf_epoch_in_us st + d mod TU +
    CHANNEL_SEQUENCE_DURATION TU * (1024 * (d / (1024 * CHANNEL_SEQUENCE_DURATION TU))) +
    (rx - now) + delta)%Z.
Proof.
  intros Hsmall Hnow Hgen. cbv zeta. unfold generate_tlv in Hgen.
  apply outcome_bind_Done in Hgen as (channel & _ & Hgen). injection Hgen as <-.
  unfold recover_tsf_epoch. simpl. rewrite CHANNEL_SEQUENCE_DURATION_eq.
  unfold elapsed_since_tsf_epoch. rewrite !(wrapping_small 64) by (unfold in_width; lia).
  set (d := (now - tsf_epoch_in_us st)%Z) in *.
  unfold aw_seq_number, remaining_aw_length. rewrite AW_DURATION_eq.
  assert (0 <= d)%Z as Hd by lia.
  assert (d mod (16 * TU) / TU = (d / TU) mod 16)%Z as Hrem.
  { replace (16 * TU)%Z with (TU * 16)%Z by lia.
    rewrite Z.rem_mul_r by lia. rewrite Z.add_comm, (Z.mul_comm TU), Z.div_add_l by lia.
    rewrite (Z.div_small (d mod TU)) by (apply Z.mod_pos_bound; lia). lia. }
  rewrite Hrem. unfold wrapping.
  replace (d / (16 * TU))%Z with (d / TU / 16)%Z
    by (rewrite (Z.mul_comm 16), Z.div_div by lia; done).
  replace (d / (1024 * (1024 * TU)))%Z with (d / TU / 2 ^ 20)%Z
    by (replace (1024 * (1024 * TU))%Z with (TU * 2 ^ 20)%Z by lia; by rewrite Z.div_div by lia).
  pose proof (Z.div_mod d TU ltac:(lia)) as HdTU. set (q := (d / TU)%Z) in *.
  assert (0 <= q)%Z by (apply Z.div_pos; lia).
  pose proof (Z.mod_pos_bound q 16 ltac:(lia)).
  pose proof (Z.mod_pos_bound (q / 16) (2 ^ 16) ltac:(lia)).
  rewrite (Z.mod_small (q mod 16)) by lia.
  rewrite (Z.mod_small (16 * _)) by lia. rewrite Z.mod_small by lia.
  pose proof (Z.div_mod q 16 ltac:(lia)).
  pose proof (Z.div_mod (q / 16) (2 ^ 16) ltac:(lia)) as Hq16.
  rewrite Z.div_div in Hq16 by lia. change (16 * 2 ^ 16)%Z with (2 ^ 20)%Z in Hq16.
  nia.
Qed.

(** When the next master indication frame is due: in the first half of a slot it
    is sixteen [TU] into the next slot, between 48 and 80 [TU] away; in the second
    half it is a whole channel sequence later than sixteen [TU] into the current
    slot, at least 976 [TU] away. *)
Theorem mif_time_spec st now :
  (tsf_epoch_in_us st <= now < tsf_epoch_in_us st + 2 ^ 64)%Z ->
  ((now - tsf_epoch_in_us st) mod CHANNEL_SEQUENCE_DURATION TU <= now)%Z ->
  let r := ((now - tsf_epoch_in_us st) mod SLOT_DURATION TU)%Z in
  mif_transmition_time TU st now =
    (now - r + if decide (r < 32 * TU) then 80 * TU else 1040 * TU)%Z.
Proof.
  rewrite CHANNEL_SEQUENCE_DURATION_eq, SLOT_DURATION_eq. intros Hnow He. cbv zeta.
  unfold mif_transmition_time, elapsed_since_tsf_epoch.
  rewrite wrapping_small by (unfold in_width; lia). rewrite slot_start_eq by done. cbv zeta.
  set (d := (now - tsf_epoch_in_us st)%Z) in *.
  pose proof (sequence_position TU TU_pos d ltac:(lia)) as Hpos.
  destruct (slots_exact TU TU_pos d ltac:(lia)) as [Hcur Hnext].
  pose proof (Z.mod_pos_bound d (64 * TU) ltac:(lia)) as Hr.
  assert (remaining_slot_length TU d = d mod (64 * TU) / TU)%Z as Hrem.
  { unfold remaining_slot_length, AW_PER_SLOT. rewrite AW_DURATION_eq.
    replace (16 * TU * 4)%Z with (64 * TU)%Z by lia. apply wrapping_small.
    split; [apply Z.div_pos; lia|].
    eapply Z.lt_trans; [apply (Z.div_lt_upper_bound _ _ 64); lia|lia]. }
  rewrite Hrem. set (r := (d mod (64 * TU))%Z) in *. rewrite Hpos.
  pose proof (Z.mod_pos_bound (d / (64 * TU)) 16 ltac:(lia)) as Hc. rewrite <- Hcur in Hc.
  assert ((r / TU < 32 <-> r < 32 * TU)%Z) as Hhalf.
  { split; intros Hl; [|apply Z.div_lt_upper_bound; lia].
    destruct (Z.lt_ge_cases r (32 * TU)) as [|Hge]; [done|].
    pose proof (Z.div_le_lower_bound r TU 32 TU_pos). lia. }
  destruct (decide (r / TU < 32)%Z) as [Hlt|Hge].
  - rewrite (decide_True (P := (r < 32 * TU)%Z)) by (by apply Hhalf).
    assert (next_slot_index TU d = if decide (current_slot_index TU d = 15)%Z then 0%Z
      else current_slot_index TU d + 1)%Z as ->.
    { rewrite Hnext, <- Z.add_mod_idemp_l, <- Hcur by lia. case_decide as H15.
      - by rewrite H15.
      - rewrite Z.mod_small; lia. }
    apply Hhalf in Hlt. case_decide as H15; case_decide; rewrite ?H15 in *; nia.
  - rewrite (decide_False (P := (r < 32 * TU)%Z)) by (intros ?; by apply Hge, Hhalf).
    assert (32 * TU <= r)%Z by (destruct (Z.lt_ge_cases r (32 * TU)); [exfalso; by apply Hge, Hhalf|done]).
    case_decide; nia.
Qed.
End SyncProperties.

(** ** Witnesses *)

(** A station whose epoch was 40 windows and 9 TU ago, in the third slot. *)
Definition demo_sync : SynchronizationState := MkSynchronizationState (replicate 16 6%Z) 1000.
Definition demo_now : Z := 1000 + (40 * 16 + 9) * 1024 + 7.

Lemma slot_start_earliest_witness :
  (slot_start_timestamp 1024 demo_sync demo_now 9 0 = 1000 + 1024 * 1024 + 9 * 64 * 1024)%Z /\
  (demo_now <= slot_start_timestamp 1024 demo_sync demo_now 9 0)%Z.
Proof.
  split; [vm_compute; reflexivity|].
  apply (slot_start_earliest 1024 demo_sync demo_now 9 0);
    vm_compute; (reflexivity || (split; congruence) || congruence).
Defined.

Lemma epoch_roundtrip_witness :
  exists tlv, generate_tlv 1024 demo_sync demo_now [] = Done tlv /\
    recover_tsf_epoch 1024 tlv 0 demo_now = 1007%Z.
Proof.
  destruct (generate_tlv 1024 demo_sync demo_now []) as [tlv|] eqn:Hg; [|vm_compute in Hg; discriminate].
  exists tlv. split; [reflexivity|].
  rewrite (epoch_roundtrip 1024 eq_refl demo_sync demo_now [] tlv 0 demo_now);
    [vm_compute; reflexivity|lia|vm_compute; split; congruence|exact Hg].
Defined.

Lemma mif_time_spec_witness :
  (mif_transmition_time 1024 demo_sync demo_now = demo_now - 9223 + 80 * 1024)%Z.
Proof.
  rewrite (mif_time_spec 1024 eq_refl demo_sync demo_now);
    [vm_compute; reflexivity|vm_compute; split; congruence|vm_compute; congruence].
Defined.
