(* ===== verification/Awdl.v ===== *)
(** * AWDL peers and the election of a master: foa_awdl/src

    The election state and the peers of peer.rs, the peer cache of peer_cache.rs as
    a class with its required operations and laws, the operations of state.rs that
    combine them, the handling of received action frames of runner/rx.rs, and the
    address conversion of lib.rs.  A received frame is what the code reads of its
    TLVs; an addition on [u32] that overflows panics. *)
From S2P Require Import Prelude Bytes Platform Eapol AwdlSync.

(** ** Election (peer.rs) *)

Record ElectionState : Type := MkElectionState {
  self_metric : Z;
  self_counter : option Z;
  master_metric : Z;
  master_counter : option Z;
  sync_peer : option (list Z);
  root_peer : list Z;
  distance_to_master : Z;
}.

Record ElectionParametersTLV : Type := MkElectionParametersTLV {
  v1_self_metric : Z;
  v1_distance_to_master : Z;
  v1_master_address : list Z;
  v1_master_metric : Z;
}.

Record ElectionParametersV2TLV : Type := MkElectionParametersV2TLV {
  v2_self_metric : Z;
  v2_master_metric : Z;
  v2_self_counter : Z;
  v2_master_counter : Z;
  v2_distance_to_master : Z;
  v2_master_address : list Z;
  v2_sync_address : list Z;
}.

Implicit Types (e : ElectionState) (address our_address : list Z).

Definition election_new address : ElectionState :=
  MkElectionState 60 (Some 0%Z) 60 (Some 0%Z) (Some address) address 0.
Definition election_uninit : ElectionState := election_new (replicate 6 0%Z).

Definition set_master_to_self e our_address : ElectionState := election_new our_address.

Definition is_master e address : bool :=
  bool_decide (default (root_peer e) (sync_peer e) = address).

(** [a + b] on [u32]. *)
Definition u32_add (a b : Z) : outcome Z := expect (checked_add 32 a b).

Definition adopt_master e address (master : ElectionState) : outcome ElectionState :=
  distance ← u32_add (distance_to_master master) 1;
  mret (MkElectionState (self_metric e) (self_counter e) (master_metric master)
    (Some (default 0%Z (master_counter master))) (Some address) (root_peer master) distance).

Definition election_from_af (v2 : option ElectionParametersV2TLV)
  (v1 : option ElectionParametersTLV) : option ElectionState :=
  match v2 with
  | Some tlv => Some (MkElectionState (v2_self_metric tlv) (Some (v2_self_counter tlv))
      (v2_master_metric tlv) (Some (v2_master_counter tlv)) (Some (v2_sync_address tlv))
      (v2_master_address tlv) (v2_distance_to_master tlv))
  | None =>
      match v1 with
      | Some tlv => Some (MkElectionState (v1_self_metric tlv) None (v1_master_metric tlv) None
          None (v1_master_address tlv) (v1_distance_to_master tlv))
      | None => None
      end
  end.

(** As written: [rhs_counter] is read from [self]. *)
Definition is_more_eligible e (rhs : ElectionState) : bool :=
  match self_counter e with
  | Some lhs_counter =>
      match self_counter e with
      | Some rhs_counter =>
          bool_decide (lhs_counter < rhs_counter)%Z ||
          (bool_decide (lhs_counter = rhs_counter) &&
           bool_decide (self_metric e < self_metric rhs)%Z)
      | None => false
      end
  | None =>
      if decide (is_Some (self_counter rhs)) then true
      else bool_decide (self_metric e <= self_metric rhs)%Z
  end.

Definition generate_tlv_v1 e : ElectionParametersTLV :=
  MkElectionParametersTLV (self_metric e) (wrapping 8 (distance_to_master e)) (root_peer e)
    (master_metric e).

Definition generate_tlv_v2 e : option ElectionParametersV2TLV :=
  counter ← self_counter e;
  mcounter ← master_counter e;
  sync ← sync_peer e;
  Some (MkElectionParametersV2TLV (self_metric e) (master_metric e) counter mcounter
    (distance_to_master e) (root_peer e) sync).

(** ** Peers (peer.rs) *)

Inductive ServiceDomain : Type := AirPlayTcpLocal | AirDropTcpLocal | OtherDomain.

(** A service response: the port of its SRV record, and the domain of its name. *)
Record ServiceResponse : Type := MkServiceResponse {
  srv_port : option Z;
  service_domain : ServiceDomain;
}.

Record ActionFrame : Type := MkActionFrame {
  af_channel_sequence : option ChannelSequence;
  af_synchronization : option SynchronizationParametersTLV;
  af_tx_delta : option Z;
  af_election_v2 : option ElectionParametersV2TLV;
  af_election_v1 : option ElectionParametersTLV;
  af_services : list ServiceResponse;
}.

(** Without [data_rate], which is set once and never read. *)
Record AwdlPeer : Type := MkAwdlPeer {
  synchronization_state : SynchronizationState;
  election_state : ElectionState;
  last_frame : Z;
  airdrop_port : option Z;
  airplay_port : option Z;
}.

Implicit Types (p : AwdlPeer) (af : ActionFrame).

Section Peers.
Context (TU : Z).

Definition new_with_action_frame af (rx_timestamp now : Z) : outcome (option AwdlPeer) :=
  sync ← sync_from_af TU (af_channel_sequence af) (af_synchronization af) (af_tx_delta af)
    rx_timestamp;
  mret (sync ← sync;
        election ← election_from_af (af_election_v2 af) (af_election_v1 af);
        Some (MkAwdlPeer sync election now None None)).

(** One service response: the peer, and whether the port was new. *)
Definition update_service p (r : ServiceResponse) : AwdlPeer * bool :=
  match srv_port r with
  | None => (p, false)
  | Some port =>
      match service_domain r with
      | AirPlayTcpLocal =>
          match airplay_port p with
          | None => (MkAwdlPeer (synchronization_state p) (election_state p) (last_frame p)
                       (airdrop_port p) (Some port), true)
          | Some _ => (p, false)
          end
      | AirDropTcpLocal =>
          match airdrop_port p with
          | None => (MkAwdlPeer (synchronization_state p) (election_state p) (last_frame p)
                       (Some port) (airplay_port p), true)
          | Some _ => (p, false)
          end
      | OtherDomain => (p, false)
      end
  end.

(** [update]: the peer, and whether services were discovered. *)
Definition update p af (rx_timestamp now : Z) : outcome (AwdlPeer * bool) :=
  sync ← sync_from_af TU (af_channel_sequence af) (af_synchronization af) (af_tx_delta af)
    rx_timestamp;
  let p := MkAwdlPeer (default (synchronization_state p) sync)
    (default (election_state p) (election_from_af (af_election_v2 af) (af_election_v1 af)))
    now (airdrop_port p) (airplay_port p) in
  mret (foldl (fun '(p, found) r => let '(p, new) := update_service p r in (p, found || new))
          (p, false) (af_services af)).
End Peers.

(** ** The peer cache (peer_cache.rs) *)

(** The required operations of the trait; [cache_set] writes through [get_mut]. *)
Class AwdlPeerCache (C : Type) : Type := {
  cache_uninit : C;
  cache_iter : C -> list (list Z * AwdlPeer);
  cache_retain : (list Z -> AwdlPeer -> bool) -> C -> C;
  cache_get : C -> list Z -> option AwdlPeer;
  cache_set : C -> list Z -> AwdlPeer -> C;
  cache_is_full : C -> bool;
  cache_insert : C -> list Z -> AwdlPeer -> C;
  cache_clear : C -> C;
}.

(** A cache is a map of at most [cache_capacity] peers. *)
Class AwdlPeerCacheLaws (C : Type) `{AwdlPeerCache C} : Type := {
  cache_map : C -> gmap (list Z) AwdlPeer;
  cache_capacity : C -> option nat;
  cache_get_map : forall c a, cache_get c a = cache_map c !! a;
  cache_iter_map : forall c a p, (a, p) ∈ cache_iter c <-> cache_map c !! a = Some p;
  cache_set_map : forall c a p, is_Some (cache_map c !! a) ->
    cache_map (cache_set c a p) = <[a := p]> (cache_map c);
  cache_set_capacity : forall c a p, cache_capacity (cache_set c a p) = cache_capacity c;
  cache_full_map : forall c, cache_is_full c = true <->
    cache_capacity c = Some (size (cache_map c));
  cache_insert_map : forall c a p, cache_is_full c = false ->
    cache_map (cache_insert c a p) = <[a := p]> (cache_map c);
  cache_insert_capacity : forall c a p, cache_capacity (cache_insert c a p) = cache_capacity c;
  cache_retain_map : forall c f a, cache_map (cache_retain f c) !! a =
    match cache_map c !! a with
    | Some p => if f a p then Some p else None
    | None => None
    end;
  cache_clear_map : forall c, cache_map (cache_clear c) = ∅;
}.

Inductive AwdlEvent : Type :=
| PeerDiscovered (address : list Z)
| PeerWentStale (address : list Z) (airdrop airplay : option Z)
| DiscoveredServiceForPeer (address : list Z) (airdrop airplay : option Z).

Section Cache.
Context {C : Type} `{AwdlPeerCache C}.
Implicit Types (c : C).

(** The most eligible of ourselves and the peers, in the order of the cache. *)
Definition most_eligible (self : list Z * ElectionState) (peers : list (list Z * AwdlPeer))
  : list Z * ElectionState :=
  foldl (fun best '(address, peer) =>
           if is_more_eligible best.2 (election_state peer)
           then (address, election_state peer) else best) self peers.

Definition find_master c e address
  : outcome (option (list Z * ElectionState * SynchronizationState)) :=
  let best := most_eligible (address, e) (cache_iter c) in
  if decide (best.1 = address) then mret None
  else
    peer ← expect (cache_get c best.1);
    mret (Some (best.1, best.2, synchronization_state peer)).

Definition get_common_slot_for_peer (TU : Z) (is_multicast : list Z -> bool) c
  (peer_address : list Z) (our_sync_state : SynchronizationState) (now : Z)
  : outcome OverlapSlotState :=
  if is_multicast peer_address
  then mret (OverlappingAt (multicast_slot_start_timestamp TU our_sync_state now))
  else match cache_get c peer_address with
  | Some peer => next_overlap_timestamp TU (synchronization_state peer) our_sync_state now
  | None => mret PeerNotInCache
  end.

(** Whether [purge_stale_peers] keeps a peer. *)
Definition is_fresh (now timeout : Z) p : bool := bool_decide (now - last_frame p < timeout)%Z.
End Cache.

(** ** The shared resources (state.rs) *)

Section Resources.
Context {C : Type} {Ch : Type -> Type} `{AwdlPeerCache C} `{Channel Ch}.
Implicit Types (c : C).

(** [CommonResources], without the signals and parameters of other components. *)
Record CommonResources : Type := MkCommonResources {
  peer_cache : C;
  sync_state : SynchronizationState;
  our_election_state : ElectionState;
  event_queue : Ch AwdlEvent;
}.

Implicit Types (r : CommonResources).

Definition set_cache r c : CommonResources :=
  MkCommonResources c (sync_state r) (our_election_state r) (event_queue r).

Definition resources_new (depth : nat) : CommonResources :=
  MkCommonResources cache_uninit sync_uninit election_uninit (ch_new depth).

Definition initialize_session_parameters r (channel : Z) address (now : Z) : CommonResources :=
  MkCommonResources (peer_cache r) (sync_new channel now) (election_new address)
    (ch_clear (event_queue r)).

Definition is_peer_master r address : bool := is_master (our_election_state r) address.

Definition adopt_peer_as_master r address (sync : SynchronizationState) e
  : outcome CommonResources :=
  election ← adopt_master (our_election_state r) address e;
  mret (MkCommonResources (peer_cache r) (sync_adopt_master (sync_state r) sync) election
    (event_queue r)).

Definition raise_user_event r (event : AwdlEvent) : CommonResources :=
  match ch_try_send (event_queue r) event with
  | Some q => MkCommonResources (peer_cache r) (sync_state r) (our_election_state r) q
  | None => r
  end.

Definition elect_master r our_address : outcome CommonResources :=
  master ← find_master (peer_cache r) (our_election_state r) our_address;
  match master with
  | Some (address, e, sync) => adopt_peer_as_master r address sync e
  | None =>
      mret (if negb (is_master (our_election_state r) our_address)
            then MkCommonResources (peer_cache r) (sync_state r)
                   (set_master_to_self (our_election_state r) our_address) (event_queue r)
            else r)
  end.

Definition clear_peer_cache r : CommonResources := set_cache r (cache_clear (peer_cache r)).

Definition is_peer_cached r (peer_address : list Z) : bool :=
  bool_decide (is_Some (cache_get (peer_cache r) peer_address)).

(** [purge_stale_peers] with the callback of runner/management.rs, then the election
    that follows. *)
Definition purge_stale_peers r (now timeout : Z) : CommonResources :=
  let stale := filter (fun '(_, p) => is_fresh now timeout p = false) (cache_iter (peer_cache r)) in
  let r := foldl (fun r '(a, p) => raise_user_event r
             (PeerWentStale a (airdrop_port p) (airplay_port p))) r stale in
  set_cache r (cache_retain (fun _ p => is_fresh now timeout p) (peer_cache r)).

Definition purge_and_elect r our_address (now timeout : Z) : outcome CommonResources :=
  elect_master (purge_stale_peers r now timeout) our_address.

(** [process_action_frame], with [modify_or_add_peer] and its closures in place. *)
Definition process_action_frame (TU : Z) r our_address (transmitter : list Z) af
  (rx_timestamp now : Z) : outcome CommonResources :=
  match cache_get (peer_cache r) transmitter with
  | Some p =>
      '(p, service_discovered) ← update TU p af rx_timestamp now;
      let r := set_cache r (cache_set (peer_cache r) transmitter p) in
      let r := if (service_discovered : bool)
        then raise_user_event r (DiscoveredServiceForPeer transmitter (airdrop_port p)
               (airplay_port p))
        else r in
      if is_peer_master r transmitter
      then adopt_peer_as_master r transmitter (synchronization_state p) (election_state p)
      else mret r
  | None =>
      if cache_is_full (peer_cache r) then mret r
      else
        peer ← new_with_action_frame TU af rx_timestamp now;
        match peer with
        | None => mret r
        | Some p =>
            let r := raise_user_event r (PeerDiscovered transmitter) in
            elect_master (set_cache r (cache_insert (peer_cache r) transmitter p)) our_address
        end
  end.
End Resources.

(** ** Addresses (lib.rs) *)

(** The eight segments of a link-local address, and the sixteen octets of one. *)
Definition hw_address_to_ipv6 (a : list Z) : list Z :=
  match a with
  | [a0; a1; a2; a3; a4; a5] =>
      [0xfe80; 0; 0; 0; u16_be (Z.lxor a0 2) a1; u16_be a2 0xff; u16_be 0xfe a3; u16_be a4 a5]%Z
  | _ => []
  end.

Definition octets (segments : list Z) : list Z := segments ≫= fun s => [s / 256; s mod 256]%Z.

Definition ipv6_to_hw_address (ipv6 : list Z) : list Z :=
  let o := octets ipv6 in
  (fun '(i, mask) => Z.lxor (default 0%Z (o !! i)) mask) <$>
    [(8, 2%Z); (9, 0%Z); (10, 0%Z); (13, 0%Z); (14, 0%Z); (15, 0%Z)].

(** ** Facts *)

Section AwdlFacts.
Context {C : Type} {Ch : Type -> Type} `{AwdlPeerCacheLaws C} `{Channel Ch}.
Implicit Types (c : C) (r : CommonResources (C := C) (Ch := Ch)).

Definition peers r : gmap (list Z) AwdlPeer := cache_map (peer_cache r).
Definition metric_of p : Z := self_metric (election_state p).

(** With a counter on our side, only the metrics are compared. *)
Lemma eligibility_ignores_counters e (rhs : ElectionState) counter :
  self_counter e = Some counter ->
  is_more_eligible e rhs = bool_decide (self_metric e < self_metric rhs)%Z.
Proof.
  intros Hc. unfold is_more_eligible. rewrite Hc.
  by rewrite (bool_decide_false (counter < counter)%Z), (bool_decide_true (counter = counter))
    by lia.
Qed.

Lemma most_eligible_spec (self : list Z * ElectionState) (l : list (list Z * AwdlPeer)) :
  is_Some (self_counter self.2) ->
  (forall a p, (a, p) ∈ l -> is_Some (self_counter (election_state p))) ->
  (most_eligible self l = self /\ forall a p, (a, p) ∈ l -> metric_of p <= self_metric self.2)%Z \/
  exists a p, (a, p) ∈ l /\ most_eligible self l = (a, election_state p) /\
    (self_metric self.2 < metric_of p)%Z /\
    (forall a' p', (a', p') ∈ l -> metric_of p' <= metric_of p)%Z.
Proof.
  revert self. induction l as [|[a p] l IH]; intros self [n Hn] Hl.
  { left. split; [done|]. intros a p Hin. by apply elem_of_nil in Hin. }
  assert (forall a p, (a, p) ∈ l -> is_Some (self_counter (election_state p))) as Hl'
    by (intros a' p' Hin; apply (Hl a'); by right).
  unfold most_eligible in *. simpl.
  rewrite (eligibility_ignores_counters _ _ n Hn). case_bool_decide as Hlt.
  - right. destruct (IH (a, election_state p)) as [[-> Hall]|(a1 & p1 & Hin & -> & Hgt & Hall)];
      [by apply (Hl a); left|done| |].
    + exists a, p. split_and!; [by left|done|done|].
      intros a' p' [[= -> ->]|Hin]%elem_of_cons; [lia|by eapply Hall].
    + simpl in Hgt. unfold metric_of in *. exists a1, p1. split_and!; [by right|done|lia|].
      intros a' p' [[= -> ->]|Hin']%elem_of_cons; [lia|by eapply Hall].
  - destruct (IH self) as [[-> Hall]|(a1 & p1 & Hin & -> & Hgt & Hall)]; [by eexists|done| |].
    + left. split; [done|]. intros a' p' [[= -> ->]|Hin]%elem_of_cons;
        [unfold metric_of; lia|by eapply Hall].
    + right. exists a1, p1. split_and!; [by right|done|done|].
      intros a' p' [[= -> ->]|Hin']%elem_of_cons; [unfold metric_of in *; lia|by eapply Hall].
Qed.

Lemma raise_user_event_same r event :
  peer_cache (raise_user_event r event) = peer_cache r /\
  sync_state (raise_user_event r event) = sync_state r /\
  our_election_state (raise_user_event r event) = our_election_state r.
Proof. unfold raise_user_event. by destruct (ch_try_send _ _). Qed.

Lemma elect_master_cache r our_address r' :
  elect_master r our_address = Done r' -> peer_cache r' = peer_cache r.
Proof.
  unfold elect_master. intros He. apply outcome_bind_Done in He as (m & _ & He).
  destruct m as [[[a e] s]|].
  - unfold adopt_peer_as_master in He. apply outcome_bind_Done in He as (e' & _ & He).
    by injection He as <-.
  - injection He as <-. by destruct (negb _).
Qed.

Lemma update_last_frame TU p af rx now p' found :
  update TU p af rx now = Done (p', found) -> last_frame p' = now.
Proof.
  unfold update. intros Hu. apply outcome_bind_Done in Hu as (sync & _ & Hu).
  cbv zeta in Hu. injection Hu as Hu. revert Hu.
  set (p1 := MkAwdlPeer _ _ _ _ _). assert (last_frame p1 = now) as Hp by done. revert Hp.
  generalize p1 as q, false as b.
  induction (af_services af) as [|s l IH]; intros q b Hq; simpl; [by intros [= <- _]|].
  destruct (update_service q s) as [q' new] eqn:Hs. apply IH. rewrite <- Hq.
  unfold update_service in Hs. destruct (srv_port s), (service_domain s), (airplay_port q),
    (airdrop_port q); simplify_eq; done.
Qed.

Lemma size_within_insert_new c (a : list Z) p n :
  cache_is_full c = false -> cache_capacity c = Some n -> size (cache_map c) <= n ->
  cache_map c !! a = None ->
  size (<[a := p]> (cache_map c)) <= n.
Proof.
  intros Hf Hn Hs Ha. rewrite map_size_insert_None by done.
  destruct (decide (size (cache_map c) = n)) as [Heq|]; [|lia].
  assert (cache_is_full c = true) as Ht by (apply cache_full_map; congruence). congruence.
Qed.
End AwdlFacts.

(** ** Properties *)

Section AwdlProperties.
Context {C : Type} {Ch : Type -> Type} `{AwdlPeerCacheLaws C} `{Channel Ch}.
Implicit Types (c : C) (r : CommonResources (C := C) (Ch := Ch)).

(** C40 The election: when every station in it advertises a counter, we follow a
    cached peer whose metric is the highest and above ours, taking over its epoch
    and its root one hop further away, and if there is none we are our own master.
    It panics only if a peer advertises the largest distance. *)
Theorem elect_master_spec r our_address :
  is_Some (self_counter (our_election_state r)) ->
  (forall a p, peers r !! a = Some p -> is_Some (self_counter (election_state p))) ->
  peers r !! our_address = None ->
  match elect_master r our_address with
  | Done r' =>
      peer_cache r' = peer_cache r /\
      ((exists a p, peers r !! a = Some p /\
          (self_metric (our_election_state r) < metric_of p)%Z /\
          (forall a' p', peers r !! a' = Some p' -> (metric_of p' <= metric_of p)%Z) /\
          is_master (our_election_state r') a = true /\
          root_peer (our_election_state r') = root_peer (election_state p) /\
          distance_to_master (our_election_state r') =
            (distance_to_master (election_state p) + 1)%Z /\
          tsf_epoch_in_us (sync_state r') = tsf_epoch_in_us (synchronization_state p)) \/
       ((forall a p, peers r !! a = Some p ->
           (metric_of p <= self_metric (our_election_state r))%Z) /\
        is_master (our_election_state r') our_address = true /\ sync_state r' = sync_state r))
  | Panic =>
      exists a p, peers r !! a = Some p /\ (u_max 32 <= distance_to_master (election_state p))%Z
  end.
Proof.
  intros Hself Hpeers Hour. unfold elect_master, find_master.
  destruct (most_eligible_spec (our_address, our_election_state r) (cache_iter (peer_cache r)))
    as [[-> Hall]|(a & p & Hin & -> & Hgt & Hall)];
    [done|intros a p Hin%cache_iter_map; by eapply Hpeers| |].
  - rewrite decide_True by done. simpl. split; [by destruct (negb _)|]. right.
    split_and!; [intros a p Hp; by eapply Hall, cache_iter_map| |by destruct (negb _)].
    destruct (is_master (our_election_state r) our_address) eqn:Hm; simpl; [done|].
    unfold is_master. simpl. by apply bool_decide_eq_true.
  - apply cache_iter_map in Hin as Hp. change (peers r !! a = Some p) in Hp.
    rewrite decide_False by (simpl; intros ->; congruence). simpl.
    rewrite cache_get_map. unfold peers in Hp. rewrite Hp. simpl.
    unfold adopt_peer_as_master, adopt_master, u32_add.
    destruct (checked_add 32 (distance_to_master (election_state p)) 1) as [dist|] eqn:Hd; simpl.
    + apply checked_add_Some in Hd as [-> _]. split; [done|]. left. exists a, p.
      split_and!; try done; [intros a' p' Hp'; by eapply Hall, cache_iter_map|].
      unfold is_master. simpl. by apply bool_decide_eq_true.
    + apply checked_add_None in Hd. exists a, p. split; [done|]. unfold u_max in *. lia.
Qed.

(** A received action frame touches no cached peer but its transmitter and never
    overfills the cache; a known transmitter stays cached with a new timestamp, and
    if it is our master we take over its epoch and keep it as master. *)
Theorem process_action_frame_cache TU r our_address transmitter af rx now r' :
  process_action_frame TU r our_address transmitter af rx now = Done r' ->
  (forall a, a <> transmitter -> peers r' !! a = peers r !! a) /\
  (forall n, cache_capacity (peer_cache r) = Some n -> size (peers r) <= n ->
     size (peers r') <= n) /\
  (is_Some (peers r !! transmitter) -> exists p, peers r' !! transmitter = Some p /\
     last_frame p = now /\
     (is_peer_master r transmitter = true -> is_peer_master r' transmitter = true /\
        tsf_epoch_in_us (sync_state r') = tsf_epoch_in_us (synchronization_state p))).
Proof.
  unfold process_action_frame, peers. rewrite cache_get_map.
  destruct (cache_map (peer_cache r) !! transmitter) as [p|] eqn:Hp.
  - intros Hs. apply outcome_bind_Done in Hs as ([p' found] & Hu & Hs).
    apply update_last_frame in Hu.
    set (r1 := set_cache r (cache_set (peer_cache r) transmitter p')) in Hs.
    set (r2 := if found then _ else r1) in Hs.
    assert (peer_cache r2 = peer_cache r1 /\ our_election_state r2 = our_election_state r1)
      as [Hc2 He2].
    { unfold r2. destruct found; [|done].
      by destruct (raise_user_event_same r1 (DiscoveredServiceForPeer transmitter
        (airdrop_port p') (airplay_port p'))) as (? & _ & ?). }
    assert (peer_cache r' = peer_cache r1 /\ (is_peer_master r transmitter = true ->
      is_peer_master r' transmitter = true /\
      tsf_epoch_in_us (sync_state r') = tsf_epoch_in_us (synchronization_state p'))) as [Hc' Hm].
    { unfold is_peer_master in *. rewrite He2 in Hs. unfold r1 in Hs at 1. simpl in Hs.
      destruct (is_master (our_election_state r) transmitter).
      - unfold adopt_peer_as_master, adopt_master in Hs.
        apply outcome_bind_Done in Hs as (e & He & Hs). injection Hs as <-.
        apply outcome_bind_Done in He as (d & _ & He). injection He as <-.
        split; [done|]. intros _. simpl. split; [|done]. by apply bool_decide_eq_true.
      - injection Hs as <-. by split. }
    rewrite Hc'. unfold r1. simpl. rewrite cache_set_map by (by rewrite Hp). split_and!.
    + intros a Ha. by rewrite lookup_insert_ne.
    + intros n _ Hn. by rewrite map_size_insert_Some by (by rewrite Hp).
    + intros _. exists p'. by rewrite lookup_insert_eq.
  - intros Hs. destruct (cache_is_full (peer_cache r)) eqn:Hf.
    { injection Hs as <-. split_and!; [done|done|intros [? ?]; congruence]. }
    apply outcome_bind_Done in Hs as (peer & _ & Hs).
    destruct peer as [p|]; [|injection Hs as <-; split_and!; [done|done|intros [? ?]; congruence]].
    apply elect_master_cache in Hs. simpl in Hs.
    destruct (raise_user_event_same r (PeerDiscovered transmitter)) as (Hc & _ & _).
    rewrite Hc in Hs. rewrite Hs, cache_insert_map by done. split_and!.
    + intros a Ha. by rewrite lookup_insert_ne.
    + intros n Hn Hsz. by apply size_within_insert_new.
    + intros [? ?]. congruence.
Qed.
End AwdlProperties.

(** The address conversions are inverse: the MAC address of the link-local
    address made from a MAC address is that address. *)
Theorem hw_ipv6_roundtrip (a : list Z) :
  length a = 6 -> Forall (fun b => 0 <= b < 256)%Z a ->
  ipv6_to_hw_address (hw_address_to_ipv6 a) = a.
Proof.
  intros Hl Hb. destruct a as [|a0 [|a1 [|a2 [|a3 [|a4 [|a5 [|]]]]]]]; try done.
  rewrite !Forall_cons in Hb. destruct Hb as (H0 & H1 & H2 & H3 & H4 & H5 & _).
  assert (forall x y, (0 <= y < 256)%Z -> (u16_be x y / 256 = x /\ u16_be x y mod 256 = y)%Z)
    as Hu.
  { intros x y Hy. unfold u16_be. rewrite Z.div_add_l, Z.div_small, Z.add_0_r by lia.
    by rewrite Z.add_comm, Z.mod_add, Z.mod_small by lia. }
  unfold ipv6_to_hw_address, octets, hw_address_to_ipv6. cbn -[Z.div Z.modulo Z.lxor u16_be].
  destruct (Hu (Z.lxor a0 2) a1 H1) as [-> ->], (Hu a2 255%Z ltac:(lia)) as [-> _],
    (Hu 254%Z a3 H3) as [_ ->], (Hu a4 a5 H5) as [-> ->].
  by rewrite !Z.lxor_0_r, Z.lxor_assoc, Z.lxor_nilpotent, Z.lxor_0_r.
Qed.

(** ** Witnesses *)

(** A cache for up to eight peers. *)
Definition small_cache : Type := gmap (list Z) AwdlPeer.

#[export] Instance small_cache_ops : AwdlPeerCache small_cache := {
  cache_uninit := (∅ : gmap (list Z) AwdlPeer);
  cache_iter := fun c => map_to_list (c : gmap (list Z) AwdlPeer);
  cache_retain := fun f (c : gmap (list Z) AwdlPeer) =>
    filter (fun kp => f kp.1 kp.2 = true) c;
  cache_get := fun (c : gmap (list Z) AwdlPeer) a => c !! a;
  cache_set := fun (c : gmap (list Z) AwdlPeer) a p => <[a := p]> c;
  cache_is_full := fun (c : gmap (list Z) AwdlPeer) => bool_decide (size c = 8);
  cache_insert := fun (c : gmap (list Z) AwdlPeer) a p => <[a := p]> c;
  cache_clear := fun _ => (∅ : gmap (list Z) AwdlPeer);
}.

#[export] Program Instance small_cache_laws : AwdlPeerCacheLaws small_cache := {
  cache_map := fun c => c;
  cache_capacity := fun _ => Some 8;
}.
Next Obligation. done. Qed.
Next Obligation. intros c a p. apply elem_of_map_to_list. Qed.
Next Obligation. done. Qed.
Next Obligation. done. Qed.
Next Obligation. intros c. simpl. rewrite bool_decide_eq_true. split; [by intros ->|congruence]. Qed.
Next Obligation. done. Qed.
Next Obligation. done. Qed.
Next Obligation.
  intros c f a. simpl. rewrite map_lookup_filter. destruct (_ !! a) as [p|]; [simpl|done].
  destruct (f a p) eqn:Hf; case_guard as Hg; simpl in *; congruence.
Qed.
Next Obligation. done. Qed.

(** Us with metric 60, a peer with metric 100 whose epoch is 500, and a frame of it. *)
Definition demo_peer : AwdlPeer :=
  MkAwdlPeer (MkSynchronizationState (replicate 16 6%Z) 500)
    (MkElectionState 100 (Some 3%Z) 100 (Some 3%Z) (Some [2%Z]) [2%Z] 0) 0 None None.
Definition demo_resources : CommonResources (C := small_cache) (Ch := list_chan) :=
  set_cache (initialize_session_parameters (resources_new 4) 6 [1%Z] 1000)
    (cache_insert cache_uninit [2%Z] demo_peer).
Definition demo_elected : CommonResources (C := small_cache) (Ch := list_chan) :=
  match elect_master demo_resources [1%Z] with Done r => r | Panic => demo_resources end.
Definition demo_action_frame : ActionFrame :=
  MkActionFrame (Some (Simple (replicate 16 6%Z)))
    (Some (MkSynchronizationParametersTLV 6 0 16 2 [2%Z] 3 (Simple []))) (Some 0%Z)
    None None [MkServiceResponse (Some 7000%Z) AirPlayTcpLocal].

Lemma demo_peers a p :
  peers demo_resources !! a = Some p -> a = [2%Z] /\ p = demo_peer.
Proof.
  change (peers demo_resources) with (<[[2%Z] := demo_peer]> (∅ : gmap (list Z) AwdlPeer)).
  intros [[<- <-]|[_ Hn]]%lookup_insert_Some; [done|]. by rewrite lookup_empty in Hn.
Qed.

Lemma elect_master_spec_witness :
  is_master (our_election_state demo_elected) [2%Z] = true /\
  tsf_epoch_in_us (sync_state demo_elected) = 500%Z.
Proof.
  pose proof (elect_master_spec demo_resources [1%Z]) as Hs.
  assert (elect_master demo_resources [1%Z] = Done demo_elected) as He
    by (vm_compute; reflexivity).
  rewrite He in Hs. destruct Hs as [_ Hs]; [by eexists| | |].
  - intros a p Hp. apply demo_peers in Hp as [_ ->]. by eexists.
  - vm_compute. reflexivity.
  - destruct Hs as [(a & p & Hp & _ & _ & Hm & _ & _ & He')|(Hall & _)].
    + apply demo_peers in Hp as [-> ->]. split; [exact Hm|exact He'].
    + exfalso. specialize (Hall [2%Z] demo_peer eq_refl). by apply Hall.
Defined.

Lemma process_action_frame_cache_witness :
  exists r' p, process_action_frame 1024 demo_elected [1%Z] [2%Z] demo_action_frame 90000 90001 =
    Done r' /\ peers r' !! [2%Z] = Some p /\ last_frame p = 90001%Z /\
    tsf_epoch_in_us (sync_state r') = tsf_epoch_in_us (synchronization_state p).
Proof.
  destruct (process_action_frame 1024 demo_elected [1%Z] [2%Z] demo_action_frame 90000 90001)
    as [r'|] eqn:He; [|vm_compute in He; discriminate He].
  destruct (process_action_frame_cache 1024 demo_elected [1%Z] [2%Z] demo_action_frame 90000
    90001 r' He) as (_ & _ & Hk).
  destruct Hk as (p & Hp & Hl & Hm); [by exists demo_peer|].
  exists r', p. split_and!; [reflexivity|exact Hp|exact Hl|]. apply Hm. reflexivity.
Defined.

Lemma hw_ipv6_roundtrip_witness :
  hw_address_to_ipv6 [0x12; 0x34; 0x56; 0x78; 0x9a; 0xbc]%Z =
    [0xfe80; 0; 0; 0; 0x1034; 0x56ff; 0xfe78; 0x9abc]%Z /\
  ipv6_to_hw_address (hw_address_to_ipv6 [0x12; 0x34; 0x56; 0x78; 0x9a; 0xbc]%Z) =
    [0x12; 0x34; 0x56; 0x78; 0x9a; 0xbc]%Z.
Proof.
  split; [reflexivity|]. apply hw_ipv6_roundtrip; [reflexivity|].
  repeat (apply Forall_cons; split; [split; [discriminate|reflexivity]|]). apply Forall_nil.
  exact I.
Defined.
