(* ===== verification/PeerCache.v ===== *)
(** * The AWDL peer cache: the rest of foa_awdl/src/peer_cache.rs

    [modify_or_add_peer], which [process_action_frame] of Awdl.v has in place; the
    two implementations of the trait over the library maps they forward to; and
    [inspect_peers].  A closure that captures the shared resources is a function
    that threads them. *)
From S2P Require Import Prelude Platform Eapol AwdlSync Awdl.

(** ** [modify_or_add_peer] *)

Inductive PeerCacheFullError : Type := PeerCacheFull.

Section Provided.
Context {C S : Type} `{AwdlPeerCache C}.
Implicit Types (c : C) (s : S).

Definition modify_or_add_peer c s (peer_address : list Z)
  (modify : AwdlPeer -> S -> outcome (AwdlPeer * S)) (add : S -> outcome (option AwdlPeer * S))
  : outcome (result PeerCacheFullError bool * C * S) :=
  match cache_get c peer_address with
  | Some peer =>
      '(peer, s) ← modify peer s;
      mret (Ok false, cache_set c peer_address peer, s)
  | None =>
      if cache_is_full c then mret (Err PeerCacheFull, c, s)
      else
        '(peer, s) ← add s;
        match peer with
        | None => mret (Ok false, c, s)
        | Some peer => mret (Ok true, cache_insert c peer_address peer, s)
        end
  end.

(** The closure's effects on [s], peer by peer. *)
Definition inspect_peers c s (f : list Z * AwdlPeer -> S -> S) : S :=
  foldl (fun s p => f p s) s (cache_iter c).
End Provided.

(** ** [process_action_frame] calls it *)

Section ActionFrame.
Context {C : Type} {Ch : Type -> Type} `{AwdlPeerCache C} `{Channel Ch}.
Implicit Types (r : CommonResources (C := C) (Ch := Ch)).

(** The two closures of [process_action_frame]; they leave the cache, which is
    borrowed, alone. *)
Definition modify_peer (TU : Z) (transmitter : list Z) af (rx_timestamp now : Z) p r
  : outcome (AwdlPeer * CommonResources) :=
  '(p, service_discovered) ← update TU p af rx_timestamp now;
  let r := if (service_discovered : bool)
    then raise_user_event r (DiscoveredServiceForPeer transmitter (airdrop_port p)
           (airplay_port p))
    else r in
  if is_peer_master r transmitter
  then r ← adopt_peer_as_master r transmitter (synchronization_state p) (election_state p);
       mret (p, r)
  else mret (p, r).

Definition add_peer (TU : Z) (transmitter : list Z) af (rx_timestamp now : Z) r
  : outcome (option AwdlPeer * CommonResources) :=
  peer ← new_with_action_frame TU af rx_timestamp now;
  mret (peer, match peer with
              | Some _ => raise_user_event r (PeerDiscovered transmitter)
              | None => r
              end).

Definition process_action_frame_calls (TU : Z) r our_address transmitter af (rx_timestamp now : Z)
  : outcome CommonResources :=
  '(res, c, r) ← modify_or_add_peer (peer_cache r) r transmitter
    (modify_peer TU transmitter af rx_timestamp now) (add_peer TU transmitter af rx_timestamp now);
  let r := set_cache r c in
  if match res with Ok b => b | Err _ => false end then elect_master r our_address else mret r.

Lemma raise_user_event_cache r event c :
  raise_user_event (set_cache r c) event = set_cache (raise_user_event r event) c.
Proof. unfold raise_user_event. simpl. by destruct (ch_try_send _ _). Qed.

Lemma peer_master_cache r c a : is_peer_master (set_cache r c) a = is_peer_master r a.
Proof. done. Qed.

Lemma adopt_cache r c a sync e :
  adopt_peer_as_master (set_cache r c) a sync e =
    (r ← adopt_peer_as_master r a sync e; mret (set_cache r c)).
Proof. unfold adopt_peer_as_master. simpl. by destruct (adopt_master _ _ _). Qed.

Lemma set_own_cache r : set_cache r (peer_cache r) = r.
Proof. by destruct r. Qed.

(** Borrowing the cache for the whole call makes no difference: the definition with
    the closures in place is the composition the code writes. *)
Theorem process_action_frame_composed TU r our_address transmitter af rx_timestamp now :
  process_action_frame TU r our_address transmitter af rx_timestamp now =
    process_action_frame_calls TU r our_address transmitter af rx_timestamp now.
Proof.
  unfold process_action_frame, process_action_frame_calls, modify_or_add_peer.
  destruct (cache_get (peer_cache r) transmitter) as [p|].
  - unfold modify_peer. destruct (update _ _ _ _ _) as [[p' found]|]; [|done]. simpl.
    destruct found; rewrite ?raise_user_event_cache, peer_master_cache;
      (destruct (is_peer_master _ _); [|done]); rewrite adopt_cache;
      by destruct (adopt_peer_as_master _ _ _ _).
  - destruct (cache_is_full _); simpl; [by rewrite set_own_cache|].
    unfold add_peer. destruct (new_with_action_frame _ _ _ _) as [[p|]|]; simpl; [| |done].
    + by destruct (raise_user_event_same r (PeerDiscovered transmitter)) as [-> _].
    + by rewrite set_own_cache.
Qed.
End ActionFrame.

(** ** The library maps

    [heapless]'s [FnvIndexMap], whose capacity is fixed and whose [insert] hands
    the pair back when it is full, and [alloc]'s [BTreeMap]. *)

Class PeerMap (M : Type) : Type := {
  pm_new : M;
  pm_iter : M -> list (list Z * AwdlPeer);
  pm_retain : (list Z -> AwdlPeer -> bool) -> M -> M;
  pm_get : M -> list Z -> option AwdlPeer;
  (** A write through [get_mut]. *)
  pm_set : M -> list Z -> AwdlPeer -> M;
  pm_insert : M -> list Z -> AwdlPeer -> result (list Z * AwdlPeer) M;
  pm_clear : M -> M;
  pm_len : M -> nat;
  pm_capacity : M -> nat;
}.

(** [bounded]: the map has a capacity. *)
Class PeerMapLaws (bounded : bool) (M : Type) `{PeerMap M} : Type := {
  pm_map : M -> gmap (list Z) AwdlPeer;
  pm_get_map : forall m a, pm_get m a = pm_map m !! a;
  pm_iter_map : forall m a p, (a, p) ∈ pm_iter m <-> pm_map m !! a = Some p;
  pm_set_map : forall m a p, is_Some (pm_map m !! a) -> pm_map (pm_set m a p) = <[a := p]> (pm_map m);
  pm_set_capacity : forall m a p, pm_capacity (pm_set m a p) = pm_capacity m;
  pm_len_map : forall m, pm_len m = size (pm_map m);
  pm_insert_map : forall m a p,
    bounded = false \/ pm_len m <> pm_capacity m \/ is_Some (pm_map m !! a) ->
    exists m', pm_insert m a p = Ok m' /\ pm_map m' = <[a := p]> (pm_map m);
  pm_insert_capacity : forall m a p m', pm_insert m a p = Ok m' -> pm_capacity m' = pm_capacity m;
  pm_retain_map : forall m f a, pm_map (pm_retain f m) !! a =
    match pm_map m !! a with Some p => if f a p then Some p else None | None => None end;
  pm_clear_map : forall m, pm_map (pm_clear m) = ∅;
}.

Section Implementations.
Context {M : Type} `{PeerMap M}.

(** [let _ = self.insert(..)]. *)
Definition insert_ignoring (m : M) (a : list Z) p : M :=
  match pm_insert m a p with Ok m' => m' | Err _ => m end.

Definition static_is_full (m : M) : bool := bool_decide (pm_capacity m = pm_len m).

Definition StaticAwdlPeerCache : AwdlPeerCache M := {|
  cache_uninit := pm_new;
  cache_iter := pm_iter;
  cache_retain := pm_retain;
  cache_get := pm_get;
  cache_set := pm_set;
  cache_is_full := static_is_full;
  cache_insert := insert_ignoring;
  cache_clear := pm_clear;
|}.

(** More memory is allocated once a [BTreeMap] is full. *)
Definition DynamicAwdlPeerCache : AwdlPeerCache M := {|
  cache_uninit := pm_new;
  cache_iter := pm_iter;
  cache_retain := pm_retain;
  cache_get := pm_get;
  cache_set := pm_set;
  cache_is_full := fun _ => false;
  cache_insert := insert_ignoring;
  cache_clear := pm_clear;
|}.
End Implementations.

(** ** Both implementations are caches *)

Section ImplementationFacts.
Context {M : Type}.

Lemma insert_ignoring_map `{PeerMapLaws bounded M} (m : M) a p :
  bounded = false \/ static_is_full m = false ->
  pm_map (insert_ignoring m a p) = <[a := p]> (pm_map m).
Proof.
  intros Hroom. unfold insert_ignoring.
  destruct (pm_insert_map m a p) as (m' & -> & ?); [|done].
  destruct Hroom as [->|Hf]; [by left|]. right. left.
  unfold static_is_full in Hf. apply bool_decide_eq_false in Hf. congruence.
Qed.

Lemma insert_ignoring_capacity `{PeerMapLaws bounded M} (m : M) a p :
  pm_capacity (insert_ignoring m a p) = pm_capacity m.
Proof.
  unfold insert_ignoring. destruct (pm_insert m a p) as [m'|] eqn:Hi; [|done].
  by eapply pm_insert_capacity.
Qed.

(** [FnvIndexMap]: full exactly at its capacity. *)
Program Definition static_cache_laws `{!PeerMap M, !PeerMapLaws true M} :
  AwdlPeerCacheLaws M (H := StaticAwdlPeerCache) := {|
  cache_map := pm_map;
  cache_capacity := fun m => Some (pm_capacity m);
|}.
Next Obligation. intros. apply pm_get_map. Qed.
Next Obligation. intros. apply pm_iter_map. Qed.
Next Obligation. intros. by apply pm_set_map. Qed.
Next Obligation. intros. simpl. f_equal. apply pm_set_capacity. Qed.
Next Obligation.
  intros. simpl. unfold static_is_full. rewrite bool_decide_eq_true, pm_len_map.
  split; [by intros ->|congruence].
Qed.
Next Obligation. intros. apply insert_ignoring_map. by right. Qed.
Next Obligation. intros. simpl. f_equal. apply insert_ignoring_capacity. Qed.
Next Obligation. intros. apply pm_retain_map. Qed.
Next Obligation. intros. apply pm_clear_map. Qed.

(** [BTreeMap]: never full. *)
Program Definition dynamic_cache_laws `{!PeerMap M, !PeerMapLaws false M} :
  AwdlPeerCacheLaws M (H := DynamicAwdlPeerCache) := {|
  cache_map := pm_map;
  cache_capacity := fun _ => None;
|}.
Next Obligation. intros. apply pm_get_map. Qed.
Next Obligation. intros. apply pm_iter_map. Qed.
Next Obligation. intros. by apply pm_set_map. Qed.
Next Obligation. done. Qed.
Next Obligation. done. Qed.
Next Obligation. intros. apply insert_ignoring_map. by left. Qed.
Next Obligation. done. Qed.
Next Obligation. intros. apply pm_retain_map. Qed.
Next Obligation. intros. apply pm_clear_map. Qed.

(** [modify_or_add_peer] on every branch, over any implementation: a cached peer is
    changed in place, a full cache refuses, a closure that adds nothing changes
    nothing, and an added peer is the only change. *)
Theorem modify_or_add_peer_spec {C S : Type} `{AwdlPeerCacheLaws C} (c : C) (s : S) a modify add res c' s' :
  modify_or_add_peer c s a modify add = Done (res, c', s') ->
  match cache_map c !! a with
  | Some p => exists p', modify p s = Done (p', s') /\ res = Ok false /\
      cache_map c' = <[a := p']> (cache_map c)
  | None =>
      (cache_is_full c = true /\ res = Err PeerCacheFull /\ c' = c /\ s' = s) \/
      (cache_is_full c = false /\ exists o, add s = Done (o, s') /\
         match o with
         | Some p => res = Ok true /\ cache_map c' = <[a := p]> (cache_map c)
         | None => res = Ok false /\ c' = c
         end)
  end.
Proof.
  unfold modify_or_add_peer. rewrite cache_get_map. destruct (cache_map c !! a) as [p|] eqn:Ha.
  - destruct (modify p s) as [[p' s1]|] eqn:Hm; simpl; intros [= <- <- <-].
    exists p'. split_and!; [done..|]. by apply cache_set_map.
  - destruct (cache_is_full c) eqn:Hf; [intros [= <- <- <-]; by left|].
    destruct (add s) as [[o s1]|] eqn:Hadd; [|done]. simpl. intros Hs. right. split; [done|].
    exists o. destruct o as [p|]; injection Hs as <- <- <-; [|done].
    split_and!; [done..|]. by apply cache_insert_map.
Qed.
End ImplementationFacts.

(** ** Witness: a map for two peers *)

Notation two_peers := (gmap (list Z) AwdlPeer).

#[local] Instance two_peers_map : PeerMap two_peers := {
  pm_new := ∅;
  pm_iter := fun m => map_to_list m;
  pm_retain := fun f m => filter (fun kp => f kp.1 kp.2 = true) m;
  pm_get := fun m a => m !! a;
  pm_set := fun m a p => <[a := p]> m;
  pm_insert := fun m a p => if decide (size m = 2 /\ m !! a = None) then Err (a, p) else Ok (<[a := p]> m);
  pm_clear := fun _ => ∅;
  pm_len := fun m => size m;
  pm_capacity := fun _ => 2;
}.

#[local] Program Instance two_peers_laws : PeerMapLaws true two_peers := {| pm_map := fun m => m |}.
Next Obligation. done. Qed.
Next Obligation. intros m a p. apply elem_of_map_to_list. Qed.
Next Obligation. done. Qed.
Next Obligation. done. Qed.
Next Obligation. done. Qed.
Next Obligation.
  intros m a p Hroom. simpl in *. rewrite decide_False; [by eexists|].
  intros [Hs Hn]. destruct Hroom as [?|[?|[q Hq]]]; [done|done|congruence].
Qed.
Next Obligation. done. Qed.
Next Obligation.
  intros m f a. simpl. rewrite map_lookup_filter. destruct (m !! a) as [p|]; [simpl|done].
  destruct (f a p) eqn:Hf; case_guard as Hg; simpl in *; congruence.
Qed.
Next Obligation. done. Qed.

Definition two_full : two_peers := <[[1%Z] := demo_peer]> (<[[2%Z] := demo_peer]> ∅).

(** The third peer is refused; the closure that would add it does not run. *)
Lemma modify_or_add_peer_spec_witness :
  modify_or_add_peer (H := StaticAwdlPeerCache) two_full 0 [3%Z]
    (fun p n => Done (p, n)) (fun n => Done (Some demo_peer, S n)) =
    Done (Err PeerCacheFull, two_full, 0) /\ static_is_full two_full = true.
Proof.
  split; [reflexivity|].
  destruct (modify_or_add_peer_spec (H := StaticAwdlPeerCache) (H0 := static_cache_laws (M := two_peers))
    two_full 0 [3%Z] (fun p n => Done (p, n)) (fun n => Done (Some demo_peer, S n))
    (Err PeerCacheFull) two_full 0) as [(Hf & _)|(_ & o & Ho & Hr)];
    [reflexivity|exact Hf|discriminate Ho].
Defined.
