(* ===== verification/AwdlSession.v ===== *)
(** * AWDL sessions: foa_awdl/src/control.rs, runner/ and state.rs

    The interface as a step machine: the calls of [AwdlControl], the polls of the
    runner's session loop, and what the three session runners do in a session, each
    segment between two awaits as one step.  Parsing and serialization of Ethernet,
    IPv6, LLC and AWDL frames are the crates' and parameters; the clock is an argument. *)
From S2P Require Import Prelude Bytes Network Platform Lmac Locks Eapol AwdlSync Awdl PeerCache.

(** ** Frames *)

(** The header of a received data frame, and its payload if it is a single unprotected one. *)
Record AwdlData : Type := MkAwdlData {
  ad_destination : option (list Z);
  ad_source : option (list Z);
  ad_payload : option (list Z);
}.

(** A received frame by type: an action frame with its OUI, its body if it parses, and
    its transmitter, or a data frame. *)
Inductive AwdlFrame : Type :=
| FAction (oui : list Z) (body : option ActionFrame) (transmitter : list Z)
| FData (frame : AwdlData)
| FOther.

(** What the crates parse besides Ethernet frames: next header and payload of an IPv6 packet,
    type and target address of an ICMPv6 packet, OUI and payload of an LLC frame, type and
    payload of an AWDL data frame; and whether a data frame fits a transmit buffer. *)
Class AwdlWire `{Ethernet} : Type := {
  parse_ipv6 : list Z -> option (Z * list Z);
  parse_icmpv6 : list Z -> option (Z * list Z);
  parse_llc : list Z -> option (list Z * list Z);
  parse_awdl_data : list Z -> option (Z * list Z);
  data_frame_len : EthernetFrame -> Z -> option nat;
}.

Definition APPLE_OUI : list Z := [0x00; 0x17; 0xf2]%Z.
Definition AWDL_BSSID : list Z := [0x00; 0x25; 0x00; 0xff; 0x94; 0x73]%Z.
Definition ETHERTYPE_IPV6 : Z := 0x86dd.
Definition ICMPV6 : Z := 58.
Definition NEIGHBOR_SOLICIT : Z := 135.

(** The neighbour advertisement that is handed to the network stack. *)
Record NeighborAdvert : Type := MkNeighborAdvert {
  na_eth_dst : list Z;
  na_eth_src : list Z;
  na_src_addr : list Z;
  na_dst_addr : list Z;
  na_target_addr : list Z;
  na_lladdr : list Z;
}.

(** The parts of an action frame that depend on the state. *)
Inductive AWDLActionFrameSubType : Type := PSF | MIF.

Record SentActionFrame : Type := MkSentActionFrame {
  sa_transmitter : list Z;
  sa_subtype : AWDLActionFrameSubType;
  sa_synchronization : SynchronizationParametersTLV;
  sa_election_v1 : ElectionParametersTLV;
  sa_channel_sequence : list (Z * Z);
  sa_election_v2 : ElectionParametersV2TLV;
}.

Inductive AwdlState : Type :=
| Active (our_address : list Z) (channel : Z)
| Inactive.

(** [u32::to_le_bytes]. *)
Definition u32_to_le (z : Z) : list Z :=
  [z mod 256; z / 2 ^ 8 mod 256; z / 2 ^ 16 mod 256; z / 2 ^ 24 mod 256]%Z.

(** The hook of a sent action frame: [buffer[32..36].copy_from_slice(..)] with the
    low 32 bits of the MAC's clock. *)
Definition phy_tx_time_hook (mac_time : Z) (buffer : list Z) : outcome (list Z) :=
  _ ← slice buffer 32 36;
  mret (take 32 buffer ++ u32_to_le (wrapping 32 mac_time) ++ drop 36 buffer).

Section Session.
Context `{AwdlWire} {C : Type} {Ch Sg W : Type -> Type}
  `{AwdlPeerCache C, Channel Ch, Signal Sg, Watch W, Radio}.
Context (TU : Z) (interface : nat).

(** What the transmit runner does: nothing, waiting for a buffer, waiting for a slot. *)
Inductive tx_task : Type :=
| TxIdle
| TxAlloc (frame : EthernetFrame)
| TxSlot (frame : EthernetFrame) (until : Z).

(** The interface.  [starting]: [start] waits for the end of an off-channel operation.
    [session]: the address of the session the runner is in. *)
Record Awdl : Type := MkAwdl {
  common_resources : CommonResources (C := C) (Ch := Ch);
  awdl_lmac : LMac (W := W);
  awdl_bssid_filter : option (list Z);
  awdl_ra_filter : option (list Z);
  state_signal : Sg AwdlState;
  ndp_inject_signal : Sg (list Z);
  stale_peer_timeout : Z;
  control_channel : Z;
  control_address : list Z;
  starting : bool;
  session : option (list Z);
  awdl_link_up : bool;
  awdl_hardware_address : list Z;
  tx : tx_task;
  data_frame_sequence_number : Z;
}.
Implicit Types (a : Awdl) (address : list Z).

Definition with_resources a r : Awdl :=
  MkAwdl r (awdl_lmac a) (awdl_bssid_filter a) (awdl_ra_filter a) (state_signal a)
    (ndp_inject_signal a) (stale_peer_timeout a) (control_channel a) (control_address a)
    (starting a) (session a) (awdl_link_up a) (awdl_hardware_address a) (tx a)
    (data_frame_sequence_number a).
Definition with_control a lm (bssid ra : option (list Z)) (sg : Sg AwdlState) (pending : bool) : Awdl :=
  MkAwdl (common_resources a) lm bssid ra sg (ndp_inject_signal a) (stale_peer_timeout a)
    (control_channel a) (control_address a) pending (session a) (awdl_link_up a)
    (awdl_hardware_address a) (tx a) (data_frame_sequence_number a).
Definition with_parameters a (timeout : Z) address : Awdl :=
  MkAwdl (common_resources a) (awdl_lmac a) (awdl_bssid_filter a) (awdl_ra_filter a)
    (state_signal a) (ndp_inject_signal a) timeout (control_channel a) address
    (starting a) (session a) (awdl_link_up a) (awdl_hardware_address a) (tx a)
    (data_frame_sequence_number a).
Definition with_ndp a (sg : Sg (list Z)) : Awdl :=
  MkAwdl (common_resources a) (awdl_lmac a) (awdl_bssid_filter a) (awdl_ra_filter a)
    (state_signal a) sg (stale_peer_timeout a) (control_channel a) (control_address a)
    (starting a) (session a) (awdl_link_up a) (awdl_hardware_address a) (tx a)
    (data_frame_sequence_number a).
Definition with_tx a (t : tx_task) (seq : Z) : Awdl :=
  MkAwdl (common_resources a) (awdl_lmac a) (awdl_bssid_filter a) (awdl_ra_filter a)
    (state_signal a) (ndp_inject_signal a) (stale_peer_timeout a) (control_channel a)
    (control_address a) (starting a) (session a) (awdl_link_up a) (awdl_hardware_address a) t seq.
Definition with_session a r (sg : Sg AwdlState) (ndp : Sg (list Z)) (s : option (list Z))
  (up : bool) (hw : list Z) (t : tx_task) (seq : Z) : Awdl :=
  MkAwdl r (awdl_lmac a) (awdl_bssid_filter a) (awdl_ra_filter a) sg ndp (stale_peer_timeout a)
    (control_channel a) (control_address a) (starting a) s up hw t seq.

(** ** [new_awdl_interface] *)

(** On a virtual interface that was reset; [factory_mac]: that of the interface. *)
Definition new_awdl_interface (depth : nat) (lm : LMac) (factory_mac : list Z) : Awdl :=
  MkAwdl (resources_new depth) lm (Some AWDL_BSSID) None sg_new sg_new 3000000 6 factory_mac
    false None false factory_mac TxIdle 0.

(** ** [AwdlControl] *)

Definition enable_filters a : Awdl :=
  with_control a (awdl_lmac a) (Some AWDL_BSSID) (Some (control_address a)) (state_signal a)
    (starting a).
Definition disable_filters a : Awdl :=
  with_control a (awdl_lmac a) None None (state_signal a) (starting a).

Definition set_awdl_lmac a (lm : LMac) : Awdl :=
  with_control a lm (awdl_bssid_filter a) (awdl_ra_filter a) (state_signal a) (starting a).
Definition set_channel_state a (cs : ChannelState) : Awdl :=
  set_awdl_lmac a (with_channel (awdl_lmac a) cs).
Definition set_starting a (pending : bool) : Awdl :=
  with_control a (awdl_lmac a) (awdl_bssid_filter a) (awdl_ra_filter a) (state_signal a) pending.
Definition signal_awdl a (st : AwdlState) : Awdl :=
  with_control a (awdl_lmac a) (awdl_bssid_filter a) (awdl_ra_filter a)
    (sg_signal st (state_signal a)) (starting a).

(** [start] from the end of its wait. *)
Definition start_finish a : Awdl :=
  let a := enable_filters (set_starting a false) in
  signal_awdl a (Active (control_address a) (control_channel a)).

(** The start of [start]: [None] is [FailedToAcquireChannelLock], else whether it is done. *)
Definition start_begin a : outcome (option bool * Awdl) :=
  '(r, cs) ← begin_interface_bringup_operation (lm_channel (awdl_lmac a)) interface
               (control_channel a);
  let a := set_channel_state a cs in
  match r with
  | Err _ => mret (None, a)
  | Ok _ =>
      if completion_wait_needed (awdl_lmac a) then mret (Some false, set_starting a true)
      else mret (Some true, start_finish a)
  end.

Definition start_poll a : option Awdl :=
  match completion_wait_poll (awdl_lmac a) with
  | PollReady _ => Some (start_finish a)
  | PollPending => None
  end.

(** A dropped [start] drops its bring-up operation. *)
Definition start_drop a : outcome Awdl :=
  cs ← bringup_drop (lm_channel (awdl_lmac a)) interface;
  mret (set_channel_state (set_starting a false) cs).

Definition stop a : outcome Awdl :=
  cs ← unlock_channel (lm_channel (awdl_lmac a)) interface;
  mret (signal_awdl (disable_filters (set_channel_state a cs)) Inactive).

Definition set_peer_stale_timeout a (timeout : Z) : Awdl :=
  with_parameters a timeout (control_address a).
Definition control_set_mac_address a address : Awdl := with_parameters a (stale_peer_timeout a) address.

Definition control_mac_address a : list Z := control_address a.
(** [random]: what [random_mac_address] returned. *)
Definition randomize_mac_address a (random : list Z) : list Z * Awdl :=
  (random, control_set_mac_address a random).
Definition own_ipv6_addr a : list Z := hw_address_to_ipv6 (control_address a).
Definition control_inspect_peers {S} a (s : S) (f : list Z * AwdlPeer -> S -> S) : S :=
  inspect_peers (peer_cache (common_resources a)) s f.

(** ** [AwdlRunner::run] *)

(** The loop with a new value of its local [state]. *)
Definition session_begin a (st : AwdlState) (sg : Sg AwdlState) (now : Z) : Awdl :=
  match st with
  | Inactive =>
      with_session a (common_resources a) sg (ndp_inject_signal a) None (awdl_link_up a)
        (awdl_hardware_address a) TxIdle (data_frame_sequence_number a)
  | Active our_address channel =>
      with_session a (initialize_session_parameters (common_resources a) channel our_address now)
        sg (sg_reset (ndp_inject_signal a)) (Some our_address) true our_address TxIdle 0
  end.

(** The end of a session drops its three runners. *)
Definition session_end a : Awdl :=
  with_session a (Awdl.clear_peer_cache (common_resources a)) (state_signal a) (ndp_inject_signal a) None
    false (awdl_hardware_address a) TxIdle (data_frame_sequence_number a).

(** A poll, as far as the state signal goes. *)
Definition runner_poll_state a (now : Z) : Awdl :=
  match sg_wait (state_signal a) with
  | None => a
  | Some (st, sg) =>
      session_begin (match session a with Some _ => session_end a | None => a end) st sg now
  end.

(** ** The management runner (runner/management.rs) *)

Definition serialize_action_frame a address (subtype : AWDLActionFrameSubType) (now : Z)
  : outcome SentActionFrame :=
  let r := common_resources a in
  sync ← generate_tlv TU (sync_state r) now (root_peer (our_election_state r));
  v2 ← expect (generate_tlv_v2 (our_election_state r));
  mret (MkSentActionFrame address subtype sync (generate_tlv_v1 (our_election_state r))
    ((fun channel => (channel, 0x51%Z)) <$> channel_sequence (sync_state r)) v2).

Definition purge_tick a address (now : Z) : outcome Awdl :=
  r ← purge_and_elect (common_resources a) address now (stale_peer_timeout a);
  mret (with_resources a r).

(** The first branch of the [select4]: a request for an off-channel operation is rejected. *)
Definition reject_request a : option Awdl :=
  r ← lm_requesters (awdl_lmac a) !! interface;
  match fst (wait_for_request r) with
  | PollReady _ => Some (set_awdl_lmac a (answer_request (awdl_lmac a) interface
      (fun r => fst (request_reject r))))
  | PollPending => None
  end.

(** ** The receive runner (runner/rx.rs) *)

(** The frame in a receive buffer of [buf_len] bytes, and its length. *)
Definition serialize_ethernet_frame (buf_len : nat) (src dst : list Z) (protocol : Z)
  (payload : list Z) : option (EthernetFrame * nat) :=
  if decide (length payload <= buf_len - ETHERNET_HEADER_LEN)
  then Some (MkEthernetFrame dst src protocol payload, ETHERNET_HEADER_LEN + length payload)
  else None.

(** [rx_buf]: the length of the receive buffer, if there was one in time. *)
Definition process_data_frame (frame : AwdlData) (rx_buf : option nat)
  : option (EthernetFrame * nat) :=
  destination ← ad_destination frame;
  source ← ad_source frame;
  payload ← ad_payload frame;
  '(oui, llc_payload) ← parse_llc payload;
  if decide (oui <> APPLE_OUI) then None
  else
    '(ether_type, data) ← parse_awdl_data llc_payload;
    buf_len ← rx_buf;
    serialize_ethernet_frame buf_len source destination ether_type data.

Definition process_frame a our_address (frame : AwdlFrame) (rx_timestamp now : Z)
  (rx_buf : option nat) : outcome (option (EthernetFrame * nat) * Awdl) :=
  match frame with
  | FAction oui body transmitter =>
      if decide (oui <> APPLE_OUI) then mret (None, a)
      else match body with
      | None => mret (None, a)
      | Some af =>
          r ← process_action_frame TU (common_resources a) our_address transmitter af
            rx_timestamp now;
          mret (None, with_resources a r)
      end
  | FData data => mret (process_data_frame data rx_buf, a)
  | FOther => mret (None, a)
  end.

Definition inject_neighbor a (own_address peer_address : list Z) (rx_buf : bool)
  : option NeighborAdvert :=
  if negb (is_peer_cached (common_resources a) peer_address) then None
  else if negb rx_buf then None
  else
    let src_addr := hw_address_to_ipv6 peer_address in
    let dst_addr := hw_address_to_ipv6 own_address in
    Some (MkNeighborAdvert own_address peer_address src_addr dst_addr src_addr peer_address).

(** ** The transmit runner (runner/tx.rs) *)

Definition find_ndp_solicit (ipv6_payload : list Z) : option (list Z) :=
  '(next_header, payload) ← parse_ipv6 ipv6_payload;
  if decide (next_header <> ICMPV6) then None
  else
    '(msg_type, target_addr) ← parse_icmpv6 payload;
    if decide (msg_type <> NEIGHBOR_SOLICIT) then None
    else Some (ipv6_to_hw_address target_addr).

(** What came of an MSDU. *)
Inductive tx_result : Type :=
| TxPending
| TxDropped
| TxNeighborRequested (peer_address : list Z)
| TxSent (frame : EthernetFrame) (seq : Z).

(** [tx_done], and the next sequence number, a [u16]. *)
Definition tx_finish a (res : tx_result) : outcome (tx_result * Awdl) :=
  seq ← expect (checked_add 16 (data_frame_sequence_number a) 1);
  mret (res, with_tx a TxIdle seq).

Definition tx_send a (frame : EthernetFrame) : outcome (tx_result * Awdl) :=
  match data_frame_len frame (data_frame_sequence_number a) with
  | None => tx_finish a TxDropped
  | Some _ => tx_finish a (TxSent frame (data_frame_sequence_number a))
  end.

Definition tx_wait a (t : tx_task) : outcome (tx_result * Awdl) :=
  mret (TxPending, with_tx a t (data_frame_sequence_number a)).

(** [transmit_frame] up to the allocation of a buffer. *)
Definition tx_msdu a (msdu_buffer : list Z) : outcome (tx_result * Awdl) :=
  match parse_ethernet msdu_buffer with
  | None => tx_finish a TxDropped
  | Some frame =>
      match (if decide (ethertype frame = ETHERTYPE_IPV6)
             then find_ndp_solicit (eth_payload frame) else None) with
      | Some peer_address =>
          tx_finish (with_ndp a (sg_signal peer_address (ndp_inject_signal a)))
            (TxNeighborRequested peer_address)
      | None =>
          if negb (is_multicast (eth_dst frame)) &&
             negb (is_peer_cached (common_resources a) (eth_dst frame))
          then tx_finish a TxDropped
          else tx_wait a (TxAlloc frame)
      end
  end.

(** From the allocation to the common slot. *)
Definition tx_buffer a (frame : EthernetFrame) (now : Z) : outcome (tx_result * Awdl) :=
  let r := common_resources a in
  slot ← Awdl.get_common_slot_for_peer TU is_multicast (peer_cache r) (eth_dst frame)
    (sync_state r) now;
  match slot with
  | OverlappingAt timestamp => tx_wait a (TxSlot frame (timestamp + 110))
  | PeerNotInCache => tx_finish a TxDropped
  | NoOverlappingSlots => tx_finish a TxDropped
  | CurrentlyOverlapping => tx_send a frame
  end.

(** ** The machine *)

Inductive awdl_action : Type :=
| AStart | AStartPoll | AStartDrop | AStop
| ASetTimeout (timeout : Z)
| ASetMac (address : list Z)
| APollState (now : Z)
| AOffChannelRequest
| APurge (now : Z)
| ASendAction (subtype : AWDLActionFrameSubType) (now : Z)
| AFrame (frame : AwdlFrame) (rx_timestamp now : Z) (rx_buf : option nat)
| AInject (rx_buf : bool)
| AMsdu (msdu : list Z)
| ATxBuffer (now : Z)
| ATxTimer (now : Z)
| AMac (o : mac_action).

Inductive awdl_output : Type :=
| AONone
| AOStart (r : option bool)
| AORejected
| AOAction (frame : SentActionFrame)
| AOReceived (frame : option (EthernetFrame * nat))
| AOInjected (advert : option NeighborAdvert)
| AOTx (res : tx_result).

Definition step_to (o : awdl_output) (m : outcome Awdl) : option (outcome (Awdl * awdl_output)) :=
  Some (a ← m; mret (a, o)).
Definition step_tx (m : outcome (tx_result * Awdl)) : option (outcome (Awdl * awdl_output)) :=
  Some ('(r, a) ← m; mret (a, AOTx r)).

(** A step of a session's runners. *)
Definition session_step a our_address (act : awdl_action)
  : option (outcome (Awdl * awdl_output)) :=
  match act with
  | AOffChannelRequest =>
      match reject_request a with Some a => Some (Done (a, AORejected)) | None => None end
  | APurge now => step_to AONone (purge_tick a our_address now)
  | ASendAction subtype now => Some (
      f ← serialize_action_frame a our_address subtype now; mret (a, AOAction f))
  | AFrame frame rx_timestamp now rx_buf => Some (
      '(r, a) ← process_frame a our_address frame rx_timestamp now rx_buf;
      mret (a, AOReceived r))
  | AInject rx_buf =>
      match sg_wait (ndp_inject_signal a) with
      | Some (peer_address, sg) =>
          Some (Done (with_ndp a sg, AOInjected (inject_neighbor a our_address peer_address rx_buf)))
      | None => None
      end
  | AMsdu msdu => match tx a with TxIdle => step_tx (tx_msdu a msdu) | _ => None end
  | ATxBuffer now =>
      match tx a with TxAlloc frame => step_tx (tx_buffer a frame now) | _ => None end
  | ATxTimer now =>
      match tx a with
      | TxSlot frame until =>
          if decide (until <= now)%Z then step_tx (tx_send a frame) else None
      | _ => None
      end
  | _ => None
  end.

Definition awdl_step a (act : awdl_action) : option (outcome (Awdl * awdl_output)) :=
  match act with
  | AStart =>
      if starting a then None
      else Some ('(r, a) ← start_begin a; mret (a, AOStart r))
  | AStartPoll =>
      if starting a then
        match start_poll a with
        | Some a => Some (Done (a, AOStart (Some true)))
        | None => Some (Done (a, AOStart (Some false)))
        end
      else None
  | AStartDrop => if starting a then step_to AONone (start_drop a) else None
  | AStop => if starting a then None else step_to AONone (stop a)
  | ASetTimeout timeout => step_to AONone (mret (set_peer_stale_timeout a timeout))
  | ASetMac address =>
      if starting a then None else step_to AONone (mret (control_set_mac_address a address))
  | APollState now => step_to AONone (mret (runner_poll_state a now))
  | AMac o => step_to AONone (lm ← mac_step interface (awdl_lmac a) o; mret (set_awdl_lmac a lm))
  | _ =>
      match session a with
      | Some our_address => session_step a our_address act
      | None => None
      end
  end.
End Session.
