(* ===== verification/AwdlProps.v ===== *)
(** * Properties of AWDL sessions

    The invariant of the interface over calls, polls, frames and MSDUs in any order,
    that nothing in a session panics, that sessions follow the control, and what may be
    transmitted and injected. *)
From S2P Require Import Prelude Bytes Network Platform Lmac Locks Eapol AwdlSync Awdl AwdlSession.

(** ** The shared resources *)

Section ResourceFacts.
Context {C : Type} {Ch : Type -> Type} `{AwdlPeerCacheLaws C} `{Channel Ch}.
Implicit Types (r : CommonResources (C := C) (Ch := Ch)) (e : ElectionState) (af : ActionFrame).

(** Everything the election parameters of our frames need is there. *)
Definition election_ready e : Prop :=
  is_Some (self_counter e) /\ is_Some (master_counter e) /\ is_Some (sync_peer e).
Definition sequence_ok (st : SynchronizationState) : Prop := length (channel_sequence st) = 16.
Definition distance_ok e : Prop := (distance_to_master e < u_max 32)%Z.

Definition peer_ok (p : AwdlPeer) : Prop :=
  sequence_ok (synchronization_state p) /\ distance_ok (election_state p).

Record resources_ok r : Prop := {
  ro_election : election_ready (our_election_state r);
  ro_sequence : sequence_ok (sync_state r);
  ro_peers : forall a p, peers r !! a = Some p -> peer_ok p;
}.

(** A frame as the crate parses it (sixteen channels, a delay that fits), from a station
    that does not claim the largest distance. *)
Record af_ok af : Prop := {
  fo_sequence : forall c, af_channel_sequence af = Some c -> length (channels_of c) = 16;
  fo_delta : is_Some (af_tx_delta af);
  fo_distance : forall e, election_from_af (af_election_v2 af) (af_election_v1 af) = Some e ->
    distance_ok e;
}.

Lemma adopt_master_total e a master :
  distance_ok master -> is_Some (self_counter e) ->
  exists e', adopt_master e a master = Done e' /\ election_ready e'.
Proof.
  intros Hd Hs. unfold adopt_master, u32_add.
  destruct (checked_add 32 (distance_to_master master) 1) as [d|] eqn:Hc; simpl.
  - eexists. split; [done|]. unfold election_ready. simpl. eauto.
  - apply checked_add_None in Hc. unfold distance_ok, u_max in *. lia.
Qed.

Lemma adopt_peer_total r a sync e :
  resources_ok r -> distance_ok e ->
  exists r', adopt_peer_as_master r a sync e = Done r' /\ resources_ok r' /\
    peer_cache r' = peer_cache r.
Proof.
  intros [[Hs He] Hq Hp] Hd. unfold adopt_peer_as_master.
  destruct (adopt_master_total (our_election_state r) a e Hd Hs) as (e' & -> & He').
  eexists. split; [done|]. split; [|done]. by split.
Qed.

Lemma elect_master_total r our_address :
  resources_ok r -> exists r', elect_master r our_address = Done r' /\ resources_ok r' /\
    peer_cache r' = peer_cache r.
Proof.
  intros Hr. unfold elect_master, find_master.
  set (best := most_eligible _ _).
  assert (best = (our_address, our_election_state r) \/
    exists p, cache_map (peer_cache r) !! best.1 = Some p /\ best.2 = election_state p) as Hb.
  { unfold best, most_eligible.
    assert (forall x, x ∈ cache_iter (peer_cache r) -> cache_map (peer_cache r) !! x.1 = Some x.2)
      as Hin by (intros [a p]; apply cache_iter_map).
    revert Hin. generalize (our_address, our_election_state r) as b.
    induction (cache_iter (peer_cache r)) as [|[a p] l IH]; intros b Hin; simpl; [by left|].
    destruct (IH (if is_more_eligible b.2 (election_state p) then (a, election_state p) else b))
      as [Heq|Hex]; [intros x Hx; apply Hin; by right| |by right].
    rewrite Heq. destruct (is_more_eligible _ _); [right|by left].
    exists p. split; [|done]. apply (Hin (a, p)). by left. }
  destruct (decide (best.1 = our_address)) as [Heq|Hne].
  - simpl. eexists. split; [done|]. destruct (negb _); [|done].
    destruct Hr as [He Hq Hp]. split; [|done]. split; [|done|done].
    unfold election_ready. simpl. eauto.
  - destruct Hb as [Hb|(p & Hp & He)]; [by rewrite Hb in Hne|].
    rewrite cache_get_map, Hp. cbn [expect mbind outcome_bind mret outcome_ret].
    apply adopt_peer_total; [done|]. rewrite He. by apply (ro_peers r Hr best.1 p).
Qed.

Lemma raise_event_ok r event : resources_ok r -> resources_ok (raise_user_event r event).
Proof.
  intros [He Hq Hp]. destruct (raise_user_event_same r event) as (Hc & Hs & Ho).
  split; [by rewrite Ho|by rewrite Hs|]. unfold peers. by rewrite Hc.
Qed.

Lemma set_cache_ok r c :
  resources_ok r -> (forall a p, cache_map c !! a = Some p -> peer_ok p) ->
  resources_ok (set_cache r c).
Proof. intros [He Hq Hp] Hc. by split. Qed.

Lemma sync_from_af_total TU af rx :
  af_ok af -> exists sync, sync_from_af TU (af_channel_sequence af) (af_synchronization af)
    (af_tx_delta af) rx = Done sync /\ forall st, sync = Some st -> sequence_ok st.
Proof.
  intros [Hc [d Hd] _]. unfold sync_from_af. destruct (af_channel_sequence af) as [c|]; simpl;
    [|by eexists]. destruct (af_synchronization af) as [tlv|]; [|by eexists].
  rewrite Hd. simpl. eexists. split; [done|]. intros st [= <-]. unfold sequence_ok. simpl.
  by apply Hc.
Qed.

Lemma update_service_ok p x : peer_ok p -> peer_ok (update_service p x).1.
Proof.
  intros Hp. unfold update_service. destruct (srv_port x), (service_domain x); simpl; try done;
    by destruct (airplay_port p), (airdrop_port p).
Qed.

Lemma update_total TU p af rx now :
  peer_ok p -> af_ok af ->
  exists p' found, update TU p af rx now = Done (p', found) /\ peer_ok p'.
Proof.
  intros [Hs Hd] Haf. unfold update.
  destruct (sync_from_af_total TU af rx Haf) as (sync & -> & Hsync). simpl.
  set (p1 := MkAwdlPeer _ _ _ _ _).
  assert (peer_ok p1) as Hp1.
  { split; simpl.
    - destruct sync as [st|]; [by apply Hsync|done].
    - destruct (election_from_af _ _) as [e|] eqn:He; [by apply (fo_distance af Haf)|done]. }
  clearbody p1. clear Hs Hd. revert p1 Hp1. generalize false as b.
  induction (af_services af) as [|x l IH]; intros b q Hq; simpl; [by eexists _, _|].
  pose proof (update_service_ok q x Hq) as Hq'. destruct (update_service q x) as [q' new]. by apply IH.
Qed.

Lemma new_peer_total TU af rx now :
  af_ok af -> exists p, new_with_action_frame TU af rx now = Done p /\
    forall p', p = Some p' -> peer_ok p'.
Proof.
  intros Haf. unfold new_with_action_frame.
  destruct (sync_from_af_total TU af rx Haf) as (sync & -> & Hsync). simpl.
  eexists. split; [done|]. intros p'. destruct sync as [st|]; [|done]. simpl.
  destruct (election_from_af _ _) as [e|] eqn:He; [|done]. intros [= <-].
  split; [by apply Hsync|by apply (fo_distance af Haf)].
Qed.

(** Received action frames and the purge keep the resources in order, and never panic. *)
Lemma process_action_frame_total TU r our_address transmitter af rx now :
  resources_ok r -> af_ok af ->
  exists r', process_action_frame TU r our_address transmitter af rx now = Done r' /\ resources_ok r'.
Proof.
  intros Hr Haf. unfold process_action_frame. rewrite cache_get_map.
  destruct (cache_map (peer_cache r) !! transmitter) as [p|] eqn:Hp.
  - destruct (update_total TU p af rx now) as (p' & found & -> & Hp');
      [by apply (ro_peers r Hr transmitter)|done|].
    cbn [mbind outcome_bind].
    set (r1 := set_cache r (cache_set (peer_cache r) transmitter p')).
    assert (resources_ok r1) as Hr1.
    { apply set_cache_ok; [done|]. intros a q. rewrite cache_set_map by (by rewrite Hp).
      intros [[<- <-]|[_ Hq]]%lookup_insert_Some; [done|by apply (ro_peers r Hr a)]. }
    assert (forall r2, resources_ok r2 -> exists r', (if is_peer_master r2 transmitter
      then adopt_peer_as_master r2 transmitter (synchronization_state p') (election_state p')
      else mret r2) = Done r' /\ resources_ok r') as Hadopt.
    { intros r2 Hr2. destruct (is_peer_master r2 transmitter); [|by eexists].
      destruct (adopt_peer_total r2 transmitter (synchronization_state p') (election_state p') Hr2)
        as (r3 & -> & Hr3 & _); [by destruct Hp'|]. by eexists. }
    apply Hadopt. destruct found; [by apply raise_event_ok|done].
  - destruct (cache_is_full (peer_cache r)) eqn:Hf; [by eexists|].
    destruct (new_peer_total TU af rx now Haf) as (p & -> & Hnew). cbn [mbind outcome_bind].
    destruct p as [p|]; [|by eexists].
    destruct (elect_master_total (set_cache (raise_user_event r (PeerDiscovered transmitter))
      (cache_insert (peer_cache (raise_user_event r (PeerDiscovered transmitter))) transmitter p))
      our_address) as (r' & -> & Hr' & _); [|by eexists].
    apply set_cache_ok; [by apply raise_event_ok|].
    destruct (raise_user_event_same r (PeerDiscovered transmitter)) as (-> & _ & _).
    intros a q. rewrite cache_insert_map by done.
    intros [[<- <-]|[_ Hq]]%lookup_insert_Some; [by apply Hnew|by apply (ro_peers r Hr a)].
Qed.

Lemma purge_ok r now timeout : resources_ok r -> resources_ok (purge_stale_peers r now timeout).
Proof.
  intros Hr. unfold purge_stale_peers.
  set (f := fun r '(a, p) => raise_user_event r _). set (l := filter _ _).
  assert (forall r, resources_ok r -> resources_ok (foldl f r l)) as Hfold.
  { induction l as [|[a p] l IH]; intros r1 Hr1; simpl; [done|]. by apply IH, raise_event_ok. }
  apply set_cache_ok; [by apply Hfold|]. intros a p. rewrite cache_retain_map.
  destruct (_ !! a) as [q|] eqn:Hq; [|done]. destruct (is_fresh now timeout q); [|done].
  intros [= <-]. by apply (ro_peers _ (Hfold r Hr) a).
Qed.
End ResourceFacts.

(** ** The interface *)

Section SessionFacts.
Context `{AwdlWire} {C : Type} {Ch Sg W : Type -> Type}
  `{AwdlPeerCacheLaws C, Channel Ch, SignalLaws Sg, Watch W, RadioLaws}.
Context (TU : Z) (TU_pos : (0 < TU)%Z) (interface : nat) (interface_ok : interface < INTERFACE_COUNT).
Notation Awdl := (Awdl (C := C) (Ch := Ch) (Sg := Sg) (W := W)).
Notation step := (awdl_step TU interface).
Implicit Types (a : Awdl) (act : awdl_action) (r : CommonResources (C := C) (Ch := Ch)).

(** A runner outside a session has no link, no peers and nothing to send; in a session
    the link is up under the session's address. *)
Definition session_state a : Prop :=
  match session a with
  | None => awdl_link_up a = false /\ peers (common_resources a) = ∅ /\ tx a = TxIdle
  | Some address => awdl_link_up a = true /\ awdl_hardware_address a = address
  end.

Record awdl_ok a : Prop := {
  ao_locks : locks_ok (lm_channel (awdl_lmac a));
  ao_resources : resources_ok (common_resources a);
  ao_session : session_state a;
  ao_sequence : (0 <= data_frame_sequence_number a <= u_max 16)%Z;
}.

(** Received action frames are [af_ok]. *)
Definition act_ok act : Prop :=
  match act with AFrame (FAction _ (Some af) _) _ _ _ => af_ok af | _ => True end.

(** The MSDUs of a run, and the one that waits. *)
Definition is_msdu act : nat := match act with AMsdu _ => 1 | _ => 0 end.
Definition msdus (acts : list awdl_action) : nat := sum_list (is_msdu <$> acts).
Lemma msdus_cons act acts : msdus (act :: acts) = is_msdu act + msdus acts.
Proof. done. Qed.

Lemma msdus_one act : msdus [act] = is_msdu act.
Proof. unfold msdus. simpl. by rewrite Nat.add_0_r. Qed.

Definition pending a : nat := match tx a with TxIdle => 0 | _ => 1 end.

Lemma new_ok depth (lm : LMac (W := W)) mac :
  locks_ok (lm_channel lm) -> cache_map (cache_uninit (C := C)) = ∅ ->
  awdl_ok (new_awdl_interface (Sg := Sg) (Ch := Ch) depth lm mac).
Proof.
  intros Hl Hc. split; [done| |by split|split; vm_compute; congruence].
  split; [unfold election_ready; simpl; eauto|done|]. intros x p Hp.
  change (cache_map (cache_uninit (C := C)) !! x = Some p) in Hp. by rewrite Hc in Hp.
Qed.

Lemma serialize_total a address subtype now :
  resources_ok (common_resources a) -> exists f, serialize_action_frame TU a address subtype now = Done f.
Proof.
  intros [(Hs & Hm & Hp) Hq _]. unfold serialize_action_frame, generate_tlv, next_channel.
  destruct (lookup_lt_is_Some_2 (channel_sequence (sync_state (common_resources a)))
    (Z.to_nat (next_slot_index TU (elapsed_since_tsf_epoch (sync_state (common_resources a)) now))))
    as [ch Hch].
  { rewrite Hq. unfold next_slot_index, SLOTS_PER_CHANNEL_SEQUENCE.
    pose proof (Z.mod_pos_bound (aw_seq_number TU
      (elapsed_since_tsf_epoch (sync_state (common_resources a)) now) / AW_PER_SLOT + 1) 16). lia. }
  rewrite Hch. cbn [expect mbind outcome_bind mret outcome_ret]. unfold generate_tlv_v2.
  destruct Hs as [? ->], Hm as [? ->], Hp as [? ->]. by eexists.
Qed.

Lemma overlap_total st other now :
  sequence_ok st -> sequence_ok other -> exists s, next_overlap_timestamp TU st other now = Done s.
Proof.
  intros Hs Ho. unfold next_overlap_timestamp.
  assert (forall d, Z.to_nat (current_slot_index TU d) < 16) as Hlt.
  { intros d. unfold current_slot_index, SLOTS_PER_CHANNEL_SEQUENCE.
    pose proof (Z.mod_pos_bound (aw_seq_number TU d / AW_PER_SLOT) 16). lia. }
  destruct (lookup_lt_is_Some_2 (channel_sequence st)
    (Z.to_nat (current_slot_index TU (elapsed_since_tsf_epoch st now)))) as [c ->];
    [rewrite Hs; apply Hlt|].
  destruct (lookup_lt_is_Some_2 (channel_sequence other)
    (Z.to_nat (current_slot_index TU (elapsed_since_tsf_epoch other now)))) as [c' ->];
    [rewrite Ho; apply Hlt|]. simpl. case_decide; by eexists.
Qed.

Lemma common_slot_total a dst now :
  resources_ok (common_resources a) ->
  exists s, Awdl.get_common_slot_for_peer TU is_multicast (peer_cache (common_resources a)) dst
    (sync_state (common_resources a)) now = Done s.
Proof.
  intros Hr. unfold Awdl.get_common_slot_for_peer. destruct (is_multicast dst); [by eexists|].
  rewrite cache_get_map. destruct (cache_map _ !! dst) as [p|] eqn:Hp; [|by eexists].
  apply overlap_total; [by apply (ro_peers _ Hr dst p)|apply ro_sequence, Hr].
Qed.

(** ** One step

    A step keeps the invariant, and only an MSDU costs sequence numbers. *)
Definition used a : Z := (data_frame_sequence_number a + Z.of_nat (pending a))%Z.

Definition fine {A} a (n : Z) (f : A -> Awdl) (m : outcome A) : Prop :=
  match m with
  | Done x => awdl_ok (f x) /\ (used (f x) <= data_frame_sequence_number a + n)%Z
  | Panic => False
  end.

Lemma finish_ok a a' res n :
  awdl_ok a' -> data_frame_sequence_number a' = data_frame_sequence_number a -> (1 <= n)%Z ->
  (data_frame_sequence_number a + n <= u_max 16)%Z -> fine a n snd (tx_finish a' res).
Proof.
  intros [Hl Hr Hs Hq] Heq Hone Hn. unfold tx_finish, checked_add. rewrite Heq.
  rewrite decide_True by lia. cbn [expect mbind outcome_bind mret outcome_ret fine snd].
  split; [|unfold used, pending; cbn [data_frame_sequence_number with_tx tx]; lia].
  split; [done|done| |cbn [data_frame_sequence_number with_tx]; lia].
  unfold session_state in *. simpl. destruct (session a'); [done|tauto].
Qed.

Lemma wait_ok a t n :
  awdl_ok a -> is_Some (session a) -> (1 <= n)%Z -> fine a n snd (tx_wait a t).
Proof.
  intros [Hl Hr Hs Hq] [x Hx] Hn. simpl. split.
  - split; [done|done| |done]. unfold session_state in *. simpl. by rewrite Hx in *.
  - unfold used, pending. simpl. destruct t; lia.
Qed.

Lemma send_ok a frame n :
  awdl_ok a -> (1 <= n)%Z -> (data_frame_sequence_number a + n <= u_max 16)%Z ->
  fine a n snd (tx_send a frame).
Proof. intros Ha Hn Hm. unfold tx_send. destruct (data_frame_len _ _); by apply finish_ok. Qed.

Lemma with_ndp_ok a sg : awdl_ok a -> awdl_ok (with_ndp a sg).
Proof. intros [Hl Hr Hs Hq]. by split. Qed.

Lemma msdu_ok a msdu n :
  awdl_ok a -> is_Some (session a) -> (1 <= n)%Z ->
  (data_frame_sequence_number a + n <= u_max 16)%Z -> fine a n snd (tx_msdu a msdu).
Proof.
  intros Ha Hs Hn Hm. unfold tx_msdu. destruct (parse_ethernet msdu) as [f|]; [|by apply finish_ok].
  destruct (if decide _ then _ else None) as [peer|].
  - apply finish_ok; [by apply with_ndp_ok|done..].
  - destruct (_ && _); [by apply finish_ok|by apply wait_ok].
Qed.

Lemma buffer_ok a frame now n :
  awdl_ok a -> is_Some (session a) -> (1 <= n)%Z ->
  (data_frame_sequence_number a + n <= u_max 16)%Z -> fine a n snd (tx_buffer TU a frame now).
Proof.
  intros Ha Hs Hn Hm. unfold tx_buffer.
  destruct (common_slot_total a (eth_dst frame) now) as [slot ->]; [by apply Ha|].
  cbn [mbind outcome_bind]. destruct slot; [by apply finish_ok..|by apply send_ok|by apply wait_ok].
Qed.

(** Steps that leave the transmit runner alone. *)
Lemma other_ok a a' :
  awdl_ok a -> locks_ok (lm_channel (awdl_lmac a')) -> resources_ok (common_resources a') ->
  session_state a' -> tx a' = tx a ->
  data_frame_sequence_number a' = data_frame_sequence_number a ->
  awdl_ok a' /\ (used a' <= data_frame_sequence_number a + Z.of_nat (pending a))%Z.
Proof.
  intros [Hl Hr Hs Hq] Hl' Hr' Hs' Ht Hn. split; [split; [done..|by rewrite Hn]|].
  unfold used, pending. rewrite Ht, Hn. lia.
Qed.

Lemma peers_cleared r : peers (Awdl.clear_peer_cache r) = ∅.
Proof. unfold peers. simpl. apply cache_clear_map. Qed.

Lemma begin_session_ok a st sg now :
  awdl_ok a -> session a = None -> awdl_ok (session_begin a st sg now).
Proof.
  intros [Hl [He Hq Hp] Hs Hn] Hnone. unfold session_state in Hs. rewrite Hnone in Hs.
  destruct Hs as (Hup & Hps & Ht). destruct st as [address channel|]; simpl.
  - split; [done| |done|unfold u_max; simpl; lia]. split; [unfold election_ready; simpl; eauto|done|].
    intros x p Hx. change (peers (common_resources a) !! x = Some p) in Hx.
    by rewrite Hps, lookup_empty in Hx.
  - by split.
Qed.

Lemma end_session_ok a : awdl_ok a -> awdl_ok (session_end a).
Proof.
  intros [Hl [He Hq Hp] Hs Hn]. split; [done| | |done].
  - split; [done|done|]. intros x p Hx. simpl in Hx. by rewrite peers_cleared, lookup_empty in Hx.
  - split; [done|]. split; [apply peers_cleared|done].
Qed.

(** A poll may end the session and begin another, from sequence number zero. *)
Lemma poll_state_ok a now :
  awdl_ok a -> awdl_ok (runner_poll_state a now) /\ (used (runner_poll_state a now) <= used a)%Z.
Proof.
  intros Ha. unfold runner_poll_state. destruct (sg_wait (state_signal a)) as [[st sg]|]; [|by split].
  assert (forall b : Awdl, awdl_ok b -> session b = None -> tx b = TxIdle ->
    data_frame_sequence_number b = data_frame_sequence_number a ->
    awdl_ok (session_begin b st sg now) /\ (used (session_begin b st sg now) <= used a)%Z) as Hb.
  { intros b Hok Hnone Ht Hn. split; [by apply begin_session_ok|].
    destruct Ha as [_ _ _ Hq]. unfold used, pending in *. destruct st; simpl; lia. }
  destruct (session a) eqn:Hs; apply Hb; try done; [by apply end_session_ok|].
  destruct Ha as [_ _ Hst _]. unfold session_state in Hst. rewrite Hs in Hst. tauto.
Qed.

(** The result of a step that is possible. *)
Definition stepped a (n : Z) (m : option (outcome (Awdl * awdl_output))) : Prop :=
  match m with Some o => fine a n fst o | None => True end.

Lemma stepped_tx a n m : fine a n snd m -> stepped a n (step_tx m).
Proof. by destruct m as [[r x]|]. Qed.

Lemma stepped_to a n o m : fine a n id m -> stepped a n (step_to o m).
Proof. by destruct m as [x|]. Qed.

Lemma resources_step a r n :
  awdl_ok a -> session a <> None -> resources_ok r -> (Z.of_nat (pending a) <= n)%Z ->
  fine a n id (Done (with_resources a r)).
Proof.
  intros Ha Hs Hr Hn. pose proof Ha as [Hl _ Hst _].
  destruct (other_ok a (with_resources a r)) as [Hok Hu]; [done..| | | |].
  { unfold session_state in *. simpl. by destruct (session a). }
  { done. }
  { done. }
  split; [done|]. unfold id. lia.
Qed.

Lemma frame_step_ok a our_address frame rx now rx_buf n :
  awdl_ok a -> session a <> None -> act_ok (AFrame frame rx now rx_buf) ->
  (Z.of_nat (pending a) <= n)%Z -> fine a n snd (process_frame TU a our_address frame rx now rx_buf).
Proof.
  intros Ha Hs Hok Hn.
  assert (forall x : option (EthernetFrame * nat), fine a n snd (Done (x, a))) as Hsame.
  { intros x. split; [done|]. unfold used. simpl. lia. }
  unfold process_frame. destruct frame as [oui [af|] transmitter|data|]; try apply Hsame;
    [|by case_decide; apply Hsame].
  case_decide; [apply Hsame|].
  destruct (process_action_frame_total TU (common_resources a) our_address transmitter af rx now)
    as (r & -> & Hr); [by apply Ha|done|]. by apply resources_step.
Qed.

(** What changes the lower MAC only. *)
Lemma lmac_step_fine a lm n :
  awdl_ok a -> locks_ok (lm_channel lm) -> (Z.of_nat (pending a) <= n)%Z ->
  fine a n id (Done (set_awdl_lmac a lm)).
Proof.
  intros Ha Hl Hn. pose proof Ha as [_ Hr Hs _].
  destruct (other_ok a (set_awdl_lmac a lm)) as [Hok Hu]; [done..|].
  split; [done|]. unfold id. lia.
Qed.

Lemma session_step_ok a our_address act :
  awdl_ok a -> session a = Some our_address -> act_ok act ->
  (used a + Z.of_nat (msdus [act]) <= u_max 16)%Z ->
  stepped a (Z.of_nat (pending a) + Z.of_nat (msdus [act])) (session_step TU interface a our_address act).
Proof.
  rewrite msdus_one. intros Ha Hs Hok Hb. assert (is_Some (session a)) as Hsome by by eexists.
  assert (session a <> None) as Hne by by rewrite Hs.
  assert (forall o b, common_resources b = common_resources a -> awdl_ok b -> used b = used a ->
    stepped a (Z.of_nat (pending a) + Z.of_nat (is_msdu act)) (Some (Done (b, o)))) as Hsame.
  { intros o b _ Hbok Hu. split; [done|]. unfold used in *. simpl. lia. }
  destruct act as [| | | |timeout|mac|now| |now|subtype now|frame rx now rx_buf|rx_buf|msdu|now|now|o];
    cbn [session_step]; try exact I.
  - unfold reject_request. destruct (lm_requesters _ !! interface) as [r|]; [|exact I]. simpl.
    destruct (fst (wait_for_request r)); [|exact I].
    destruct (lmac_step_fine a (answer_request (awdl_lmac a) interface (fun q => fst (request_reject q)))
      (Z.of_nat (pending a)) Ha) as [Hok' Hu]; [apply Ha|lia|]. by apply Hsame.
  - apply stepped_to. unfold purge_tick, purge_and_elect.
    destruct (elect_master_total (purge_stale_peers (common_resources a) now (stale_peer_timeout a))
      our_address) as (r & -> & Hr & _); [by apply purge_ok, Ha|].
    apply resources_step; [done..|]. simpl. lia.
  - destruct (serialize_total a our_address subtype now) as [f Hf]; [by apply Ha|].
    rewrite Hf. cbn [mbind outcome_bind mret outcome_ret]. by apply Hsame.
  - pose proof (frame_step_ok a our_address frame rx now rx_buf
      (Z.of_nat (pending a) + 0) Ha Hne Hok ltac:(lia)) as Hf.
    by destruct (process_frame _ _ _ _ _ _ _) as [[r b]|].
  - destruct (sg_wait (ndp_inject_signal a)) as [[peer sg]|]; [|done].
    apply Hsame; [done|by apply with_ndp_ok|done].
  - destruct (tx a) eqn:Ht; [|done..]. apply stepped_tx.
    unfold used, pending in *. rewrite Ht in *. apply msdu_ok; [done..| |]; simpl in *; lia.
  - destruct (tx a) as [|f|f u] eqn:Ht; [done| |done]. apply stepped_tx.
    unfold used, pending in *. rewrite Ht in *. apply buffer_ok; [done..| |]; simpl in *; lia.
  - destruct (tx a) as [|f|f u] eqn:Ht; [done..|]. case_decide; [|done]. apply stepped_tx.
    unfold used, pending in *. rewrite Ht in *. apply send_ok; [done| |]; simpl in *; lia.
Qed.

Lemma channel_step a cs n :
  awdl_ok a -> locks_ok cs -> (Z.of_nat (pending a) <= n)%Z -> fine a n id (Done (set_channel_state a cs)).
Proof. intros Ha Hl Hn. by apply lmac_step_fine. Qed.

Lemma awdl_step_ok a act :
  awdl_ok a -> act_ok act -> (used a + Z.of_nat (msdus [act]) <= u_max 16)%Z ->
  stepped a (Z.of_nat (pending a) + Z.of_nat (msdus [act])) (step a act).
Proof.
  rewrite msdus_one. intros Ha Hok Hb. pose proof Ha as [Hl Hr Hs Hq].
  assert (forall b o, awdl_ok b -> (used b <= used a)%Z ->
    stepped a (Z.of_nat (pending a) + Z.of_nat (is_msdu act)) (Some (Done (b, o)))) as Hsame.
  { intros b o Hbok Hu. split; [done|]. unfold used in *. simpl. lia. }
  assert (awdl_ok (start_finish a) /\ used (start_finish a) = used a) as [Hfin Hfu]
    by (split; [by split|done]).
  destruct act as [| | | |timeout|mac|now| |now|subtype now|frame rx now rx_buf|rx_buf|msdu|now|now|o];
    try (cbn [awdl_step]; destruct (session a) eqn:Hse; [rewrite <- msdus_one in *; by apply session_step_ok|done]).
  - cbn [awdl_step]. destruct (starting a); [done|]. unfold start_begin.
    destruct (begin_total interface interface_ok (lm_channel (awdl_lmac a)) (control_channel a) Hl)
      as (r & cs & -> & Hl' & _). cbn [mbind outcome_bind].
    destruct (channel_step a cs (Z.of_nat (pending a)) Ha Hl') as [Hcs Hu]; [lia|].
    destruct r as [op|e]; [|apply Hsame; [exact Hcs|unfold used in *; simpl in *; lia]].
    destruct (completion_wait_needed _); (apply Hsame; [by split|done]).
  - cbn [awdl_step]. destruct (starting a); [|done]. unfold start_poll.
    destruct (completion_wait_poll _); (apply Hsame; [done|by rewrite ?Hfu]).
  - cbn [awdl_step]. destruct (starting a); [|done]. unfold start_drop, bringup_drop.
    destruct (unlock_spec (lm_channel (awdl_lmac a)) interface Hl interface_ok) as (cs & -> & Hl' & _).
    apply Hsame; [by split|done].
  - cbn [awdl_step]. destruct (starting a); [done|]. unfold stop, unlock_channel.
    destruct (unlock_spec (lm_channel (awdl_lmac a)) interface Hl interface_ok) as (cs & -> & Hl' & _).
    apply Hsame; [by split|done].
  - apply Hsame; [by split|done].
  - cbn [awdl_step]. destruct (starting a); [done|]. apply Hsame; [by split|done].
  - destruct (poll_state_ok a now Ha) as [Hp Hu]. by apply Hsame.
  - cbn [awdl_step]. destruct (mac_step_spec interface (awdl_lmac a) o Hl) as (lm & -> & [Hok2 _] & _).
    apply stepped_to. apply lmac_step_fine; [done..|simpl; lia].
Qed.
End SessionFacts.

(** ** Properties *)

Section SessionProperties.
Context `{AwdlWire} {C : Type} {Ch Sg W : Type -> Type}
  `{AwdlPeerCacheLaws C, Channel Ch, SignalLaws Sg, Watch W, RadioLaws}.
Context (TU : Z) (interface : nat) (interface_ok : interface < INTERFACE_COUNT).
Notation Awdl := (Awdl (C := C) (Ch := Ch) (Sg := Sg) (W := W)).
Notation step := (awdl_step TU interface).
Implicit Types (a : Awdl) (act : awdl_action).

(** Nothing panics in an AWDL interface, whatever the order of calls, polls, received
    frames, purges, sent frames and locks of other interfaces, as long as no peer claims the
    largest distance and no more than 65535 MSDUs are sent; and all along the parameters our
    action frames need are there, the link is up exactly in a session, and outside of one
    no peer is cached and no MSDU waits. *)
Theorem awdl_never_panics a acts :
  awdl_ok a -> Forall act_ok acts -> (used a + Z.of_nat (msdus acts) <= u_max 16)%Z ->
  match run step a acts with
  | Some (Done (a', _)) => awdl_ok a'
  | Some Panic => False
  | None => True
  end.
Proof.
  revert a. induction acts as [|act acts IH]; intros a Ha Hok Hb; [done|].
  apply Forall_cons in Hok as [Hact Hok]. rewrite msdus_cons in Hb.
  pose proof (awdl_step_ok TU interface interface_ok a act Ha Hact) as Hs.
  rewrite msdus_one in Hs. ospecialize (Hs _); [lia|]. simpl.
  destruct (step a act) as [[[a1 o]|]|]; [|done..]. destruct Hs as [Ha1 Hu]. simpl in Hu.
  specialize (IH a1 Ha1 Hok). ospecialize (IH _); [unfold used in *; lia|].
  by destruct (run step a1 acts) as [[[a2 os]|]|].
Qed.

(** A session that has just begun. *)
Definition fresh_session (address : list Z) (channel : Z) a : Prop :=
  session a = Some address /\ awdl_link_up a = true /\ awdl_hardware_address a = address /\
  peers (common_resources a) = ∅ /\ tx a = TxIdle /\ data_frame_sequence_number a = 0%Z /\
  is_master (our_election_state (common_resources a)) address = true /\
  channel_sequence (sync_state (common_resources a)) = replicate 16 channel.

Definition no_session a : Prop :=
  session a = None /\ awdl_link_up a = false /\ peers (common_resources a) = ∅ /\ tx a = TxIdle.

Lemma poll_fresh a st now :
  awdl_ok a -> sg_value (state_signal a) = Some st ->
  match st with
  | Active address channel => fresh_session address channel (runner_poll_state a now)
  | Inactive => no_session (runner_poll_state a now)
  end.
Proof.
  intros [_ _ Hs _] Hv. unfold runner_poll_state.
  destruct (sg_wait_ready _ _ Hv) as (sg & -> & _).
  assert (exists b, (match session a with Some _ => session_end a | None => a end) = b /\
    session b = None /\ awdl_link_up b = false /\ peers (common_resources b) = ∅ /\ tx b = TxIdle)
    as (b & -> & Hb1 & Hb2 & Hb3 & Hb4).
  { unfold session_state in Hs. destruct (session a) eqn:Ha.
    - exists (session_end a). split_and!; try done. apply peers_cleared.
    - exists a. split; [done|]. split; [done|]. tauto. }
  destruct st as [address channel|]; [|by split_and!].
  split_and!; try done. by apply bool_decide_eq_true.
Qed.

(** C35 Sessions follow the control: the poll of the runner after a [start] that has finished
    ends any session and begins a fresh one under the control's address, with the channel's
    filters set, and the poll after a [stop] leaves no session, no peers, no link, no
    channel lock and no filters.  Calls in between are superseded. *)
Theorem sessions_follow_control a now :
  awdl_ok a ->
  (forall a', start_begin interface a = Done (Some true, a') \/ start_poll a = Some a' ->
     fresh_session (control_address a) (control_channel a) (runner_poll_state a' now) /\
     awdl_bssid_filter (runner_poll_state a' now) = Some AWDL_BSSID /\
     awdl_ra_filter (runner_poll_state a' now) = Some (control_address a)) /\
  (forall a', start_begin interface a = Done (Some true, a') ->
     holds (lm_channel (awdl_lmac (runner_poll_state a' now))) interface /\
     home_channel (lm_channel (awdl_lmac (runner_poll_state a' now))) = Some (control_channel a)) /\
  (forall a', stop interface a = Done a' ->
     no_session (runner_poll_state a' now) /\
     ~ holds (lm_channel (awdl_lmac (runner_poll_state a' now))) interface /\
     awdl_bssid_filter (runner_poll_state a' now) = None /\
     awdl_ra_filter (runner_poll_state a' now) = None).
Proof.
  intros Ha. pose proof Ha as [Hl Hr Hs Hq].
  assert (forall b : Awdl, awdl_lmac (runner_poll_state b now) = awdl_lmac b /\
    awdl_bssid_filter (runner_poll_state b now) = awdl_bssid_filter b /\
    awdl_ra_filter (runner_poll_state b now) = awdl_ra_filter b) as Hkeep.
  { intros b. unfold runner_poll_state. destruct (sg_wait _) as [[[] ?]|]; [| |done];
      simpl; by destruct (session b). }
  assert (forall b : Awdl, awdl_ok b ->
    fresh_session (control_address b) (control_channel b) (runner_poll_state (start_finish b) now) /\
    awdl_bssid_filter (runner_poll_state (start_finish b) now) = Some AWDL_BSSID /\
    awdl_ra_filter (runner_poll_state (start_finish b) now) = Some (control_address b)) as Hfin.
  { intros b Hb. destruct (Hkeep (start_finish b)) as (_ & -> & ->). split; [|done].
    apply (poll_fresh (start_finish b) (Active (control_address b) (control_channel b)));
      [by destruct Hb; split|]. simpl. by rewrite sg_signal_value. }
  destruct (begin_total interface interface_ok (lm_channel (awdl_lmac a)) (control_channel a) Hl)
    as (r & cs & Hb & Hl' & Hh). unfold start_begin. rewrite Hb. cbn [mbind outcome_bind].
  split; [|split].
  - intros a' [Hst|Hst].
    + destruct r as [op|e]; [|done]. destruct (completion_wait_needed _); [done|].
      injection Hst as <-. apply (Hfin (set_channel_state a cs)). by split.
    + unfold start_poll in Hst. destruct (completion_wait_poll _); [|done]. injection Hst as <-.
      by apply Hfin.
  - intros a' Hst. destruct (Hkeep a') as (-> & _).
    destruct r as [op|e]; [|done]. destruct (completion_wait_needed _); [done|].
    injection Hst as <-. by apply (Hh op).
  - intros a' Hst. destruct (Hkeep a') as (-> & -> & ->). unfold stop, unlock_channel in Hst.
    destruct (unlock_spec (lm_channel (awdl_lmac a)) interface Hl interface_ok)
      as (cs' & Hu & Hok & _ & _ & Hn & _). rewrite Hu in Hst. injection Hst as <-.
    split; [|done]. apply (poll_fresh _ Inactive); [by split|]. simpl. by rewrite sg_signal_value.
Qed.

(** C36 The way of an MSDU that has its transmit buffer, in a session.  A multicast frame
    waits for slot nine of our own sequence.  A frame for a peer still in the cache goes out at once
    if the channels of the two sequences agree right then; otherwise it waits for the first
    slot, going around from where the peer stands, in which the two sequences have the same
    channel, and is dropped exactly if there is none, or if the peer is gone.  What waits goes
    out 110 microseconds into that slot, not earlier.  Every frame that goes out carries the
    next sequence number, unless it does not fit, and every frame that is done with uses
    one up; nothing else changes. *)
Theorem msdu_transmission a our_address frame now :
  (0 < TU)%Z -> awdl_ok a -> session a = Some our_address -> tx a = TxAlloc frame ->
  (data_frame_sequence_number a < u_max 16)%Z ->
  let ours := sync_state (common_resources a) in
  let n := data_frame_sequence_number a in
  let finished res := (with_tx a TxIdle (n + 1), AOTx res) in
  let waits t := (with_tx a (TxSlot frame (t + 110)) n, AOTx TxPending) in
  let goes := if decide (is_Some (data_frame_len frame n)) then TxSent frame n else TxDropped in
  exists r, step a (ATxBuffer now) = Some (Done r) /\
  (if is_multicast (eth_dst frame) then r = waits (slot_start_timestamp TU ours now 9 0)
   else match peers (common_resources a) !! eth_dst frame with
   | None => r = finished TxDropped
   | Some p =>
       let theirs := synchronization_state p in
       (channel_at TU theirs now = channel_at TU ours now /\ r = finished goes) \/
       (channel_at TU theirs now <> channel_at TU ours now /\
        ((exists i, next_common_slot TU theirs ours now i /\
            r = waits (slot_start_timestamp TU theirs now (Z.of_nat i) 0)) \/
         ((forall i, ~ common_slot theirs ours i) /\ r = finished TxDropped)))
   end) /\
  forall t now', tx r.1 = TxSlot frame t ->
    step r.1 (ATxTimer now') = if decide (t <= now')%Z then Some (Done (finished goes)) else None.
Proof.
  clear interface_ok. intros HTU [_ Hr _ _] Hs Htx Hn ours n finished waits goes.
  assert (forall b : Awdl, session b = session a -> data_frame_sequence_number b = n ->
    (forall t m, with_tx b t m = with_tx a t m) -> step_tx (tx_send b frame) = Some (Done (finished goes))) as Hgo.
  { intros b _ Hb Hw. unfold tx_send, tx_finish. rewrite Hb.
    assert (checked_add 16 n 1 = Some (n + 1)%Z) as -> by (apply checked_add_Some; split; [done|lia]).
    unfold goes. destruct (data_frame_len frame n);
      [rewrite decide_True by eauto|rewrite decide_False by (intros [? ?]; done)];
      cbn [expect mbind outcome_bind mret outcome_ret step_tx]; by rewrite Hw. }
  assert (step_tx (tx_finish a TxDropped) = Some (Done (finished TxDropped))) as Hdrop.
  { unfold tx_finish. fold n.
    by assert (checked_add 16 n 1 = Some (n + 1)%Z) as -> by (apply checked_add_Some; split; [done|lia]). }
  assert (forall r : Awdl * awdl_output, (exists res, r = finished res) \/ (exists t, r = waits t) ->
    forall t now', tx r.1 = TxSlot frame t ->
    step r.1 (ATxTimer now') = if decide (t <= now')%Z then Some (Done (finished goes)) else None) as Hwait.
  { intros r [[res ->]|[t0 ->]] t now' Ht; [done|]. injection Ht as <-. cbn [fst waits awdl_step session with_tx].
    rewrite Hs. cbn [session_step tx with_tx]. case_decide; [|done]. by apply Hgo. }
  cbn [awdl_step]. rewrite Hs. cbn [session_step]. rewrite Htx.
  unfold tx_buffer, Awdl.get_common_slot_for_peer. fold ours.
  destruct (is_multicast (eth_dst frame)).
  { eexists. split; [done|]. split; [done|]. apply Hwait. right. by eexists. }
  rewrite cache_get_map. fold (peers (common_resources a)).
  destruct (peers (common_resources a) !! eth_dst frame) as [p|] eqn:Hp.
  2: { eexists. split; [exact Hdrop|]. split; [done|]. apply Hwait. left. by eexists. }
  pose proof (next_overlap_spec TU HTU (synchronization_state p) ours now
    (proj1 (ro_peers _ Hr _ _ Hp)) (ro_sequence _ Hr)) as Hspec.
  destruct (next_overlap_timestamp _ _ _ now) as [[| | |t]|]; try done; cbn [mbind outcome_bind].
  - eexists. split; [exact Hdrop|]. split; [|apply Hwait; left; by eexists]. destruct Hspec. auto.
  - eexists. split; [by apply Hgo|]. split; [by left|]. apply Hwait. left. by eexists.
  - destruct Hspec as [Hne (i & Hi & ->)]. eexists. split; [done|]. split; [|apply Hwait; right; by eexists].
    right. split; [done|]. left. by exists i.
Qed.

(** Neighbour discovery of a cached peer is answered locally.  A solicitation for the
    link-local address of a peer is not sent but asks for the peer's injection, and the
    injection hands the network stack an advertisement of just that address, from the
    peer's hardware address to ours, if the peer is cached and there is a buffer, and else nothing. *)
Theorem neighbor_discovery_answered a our_address peer msdu frame packet rx_buf a' res :
  length peer = 6 -> Forall is_byte peer ->
  session a = Some our_address -> tx a = TxIdle ->
  parse_ethernet msdu = Some frame -> ethertype frame = ETHERTYPE_IPV6 ->
  parse_ipv6 (eth_payload frame) = Some (ICMPV6, packet) ->
  parse_icmpv6 packet = Some (NEIGHBOR_SOLICIT, hw_address_to_ipv6 peer) ->
  step a (AMsdu msdu) = Some (Done (a', res)) ->
  res = AOTx (TxNeighborRequested peer) /\
  exists a'', step a' (AInject rx_buf) = Some (Done (a'', AOInjected
    (if decide (is_Some (peers (common_resources a) !! peer) /\ rx_buf = true)
     then Some (MkNeighborAdvert our_address peer (hw_address_to_ipv6 peer)
       (hw_address_to_ipv6 our_address) (hw_address_to_ipv6 peer) peer)
     else None))) /\ sg_value (ndp_inject_signal a'') = None.
Proof.
  intros Hl Hb Hs Ht Hp He Hip Hicmp. cbn [awdl_step]. rewrite Hs. cbn [session_step]. rewrite Ht.
  unfold tx_msdu. rewrite Hp, decide_True by done. unfold find_ndp_solicit. rewrite Hip.
  cbn [mbind option_bind]. rewrite decide_False by (intros Hn; by apply Hn). rewrite Hicmp.
  cbn [mbind option_bind]. rewrite decide_False by (intros Hn; by apply Hn).
  rewrite hw_ipv6_roundtrip by done. unfold tx_finish.
  destruct (checked_add _ _ _) as [n|]; [|done]. cbn [expect mbind outcome_bind mret outcome_ret step_tx].
  intros [= <- <-]. split; [done|]. cbn [session with_tx with_ndp]. rewrite Hs. cbn [session_step].
  destruct (sg_wait_ready (sg_signal peer (ndp_inject_signal a)) peer (sg_signal_value _ _ _))
    as (sg & Hw & Hv). cbn [ndp_inject_signal with_tx with_ndp]. rewrite Hw.
  eexists (with_ndp _ sg). split; [|exact Hv]. do 4 f_equal. unfold inject_neighbor, is_peer_cached, peers.
  cbn [common_resources with_tx with_ndp]. rewrite cache_get_map.
  repeat case_decide; destruct rx_buf; try done; case_bool_decide; simpl; naive_solver.
Qed.
End SessionProperties.

(** ** The hook of an action frame *)

Lemma u32_le_roundtrip z : in_width 32 z -> u64_le (u32_to_le z) = z.
Proof.
  unfold in_width. change (2 ^ 32)%Z with 4294967296%Z. intros Hz. unfold u64_le, u32_to_le, u64_be.
  cbn [rev app foldl]. change (2 ^ 8)%Z with 256%Z. change (2 ^ 16)%Z with 65536%Z.
  change (2 ^ 24)%Z with 16777216%Z.
  assert (z / 65536 = z / 256 / 256)%Z as -> by (rewrite Z.div_div by lia; done).
  assert (z / 16777216 = z / 256 / 256 / 256)%Z as -> by (rewrite !Z.div_div by lia; done).
  pose proof (Z.div_mod z 256 ltac:(lia)). pose proof (Z.div_mod (z / 256) 256 ltac:(lia)).
  pose proof (Z.div_mod (z / 256 / 256) 256 ltac:(lia)).
  rewrite (Z.mod_small (z / 256 / 256 / 256) 256); [lia|].
  rewrite !Z.div_div by lia. split; [by apply Z.div_pos; lia|apply Z.div_lt_upper_bound; lia].
Qed.

(** The hook stamps the transmission time into a frame: it panics only on a frame
    shorter than 36 bytes, the bytes 32 to 36 read back as the low half of the
    clock, and every other byte stays. *)
Theorem phy_tx_time_hook_spec mac_time (buffer : list Z) :
  match phy_tx_time_hook mac_time buffer with
  | Done stamped =>
      36 <= length buffer /\ length stamped = length buffer /\
      (exists time, slice stamped 32 36 = Done time /\ u64_le time = wrapping 32 mac_time) /\
      forall i, ~ (32 <= i < 36) -> stamped !! i = buffer !! i
  | Panic => length buffer < 36
  end.
Proof.
  unfold phy_tx_time_hook. destruct (decide (36 <= length buffer)) as [Hl|Hl].
  2:{ unfold slice. rewrite decide_False by lia. simpl. lia. }
  rewrite slice_Done by lia. cbn [mbind outcome_bind mret outcome_ret].
  pose proof (u32_le_roundtrip _ (wrapping_in_width 32 mac_time ltac:(lia))) as Hrt.
  assert (length (u32_to_le (wrapping 32 mac_time)) = 4) as H4 by done. revert Hrt H4.
  generalize (u32_to_le (wrapping 32 mac_time)) as time. intros time Hrt H4.
  assert (length (take 32 buffer) = 32) as H32 by (rewrite length_take; lia).
  split_and!; [done| | |].
  - rewrite !length_app, length_drop. lia.
  - exists time. split; [|done].
    rewrite slice_Done by (rewrite ?length_app, ?length_drop; lia). f_equal.
    rewrite drop_app_length' by lia. by rewrite take_app_length'.
  - intros i Hi. destruct (decide (i < 32)).
    + rewrite lookup_app_l by lia. by rewrite lookup_take_lt.
    + rewrite !lookup_app_r by lia. rewrite lookup_drop, H32, H4. f_equal. lia.
Qed.

(** ** Witnesses *)

(** An IPv6 packet is its next header and payload, an ICMPv6 packet
    its type and the segments of its target. *)
#[export] Instance plain_wire : AwdlWire := {
  parse_ipv6 := fun b => match b with h :: p => Some (h, p) | [] => None end;
  parse_icmpv6 := fun b => match b with t :: p => Some (t, p) | [] => None end;
  parse_llc := fun b => Some (take 3 b, drop 8 b);
  parse_awdl_data := fun b => Some (u16_be (default 0%Z (b !! 6)) (default 0%Z (b !! 7)), drop 8 b);
  data_frame_len := fun f _ => Some (length (eth_payload f) + 40);
}.

Definition demo_mac : list Z := replicate 6 4%Z.
Definition demo_peer_mac : list Z := [2; 3; 5; 7; 11; 13]%Z.

(** A peer on channel six with the better metric. *)
Definition demo_peer_frame : ActionFrame :=
  MkActionFrame (Some (Simple (replicate 16 6%Z)))
    (Some (MkSynchronizationParametersTLV 6 0 16 2 demo_peer_mac 3 (Simple []))) (Some 0%Z)
    (Some (MkElectionParametersV2TLV 100 100 3 3 0 demo_peer_mac demo_peer_mac)) None [].

Definition demo_solicit : list Z :=
  replicate 6 0x33%Z ++ demo_mac ++ [0x86; 0xdd]%Z ++ [58; 135]%Z ++ hw_address_to_ipv6 demo_peer_mac.
Definition demo_msdu : list Z := demo_peer_mac ++ demo_mac ++ [0x08; 0x00; 1; 2; 3]%Z.

Notation DemoAwdl := (Awdl (C := small_cache) (Ch := list_chan) (Sg := option) (W := option)).
Definition demo_awdl : DemoAwdl := new_awdl_interface 4 (lmac_new radio_off) demo_mac.
Definition demo_session_acts : list (@awdl_action) :=
  [AStart; APollState 1000; AFrame (FAction APPLE_OUI (Some demo_peer_frame) demo_peer_mac) 90000 90001 None;
   ASendAction MIF 90002; AMsdu demo_solicit; AInject true; AMsdu demo_msdu]%Z.
Definition demo_session_run := run (awdl_step 1024 0) demo_awdl demo_session_acts.
Definition demo_in_session : DemoAwdl :=
  match demo_session_run with Some (Done (a, _)) => a | _ => demo_awdl end.

Lemma demo_awdl_ok : awdl_ok demo_awdl.
Proof. by apply new_ok. Qed.

(** The session ends with an MSDU that has its buffer. *)
Lemma demo_session_ok :
  awdl_ok demo_in_session /\ session demo_in_session = Some demo_mac /\
  data_frame_sequence_number demo_in_session = 1%Z.
Proof.
  pose proof (awdl_never_panics 1024 0 wifi_interface demo_awdl demo_session_acts) as Ht.
  assert (run (awdl_step 1024 0) demo_awdl demo_session_acts =
    Some (Done (demo_in_session, match demo_session_run with Some (Done (_, os)) => os | _ => [] end)))
    as He by (vm_compute; reflexivity).
  rewrite He in Ht. split; [|split; vm_compute; reflexivity]. apply Ht.
  - exact demo_awdl_ok.
  - repeat (apply Forall_cons; split); try exact I; [|by apply Forall_nil].
    split; [by intros c [= <-]|by eexists|by intros e [= <-]].
  - vm_compute. discriminate.
Qed.

Lemma sessions_follow_control_witness :
  fresh_session demo_mac 6 (runner_poll_state (start_finish (set_channel_state demo_awdl
    match begin_interface_bringup_operation (lm_channel (awdl_lmac demo_awdl)) 0 6 with
    | Done (_, cs) => cs | Panic => lm_channel (awdl_lmac demo_awdl) end)) 1000).
Proof.
  destruct (sessions_follow_control 0 wifi_interface demo_awdl 1000 demo_awdl_ok) as (Hs & _ & _).
  destruct (Hs (start_finish (set_channel_state demo_awdl
    match begin_interface_bringup_operation (lm_channel (awdl_lmac demo_awdl)) 0 6 with
    | Done (_, cs) => cs | Panic => lm_channel (awdl_lmac demo_awdl) end))) as [Hf _];
    [left; vm_compute; reflexivity|]. exact Hf.
Defined.

Definition demo_frame : EthernetFrame := MkEthernetFrame demo_peer_mac demo_mac 0x0800 [1; 2; 3]%Z.

Definition demo_cached_peer : option AwdlPeer := peers (common_resources demo_in_session) !! demo_peer_mac.

Lemma demo_peer_on_channel :
  match demo_cached_peer with
  | Some p => channel_at 1024 (synchronization_state p) 90010 =
      channel_at 1024 (sync_state (common_resources demo_in_session)) 90010
  | None => False
  end.
Proof. vm_compute. reflexivity. Qed.

Lemma demo_frame_fits : is_Some (data_frame_len demo_frame (data_frame_sequence_number demo_in_session)).
Proof. vm_compute. by eexists. Qed.

Lemma msdu_transmission_witness :
  awdl_step 1024 0 demo_in_session (ATxBuffer 90010) =
    Some (Done (with_tx demo_in_session TxIdle 2, AOTx (TxSent demo_frame 1))).
Proof.
  destruct demo_session_ok as (Hok & Hs & Hn). pose proof demo_peer_on_channel as Hc. unfold demo_cached_peer in Hc.
  destruct (msdu_transmission 1024 0 demo_in_session demo_mac demo_frame 90010) as (r & Hr & Hres & _);
    [done|exact Hok|exact Hs|vm_compute; reflexivity|by rewrite Hn|].
  rewrite decide_True in Hres by exact demo_frame_fits. rewrite Hn in Hres.
  change (is_multicast (eth_dst demo_frame)) with false in Hres. cbv beta iota in Hres.
  change (eth_dst demo_frame) with demo_peer_mac in Hres.
  destruct (peers (common_resources demo_in_session) !! demo_peer_mac) as [p|]; [|destruct Hc].
  destruct Hres as [[_ Hres]|[Hne _]]; [|by destruct Hne]. rewrite Hr, Hres. reflexivity.
Defined.

Definition demo_before_solicit : DemoAwdl :=
  match run (awdl_step 1024 0) demo_awdl (take 4 demo_session_acts) with
  | Some (Done (a, _)) => a | _ => demo_awdl end.
Definition demo_after_solicit : DemoAwdl :=
  match awdl_step 1024 0 demo_before_solicit (AMsdu demo_solicit) with
  | Some (Done (a, _)) => a | _ => demo_awdl end.

Lemma neighbor_discovery_answered_witness :
  exists a'', awdl_step 1024 0 demo_after_solicit (AInject true) = Some (Done (a'', AOInjected
    (Some (MkNeighborAdvert demo_mac demo_peer_mac (hw_address_to_ipv6 demo_peer_mac)
       (hw_address_to_ipv6 demo_mac) (hw_address_to_ipv6 demo_peer_mac) demo_peer_mac)))).
Proof.
  destruct (neighbor_discovery_answered 1024 0 demo_before_solicit demo_mac demo_peer_mac demo_solicit
    (MkEthernetFrame (replicate 6 0x33%Z) demo_mac 0x86dd (58 :: 135 :: hw_address_to_ipv6 demo_peer_mac)%Z)
    (135 :: hw_address_to_ipv6 demo_peer_mac)%Z true demo_after_solicit
    (AOTx (TxNeighborRequested demo_peer_mac))) as (_ & a'' & Ha & _);
    try (vm_compute; reflexivity).
  - apply (bool_decide_eq_true_1 _). vm_compute. reflexivity.
  - exists a''. exact Ha.
Defined.

Lemma phy_tx_time_hook_spec_witness :
  exists stamped, phy_tx_time_hook 0x1122334455667788 (replicate 40 0%Z) = Done stamped /\
    exists time, slice stamped 32 36 = Done time /\ u64_le time = 0x55667788%Z.
Proof.
  pose proof (phy_tx_time_hook_spec 0x1122334455667788 (replicate 40 0%Z)) as Hs.
  destruct (phy_tx_time_hook 0x1122334455667788 (replicate 40 0%Z)) as [stamped|] eqn:Hh;
    [|discriminate Hh].
  exists stamped. split; [reflexivity|]. destruct Hs as (_ & _ & Ht & _). exact Ht.
Defined.
