(* ===== verification/AwdlTypes.v ===== *)
(** * AWDL: machine widths

    The integers of AwdlSync.v, Awdl.v and AwdlSession.v are those of Rust types.
    Here: the state keeps every one of them in its type whatever is received, the
    32-bit windows of a received epoch and the signed 64-bit differences of clock and
    epochs do not overflow, and what is sent fits the fields of the frames. *)
From S2P Require Import Prelude Bytes Network Platform Lmac Locks Eapol AwdlSync Awdl PeerCache AwdlSession AwdlProps.

(** ** Types *)

Definition u8 : Z -> Prop := in_width 8.
Definition u16 : Z -> Prop := in_width 16.
Definition u32 : Z -> Prop := in_width 32.
Definition i64 (z : Z) : Prop := (- 2 ^ 63 <= z < 2 ^ 63)%Z.
(** A [[u8; 6]]. *)
Definition mac (a : list Z) : Prop := length a = 6 /\ Forall u8 a.
(** A reading of the clock in microseconds: the first 146000 years. *)
Definition clock (t : Z) : Prop := (0 <= t < 2 ^ 62)%Z.

Definition on {A} (P : A -> Prop) (o : option A) : Prop := forall x, o = Some x -> P x.

Lemma on_Some {A} (P : A -> Prop) x : on P (Some x) <-> P x.
Proof. split; [by intros Ho; apply Ho|by intros Hp y [= <-]]. Qed.
Lemma on_None {A} (P : A -> Prop) : on P None.
Proof. by intros x. Qed.
#[export] Hint Resolve on_None : foa.

(** The epoch of a peer may precede our own by as much as its parameters can say. *)
Definition epoch (t : Z) : Prop := (- 2 ^ 48 <= t < 2 ^ 63)%Z.

Record typed_sync (st : SynchronizationState) : Prop := {
  ts_channels : Forall u8 (channel_sequence st);
  ts_epoch : epoch (tsf_epoch_in_us st);
}.

Record typed_election (e : ElectionState) : Prop := {
  te_self_metric : u32 (self_metric e);
  te_self_counter : on u32 (self_counter e);
  te_master_metric : u32 (master_metric e);
  te_master_counter : on u32 (master_counter e);
  te_distance : u32 (distance_to_master e);
  te_root : mac (root_peer e);
  te_sync : on mac (sync_peer e);
}.

Record typed_peer (p : AwdlPeer) : Prop := {
  tp_sync : typed_sync (synchronization_state p);
  tp_election : typed_election (election_state p);
  tp_airdrop : on u16 (airdrop_port p);
  tp_airplay : on u16 (airplay_port p);
}.

(** *** Frames *)

Record typed_params (t : SynchronizationParametersTLV) : Prop := {
  tt_next_channel : u8 (next_channel_field t);
  tt_tx_counter : u16 (tx_counter t);
  tt_aw_period : u16 (aw_period t);
  tt_remaining : u16 (remaining_aw_length_field t);
  tt_seq : u16 (aw_seq_number_field t);
  tt_master : mac (master_address_field t);
  tt_channels : Forall u8 (channels_of (channel_sequence_field t));
}.

Record typed_v1 (t : ElectionParametersTLV) : Prop := {
  t1_self_metric : u32 (v1_self_metric t);
  t1_distance : u8 (v1_distance_to_master t);
  t1_master : mac (v1_master_address t);
  t1_master_metric : u32 (v1_master_metric t);
}.

Record typed_v2 (t : ElectionParametersV2TLV) : Prop := {
  t2_self_metric : u32 (v2_self_metric t);
  t2_master_metric : u32 (v2_master_metric t);
  t2_self_counter : u32 (v2_self_counter t);
  t2_master_counter : u32 (v2_master_counter t);
  t2_distance : u32 (v2_distance_to_master t);
  t2_master : mac (v2_master_address t);
  t2_sync : mac (v2_sync_address t);
}.

Record typed_af (af : ActionFrame) : Prop := {
  ta_channels : on (fun c => Forall u8 (channels_of c)) (af_channel_sequence af);
  ta_params : on typed_params (af_synchronization af);
  ta_delta : on clock (af_tx_delta af);
  ta_v2 : on typed_v2 (af_election_v2 af);
  ta_v1 : on typed_v1 (af_election_v1 af);
  ta_services : Forall (fun r => on u16 (srv_port r)) (af_services af);
}.

Record typed_sent (f : SentActionFrame) : Prop := {
  tf_transmitter : mac (sa_transmitter f);
  tf_sync : typed_params (sa_synchronization f);
  tf_v1 : typed_v1 (sa_election_v1 f);
  tf_channels : Forall (fun c => u8 c.1 /\ u8 c.2) (sa_channel_sequence f);
  tf_v2 : typed_v2 (sa_election_v2 f);
}.

(** ** Synchronisation *)

Section SyncTypes.
Context (TU : Z) (TU_pos : (0 < TU)%Z) (TU_small : (TU < 2 ^ 16)%Z).
Implicit Types (st : SynchronizationState).

(** The windows since the epoch, in time units, fit 32 bits: neither the product
    nor the sum of [recover_tsf_epoch] overflows. *)
Lemma windows_fit t : typed_params t ->
  (0 <= aw_period t * aw_seq_number_field t + remaining_aw_length_field t < 2 ^ 32)%Z /\
  (0 <= aw_period t * aw_seq_number_field t < 2 ^ 32)%Z.
Proof.
  intros [_ _ Hp Hr Hs _ _]. unfold u16, in_width in *.
  change (2 ^ 16)%Z with 65536%Z in *. change (2 ^ 32)%Z with 4294967296%Z. nia.
Qed.

Lemma recover_epoch t delta rx :
  typed_params t -> clock delta -> clock rx -> epoch (recover_tsf_epoch TU t delta rx).
Proof.
  intros Ht Hd Hrx. destruct (windows_fit t Ht) as [Hsum Hprod]. unfold recover_tsf_epoch.
  rewrite (wrapping_small 32 (_ * _)), wrapping_small by done.
  unfold epoch, clock in *.
  set (w := (aw_period t * aw_seq_number_field t + remaining_aw_length_field t)%Z) in *.
  assert (0 <= TU * w < 2 ^ 48)%Z; [|lia].
  change (2 ^ 16)%Z with 65536%Z in *. change (2 ^ 32)%Z with 4294967296%Z in *.
  change (2 ^ 48)%Z with 281474976710656%Z. nia.
Qed.

(** The difference of the clock and an epoch is an [i64]. *)
Lemma elapsed_fits st now : typed_sync st -> clock now -> i64 (now - tsf_epoch_in_us st).
Proof. intros [_ He]. unfold clock, epoch, i64 in *. lia. Qed.

Lemma sync_from_af_typed af rx o :
  typed_af af -> clock rx ->
  sync_from_af TU (af_channel_sequence af) (af_synchronization af) (af_tx_delta af) rx = Done o ->
  on typed_sync o.
Proof.
  intros [Hc Hp Hd _ _ _] Hrx. unfold sync_from_af.
  destruct (af_channel_sequence af) as [c|]; simpl; [|by intros [= <-]].
  destruct (af_synchronization af) as [t|]; [|by intros [= <-]].
  destruct (af_tx_delta af) as [d|]; [|done]. simpl. intros [= <-]. rewrite on_Some.
  specialize (Hc _ eq_refl). specialize (Hp _ eq_refl). specialize (Hd _ eq_refl).
  split; [exact Hc|by apply recover_epoch].
Qed.

Lemma wrapping_u16 z : u16 (wrapping 16 z).
Proof. by apply wrapping_in_width. Qed.

Lemma generate_tlv_typed st now master t :
  typed_sync st -> mac master -> generate_tlv TU st now master = Done t -> typed_params t.
Proof.
  intros [Hc _] Hm. unfold generate_tlv, next_channel. intros Hg.
  apply outcome_bind_Done in Hg as (c & Hn & [= <-]). apply expect_Done in Hn.
  split; simpl; try done; try apply wrapping_u16.
  - by apply (proj1 (Forall_lookup _ _) Hc _ _ Hn).
  - by rewrite <- list_fmap_compose, list_fmap_id.
Qed.
End SyncTypes.

(** ** Election and peers *)

Lemma election_new_typed a : mac a -> typed_election (election_new a).
Proof. intros Ha. split; simpl; rewrite ?on_Some; try done. Qed.

Lemma u8_u32 z : u8 z -> u32 z.
Proof. unfold u8, u32, in_width. lia. Qed.

Lemma election_from_af_typed af :
  typed_af af -> on typed_election (election_from_af (af_election_v2 af) (af_election_v1 af)).
Proof.
  intros [_ _ _ H2 H1 _]. unfold election_from_af. destruct (af_election_v2 af) as [t|].
  - destruct (H2 _ eq_refl). rewrite on_Some. by split; simpl; rewrite ?on_Some.
  - destruct (af_election_v1 af) as [t|]; [|done]. destruct (H1 _ eq_refl). rewrite on_Some.
    split; simpl; rewrite ?on_Some; auto using u8_u32 with foa.
Qed.

Lemma adopt_master_typed e a master e' :
  typed_election e -> mac a -> typed_election master -> adopt_master e a master = Done e' ->
  typed_election e'.
Proof.
  intros [] Ha [] Hadopt. unfold adopt_master in Hadopt.
  apply outcome_bind_Done in Hadopt as (d & Hd & [= <-]).
  apply expect_Done, checked_add_Some in Hd as [-> Hd].
  split; simpl; rewrite ?on_Some; try done.
  - destruct (master_counter master) as [c|]; simpl; [by apply te_master_counter1|done].
  - unfold u32, in_width, u_max in *. lia.
Qed.

Lemma generate_v1_typed e : typed_election e -> typed_v1 (generate_tlv_v1 e).
Proof. intros []. split; simpl; try done. by apply wrapping_in_width. Qed.

Lemma generate_v2_typed e : typed_election e -> on typed_v2 (generate_tlv_v2 e).
Proof.
  intros [] t. unfold generate_tlv_v2. destruct (self_counter e) as [c|]; [|done].
  destruct (master_counter e) as [c'|]; [|done]. destruct (sync_peer e) as [a|]; [|done].
  simpl. intros [= <-]. split; simpl; auto.
Qed.

Section PeerTypes.
Context (TU : Z) (TU_pos : (0 < TU)%Z) (TU_small : (TU < 2 ^ 16)%Z).

Lemma update_service_typed p r :
  typed_peer p -> on u16 (srv_port r) -> typed_peer (update_service p r).1.
Proof.
  intros Hp Hr. unfold update_service. destruct (srv_port r) as [port|]; [|done].
  rewrite on_Some in Hr. pose proof Hp as [? ? Hpd Hpa].
  destruct (service_domain r);
    [destruct (airplay_port p); [done|]|destruct (airdrop_port p); [done|]|done];
    by split; simpl; rewrite ?on_Some.
Qed.

Lemma update_typed p af rx now p' found :
  typed_peer p -> typed_af af -> clock rx -> update TU p af rx now = Done (p', found) -> typed_peer p'.
Proof.
  intros Hp Haf Hrx. unfold update. intros Hu. apply outcome_bind_Done in Hu as (o & Ho & Hu).
  apply sync_from_af_typed in Ho; [|done..].
  pose proof (election_from_af_typed af Haf) as He.
  set (p1 := MkAwdlPeer _ _ _ _ _) in Hu. assert (typed_peer p1) as Hp1.
  { destruct Hp. split; simpl; try done; [by destruct o; [apply Ho|]|].
    by destruct (election_from_af _ _); [apply He|]. }
  clearbody p1. clear Hp. injection Hu as Hu. revert p1 Hp1 Hu. generalize false as b.
  pose proof (ta_services _ Haf) as Hs. induction Hs as [|r l Hr Hs IH]; intros b p1 Hp1; simpl.
  { by intros [= <- _]. }
  pose proof (update_service_typed p1 r Hp1 Hr) as Hp2. destruct (update_service p1 r) as [p2 new].
  by apply IH.
Qed.

Lemma new_peer_typed af rx now o :
  typed_af af -> clock rx -> new_with_action_frame TU af rx now = Done o -> on typed_peer o.
Proof.
  intros Haf Hrx Hn. unfold new_with_action_frame in Hn.
  apply outcome_bind_Done in Hn as (sync & Hs & [= <-]). apply sync_from_af_typed in Hs; [|done..].
  pose proof (election_from_af_typed af Haf) as He.
  destruct sync as [st|]; [|done]. simpl. destruct (election_from_af _ _) as [e|]; [|done]. simpl.
  rewrite on_Some. split; simpl; auto with foa.
Qed.
End PeerTypes.

(** ** The shared resources *)

Section ResourceTypes.
Context {C : Type} {Ch : Type -> Type} `{AwdlPeerCacheLaws C} `{Channel Ch}.
Context (TU : Z) (TU_pos : (0 < TU)%Z) (TU_small : (TU < 2 ^ 16)%Z).
Implicit Types (r : CommonResources (C := C) (Ch := Ch)).

Record typed_resources r : Prop := {
  tr_sync : typed_sync (sync_state r);
  tr_election : typed_election (our_election_state r);
  tr_peers : forall a p, peers r !! a = Some p -> mac a /\ typed_peer p;
}.

Lemma raise_event_typed r event : typed_resources r -> typed_resources (raise_user_event r event).
Proof.
  intros [Hs He Hp]. destruct (raise_user_event_same r event) as (Hc & Hsy & Hel).
  split; [by rewrite Hsy|by rewrite Hel|]. unfold peers. by rewrite Hc.
Qed.

Lemma adopt_peer_typed r a sync e r' :
  typed_resources r -> mac a -> typed_sync sync -> typed_election e ->
  adopt_peer_as_master r a sync e = Done r' -> typed_resources r'.
Proof.
  intros [Hs He Hp] Ha Hsync Hel Hadopt. unfold adopt_peer_as_master in Hadopt.
  apply outcome_bind_Done in Hadopt as (e' & He' & [= <-]).
  apply adopt_master_typed in He'; [|done..].
  split; [|done|done]. destruct Hs as [Hc _], Hsync as [_ Ht]. by split.
Qed.

Lemma most_eligible_member self (l : list (list Z * AwdlPeer)) :
  most_eligible self l = self \/
  exists a p, (a, p) ∈ l /\ most_eligible self l = (a, election_state p).
Proof.
  revert self. induction l as [|[a p] l IH]; intros self; [by left|].
  unfold most_eligible in *. simpl.
  destruct (IH (if is_more_eligible self.2 (election_state p) then (a, election_state p) else self))
    as [->|(a' & p' & Hin & ->)].
  - destruct (is_more_eligible _ _); [right; exists a, p; split; [left|done]|by left].
  - right. exists a', p'. split; [by right|done].
Qed.

Lemma elect_master_typed r our r' :
  typed_resources r -> mac our -> elect_master r our = Done r' -> typed_resources r'.
Proof.
  intros Hr Hour. unfold elect_master, find_master. intros He.
  apply outcome_bind_Done in He as (o & Ho & He).
  destruct (most_eligible_member (our, our_election_state r) (cache_iter (peer_cache r)))
    as [Hb|(a & p & Hin & Hb)]; rewrite Hb in Ho; simpl in Ho.
  - rewrite decide_True in Ho by done. injection Ho as <-. injection He as <-.
    destruct (negb _); [|done]. destruct Hr. split; simpl; try done. by apply election_new_typed.
  - apply cache_iter_map in Hin. destruct (tr_peers _ Hr a p Hin) as [Ha Hp].
    case_decide.
    + injection Ho as <-. injection He as <-. destruct (negb _); [|done].
      destruct Hr. split; simpl; try done. by apply election_new_typed.
    + rewrite cache_get_map, Hin in Ho. injection Ho as <-.
      eapply adopt_peer_typed; [done..| | |done]; apply Hp.
Qed.

Lemma process_action_frame_typed r our transmitter af rx now r' :
  typed_resources r -> mac our -> mac transmitter -> typed_af af -> clock rx ->
  process_action_frame TU r our transmitter af rx now = Done r' -> typed_resources r'.
Proof.
  intros Hr Hour Ht Haf Hrx. unfold process_action_frame. rewrite cache_get_map.
  destruct (cache_map (peer_cache r) !! transmitter) as [p|] eqn:Hp.
  - intros Hproc. apply outcome_bind_Done in Hproc as ([p' found] & Hu & Hproc).
    apply update_typed in Hu; [|done|done|by apply (tr_peers r Hr transmitter)|done|done].
    set (r1 := set_cache r (cache_set (peer_cache r) transmitter p')) in Hproc.
    assert (typed_resources r1) as Hr1.
    { destruct Hr as [Hs He Hps]. split; [done..|]. unfold peers. simpl.
      intros a q. rewrite cache_set_map by (by rewrite Hp).
      intros [[<- <-]|[_ Hq]]%lookup_insert_Some; [done|by apply Hps]. }
    assert (forall r2, typed_resources r2 -> (if is_peer_master r2 transmitter
      then adopt_peer_as_master r2 transmitter (synchronization_state p') (election_state p')
      else mret r2) = Done r' -> typed_resources r') as Hadopt.
    { intros r2 Hr2. destruct (is_peer_master r2 transmitter); [|by intros [= <-]].
      destruct Hu. by apply adopt_peer_typed. }
    destruct found; (eapply Hadopt; [|exact Hproc]); [by apply raise_event_typed|done].
  - destruct (cache_is_full (peer_cache r)) eqn:Hf; [by intros [= <-]|]. intros Hproc.
    apply outcome_bind_Done in Hproc as (o & Hn & Hproc). apply new_peer_typed in Hn; [|done..].
    destruct o as [p|]; [|by injection Hproc as <-].
    eapply elect_master_typed; [|exact Hour|exact Hproc].
    pose proof (raise_event_typed r (PeerDiscovered transmitter) Hr) as [Hs He Hps].
    destruct (raise_user_event_same r (PeerDiscovered transmitter)) as (Hc & _ & _).
    split; [done..|]. unfold peers in *. simpl. rewrite Hc in *. intros a q.
    rewrite cache_insert_map by done.
    intros [[<- <-]|[_ Hq]]%lookup_insert_Some; [by split; [|apply Hn]|by apply Hps].
Qed.

Lemma purge_typed r now timeout : typed_resources r -> typed_resources (purge_stale_peers r now timeout).
Proof.
  intros Hr. unfold purge_stale_peers.
  set (f := fun r '(a, p) => raise_user_event r _). set (l := filter _ _).
  assert (forall r, typed_resources r -> typed_resources (foldl f r l)) as Hfold.
  { induction l as [|[a p] l IH]; intros r1 Hr1; simpl; [done|]. by apply IH, raise_event_typed. }
  destruct (Hfold r Hr) as [Hs He Hp]. split; [done..|].
  intros a p. unfold peers. simpl. rewrite cache_retain_map.
  destruct (cache_map (peer_cache (foldl f r l)) !! a) as [q|] eqn:Hq; [|done].
  destruct (is_fresh now timeout q); [|done]. intros [= <-]. by apply Hp.
Qed.
End ResourceTypes.

(** ** The interface *)

Section SessionTypes.
Context `{AwdlWire} {C : Type} {Ch Sg W : Type -> Type}
  `{AwdlPeerCacheLaws C, Channel Ch, SignalLaws Sg, Watch W, Radio}.
Context (TU : Z) (TU_pos : (0 < TU)%Z) (TU_small : (TU < 2 ^ 16)%Z) (interface : nat).
Notation Awdl := (Awdl (C := C) (Ch := Ch) (Sg := Sg) (W := W)).
Implicit Types (a : Awdl) (act : awdl_action).

Definition typed_state (st : AwdlState) : Prop :=
  match st with Active address ch => mac address /\ u8 ch | Inactive => True end.

Record typed_awdl a : Prop := {
  tw_resources : typed_resources (common_resources a);
  tw_channel : u8 (control_channel a);
  tw_address : mac (control_address a);
  tw_session : on mac (session a);
  tw_signal : on typed_state (sg_value (state_signal a));
  tw_sequence : u16 (data_frame_sequence_number a);
}.

(** The times, addresses and parsed frames of an action are of their types. *)
Definition typed_act act : Prop :=
  match act with
  | ASetMac address => mac address
  | APollState now | APurge now | ASendAction _ now => clock now
  | AFrame (FAction _ body transmitter) rx_timestamp now _ =>
      on typed_af body /\ mac transmitter /\ clock rx_timestamp /\ clock now
  | _ => True
  end.

Definition typed_output (o : awdl_output) : Prop :=
  match o with AOAction f => typed_sent f | _ => True end.

Lemma serialize_typed a address subtype now f :
  typed_awdl a -> mac address -> serialize_action_frame TU a address subtype now = Done f ->
  typed_sent f.
Proof.
  intros [[Hs He _] _ _ _ _ _] Ha Hf. unfold serialize_action_frame in Hf.
  apply outcome_bind_Done in Hf as (t & Ht & Hf). apply outcome_bind_Done in Hf as (v2 & Hv & [= <-]).
  apply expect_Done in Hv. apply (generate_v2_typed _ He) in Hv.
  apply generate_tlv_typed in Ht; [|done|apply He].
  split; simpl; try done; [by apply generate_v1_typed|].
  apply Forall_fmap, (Forall_impl _ _ _ (ts_channels _ Hs)). by intros c Hc.
Qed.

Lemma session_begin_typed a st sg now :
  typed_awdl a -> typed_state st -> on typed_state (sg_value sg) -> clock now ->
  typed_awdl (session_begin a st sg now).
Proof.
  intros [[Hs He Hp] Hc Ha Hse Hsg Hq] Hst Hv Hn. destruct st as [address ch|]; [|by split].
  destruct Hst as [Haddr Hch]. split; simpl; rewrite ?on_Some; try done.
  split; simpl; [|by apply election_new_typed|done].
  split; simpl; [by repeat (apply Forall_cons; split)|]. unfold clock, epoch in *. lia.
Qed.

Lemma session_end_typed a : typed_awdl a -> typed_awdl (session_end a).
Proof.
  intros [[Hs He Hp] Hc Ha Hse Hsg Hq]. split; simpl; try done.
  split; simpl; [done..|]. intros x p. unfold peers. simpl. by rewrite cache_clear_map.
Qed.

Lemma poll_typed a now : typed_awdl a -> clock now -> typed_awdl (runner_poll_state a now).
Proof.
  intros Ha Hn. unfold runner_poll_state. destruct (sg_wait (state_signal a)) as [[st sg]|] eqn:Hw; [|done].
  apply sg_wait_Some in Hw as [Hv Hsg]. pose proof (tw_signal _ Ha _ Hv) as Hst.
  apply session_begin_typed; [by destruct (session a); [apply session_end_typed|]|done| |done].
  by rewrite Hsg.
Qed.

Lemma start_finish_typed a : typed_awdl a -> typed_awdl (start_finish a).
Proof.
  intros []. split; simpl; try done. rewrite sg_signal_value, on_Some. by split.
Qed.

(** The sequence number is a [u16] by the checked addition. *)
Lemma tx_finish_typed a res r a' : typed_awdl a -> tx_finish a res = Done (r, a') -> typed_awdl a'.
Proof.
  intros [] Hf. unfold tx_finish in Hf. apply outcome_bind_Done in Hf as (n & Hn & [= _ <-]).
  apply expect_Done, checked_add_Some in Hn as [-> Hn]. split; simpl; try done.
  unfold u16, in_width, u_max in *. lia.
Qed.

(** A transmission changes the transmit task, the sequence number and the signal for
    the receive runner. *)
Lemma tx_task_typed a t n : typed_awdl a -> u16 n -> typed_awdl (with_tx a t n).
Proof. by intros [] Hn; split. Qed.
Lemma ndp_typed a sg : typed_awdl a -> typed_awdl (with_ndp a sg).
Proof. by intros []; split. Qed.
Lemma lmac_typed a lm : typed_awdl a -> typed_awdl (set_awdl_lmac a lm).
Proof. by intros []; split. Qed.
Lemma channel_state_typed a cs : typed_awdl a -> typed_awdl (set_channel_state a cs).
Proof. by apply lmac_typed. Qed.
Lemma starting_typed a b : typed_awdl a -> typed_awdl (set_starting a b).
Proof. by intros []; split. Qed.
Lemma resources_typed a r : typed_awdl a -> typed_resources r -> typed_awdl (with_resources a r).
Proof. by intros [] Hr; split. Qed.

Lemma tx_wait_typed a t r a' : typed_awdl a -> tx_wait a t = Done (r, a') -> typed_awdl a'.
Proof. intros Ha [= _ <-]. by apply tx_task_typed; [|apply Ha]. Qed.

Lemma tx_send_typed a frame r a' : typed_awdl a -> tx_send a frame = Done (r, a') -> typed_awdl a'.
Proof. intros Ha. unfold tx_send. destruct (data_frame_len _ _); by apply tx_finish_typed. Qed.

Lemma tx_msdu_typed a msdu r a' : typed_awdl a -> tx_msdu a msdu = Done (r, a') -> typed_awdl a'.
Proof.
  intros Ha. unfold tx_msdu. destruct (parse_ethernet msdu); [|by apply tx_finish_typed].
  destruct (if decide _ then _ else _); [by apply tx_finish_typed, ndp_typed|].
  destruct (_ && _); [by apply tx_finish_typed|by apply tx_wait_typed].
Qed.

Lemma tx_buffer_typed a frame now r a' :
  typed_awdl a -> tx_buffer TU a frame now = Done (r, a') -> typed_awdl a'.
Proof.
  intros Ha Hb. apply outcome_bind_Done in Hb as (slot & _ & Hb). revert Hb.
  destruct slot; first [by apply tx_finish_typed|by apply tx_send_typed|by apply tx_wait_typed].
Qed.

Lemma process_frame_typed a address frame rx now rx_buf o a' :
  typed_awdl a -> mac address -> typed_act (AFrame frame rx now rx_buf) ->
  process_frame TU a address frame rx now rx_buf = Done (o, a') -> typed_awdl a'.
Proof.
  intros Ha Haddr Hact Hp. destruct frame as [oui body transmitter|data|]; simpl in *;
    [|by injection Hp as _ <-..].
  case_decide; [by injection Hp as _ <-|]. destruct Hact as (Hbody & Ht & Hrx & _).
  destruct body as [af|]; [|by injection Hp as _ <-].
  apply outcome_bind_Done in Hp as (r & Hr & [= _ <-]). apply resources_typed; [done|].
  eapply process_action_frame_typed, Hr; try done; [apply Ha|by apply Hbody].
Qed.

Ltac invert_step := intros [= Hs];
  repeat match type of Hs with
  | _ ≫= _ = Done _ =>
      let x := fresh "x" in let Hx := fresh "Hx" in
      apply outcome_bind_Done in Hs as (x & Hx & Hs)
  | mret _ = Done _ => injection Hs as <- <-
  end.

Lemma session_step_typed a address act a' o :
  typed_awdl a -> mac address -> typed_act act ->
  session_step TU interface a address act = Some (Done (a', o)) -> typed_awdl a' /\ typed_output o.
Proof.
  intros Ha Haddr Hact. destruct act; cbn [session_step]; try done.
  - unfold reject_request. destruct (lm_requesters _ !! interface) as [r|]; [|done]. simpl.
    destruct (fst (wait_for_request r)); [|done]. intros [= <- <-]. by split; [apply lmac_typed|].
  - invert_step. split; [|done]. apply outcome_bind_Done in Hx as (r & Hr & [= <-]).
    apply resources_typed; [done|]. eapply elect_master_typed, Hr; [|done].
    apply purge_typed, Ha.
  - invert_step. split; [done|]. by eapply serialize_typed.
  - invert_step. destruct x as [r a1]. injection Hs as <- <-. split; [|done].
    by eapply process_frame_typed.
  - destruct (sg_wait _) as [[peer sg]|]; [|done]. intros [= <- <-]. by split; [apply ndp_typed|].
  - destruct (tx a); try done. invert_step. destruct x as [r a1]. injection Hs as <- <-.
    split; [|done]. by eapply tx_msdu_typed.
  - destruct (tx a); try done. invert_step. destruct x as [r a1]. injection Hs as <- <-.
    split; [|done]. by eapply tx_buffer_typed.
  - destruct (tx a); try done. case_decide; [|done]. invert_step. destruct x as [r a1].
    injection Hs as <- <-. split; [|done]. by eapply tx_send_typed.
Qed.

Lemma awdl_step_typed a act a' o :
  typed_awdl a -> typed_act act -> awdl_step TU interface a act = Some (Done (a', o)) ->
  typed_awdl a' /\ typed_output o.
Proof.
  intros Ha Hact. destruct act; cbn [awdl_step];
    try (destruct (session a) as [address'|] eqn:Hse; [|done]; apply session_step_typed; [done| |done];
         by apply (tw_session _ Ha)).
  - destruct (starting a); [done|]. intros [= Hs]. apply outcome_bind_Done in Hs as ([r a1] & Hb & [= <- <-]).
    split; [|done]. unfold start_begin in Hb. apply outcome_bind_Done in Hb as ([r' cs] & _ & Hb).
    destruct r' as [op|e]; [|injection Hb as _ <-; by apply channel_state_typed].
    destruct (completion_wait_needed _); injection Hb as _ <-;
      [apply starting_typed|apply start_finish_typed]; by apply channel_state_typed.
  - destruct (starting a); [|done]. unfold start_poll. destruct (completion_wait_poll _).
    + intros [= <- <-]. by split; [apply start_finish_typed|].
    + by intros [= <- <-].
  - destruct (starting a); [|done]. invert_step. split; [|done].
    apply outcome_bind_Done in Hx as (cs & _ & [= <-]). by apply channel_state_typed, starting_typed.
  - destruct (starting a); [done|]. invert_step. split; [|done].
    apply outcome_bind_Done in Hx as (cs & _ & [= <-]).
    destruct Ha. split; simpl; try done. by rewrite sg_signal_value, on_Some.
  - intros [= <- <-]. split; [|done]. by destruct Ha.
  - destruct (starting a); [done|]. intros [= <- <-]. split; [|done]. by destruct Ha.
  - intros [= <- <-]. split; [|done]. by apply poll_typed.
  - invert_step. split; [|done].
    apply outcome_bind_Done in Hx as (lm & _ & [= <-]). by apply lmac_typed.
Qed.

Lemma new_typed depth (lm : LMac (W := W)) address :
  mac address -> cache_map (cache_uninit (C := C)) = ∅ ->
  typed_awdl (new_awdl_interface (Sg := Sg) (Ch := Ch) depth lm address).
Proof.
  intros Hm Hc. split; simpl; rewrite ?sg_new_value; try done.
  split; simpl.
  - split; [repeat (apply Forall_cons; split); done|done].
  - apply election_new_typed. split; [done|]. repeat (apply Forall_cons; split); done.
  - intros x p Hp. change (cache_map (cache_uninit (C := C)) !! x = Some p) in Hp.
    by rewrite Hc in Hp.
Qed.

Lemma run_typed a acts a' os :
  typed_awdl a -> Forall typed_act acts -> run (awdl_step TU interface) a acts = Some (Done (a', os)) ->
  typed_awdl a' /\ Forall typed_output os.
Proof.
  revert a os. induction acts as [|act acts IH]; intros a os Ha Hacts Hr.
  { apply run_nil in Hr as [-> ->]. by split. }
  apply Forall_cons in Hacts as [Hact Hacts].
  apply run_cons in Hr as (a1 & o & os' & Hs & Hr & ->).
  destruct (awdl_step_typed a act a1 o Ha Hact Hs) as [Ha1 Ho].
  destruct (IH a1 os' Ha1 Hacts Hr) as [? ?]. split; [done|by constructor].
Qed.

(** C39 Widths: from a new interface with a MAC address, over calls, polls, sessions and
    received frames with fields of their types, every integer of the AWDL state stays in
    its type, the differences of the clock with our epoch and those of the
    peers are [i64], and every field of every action frame sent fits its width, addresses included. *)
Theorem action_frames_typed depth (lm : LMac (W := W)) address acts a' os :
  mac address -> cache_map (cache_uninit (C := C)) = ∅ -> Forall typed_act acts ->
  run (awdl_step TU interface) (new_awdl_interface (Sg := Sg) (Ch := Ch) depth lm address) acts =
    Some (Done (a', os)) ->
  typed_awdl a' /\
  (forall now, clock now ->
     i64 (now - tsf_epoch_in_us (sync_state (common_resources a'))) /\
     forall x p, peers (common_resources a') !! x = Some p ->
       i64 (now - tsf_epoch_in_us (synchronization_state p))) /\
  forall f, AOAction f ∈ os -> typed_sent f.
Proof.
  intros Hm Hc Hacts Hr.
  destruct (run_typed _ acts a' os (new_typed depth lm address Hm Hc) Hacts Hr) as [Ha Hos].
  split; [done|]. split.
  - intros now Hn. split; [by apply elapsed_fits; [apply Ha|]|]. intros x p Hp.
    apply elapsed_fits; [|done]. by apply (tr_peers _ (tw_resources _ Ha) x p Hp).
  - intros f Hf. rewrite Forall_forall in Hos. by apply (Hos _ Hf).
Qed.
End SessionTypes.

(** ** Witness *)

(** A session that discovers a peer with a better metric, adopts it and says so. *)
Definition typed_demo_acts : list (@awdl_action) :=
  [AStart; APollState 1000;
   AFrame (FAction APPLE_OUI (Some demo_peer_frame) demo_peer_mac) 90000 90001 None;
   ASendAction MIF 90002]%Z.

Lemma typed_demo_run : exists a' os f,
  run (awdl_step 1024 0) demo_awdl typed_demo_acts = Some (Done (a', os)) /\
  AOAction f ∈ os /\ root_peer (our_election_state (common_resources a')) = demo_peer_mac /\
  v1_distance_to_master (sa_election_v1 f) = 1%Z.
Proof.
  destruct (run (awdl_step 1024 0) demo_awdl typed_demo_acts) as [[[a' os]|]|] eqn:Hr;
    vm_compute in Hr; [|discriminate Hr..]. injection Hr as <- <-.
  do 3 eexists. split; [reflexivity|]. split; [|split].
  - do 3 right. left.
  - vm_compute. reflexivity.
  - vm_compute. reflexivity.
Qed.

Lemma demo_mac_typed : mac demo_mac.
Proof. split; [reflexivity|]. repeat constructor; vm_compute; congruence. Qed.
Lemma demo_peer_mac_typed : mac demo_peer_mac.
Proof. split; [reflexivity|]. repeat constructor; vm_compute; congruence. Qed.

Lemma demo_frame_typed : typed_af demo_peer_frame.
Proof.
  pose proof demo_peer_mac_typed as Hm.
  split; simpl; rewrite ?on_Some; auto with foa.
  - repeat constructor; vm_compute; congruence.
  - split; simpl; try done.
  - done.
  - split; simpl; done.
Qed.

Lemma demo_acts_typed : Forall typed_act typed_demo_acts.
Proof.
  apply Forall_cons; split; [exact I|]. apply Forall_cons; split; [by vm_compute|].
  apply Forall_cons; split; [|apply Forall_cons; split; [by vm_compute|by apply Forall_nil]].
  split; [apply on_Some, demo_frame_typed|]. split; [exact demo_peer_mac_typed|]. by vm_compute.
Qed.

Lemma action_frames_typed_witness :
  exists f, typed_sent f /\ v1_distance_to_master (sa_election_v1 f) = 1%Z.
Proof.
  destruct typed_demo_run as (a' & os & f & Hr & Hf & _ & Hd). exists f. split; [|exact Hd].
  destruct (action_frames_typed 1024 ltac:(lia) ltac:(lia) 0 4 (lmac_new radio_off) demo_mac
    typed_demo_acts a' os) as (_ & _ & Hsent); [..|exact Hr|exact (Hsent f Hf)].
  - exact demo_mac_typed.
  - reflexivity.
  - exact demo_acts_typed.
Defined.
