(* ===== verification/Interfaces.v ===== *)
(** * A station and AWDL interfaces on one lower MAC

    AWDL as a [MacClient], and the system of interfaces of both kinds: what the station and
    AWDL properties assume of other interfaces is what the other interfaces do. *)
From S2P Require Import Prelude Bytes Network Platform Async Lmac Locks KeySlots RxRouter Eapol Rsn Bss Sta.
From S2P Require Import Scan StaRouter Connect ConnectFacts ConnectProps StaRunner StaRunnerFacts StaRunnerProps OffChannelProps.
From S2P Require Import StaSystem StaSystemFacts StaSystemProps StaScan StaScanProps Compose StaTask StaTaskProps.
From S2P Require Import AwdlSync Awdl PeerCache AwdlSession AwdlProps.

(** ** AWDL among other interfaces *)

Section AwdlClient.
Context `{AwdlWire} {C : Type} {Ch Sg W : Type -> Type}
  `{AwdlPeerCacheLaws C, Channel Ch, SignalLaws Sg, Watch W, RadioLaws}.
Context (TU : Z).
Notation Awdl := (Awdl (C := C) (Ch := Ch) (Sg := Sg) (W := W)).
Notation reach i := (mac_reach (fun j => j = i)).
Implicit Types (a : Awdl) (act : awdl_action).

Lemma awdl_same a a' i : awdl_lmac a' = awdl_lmac a -> reach i (awdl_lmac a) (awdl_lmac a').
Proof. intros ->. apply mac_reach_refl. Qed.

(** The runners of a session leave the lower MAC alone. *)
Lemma tx_finish_lmac a r r' a' : tx_finish a r = Done (r', a') -> awdl_lmac a' = awdl_lmac a.
Proof. intros Hf. by apply outcome_bind_Done in Hf as (seq & _ & [= _ <-]). Qed.

Lemma tx_send_lmac a frame r a' : tx_send a frame = Done (r, a') -> awdl_lmac a' = awdl_lmac a.
Proof. unfold tx_send. by destruct (data_frame_len _ _); apply tx_finish_lmac. Qed.

Lemma tx_msdu_lmac a msdu r a' : tx_msdu a msdu = Done (r, a') -> awdl_lmac a' = awdl_lmac a.
Proof.
  unfold tx_msdu. destruct (parse_ethernet msdu); [|apply tx_finish_lmac].
  destruct (if decide _ then _ else _); [by intros ->%tx_finish_lmac|].
  destruct (_ && _); [apply tx_finish_lmac|by intros [= _ <-]].
Qed.

Lemma tx_buffer_lmac a frame now r a' : tx_buffer TU a frame now = Done (r, a') -> awdl_lmac a' = awdl_lmac a.
Proof.
  intros Hb. apply outcome_bind_Done in Hb as (slot & _ & Hb). revert Hb.
  destruct slot; first [apply tx_finish_lmac|apply tx_send_lmac|by intros [= _ <-]].
Qed.

Lemma process_frame_lmac a address frame rx now buf r a' :
  process_frame TU a address frame rx now buf = Done (r, a') -> awdl_lmac a' = awdl_lmac a.
Proof.
  destruct frame as [oui body transmitter|data|]; simpl; [|by intros [= _ <-]..].
  case_decide; [by intros [= _ <-]|]. destruct body; [|by intros [= _ <-]].
  intros Hp. by apply outcome_bind_Done in Hp as (x & _ & [= _ <-]).
Qed.

Lemma session_step_reach i a address act a' o :
  i < INTERFACE_COUNT -> session_step TU i a address act = Some (Done (a', o)) ->
  reach i (awdl_lmac a) (awdl_lmac a').
Proof.
  intros Hi. destruct act; cbn [session_step]; try done.
  - unfold reject_request. destruct (lm_requesters _ !! i) as [r|]; [|done]. simpl.
    destruct (fst (wait_for_request r)); [|done]. intros [= <- _].
    apply (mac_reach_one _ _ (OReject i)); [by apply bool_decide_eq_true|done].
  - intros [= Hs]. apply outcome_bind_Done in Hs as (x & Hx & [= <- _]).
    apply awdl_same. by apply outcome_bind_Done in Hx as (r & _ & [= <-]).
  - intros [= Hs]. apply outcome_bind_Done in Hs as (x & _ & [= <- _]). by apply awdl_same.
  - intros [= Hs]. apply outcome_bind_Done in Hs as ([x b] & Hx & [= <- _]).
    by eapply awdl_same, process_frame_lmac.
  - destruct (sg_wait _) as [[peer sg]|]; [|done]. intros [= <- _]. by apply awdl_same.
  - destruct (tx a); try done. intros [= Hs]. apply outcome_bind_Done in Hs as ([x b] & Hx & [= <- _]).
    by eapply awdl_same, tx_msdu_lmac.
  - destruct (tx a); try done. intros [= Hs]. apply outcome_bind_Done in Hs as ([x b] & Hx & [= <- _]).
    by eapply awdl_same, tx_buffer_lmac.
  - destruct (tx a); try done. case_decide; [|done].
    intros [= Hs]. apply outcome_bind_Done in Hs as ([x b] & Hx & [= <- _]).
    by eapply awdl_same, tx_send_lmac.
Qed.

Lemma unlock_reach i a cs : i < INTERFACE_COUNT ->
  unlock_channel (lm_channel (awdl_lmac a)) i = Done cs ->
  reach i (awdl_lmac a) (with_channel (awdl_lmac a) cs).
Proof.
  intros Hi Hu. apply (mac_reach_one _ _ (OUnlock i)); [by apply bool_decide_eq_true|]. simpl. by rewrite Hu.
Qed.

Lemma awdl_step_reach i a act a' o :
  i < INTERFACE_COUNT -> (forall o, act <> AMac o) -> awdl_step TU i a act = Some (Done (a', o)) ->
  reach i (awdl_lmac a) (awdl_lmac a').
Proof.
  intros Hi Hm. destruct act; cbn [awdl_step];
    try (destruct (session a) as [address'|] eqn:Hse; [by apply session_step_reach|done]).
  - destruct (starting a); [done|]. intros [= Hs]. apply outcome_bind_Done in Hs as ([r a1] & Hb & [= <- _]).
    unfold start_begin in Hb. apply outcome_bind_Done in Hb as ([r' cs] & Hl & Hb).
    assert (reach i (awdl_lmac a) (with_channel (awdl_lmac a) cs)) as Hr.
    { apply outcome_bind_Done in Hl as ([r1 cs1] & Hl & Heq).
      assert (cs1 = cs) as -> by (by destruct r1; injection Heq).
      apply (mac_reach_one _ _ (OLock i (control_channel a))); [by apply bool_decide_eq_true|].
      simpl. unfold lock_channel. by rewrite Hl. }
    destruct r' as [op|e]; [destruct (completion_wait_needed _)|]; by injection Hb as _ <-.
  - destruct (starting a); [|done]. unfold start_poll.
    destruct (completion_wait_poll _); intros [= <- _]; by apply awdl_same.
  - destruct (starting a); [|done]. intros [= Hs]. apply outcome_bind_Done in Hs as (x & Hx & [= <- _]).
    apply outcome_bind_Done in Hx as (cs & Hu & [= <-]). by apply (unlock_reach i a cs).
  - destruct (starting a); [done|]. intros [= Hs]. apply outcome_bind_Done in Hs as (x & Hx & [= <- _]).
    apply outcome_bind_Done in Hx as (cs & Hu & [= <-]). by apply (unlock_reach i a cs).
  - intros [= <- _]. by apply awdl_same.
  - destruct (starting a); [done|]. intros [= <- _]. by apply awdl_same.
  - intros [= <- _]. apply awdl_same. unfold runner_poll_state, session_begin.
    destruct (sg_wait _) as [[[address channel|] sg]|]; [| |done]; by destruct (session a).
  - by destruct (Hm o0).
Qed.

(** The steps of AWDL, without the one that stands for others. *)
#[export] Instance awdl_client : MacClient Awdl awdl_action := {
  client_lmac i a := awdl_lmac a;
  client_step i a act :=
    match act with
    | AMac _ => None
    | _ => match awdl_step TU i a act with Some m => Some ('(a, _) ← m; mret a) | None => None end
    end;
  client_mac i a o := lm ← mac_step i (awdl_lmac a) o; mret (set_awdl_lmac a lm);
}.

#[export] Instance awdl_client_laws : MacClientLaws Awdl awdl_action.
Proof.
  refine {| client_ok := fun i acts a => i < INTERFACE_COUNT /\ awdl_ok a /\ Forall act_ok acts /\
    (used a + Z.of_nat (msdus acts) <= u_max 16)%Z |}.
  - intros i acts a (_ & Ha & _). apply Ha.
  - intros i acts act a (Hi & Ha & Hok & Hu). apply Forall_cons in Hok as [Hact Hok]. rewrite msdus_cons in Hu.
    pose proof (awdl_step_ok TU i Hi a act Ha Hact) as Hs. rewrite msdus_one in Hs.
    ospecialize (Hs _); [lia|]. assert (match match awdl_step TU i a act with
      | Some m => Some ('(a, _) ← m; mret a) | None => None end with
      | Some Panic => False
      | Some (Done a') => i < INTERFACE_COUNT /\ awdl_ok a' /\ Forall act_ok acts /\
          (used a' + Z.of_nat (msdus acts) <= u_max 16)%Z
      | None => True end) as Hstep.
    { destruct (awdl_step TU i a act) as [[[a1 o]|]|]; [|done..]. destruct Hs as [Ha1 Hu1]. simpl in *.
      split_and!; try done. unfold used in *. lia. }
    by destruct act.
  - intros i acts a o (Hi & Ha & Hok & Hu).
    destruct (mac_step_spec i (awdl_lmac a) o (ao_locks _ Ha)) as (lm & Hm & [Hl _] & _).
    exists (set_awdl_lmac a lm). cbn [client_mac client_lmac awdl_client]. rewrite Hm. split; [done|]. split; [|done].
    destruct (lmac_step_fine i Hi a lm (Z.of_nat (pending a)) Ha Hl ltac:(lia)) as [Ha' _]. by split_and!.
  - intros i acts a act a' (Hi & _) Hs.
    assert (forall o, act <> AMac o) as Hne by (by intros o ->).
    assert (match awdl_step TU i a act with Some m => Some ('(a, _) ← m; mret a) | None => None end = Some (Done a')) as Hst
      by by destruct act.
    destruct (awdl_step TU i a act) as [[[a1 o]|]|] eqn:Ha; try done. injection Hst as <-.
    exact (awdl_step_reach i a act a1 o Hi Hne Ha).
Defined.

(** ** A session and off-channel operations *)

Lemma answers_stay rs (waits : list wait_slot) j w :
  waits !! j = Some (Some w) -> snd (poll_requests rs waits) !! j = Some (Some w).
Proof.
  revert rs j. induction waits as [|w0 waits IH]; intros [|r rs] [|j] Hj; try done; simpl;
    destruct (poll_requests rs waits) as [rs' ws'] eqn:Hp.
  - injection Hj as ->. done.
  - specialize (IH rs j Hj). rewrite Hp in IH. destruct w0; [done|]. by destruct (request_poll r) as [[? ?] ?].
Qed.

Lemma rejected_answer rs (waits : list wait_slot) j :
  rs !! j = Some Rejected -> waits !! j = Some None ->
  snd (poll_requests rs waits) !! j = Some (Some (Err OffChannelRequestRejected)).
Proof.
  revert rs j. induction waits as [|w0 waits IH]; intros [|r rs] [|j] Hr Hj; try done; simpl;
    destruct (poll_requests rs waits) as [rs' ws'] eqn:Hp.
  - injection Hr as ->. injection Hj as ->. done.
  - specialize (IH rs j Hr Hj). rewrite Hp in IH. destruct w0; [done|]. by destruct (request_poll r) as [[? ?] ?].
Qed.

(** The polls of a future that waits for answers, each with the lower MAC it finds. *)
Fixpoint begin_polls (i : nat) (waits : list wait_slot) (lms : list (LMac (W := W)))
  : list (poll (result LMacError OffChannelOperation)) :=
  match lms with
  | [] => []
  | lm :: lms => let '(p, waits, _) := begin_poll lm i waits in p :: begin_polls i waits lms
  end.

Lemma rejected_poll (lm : LMac (W := W)) i (waits : list wait_slot) j e p waits' lm' :
  snd (poll_requests (lm_requesters lm) waits) !! j = Some (Some (Err e)) ->
  begin_poll lm i waits = (p, waits', lm') ->
  waits' !! j = Some (Some (Err e)) /\ (forall op, p <> PollReady (Ok op)).
Proof.
  unfold begin_poll. destruct (poll_requests (lm_requesters lm) waits) as [rs ws]. simpl. intros Hj.
  case_bool_decide as Hall; [|by intros [= <- <- _]].
  destruct (first_error ws) eqn:Hf; intros [= <- <- _]; [done|].
  by pose proof (first_error_None ws Hf Hall j _ Hj).
Qed.

Lemma rejected_for_ever i (waits : list wait_slot) j e (lms : list (LMac (W := W))) p :
  waits !! j = Some (Some (Err e)) -> p ∈ begin_polls i waits lms -> forall op, p <> PollReady (Ok op).
Proof.
  revert waits. induction lms as [|lm lms IH]; intros waits Hj; simpl; [by intros ?%elem_of_nil|].
  destruct (begin_poll lm i waits) as [[p0 waits0] lm0] eqn:Hb.
  apply (rejected_poll _ _ _ j e) in Hb as [Hj0 Hp0]; [|by apply answers_stay].
  intros [->|Hp]%elem_of_cons; [done|by eapply IH].
Qed.

(** C14 AWDL lets nobody leave its channel: when another interface asks for an off-channel
    operation while interface [j] is in an AWDL session that holds the channel, the
    operation waits, the session answers at its next round that the request is rejected, and
    from then on no poll begins the operation, whatever the others answer: with a session
    every scan of a station on the same radio fails. *)
Theorem awdl_rejects_off_channel (lm0 : LMac (W := W)) i j asked waits a our_address :
  locks_ok (lm_channel lm0) -> length (lm_requesters lm0) = INTERFACE_COUNT ->
  begin_start lm0 = Ok (asked, waits, awdl_lmac a) ->
  holds (lm_channel lm0) j -> session a = Some our_address ->
  fst (fst (begin_poll (awdl_lmac a) i waits)) = PollPending /\
  exists a', awdl_step TU j a AOffChannelRequest = Some (Done (a', AORejected)) /\
    forall later p, p ∈ begin_polls i waits (awdl_lmac a' :: later) -> forall op, p <> PollReady (Ok op).
Proof.
  intros Hlocks Hlen Hbegin (l & c & Hl & Hown) Hs.
  unfold begin_start in Hbegin. case_match; [done|]. rewrite Hl in Hbegin. injection Hbegin as <- <- Hlm.
  set (waits := (fun locked : bool => _) <$> l).
  assert (waits !! j = Some None) as Hw by (unfold waits; by rewrite list_lookup_fmap, Hown).
  assert (j < INTERFACE_COUNT) as Hj.
  { unfold locks_ok in Hlocks. rewrite Hl in Hlocks. destruct Hlocks as [<- _]. by eapply lookup_lt_Some. }
  assert (lm_requesters (awdl_lmac a) !! j = Some Requested) as Hr.
  { rewrite <- Hlm. cbn [lm_requesters with_requesters]. rewrite lookup_zip_with, Hown.
    by destruct (lookup_lt_is_Some_2 (lm_requesters lm0) j) as [r ->]; [lia|]. }
  split.
  - unfold begin_poll. destruct (poll_requests _ waits) as [rs ws] eqn:Hp.
    rewrite bool_decide_false; [done|]. intros Hall. rewrite Forall_lookup in Hall.
    assert (ws !! j = Some None) as Hn; [|by destruct (Hall _ _ Hn)].
    pose proof (poll_requests_pending _ _ j Hw Hr) as Hpend. by rewrite Hp in Hpend.
  - unfold awdl_step. rewrite Hs. cbn [session_step]. unfold reject_request. rewrite Hr. simpl.
    eexists. split; [done|]. intros later p.
    destruct (begin_poll _ i waits) as [[p0 waits0] lm1] eqn:Hb.
    apply (rejected_poll _ _ _ j OffChannelRequestRejected) in Hb as [Hj0 Hp0].
    + intros [->|Hp]%elem_of_cons; [done|by eapply rejected_for_ever].
    + apply rejected_answer; [|done]. cbn. by rewrite list_lookup_alter_eq, Hr.
Qed.
End AwdlClient.

(** ** The system *)

Section Interfaces.
Context `{ConnectLaws, !Ieee80211Laws, !CryptoHeaderLaws, !KeyHalLaws, StaWire, !AwdlWire} {C : Type}.
Context {Sg Ch W Q : Type -> Type} `{AwdlPeerCacheLaws C}
  `{SignalLaws Sg, ChannelLaws Ch, WatchLaws W, PacketQueueLaws Q, !RadioLaws, !ScanWire}.
Context (TU : Z) (RX_QUEUE_DEPTH NET_TX_BUFFERS NET_RX_BUFFERS : nat).
Notation StaInterface := (StaInterface (Sg := Sg) (Ch := Ch) (W := W) (Q := Q)).
Notation StaTask := (StaTask (Sg := Sg) (Ch := Ch) (W := W) (Q := Q)).
Notation Awdl := (Awdl (C := C) (Ch := Ch) (Sg := Sg) (W := W)).
Notation Interface := (StaTask + Awdl)%type.
Notation action := (station_action + awdl_action)%type.
Implicit Types (s : StaInterface) (t : StaTask) (a : Awdl) (ss : list Interface).

#[local] Instance local_station : MacClient StaTask station_action := station_client RX_QUEUE_DEPTH NET_TX_BUFFERS.
#[local] Instance local_station_laws : MacClientLaws StaTask station_action :=
  station_client_laws RX_QUEUE_DEPTH NET_TX_BUFFERS.
#[local] Instance local_awdl : MacClient Awdl awdl_action := awdl_client TU.
#[local] Instance local_awdl_laws : MacClientLaws Awdl awdl_action := awdl_client_laws TU.

(** A station as interface [i], and AWDL as the others, all new. *)
Definition new_interfaces (i : nat) s (lm : LMac (W := W)) (awdls : list (nat * list Z)) : list Interface :=
  <[i := inl (TkReady s)]>
    ((fun '(depth, address) => inr (new_awdl_interface depth lm address)) <$> awdls).

Definition interface_action_ok (x : nat * action) : Prop :=
  match snd x with inl x => task_action_ok x | inr act => act_ok act end.

(** Packet numbers for the station, sequence numbers for AWDL. *)
Definition enough_numbers (acts : list (nat * action)) : Prop := forall j,
  (1 + task_costs RX_QUEUE_DEPTH NET_TX_BUFFERS (lefts (actions_of j acts)) <= MAX_PN)%Z /\
  (Z.of_nat (msdus (rights (actions_of j acts))) <= u_max 16)%Z.

Definition interface_sound (c : Interface) : Prop :=
  match c with
  | inl (TkReady s) => runner_ok s
  | inl _ => True
  | inr a => awdl_ok a
  end.

Lemma actions_of_ok j (acts : list (nat * action)) :
  Forall interface_action_ok acts ->
  Forall task_action_ok (lefts (actions_of j acts)) /\ Forall act_ok (rights (actions_of j acts)).
Proof.
  induction 1 as [|[k x] acts Hx _ [IHl IHr]]; [done|]. destruct (decide (k = j)) as [->|Hne].
  - rewrite actions_of_own. destruct x as [x|act]; (split; [|]); simpl; try done; by constructor.
  - by rewrite actions_of_other.
Qed.

Lemma new_interfaces_ok i s lm awdls acts m ra bssid base_mac :
  i < INTERFACE_COUNT -> length awdls = INTERFACE_COUNT ->
  locks_ok (lm_channel lm) -> length (lm_requesters lm) = INTERFACE_COUNT ->
  cache_map (cache_uninit (C := C)) = ∅ ->
  new_sta_interface i RX_QUEUE_DEPTH NET_TX_BUFFERS NET_RX_BUFFERS m lm ra bssid base_mac = Done s ->
  Forall interface_action_ok acts -> enough_numbers acts ->
  system_ok acts (new_interfaces i s lm awdls).
Proof.
  intros Hi Hlen Hl Hr Hc Hnew Hacts Hnum.
  assert (lmac (station s) = lm) as Hlm by (by apply outcome_bind_Done in Hnew as (mac & _ & [= <-])).
  assert (forall j c, new_interfaces i s lm awdls !! j = Some c ->
    j < INTERFACE_COUNT /\ (c = inl (TkReady s) \/ exists depth address, c = inr (new_awdl_interface depth lm address))) as Hin.
  { intros j c Hj. split.
    - apply lookup_lt_Some in Hj. unfold new_interfaces in Hj. rewrite length_insert, length_fmap in Hj. lia.
    - unfold new_interfaces in Hj. apply list_lookup_insert_Some in Hj as [(<- & <- & _)|[_ Hj]]; [by left|right].
      apply list_lookup_fmap_Some in Hj as ([depth address] & -> & _). by eexists _, _. }
  split.
  - intros j c Hj. destruct (Hin j c Hj) as [Hjc Hcases], (actions_of_ok j acts Hacts) as [Hal Har], (Hnum j) as [Hn1 Hn2].
    destruct Hcases as [->|(depth & address & ->)].
    + split; [done|]. split; [done|done|by subst lm|].
      exists 1%Z. split; [done|]. split; [|done]. exact (new_in_order i Hi _ _ _ m _ ra bssid base_mac s Hl Hr Hnew).
    + split; [done|]. split; [by apply new_ok|]. split; [done|exact Hn2].
  - intros j k c d Hj Hk.
    assert (forall j c, new_interfaces i s lm awdls !! j = Some c -> client_lmac j c = lm) as Hall.
    { intros j' c' Hj'. by destruct (Hin j' c' Hj') as [_ [->|(depth & address & ->)]]. }
    by rewrite (Hall j c Hj), (Hall k d Hk).
Qed.

Lemma sound_interface j xs (c : Interface) : client_ok j xs c -> interface_sound c.
Proof.
  destruct c as [[s|s c env|s sc env]|a]; [|done..|by intros (_ & Ha & _)].
  intros [_ [_ _ _ (n & _ & Hs & _)]]. by apply (io_runner _ _ _ _ _ Hs).
Qed.

(** C5 One station and AWDL interfaces on one lower MAC stay in order, however their steps
    interleave: calls of the station that wait at any of their awaits while AWDL starts,
    stops, and rejects requests, scans that wait for AWDL's answer, polls, and received
    frames.  Whatever the system has done from new interfaces on, the next action of any
    interface does not panic and its effect reaches the others, all interfaces see the
    same sound lower MAC, and each is in order.  It needs, and without them the code does
    panic or hang: packets the station can send ([sendable]); no received protected data frame with
    a broken or truncated CCMP header ([ccmp_ok]); action frames as the crate parses them from peers that
    do not claim the distance [u32::MAX] to their master ([af_ok]); packet numbers of
    48 bits for the station, and at most 65535 MSDUs for each AWDL interface. *)
Theorem interfaces_stay_in_order i m (lm : LMac (W := W)) ra bssid base_mac s awdls acts j x ss c :
  i < INTERFACE_COUNT -> length awdls = INTERFACE_COUNT ->
  locks_ok (lm_channel lm) -> length (lm_requesters lm) = INTERFACE_COUNT ->
  cache_map (cache_uninit (C := C)) = ∅ ->
  new_sta_interface i RX_QUEUE_DEPTH NET_TX_BUFFERS NET_RX_BUFFERS m lm ra bssid base_mac = Done s ->
  Forall interface_action_ok (acts ++ [(j, x)]) -> enough_numbers (acts ++ [(j, x)]) ->
  system_run (new_interfaces i s lm awdls) acts ss -> ss !! j = Some c ->
  match client_step j c x with
  | Some Panic => False
  | Some (Done _) => exists ss', system_step ss (j, x) ss'
  | None => True
  end /\
  exists lm', locks_ok (lm_channel lm') /\
    forall k d, ss !! k = Some d -> client_lmac k d = lm' /\ interface_sound d.
Proof.
  intros Hi Hlen Hl Hr Hc Hnew Hacts Hnum Hrun Hj.
  pose proof (new_interfaces_ok i s lm awdls _ m ra bssid base_mac Hi Hlen Hl Hr Hc Hnew Hacts Hnum) as Hok.
  apply (compose_safe _ acts [(j, x)] ss) in Hok as Hss; [|done].
  pose proof (sy_clients _ _ Hss j c Hj) as Hcj. rewrite actions_of_own in Hcj.
  split.
  - pose proof (client_safe j _ x c Hcj) as Hsafe.
    destruct (client_step j c x) as [[c'|]|] eqn:Hs; [|done..]. by eapply system_progress.
  - exists (client_lmac j c). split; [by eapply client_locks|]. intros k d Hk.
    split; [by apply (sy_shared _ _ Hss)|]. eapply sound_interface. by apply (sy_clients _ _ Hss).
Qed.

(** ** What holds of an interface holds of it in the system *)

(** The actions of AWDL itself. *)
Definition awdl_own (acts : list awdl_action) : list awdl_action :=
  omap (fun act => match act with AMac _ => None | _ => Some act end) acts.

Lemma awdl_own_step k a act :
  client_step k (inr a : Interface) (inr act : action) =
    match act with
    | AMac _ => None
    | _ =>
        match awdl_step TU k a act with
        | Some (Done (a, _)) => Some (Done (inr a : Interface))
        | Some Panic => Some Panic
        | None => None
        end
    end.
Proof. destruct act; try done; cbn [client_step sum_client local_awdl awdl_client]; by destruct (awdl_step TU k a _) as [[[a1 o1]|]|]. Qed.

Lemma awdl_runs_alone k a xs (c : Interface) :
  client_run k (inr a : Interface) xs = Some (Done c) ->
  exists a' acts os, c = inr a' /\ run (awdl_step TU k) a acts = Some (Done (a', os)) /\
    awdl_own acts = rights (omap (fun x => match x with inl x => Some x | inr _ => None end) xs).
Proof.
  revert a. induction xs as [|[[x|act]|o] xs IH]; intros a; cbn [client_run]; [|done|..].
  - intros [= <-]. by exists a, [], [].
  - rewrite awdl_own_step. destruct (match act with AMac _ => true | _ => false end) eqn:Hm; [by destruct act|].
    destruct (awdl_step TU k a act) as [[[a1 o]|]|] eqn:Hs; [|by destruct act..].
    intros Hx. assert (client_run k (inr a1 : Interface) xs = Some (Done c)) as Hx1 by by destruct act.
    destruct (IH a1 Hx1) as (a' & acts & os & -> & Hr & Ho).
    exists a', (act :: acts), (o :: os). split; [done|]. split; [apply run_cons; by eexists _, _, _|].
    destruct act; try done; exact (f_equal (cons _) Ho).
  - cbn [client_mac sum_client local_awdl awdl_client].
    destruct (mac_step k (awdl_lmac a) o) as [lm|] eqn:Hm; [|done]. cbn [mbind outcome_bind mret outcome_ret].
    intros Hx. destruct (IH _ Hx) as (a' & acts & os & -> & Hr & Ho).
    exists a', (AMac o :: acts), (AONone :: os). split; [done|]. split; [|done].
    apply run_cons. eexists _, _, _. split; [|by split]. cbn [awdl_step]. unfold step_to. by rewrite Hm.
Qed.

Lemma station_runs_alone k t xs (c : Interface) :
  client_run k (inl t : Interface) xs = Some (Done c) ->
  exists t' acts os, c = inl t' /\
    run (scan_system_step k RX_QUEUE_DEPTH NET_TX_BUFFERS) (task_origin t) acts = Some (Done (task_origin t', os)).
Proof.
  revert t. induction xs as [|[[x|act]|o] xs IH]; intros t; simpl; [|..|done|].
  - intros [= <-]. by exists t, [], [].
  - destruct (station_step k _ _ t x) as [[[t1 o]|]|] eqn:Hs; simpl; [|done..].
    intros Hx. destruct (IH t1 Hx) as (t' & acts & os & -> & Hr). apply station_step_big in Hs as (acts1 & os1 & Hr1).
    exists t', (acts1 ++ acts), (os1 ++ os). split; [done|]. apply run_app. by eexists _, _, _.
  - destruct (station_mac k _ _ t o) as [t1|] eqn:Hs; simpl; [|done].
    intros Hx. destruct (IH t1 Hx) as (t' & acts & os & -> & Hr). apply station_mac_big in Hs as (acts1 & os1 & Hr1).
    exists t', (acts1 ++ acts), (os1 ++ os). split; [done|]. apply run_app. by eexists _, _, _.
Qed.

(** C6 Every interface of a system runs as by itself: what an AWDL interface goes through is a
    run of its machine, of its own actions in their order with actions of others on the
    lower MAC in between, and what a station goes through, up to the call that waits, is a
    run of its machine in which every call is one step.  So the theorems about runs
    of either machine hold of it among the others. *)
Theorem interfaces_run_alone ss acts ss' k :
  system_run ss acts ss' ->
  (forall a, ss !! k = Some (inr a) -> exists a' alone os, ss' !! k = Some (inr a') /\
     run (awdl_step TU k) a alone = Some (Done (a', os)) /\
     awdl_own alone = rights (actions_of k acts)) /\
  (forall s, ss !! k = Some (inl (TkReady s)) -> exists t alone os, ss' !! k = Some (inl t) /\
     run (scan_system_step k RX_QUEUE_DEPTH NET_TX_BUFFERS) s alone = Some (Done (task_origin t, os))).
Proof.
  intros Hr. split.
  - intros a Ha. destruct (system_run_alone _ _ _ _ _ Hr Ha) as (xs & c & Hc & Hx & Hown & _).
    destruct (awdl_runs_alone k a xs c Hx) as (a' & alone & os & -> & Hrun & Ho).
    exists a', alone, os. by rewrite <- Hown.
  - intros s Hs. destruct (system_run_alone _ _ _ _ _ Hr Hs) as (xs & c & Hc & Hx & _).
    destruct (station_runs_alone k (TkReady s) xs c Hx) as (t & alone & os & -> & Hrun). by exists t, alone, os.
Qed.
End Interfaces.

(** ** Witnesses *)

(** The station is interface 0, AWDL the others.  AWDL of interface 1 starts on channel 6,
    the station scans, and interface 1 rejects its request. *)
Notation DemoInterface :=
  (StaTask (Sg := option) (Ch := list_chan) (W := option) (Q := list_packets) + DemoAwdl)%type.
Notation demo_action := (station_action + awdl_action)%type.

#[local] Instance demo_station : MacClient (StaTask (Sg := option) (Ch := list_chan) (W := option) (Q := list_packets)) station_action :=
  station_client 4 4.
#[local] Instance demo_awdl_client : MacClient DemoAwdl awdl_action := awdl_client 1024.

Definition demo_interfaces : list DemoInterface :=
  new_interfaces 0 demo_new (lmac_new radio_off) (replicate 4 (4, demo_mac)).

Definition demo_waits : list wait_slot := [Some (Ok tt); None; Some (Ok tt); Some (Ok tt)].
Definition demo_steps : list (nat * demo_action * list mac_action) :=
  [(1, inr AStart, [OLock 1 6]); (1, inr (APollState 1000), []);
   (0, inl (XScan (CScan demo_two_channels 4 ∅)), [OBegin; OPollBegin 0 demo_waits]);
   (1, inr AOffChannelRequest, [OReject 1]);
   (0, inl (XScanEvent (EvOwn SWake)), [OPollBegin 0 demo_waits])].
Definition demo_system : list DemoInterface := default [] (system_exec demo_interfaces demo_steps).

Lemma demo_steps_explained : explained demo_interfaces demo_steps.
Proof. vm_compute. repeat split. Qed.

(** Before the last step, when the scan waits for the answer. *)
Definition demo_before : list DemoInterface := default [] (system_exec demo_interfaces (take 4 demo_steps)).
Notation demo_step := (0, inl (XScanEvent (EvOwn SWake))).

Lemma demo_enough : enough_numbers 4 4 (fst <$> demo_steps).
Proof. intros [|[|j]]; split; vm_compute; discriminate. Qed.

Lemma demo_actions_ok : Forall interface_action_ok (fst <$> demo_steps).
Proof. repeat constructor. Qed.

Lemma demo_interfaces_ok : system_ok (fst <$> demo_steps) demo_interfaces.
Proof.
  apply (new_interfaces_ok 1024 4 4 4 0 demo_new (lmac_new radio_off) (replicate 4 (4, demo_mac)) (fst <$> demo_steps)
    demo_manager None None demo_own); try done; [exact wifi_interface|exact demo_actions_ok|exact demo_enough].
Qed.

Lemma demo_before_runs : system_run demo_interfaces (fst <$> take 4 demo_steps) demo_before.
Proof.
  apply (system_exec_run _ _ _ [demo_step]); [exact demo_interfaces_ok| |].
  - vm_compute. repeat split.
  - vm_compute. reflexivity.
Qed.

(** The scan waits, and with the answer it fails. *)
Definition demo_waiting : StaTask (Sg := option) (Ch := list_chan) (W := option) (Q := list_packets) :=
  match demo_before !! 0 with Some (inl t) => t | _ => TkReady demo_new end.

Lemma demo_scan_rejected : exists s,
  demo_before !! 0 = Some (inl demo_waiting) /\
  station_step 0 4 4 demo_waiting (XScanEvent (EvOwn SWake)) =
    Some (Done (TkReady s, Some (ZOScan (Some (Err (LMacFailure OffChannelRequestRejected))) ∅ []))).
Proof. eexists. split; vm_compute; reflexivity. Qed.

Lemma interfaces_stay_in_order_witness : exists ss',
  system_step demo_before demo_step ss' /\ exists s,
  station_step 0 4 4 demo_waiting (XScanEvent (EvOwn SWake)) =
    Some (Done (TkReady s, Some (ZOScan (Some (Err (LMacFailure OffChannelRequestRejected))) ∅ []))).
Proof.
  destruct demo_scan_rejected as (s & Hw & Hs).
  destruct (interfaces_stay_in_order 1024 4 4 4 0 demo_manager (lmac_new radio_off) None None demo_own demo_new
    (replicate 4 (4, demo_mac)) (fst <$> take 4 demo_steps) 0 (inl (XScanEvent (EvOwn SWake))) demo_before
    (inl demo_waiting)) as [Hstep _];
    [exact wifi_interface|reflexivity|exact I|reflexivity|reflexivity|reflexivity|exact demo_actions_ok
    |exact demo_enough|exact demo_before_runs|exact Hw|].
  cbn [client_step sum_client local_station station_client] in Hstep. rewrite Hs in Hstep. destruct Hstep as [ss' Hss']. exists ss'. split; [exact Hss'|by exists s].
Defined.

(** AWDL's part of the run is the same run as by itself. *)
Lemma interfaces_run_alone_witness : exists (a' : DemoAwdl) alone os,
  demo_before !! 1 = Some (inr a') /\
  run (awdl_step 1024 1) (new_awdl_interface 4 (lmac_new radio_off) demo_mac) alone = Some (Done (a', os)) /\
  awdl_own alone = [AStart; APollState 1000; AOffChannelRequest].
Proof.
  destruct (interfaces_run_alone 1024 4 4 demo_interfaces (fst <$> take 4 demo_steps) demo_before 1 demo_before_runs)
    as [Ha _].
  destruct (Ha _ eq_refl) as (a' & alone & os & Hb & Hr & Ho). exists a', alone, os. split; [exact Hb|].
  split; [exact Hr|exact Ho].
Defined.

(** AWDL of interface 1 in a session, before and after interface 0 asks. *)
Definition demo_session : DemoAwdl :=
  match default [] (system_exec demo_interfaces (take 2 demo_steps)) !! 1 with
  | Some (inr a) => a
  | _ => demo_awdl
  end.
Definition demo_asked : DemoAwdl :=
  match mac_step 1 (awdl_lmac demo_session) OBegin with
  | Done lm => set_awdl_lmac demo_session lm
  | Panic => demo_session
  end.

Lemma demo_begin : begin_start (awdl_lmac demo_session) =
  Ok ([false; true; false; false], demo_waits, awdl_lmac demo_asked).
Proof. vm_compute. reflexivity. Qed.

Lemma awdl_rejects_off_channel_witness : exists a',
  awdl_step 1024 1 demo_asked AOffChannelRequest = Some (Done (a', AORejected)) /\
  forall op, PollReady (Ok op) ∉ begin_polls 0 demo_waits (replicate 3 (awdl_lmac a')).
Proof.
  destruct (awdl_rejects_off_channel 1024 (awdl_lmac demo_session) 0 1 [false; true; false; false] demo_waits
    demo_asked demo_mac) as (_ & a' & Hs & Hp).
  - vm_compute. split; [reflexivity|]. right. left.
  - reflexivity.
  - exact demo_begin.
  - eexists _, _. split; vm_compute; reflexivity.
  - vm_compute. reflexivity.
  - exists a'. split; [exact Hs|]. intros op Hin. exact (Hp (replicate 2 (awdl_lmac a')) _ Hin op eq_refl).
Defined.
